(* ===== verification/_CoqProject ===== *)
-Q . S2P
Prelude.v
Bytes.v
AckParser.v
RetryPolicy.v
HandUart.v
HandBridgeNode.v
HandBridgeScenarios.v
HandBridgeFacts.v
HandBridgeStop.v
ProtocolParser.v
SerialFrame.v
SerialStream.v
SerialLink.v
ReliableProtocol.v
LogManager.v
WorkQueue.v
QueueClients.v
GatewayPipeline.v
GatewayTimeout.v
AtomicHandoff.v
RawResources.v
CText.v
SensorParser.v
CEffects.v
DataSource.v
SerialSource.v
CLogs.v
MqttClient.v
SensorGateway.v
SensorGatewayFacts.v
RingBuffer.v
FrameParser.v
EchoServer.v
HandBridgeLoop.v
DemoPrograms.v
SmartPointers.v
ProgramMains.v
