(* ===== verification/Prelude.v ===== *)
(** * linux-iot-gateway: a verification library

    The repository [linux-iot-gateway] connects a microcontroller behind a serial
    line.  At its top is a gateway in C that reads sensor lines and publishes them
    over MQTT; a ROS 2 node, [ros2_ws/src/hand_bridge], drives a robotic hand; and
    a family of programs under [cpp_modules], [practice] and [examples] builds and
    combines the parts of a gateway (parser, frame codec, logger, queues,
    time-outs).  This library models that code, all paths being relative to
    [src/], and proves what it promises.

    ** The parts and their files

    The hand bridge.  A command arrives on a topic, gets a sequence number and a
    request record, and its frame is queued; a transmitting thread writes the
    queue to the port; a receiving thread assembles lines and feeds the
    acknowledgements to the request table; a retry thread polls the table for
    expired requests and queues their frames again.
    - [AckParser]: [ack_parser.hpp], [ack_parser.cpp], one definition for each
      stage of [parse_ack], with the 32-bit overflow guard.
    - [RetryPolicy]: [retry_policy.hpp].  The [std::map] of requests is a
      [gmap Z Request]; every member function is a definition from tables to
      tables; [lc_step] is the life cycle of one request.
    - [HandUart]: [open_uart], [write_uart] and the line assembly of
      [uart_rx_worker] in [hand_bridge_node.cpp], given what the system calls
      return.
    - [HandBridgeNode]: the node, as a record of its fields and the program
      counters of its four threads; [step] performs one critical section of one
      thread, one notification of [queue_cv_] or one wake-up.  [HandBridgeScenarios] runs it on documented schedules;
      [HandBridgeFacts] and [HandBridgeStop] hold its theorems.
    - [HandBridgeLoop]: the node and a device at the two ends of the line, the
      device being known by the interface [HonestDevice]; [mock_stm32.py], the
      script that plays it, is an instance.

    The sensor gateway in C.  [main] polls a data source for a line, parses it,
    prints it as JSON, appends that to a log file and hands it to the broker,
    until a signal handler clears [g_running].
    - [CText]: [sscanf], [snprintf] and C strings in fixed arrays, as far as the
      sources use them; [CEffects]: the actions of the C programs on the system,
      and the automaton that a file is opened, written and closed by.
    - [SensorParser]: [sensor_parser.c].
    - [DataSource]: the interface of [data_source.h] with the contract [main]
      relies on ([DataSourceLaws]), and its first implementation, the canned
      lines; [SerialSource]: the second, the serial port.  The preprocessor picks
      one; the theorems about [main] hold for both.
    - [CLogs]: [app_log.c], [log_writer.c]; [MqttClient]: [mqtt_client.c].
    - [SensorGateway]: [main.c], its steps and the signal as events;
      [SensorGatewayFacts]: its theorems.

    The binary protocols.
    - [Bytes]: checksums and 16-bit fields.
    - [SerialFrame], [SerialStream], [SerialLink]: [serial_frame_demo], that is
      [FrameCodec], [StreamParser] and the program that joins them to the text
      parser.
    - [ReliableProtocol]: [reliable_serial_demo], the request and
      acknowledgement codec and the device that executes a number once.

    The gateway programs.
    - [ProtocolParser]: [protocol_parser] and its rewrite of day 28.
    - [LogManager]: [log_manager], [thread_safe_log_demo], [integration_demo].
    - [WorkQueue]: the queue with its condition variable that five programs
      share, against the interface [Worker]; [QueueClients] instantiates it for
      [thread_safe_queue.cpp], [producer_consumer_demo] and day 28,
      [GatewayPipeline] for [gateway_ack_demo] and [gateway_pipeline_demo].
    - [GatewayTimeout]: [gateway_timeout_demo].
    - [AtomicHandoff]: [thread_demo].
    - [RawResources]: [scoped_fd.cpp] and the class of [move_semantics_demo];
      [SmartPointers]: [smart_pointer_demo], statements on named pointers.
    - [DemoPrograms]: what the other programs print: the tables of
      [protocol_parser/demo], [lambda_algorithm_demo] and [log_manager/demo], the
      results of [thread_safe_log_demo] and [gateway_pipeline_demo];
      [ProgramMains]: the [main] functions around the components above.

    Exercises in C: [RingBuffer] ([practice/day02/ring_buffer.c]), [FrameParser]
    ([practice/day01/protocol_parser.c]) and [EchoServer]
    ([examples/day04_tcp_echo_server.c]).

    ** How the code is represented

    A string is the list of its characters, a [uint8_t], [uint16_t], [uint32_t]
    or [size_t] counter an integer reduced modulo its width where the code
    computes it, an [int] counter one reduced to two's complement ([i32]), so that
    the theorems about totals say for how many events they hold; an output
    parameter with a flag is an [option].  A thread is an automaton whose
    transitions are what the code does without releasing a lock, or one access to
    an atomic variable, one call of the logger, one line of output or one
    notification; programs with threads are judged in every interleaving.  A wait
    on a condition variable is the test of its predicate under the mutex and, when
    that fails, a sleeping state, which only a notification, a spurious wake-up or
    the end of a [wait_for] leaves; a notification that finds nobody asleep is
    lost.  What comes
    from outside (results of system calls, clock readings, received bytes) is
    part of the event that consumes it.

    ** What is proved

    - End to end: a status service that reports success is right, the device has
      received the frame of that very command in one piece
      ([success_means_received]), whatever was lost, repeated or cut on the way.
    - The sensor gateway, over any data source that keeps its contract and any
      schedule of signals: what is logged and published are the accepted readings
      in order, and failures to open the log count what is missing
      ([readings_accounted]); no buffer is overrun, [libmosquitto] is used
      according to its life cycle, the log files are closed after every step and
      no descriptor leaks at any exit ([gateway_resources]); a signal ends the program in at most 14 steps
      ([signal_stops_gateway]).  [serial_read_exact] says which bytes make a line,
      [parse_sensor_data_exact] which lines are readings, and
      [accepted_json_round_trip] that the JSON text fits and reads back.
    - Safety of the node: a queued STOP is the next frame written
      ([stop_goes_first]); after a STOP no earlier command is written
      ([stop_silences_earlier_commands]); at most three transmissions of a frame
      ([node_at_most_three_transmissions]); the port only carries frames of
      registered requests; the status service is truthful; no accepted command
      is lost.
    - Termination and liveness: the destructor completes, its notification waking
      the transmitting thread if that sleeps; the activity of a request is bounded
      and an unanswered one is given up; [write_uart] returns; neither the node,
      nor the monitor, nor the gateway with time-outs loses a wake-up, and none
      is ever stuck or in need of a spurious one.
    - Exactness of parsers and codecs: [parse_ack], [parse], [decode] accept
      exactly their grammars; a corrupted byte is always detected; the stream
      parser loses nothing, invents nothing and does not depend on how the
      stream is cut.  [typed_commands_arrive] composes parser, codec and stream.
    - Refinement: the node drives its table only through the operations of the
      policy ([HandBridgeFacts.trans_refines]); the monitor is the class
      [ThreadSafeQueue] step by step ([QueueClients.monitor_refines_class]) and
      its result is that of a sequential loop ([pipe_exactly_once]); the receive
      loop is a line splitter ([rx_feed_reference]); the log cache is a sliding
      window.
    - Accounting: counters, responses and log statistics of the gateways are the
      true totals under every schedule.
    - Defects: [retried_stop_waits_behind_commands], [stop_at_wrap_around],
      [device_never_refuses], [handoff_loses_sample], [time_out_truncates] and
      [identifier_injects_members] state precisely what six places of the code do
      contrary to what they mean to do.
    - The small programs: the ring buffer is a queue of seven bytes; the byte-wise
      parser keeps its variables in range and follows the grammar of its stream;
      the echo server echoes what the client sent, asks [recv] for no more than
      its buffer holds, survives [SIGPIPE] and closes its sockets; use counts
      count the owners.

    ** Bounds and fuel

    [extractFrames] runs with one more turn than there are bytes in the buffer,
    and every turn that goes on erases a byte ([extractFrames_total]); the
    decimal printer has one step per bit of the number, which is at least one
    per digit ([dec_value_to_string]).  Loops over results of system calls
    recurse on the list of results; [write_uart_terminates] says how many are
    needed.  [data_source_read] and the device script recurse on the bytes that
    arrive, [echo_loop] on the calls of [recv]; running out of them is the state of a blocked call, never a
    result.  A C array keeps its length, and an access outside it makes the
    definition return [None] or [OutOfBounds], which is proved not to happen.
    Time is an unbounded count of nanoseconds.

    ** What is not modelled

    ROS parameters, ROS logging and the start-up of the node; the exercises and
    the unit tests under [test], each a program of its own; build files and
    notes.  The termios functions, [libmosquitto], the clock and what [sscanf]
    stores for a number that no [int] represents are parameters.  In the C
    programs [printf], [perror], [fprintf] and [fclose] are effects that do not
    fail, and a line that is printed to a stream is written whole.  [recv] is
    taken to hand over the bytes of the connection in order and at most as many
    as it is given room for.
    [std::queue], [std::map], [std::mutex], [std::condition_variable] and atomics
    are given their standard meaning, atomics being sequentially consistent as
    the code uses the default order; memory allocation does not fail. *)

From Stdlib Require Import ZArith Lia Ascii String Sorting.Sorted.
From stdpp Require Export base tactics list gmap strings sorting.

(** ** Scope, hint database, tactics *)

Declare Scope gateway_scope.
Delimit Scope gateway_scope with gw.
Create HintDb gateway.
Create Rewrite HintDb gateway.

#[global] Open Scope Z_scope.

(** [by_cases] splits every boolean test and [decide] of the goal and the
    hypotheses, and closes the cases that contradict each other. *)
Ltac by_cases :=
  repeat (case_decide || case_match; simplify_eq/=); try done.

(** [reflect_bools] turns the boolean comparisons of the hypotheses into
    propositions over [Z]. *)
Ltac reflect_bools :=
  repeat match goal with
  | H : _ && _ = true |- _ => apply andb_prop in H as [? ?]
  | H : _ || _ = false |- _ => apply orb_false_elim in H as [? ?]
  | H : negb _ = true |- _ => apply negb_true_iff in H
  | H : negb _ = false |- _ => apply negb_false_iff in H
  | H : (_ <? _) = true |- _ => apply Z.ltb_lt in H
  | H : (_ <? _) = false |- _ => apply Z.ltb_ge in H
  | H : (_ <=? _) = true |- _ => apply Z.leb_le in H
  | H : (_ <=? _) = false |- _ => apply Z.leb_gt in H
  | H : (_ =? _) = true |- _ => apply Z.eqb_eq in H
  | H : (_ =? _) = false |- _ => apply Z.eqb_neq in H
  | H : bool_decide _ = true |- _ => apply bool_decide_eq_true in H
  | H : bool_decide _ = false |- _ => apply bool_decide_eq_false in H
  end.

(** ** Text: [std::string] is the list of its characters *)

Abbreviation text := (list ascii).

(** A string literal of the source. *)
Definition txt (s : string) : text := list_ascii_of_string s.

Notation "'«' s '»'" := (txt s) (at level 0, s at level 200, only parsing) : gateway_scope.

Definition LF : ascii := "010"%char.
Definition CR : ascii := "013"%char.
Definition SP : ascii := " "%char.

(** The code of a character, 0..255. *)
Definition code (c : ascii) : Z := Z.of_N (N_of_ascii c).

Lemma code_range c : 0 <= code c < 256.
Proof. unfold code. pose proof (N_ascii_bounded c). lia. Qed.

Lemma code_inj a b : code a = code b -> a = b.
Proof.
  unfold code. intros H%N2Z.inj.
  by rewrite <- (ascii_N_embedding a), <- (ascii_N_embedding b), H.
Qed.

(** ** Machine integers *)

Definition UINT8_MAX : Z := 255.
Definition UINT16_MAX : Z := 65535.
Definition UINT32_MAX : Z := 4294967295.

(** Conversion to an unsigned type of the given width: reduction modulo 2^w. *)
Definition u8 (z : Z) : Z := z mod 256.
Definition u16 (z : Z) : Z := z mod 65536.
Definition u32 (z : Z) : Z := z mod 4294967296.
Definition u64 (z : Z) : Z := z mod 18446744073709551616.

(** An [int] of 32 bits, in two's complement: what the addition of the processor
    leaves when the sum is out of range. *)
Definition i32 (z : Z) : Z := (z + 2147483648) mod 4294967296 - 2147483648.

Lemma i32_id z : -2147483648 <= z < 2147483648 -> i32 z = z.
Proof. unfold i32. intros. rewrite Z.mod_small; lia. Qed.

Lemma i32_add z k : i32 (i32 z + k) = i32 (z + k).
Proof.
  unfold i32. f_equal.
  replace ((z + 2147483648) mod 4294967296 - 2147483648 + k + 2147483648)
    with ((z + 2147483648) mod 4294967296 + k) by lia.
  rewrite Zplus_mod_idemp_l. f_equal. lia.
Qed.

Lemma u8_range z : 0 <= u8 z <= UINT8_MAX.
Proof. unfold u8, UINT8_MAX. pose proof (Z.mod_pos_bound z 256). lia. Qed.
Lemma u16_range z : 0 <= u16 z <= UINT16_MAX.
Proof. unfold u16, UINT16_MAX. pose proof (Z.mod_pos_bound z 65536). lia. Qed.
Lemma u32_range z : 0 <= u32 z <= UINT32_MAX.
Proof. unfold u32, UINT32_MAX. pose proof (Z.mod_pos_bound z 4294967296). lia. Qed.

Lemma u8_id z : 0 <= z <= UINT8_MAX -> u8 z = z.
Proof. unfold u8, UINT8_MAX. intros. apply Z.mod_small. lia. Qed.
Lemma u16_id z : 0 <= z <= UINT16_MAX -> u16 z = z.
Proof. unfold u16, UINT16_MAX. intros. apply Z.mod_small. lia. Qed.
Lemma u32_id z : 0 <= z <= UINT32_MAX -> u32 z = z.
Proof. unfold u32, UINT32_MAX. intros. apply Z.mod_small. lia. Qed.

#[export] Hint Resolve u8_range u16_range u32_range code_range : gateway.
#[export] Hint Rewrite u8_id u16_id u32_id using (unfold UINT8_MAX, UINT16_MAX, UINT32_MAX in *; lia) : gateway.

(** ** Decimal text: [std::to_string] of a non-negative integer *)

Definition is_digit (c : ascii) : bool := (48 <=? code c) && (code c <=? 57).

(** [c - '0']. *)
Definition digit_value (c : ascii) : Z := code c - 48.

Definition digit_char (d : Z) : ascii := ascii_of_N (Z.to_N (48 + d)).

(** The digits of [n], least significant one last; the fuel bounds their
    number. *)
Fixpoint dec_loop (fuel : nat) (n : Z) (acc : text) : text :=
  match fuel with
  | O => acc
  | S fuel' =>
      let acc' := digit_char (n mod 10) :: acc in
      if n <? 10 then acc' else dec_loop fuel' (n / 10) acc'
  end.

Definition to_string (n : Z) : text :=
  dec_loop (S (Z.to_nat (Z.log2 n))) n [].

(** The value of a run of digits read after a prefix of value [a]. *)
Definition dec_from (a : Z) (ds : text) : Z :=
  foldl (fun a c => a * 10 + digit_value c) a ds.

Abbreviation dec_value := (dec_from 0).

Lemma digit_char_value d : 0 <= d < 10 -> digit_value (digit_char d) = d.
Proof.
  intros Hd. unfold digit_value, code, digit_char.
  rewrite N_ascii_embedding by lia. lia.
Qed.

Lemma digit_char_is_digit d : 0 <= d < 10 -> is_digit (digit_char d) = true.
Proof.
  intros Hd. unfold is_digit, code, digit_char.
  rewrite N_ascii_embedding by lia.
  apply andb_true_intro; split; apply Z.leb_le; lia.
Qed.

Lemma is_digit_value c : is_digit c = true -> 0 <= digit_value c <= 9.
Proof. unfold is_digit, digit_value. intros. reflect_bools. lia. Qed.

Lemma dec_from_mono a b ds : a <= b -> dec_from a ds <= dec_from b ds.
Proof.
  revert a b; induction ds as [|c ds IH]; intros a b H; simpl; [done|].
  apply IH. lia.
Qed.

Lemma dec_from_lower a ds :
  0 <= a -> Forall (fun c => is_digit c = true) ds -> a <= dec_from a ds.
Proof.
  intros Ha Hds. revert a Ha. induction Hds as [|c ds Hc _ IH]; intros a Ha; simpl; [lia|].
  apply is_digit_value in Hc. etrans; [|apply IH; lia]. lia.
Qed.

Lemma dec_loop_from fuel n acc :
  0 <= n < 2 ^ Z.of_nat fuel -> dec_value (dec_loop fuel n acc) = dec_from n acc.
Proof.
  revert n acc. induction fuel as [|fuel IH]; intros n acc Hn; simpl dec_loop.
  { replace n with 0 by (simpl in Hn; lia). done. }
  pose proof (Z.mod_pos_bound n 10 ltac:(lia)) as Hm.
  pose proof (Z.div_mod n 10 ltac:(lia)) as Hdm.
  destruct (n <? 10) eqn:E; reflect_bools.
  - simpl. rewrite digit_char_value by lia. f_equal. rewrite Z.mod_small; lia.
  - rewrite IH.
    + simpl. rewrite digit_char_value by lia. f_equal. lia.
    + rewrite Nat2Z.inj_succ, Z.pow_succ_r in Hn by lia.
      split; [lia|]. apply Z.div_lt_upper_bound; lia.
Qed.

Lemma dec_loop_digits fuel n acc :
  Forall (fun c => is_digit c = true) acc ->
  Forall (fun c => is_digit c = true) (dec_loop fuel n acc).
Proof.
  revert n acc. induction fuel as [|fuel IH]; intros n acc Hacc; simpl; [done|].
  assert (Forall (fun c => is_digit c = true) (digit_char (n mod 10) :: acc)).
  { constructor; [|done]. apply digit_char_is_digit, Z.mod_pos_bound. lia. }
  case_match; auto.
Qed.

Lemma dec_loop_cons fuel n acc : dec_loop fuel n acc <> [] \/ (fuel = O /\ acc = []).
Proof.
  revert n acc. induction fuel as [|fuel IH]; intros n acc; simpl.
  { destruct acc; auto. }
  left. case_match; [done|]. by destruct (IH (n / 10) (digit_char (n mod 10) :: acc)) as [|[??]].
Qed.

Lemma dec_value_to_string n : 0 <= n -> dec_value (to_string n) = n.
Proof.
  intros Hn. unfold to_string. rewrite dec_loop_from; [done|].
  rewrite Nat2Z.inj_succ, Z2Nat.id by apply Z.log2_nonneg.
  destruct (decide (n = 0)) as [->|]; [done|].
  pose proof (Z.log2_spec n ltac:(lia)). lia.
Qed.

Lemma to_string_digits n : Forall (fun c => is_digit c = true) (to_string n).
Proof. by apply dec_loop_digits. Qed.

Lemma to_string_cons n : to_string n <> [].
Proof. by destruct (dec_loop_cons (S (Z.to_nat (Z.log2 n))) n []) as [|[??]]. Qed.

Lemma to_string_inj n m : 0 <= n -> 0 <= m -> to_string n = to_string m -> n = m.
Proof.
  intros Hn Hm H. rewrite <- (dec_value_to_string n), <- (dec_value_to_string m) by done.
  by rewrite H.
Qed.

#[export] Hint Resolve to_string_digits to_string_cons : gateway.

(** ** [std::map] with integer keys

    The map is a [gmap]; a range-for over it visits the items in ascending
    key order, so a loop is a fold over [ordered_items]. *)

Definition key_le {V} (a b : Z * V) : Prop := a.1 <= b.1.
#[export] Instance key_le_dec {V} : RelDecision (@key_le V).
Proof. intros a b. unfold key_le. apply _. Defined.
#[export] Instance key_le_total {V} : Total (@key_le V).
Proof. intros a b. unfold key_le. lia. Qed.
#[export] Instance key_le_trans {V} : Transitive (@key_le V).
Proof. intros a b c. unfold key_le. lia. Qed.

Definition ordered_items {V} (m : gmap Z V) : list (Z * V) :=
  merge_sort key_le (map_to_list m).

(** [m.emplace(k, v)]: inserts only when [k] is absent and says whether it did. *)
Definition emplace {V} (k : Z) (v : V) (m : gmap Z V) : bool * gmap Z V :=
  match m !! k with
  | Some _ => (false, m)
  | None => (true, <[k := v]> m)
  end.

(** [for (auto &item : m) body(item.second)]: [body] may overwrite the value
    it visits and append to an output vector. *)
Definition for_each_item {V O} (body : V -> list O -> V * list O)
    (m : gmap Z V) (out : list O) : gmap Z V * list O :=
  foldl (fun st kv =>
           let '(m, out) := st in
           let '(v', out') := body kv.2 out in
           (<[kv.1 := v']> m, out'))
        (m, out) (ordered_items m).

Section ordered_items.
Context {V : Type}.
Implicit Types (m : gmap Z V).

Lemma elem_of_ordered_items m k v : (k, v) ∈ ordered_items m <-> m !! k = Some v.
Proof.
    unfold ordered_items. rewrite merge_sort_Permutation.
    apply elem_of_map_to_list.
Qed.

Lemma NoDup_ordered_keys m : NoDup (ordered_items m).*1.
Proof.
    unfold ordered_items. rewrite merge_sort_Permutation.
    apply NoDup_fst_map_to_list.
Qed.

Lemma ordered_items_sorted m : StronglySorted key_le (ordered_items m).
Proof. apply StronglySorted_merge_sort; apply _. Qed.

(** The keys come in strictly ascending order. *)
Lemma ordered_items_strict m : StronglySorted (fun a b => a.1 < b.1) (ordered_items m).
Proof.
  pose proof (ordered_items_sorted m) as Hs. pose proof (NoDup_ordered_keys m) as Hnd.
  induction Hs as [|a l Hs IH Ha]; constructor.
  - apply IH. rewrite fmap_cons in Hnd. by apply NoDup_cons in Hnd as [_ ?].
  - rewrite fmap_cons in Hnd. apply NoDup_cons in Hnd as [Hna _].
    rewrite Forall_forall in *. intros b Hb. specialize (Ha b Hb). unfold key_le in Ha.
    assert (a.1 <> b.1); [|lia]. intros Heq. apply Hna. rewrite Heq.
    by apply list_elem_of_fmap_2.
Qed.

End ordered_items.

Section for_each_item.
Context {V O : Type} (f : V -> V) (g : V -> list O).
Implicit Types (m : gmap Z V) (l : list (Z * V)).

Lemma foldl_insert_lookup_ne l m k :
    k ∉ l.*1 -> foldl (fun m kv => <[kv.1 := f kv.2]> m) m l !! k = m !! k.
Proof.
    revert m. induction l as [|[k' v'] l IH]; intros m Hk; simpl; [done|].
    rewrite fmap_cons in Hk. apply not_elem_of_cons in Hk as [? ?].
    rewrite IH by done. by apply lookup_insert_ne.
Qed.

Lemma foldl_insert_lookup l m k v :
    NoDup l.*1 -> (k, v) ∈ l ->
    foldl (fun m kv => <[kv.1 := f kv.2]> m) m l !! k = Some (f v).
Proof.
    revert m. induction l as [|[k' v'] l IH]; intros m Hnd Hin; simpl.
    { by apply not_elem_of_nil in Hin. }
    rewrite fmap_cons in Hnd. apply NoDup_cons in Hnd as [Hk' Hnd].
    apply elem_of_cons in Hin as [Heq|Hin]; [|by apply IH].
    simplify_eq. rewrite foldl_insert_lookup_ne by done. apply lookup_insert_eq.
Qed.

  (** A loop whose body computes the new value from the old one, and whose
      output depends on the value alone, is a pointwise update of the map
      with the outputs concatenated in key order. *)
Lemma for_each_item_spec body m out :
    (forall v o, body v o = (f v, o ++ g v)) ->
    for_each_item body m out
    = (f <$> m, out ++ (ordered_items m ≫= fun kv => g kv.2)).
Proof.
    intros Hbody. unfold for_each_item.
    assert (Hgen : forall l m0 o,
      foldl (fun st kv =>
               let '(m, out) := st in
               let '(v', out') := body kv.2 out in
               (<[kv.1 := v']> m, out')) (m0, o) l
      = (foldl (fun m kv => <[kv.1 := f kv.2]> m) m0 l, o ++ (l ≫= fun kv => g kv.2))).
    { induction l as [|[k v] l IH]; intros m0 o; simpl; [by rewrite app_nil_r|].
      rewrite Hbody, IH. by rewrite <- app_assoc. }
    rewrite Hgen. f_equal. apply map_eq. intros k. rewrite lookup_fmap.
    destruct (m !! k) as [v|] eqn:E; simpl.
    - apply foldl_insert_lookup; [apply NoDup_ordered_keys|].
      by apply elem_of_ordered_items.
    - rewrite foldl_insert_lookup_ne; [done|].
      intros ([k' v'] & ? & Hin)%list_elem_of_fmap; simplify_eq/=.
      apply elem_of_ordered_items in Hin. congruence.
Qed.
End for_each_item.

(** Selecting some items of a sorted list and mapping them keeps the order. *)
Lemma StronglySorted_select {A B} (R : A -> A -> Prop) (S : B -> B -> Prop)
    (p : A -> bool) (h : A -> B) (l : list A) :
  (forall a b, a ∈ l -> b ∈ l -> R a b -> S (h a) (h b)) ->
  StronglySorted R l ->
  StronglySorted S (l ≫= fun a => if p a then [h a] else []).
Proof.
  intros HRS Hl. induction Hl as [|a l Hl IH Ha]; simpl; [constructor|].
  assert (StronglySorted S (l ≫= fun a => if p a then [h a] else [])) as Hrest.
  { apply IH. intros. apply HRS; auto using list_elem_of_further. }
  destruct (p a); simpl; [|done]. constructor; [done|].
  apply Forall_forall. intros b (x & Hb & Hx)%list_elem_of_bind.
  destruct (p x); [|by apply not_elem_of_nil in Hb].
  apply list_elem_of_singleton in Hb as ->. rewrite Forall_forall in Ha.
  apply HRS; auto using list_elem_of_further, list_elem_of_here.
Qed.

(** ** Two threads that take turns

    [interleave a b c]: [c] runs the steps of [a] and those of [b], each in
    its own order. *)
Inductive interleave {A} : list A -> list A -> list A -> Prop :=
  | interleave_nil : interleave [] [] []
  | interleave_l x a b c : interleave a b c -> interleave (x :: a) b (x :: c)
  | interleave_r x a b c : interleave a b c -> interleave a (x :: b) (x :: c).

Lemma interleave_perm {A} (a b c : list A) : interleave a b c -> c ≡ₚ a ++ b.
Proof.
  induction 1 as [|x a b c _ IH|x a b c _ IH]; [done|by rewrite IH|].
  by rewrite IH, Permutation_middle.
Qed.

Lemma interleave_app_l {A} (xs a b c : list A) :
  interleave a b c -> interleave (xs ++ a) b (xs ++ c).
Proof. intros H. induction xs as [|x xs IH]; [done|]. by constructor. Qed.

Lemma interleave_app_r {A} (xs a b c : list A) :
  interleave a b c -> interleave a (xs ++ b) (xs ++ c).
Proof. intros H. induction xs as [|x xs IH]; [done|]. by constructor. Qed.

Lemma interleave_seq {A} (a b : list A) : interleave a b (a ++ b).
Proof.
  rewrite <- (app_nil_r a) at 1. apply interleave_app_l.
  induction b as [|x b IH]; by constructor.
Qed.

Lemma interleave_snoc_l {A} (x : A) (a b c : list A) :
  interleave a b c -> interleave (a ++ [x]) b (c ++ [x]).
Proof. induction 1; cbn; repeat constructor; done. Qed.

Lemma interleave_snoc_r {A} (x : A) (a b c : list A) :
  interleave a b c -> interleave a (b ++ [x]) (c ++ [x]).
Proof. induction 1; cbn; repeat constructor; done. Qed.

Lemma interleave_snocs_l {A} (xs a b c : list A) :
  interleave a b c -> interleave (a ++ xs) b (c ++ xs).
Proof.
  revert a c. induction xs as [|x xs IH]; intros a c H; [by rewrite !app_nil_r|].
  rewrite !(cons_middle x). rewrite !app_assoc. by apply IH, interleave_snoc_l.
Qed.

Lemma interleave_nil_l {A} (b c : list A) : interleave [] b c -> b = c.
Proof.
  remember [] as a eqn:Ha. induction 1 as [|x a b c _ IH|x a b c _ IH]; [done|done|].
  by rewrite IH.
Qed.

Lemma interleave_bind {A B} (f : A -> list B) (a b c : list A) :
  interleave a b c -> interleave (a ≫= f) (b ≫= f) (c ≫= f).
Proof.
  induction 1; cbn; [constructor|by apply interleave_app_l|by apply interleave_app_r].
Qed.

(** ** Enumerations with a printed name

    The components print their enumerations through a [toString] function;
    the interface is the function and the fact that two constructors never
    print alike, so the printed text identifies the value. *)
Class Named (A : Type) := name_of : A -> text.
Class NamedInj (A : Type) `{Named A} := name_of_inj :: Inj (=) (=) (@name_of A _).

(** A printed line of the form number, separator, name can be read back: the
    separator starts with something that is no digit. *)
Lemma digits_split (ds1 ds2 t1 t2 : text) c d :
  Forall (fun c => is_digit c = true) ds1 -> Forall (fun c => is_digit c = true) ds2 ->
  is_digit c = false -> is_digit d = false ->
  ds1 ++ c :: t1 = ds2 ++ d :: t2 -> ds1 = ds2 /\ c :: t1 = d :: t2.
Proof.
  intros H1 H2 Hc Hd. revert ds2 H2. induction H1 as [|x ds1 Hx _ IH]; intros ds2 H2 Heq.
  - destruct H2 as [|y ds2 Hy _]; [done|]. cbn in Heq. congruence.
  - destruct H2 as [|y ds2 Hy H2]; cbn in Heq; [congruence|].
    injection Heq as <- Heq. destruct (IH ds2 H2 Heq) as [-> ?]. done.
Qed.

Section numbered.
Context {A : Type} `{NamedInj A}.

Lemma numbered_name_inj n m sep (a b : A) :
  0 <= n -> 0 <= m ->
  match sep with [] => False | c :: _ => is_digit c = false end ->
  to_string n ++ sep ++ name_of a = to_string m ++ sep ++ name_of b -> n = m /\ a = b.
Proof.
  intros Hn Hm Hsep Heq. destruct sep as [|c sep]; [done|].
  apply digits_split in Heq as [Hnum Hname]; auto with gateway.
  split; [by apply to_string_inj|]. injection Hname as Hname. by apply app_inv_head, name_of_inj in Hname.
Qed.
End numbered.
