(* ===== verification/Bytes.v ===== *)
(** * Byte strings

    What the two binary protocols share: bytes as integers 0..255, the XOR
    checksum over an index range, and big-endian 16-bit fields.  A [uint8_t] is
    a [Z] and a [std::vector<uint8_t>] a list; [bytes_ok] says that the elements
    are in range, which the C++ type guarantees. *)

From S2P Require Import Prelude.

Definition byte_ok (b : Z) : Prop := 0 <= b <= UINT8_MAX.
Abbreviation bytes_ok bs := (Forall byte_ok bs).

#[export] Instance byte_ok_dec b : Decision (byte_ok b).
Proof. unfold byte_ok. apply _. Defined.

(** [for (index = begin; index < endExclusive; ++index) checksum ^= bytes[index];] *)
Definition calculateChecksum (bytes : list Z) (begin endExclusive : nat) : Z :=
  foldl (fun checksum index => Z.lxor checksum (bytes !!! index)) 0
    (seq begin (endExclusive - begin)).

(** [(v >> 8) & 0xFF] and [v & 0xFF], and back. *)
Definition high_byte (v : Z) : Z := u8 (Z.land (Z.shiftr v 8) 255).
Definition low_byte (v : Z) : Z := u8 (Z.land v 255).
Definition be16 (hi lo : Z) : Z := u16 (Z.lor (Z.shiftl hi 8) lo).

(** ** XOR of bytes *)

Lemma land_255 v : Z.land v 255 = v mod 256.
Proof. change 255 with (Z.ones 8). by rewrite Z.land_ones. Qed.

Lemma lxor_byte a b : byte_ok a -> byte_ok b -> byte_ok (Z.lxor a b).
Proof.
  unfold byte_ok, UINT8_MAX. intros Ha Hb.
  assert (forall x, 0 <= x <= 255 -> x = x mod 2 ^ 8) as Hm.
  { intros x Hx. rewrite Z.mod_small; lia. }
  assert (Z.lxor a b = Z.lxor a b mod 2 ^ 8) as ->.
  { rewrite <- Z.land_ones by lia. rewrite (Hm a), (Hm b) by done.
    rewrite <- !Z.land_ones by lia. apply Z.bits_inj'. intros n Hn.
    rewrite !Z.land_spec, !Z.lxor_spec, !Z.land_spec.
    destruct (Z.testbit a n), (Z.testbit b n), (Z.testbit (Z.ones 8) n); done. }
  pose proof (Z.mod_pos_bound (Z.lxor a b) (2 ^ 8)). lia.
Qed.

Lemma lxor_cancel_l a b c : Z.lxor a b = Z.lxor a c -> b = c.
Proof.
  intros H. apply (f_equal (Z.lxor a)) in H.
  by rewrite <- !Z.lxor_assoc, Z.lxor_nilpotent, !Z.lxor_0_l in H.
Qed.

Lemma lxor_cancel_r a b c : Z.lxor b a = Z.lxor c a -> b = c.
Proof. rewrite (Z.lxor_comm b), (Z.lxor_comm c). apply lxor_cancel_l. Qed.

(** ** 16-bit fields *)

Definition u16_ok (v : Z) : Prop := 0 <= v <= UINT16_MAX.

Lemma high_byte_ok v : byte_ok (high_byte v).
Proof. apply u8_range. Qed.
Lemma low_byte_ok v : byte_ok (low_byte v).
Proof. apply u8_range. Qed.
Lemma be16_ok hi lo : u16_ok (be16 hi lo).
Proof. apply u16_range. Qed.

Lemma be16_value hi lo : byte_ok hi -> byte_ok lo -> be16 hi lo = hi * 256 + lo.
Proof.
  unfold byte_ok, UINT8_MAX, be16. intros Hhi Hlo.
  rewrite Z.shiftl_mul_pow2 by lia. change (2 ^ 8) with 256.
  assert (Z.lor (hi * 256) lo = hi * 256 + lo) as ->.
  { symmetry. rewrite <- Z.lxor_lor, Z.add_nocarry_lxor; try done;
      apply Z.bits_inj'; intros n Hn; rewrite Z.land_spec, Z.bits_0;
      change 256 with (2 ^ 8); rewrite <- Z.shiftl_mul_pow2 by lia;
      rewrite Z.shiftl_spec by lia;
      (destruct (Z.ltb_spec n 8); [by rewrite Z.testbit_neg_r by lia|]);
      replace (Z.testbit lo n) with false; try (by rewrite andb_false_r);
      symmetry; destruct (decide (lo = 0)) as [->|]; [by rewrite Z.bits_0| |by rewrite Z.bits_0|];
      apply Z.bits_above_log2; [lia| |lia|]; apply (Z.lt_le_trans _ 8); try lia;
      apply Z.log2_lt_pow2; lia. }
  apply u16_id. unfold UINT16_MAX. lia.
Qed.

Lemma be16_split v : u16_ok v -> be16 (high_byte v) (low_byte v) = v.
Proof.
  unfold u16_ok, UINT16_MAX. intros Hv.
  rewrite be16_value by (apply high_byte_ok || apply low_byte_ok).
  unfold high_byte, low_byte, u8. rewrite !land_255, Z.shiftr_div_pow2 by lia.
  change (2 ^ 8) with 256. rewrite !Z.mod_mod by lia.
  rewrite (Z.mod_small (v / 256)).
  - pose proof (Z.div_mod v 256). lia.
  - split; [apply Z.div_pos; lia|apply Z.div_lt_upper_bound; lia].
Qed.

Lemma split_be16 hi lo :
  byte_ok hi -> byte_ok lo ->
  high_byte (be16 hi lo) = hi /\ low_byte (be16 hi lo) = lo.
Proof.
  intros Hhi Hlo. rewrite be16_value by done.
  unfold byte_ok, UINT8_MAX in *. unfold high_byte, low_byte, u8.
  rewrite !land_255, Z.shiftr_div_pow2 by lia. change (2 ^ 8) with 256.
  rewrite !Z.mod_mod, Z.div_add_l, (Z.div_small lo) by lia.
  rewrite Z.add_0_r, Z.mod_small by lia. split; [done|].
  rewrite Z.add_comm, Z.mod_add, Z.mod_small; lia.
Qed.

Lemma high_low_inj v w :
  u16_ok v -> u16_ok w -> high_byte v = high_byte w -> low_byte v = low_byte w -> v = w.
Proof. intros Hv Hw H1 H2. by rewrite <- (be16_split v), <- (be16_split w), H1, H2. Qed.

#[export] Hint Resolve high_byte_ok low_byte_ok be16_ok lxor_byte : gateway.
