(* ===== verification/AckParser.v ===== *)
(** * The acknowledgement parser of the hand bridge

    Models [ros2_ws/src/hand_bridge/include/hand_bridge/ack_parser.hpp] and
    [src/ack_parser.cpp]: the status enumeration, the line parser with its
    32-bit overflow guard, and the printer.  [parse_ack_spec] characterises the
    accepted lines completely; the round trip and the rejection of sequence
    numbers beyond 32 bits follow from it. *)

From Stdlib Require Import Ascii String.
From S2P Require Import Prelude.

Module AckStatus.
Inductive AckStatus :=
  | IN_PROGRESS
  | OK
  | PREEMPTED
  | BUSY
  | ERROR.
End AckStatus.
Abbreviation AckStatus := AckStatus.AckStatus.

#[export] Instance AckStatus_eq_dec : EqDecision AckStatus.
Proof. solve_decision. Defined.

(** ** Operations *)

Definition ack_status_to_string (status : AckStatus) : text :=
  match status with
  | AckStatus.IN_PROGRESS => txt "IN_PROGRESS"
  | AckStatus.OK => txt "OK"
  | AckStatus.PREEMPTED => txt "PREEMPTED"
  | AckStatus.BUSY => txt "BUSY"
  | AckStatus.ERROR => txt "ERROR"
  end.

(** Drops one trailing line feed and, only after it, one carriage return. *)
Definition strip_eol (line : text) : text :=
  if decide (last line = Some LF) then
    let t := removelast line in
    if decide (last t = Some CR) then removelast t else t
  else line.

(** The digit loop: [t] is [text] from [pos] on.  [None] is the overflow
    [return false]. *)
Fixpoint scan_seq (parsed_seq : Z) (has_digit : bool) (t : text)
    : option (Z * bool * text) :=
  match t with
  | c :: rest =>
      if is_digit c then
        let digit := u32 (digit_value c) in
        if (UINT32_MAX - digit) / 10 <? parsed_seq then None
        else scan_seq (u32 (parsed_seq * 10 + digit)) true rest
      else Some (parsed_seq, has_digit, t)
  | [] => Some (parsed_seq, has_digit, t)
  end.

(** The chain of comparisons on [status_text]. *)
Definition parse_status (status_text : text) : option AckStatus :=
  if decide (status_text = txt "IN_PROGRESS") then Some AckStatus.IN_PROGRESS
  else if decide (status_text = txt "OK") then Some AckStatus.OK
  else if decide (status_text = txt "PREEMPTED") then Some AckStatus.PREEMPTED
  else if decide (status_text = txt "BUSY") then Some AckStatus.BUSY
  else if decide (status_text = txt "ERROR") then Some AckStatus.ERROR
  else None.

(** [Some (seq, status)] is [return true] with the two output parameters
    set; [None] is [return false], which leaves them alone. *)
Definition parse_ack (line : text) : option (Z * AckStatus) :=
  let t := strip_eol line in
  if decide (take 4 t = txt "ACK:") then
    match scan_seq 0 false (drop 4 t) with
    | None => None
    | Some (parsed_seq, has_digit, rest) =>
        if negb has_digit then None
        else
          match rest with
          | c :: status_text =>
              if decide (c = SP) then
                match parse_status status_text with
                | Some parsed_status => Some (parsed_seq, parsed_status)
                | None => None
                end
              else None
          | [] => None
          end
    end
  else None.

(** The line the device sends, without its end-of-line characters. *)
Definition ack_line (seq : Z) (status : AckStatus) : text :=
  txt "ACK:" ++ to_string seq ++ SP :: ack_status_to_string status.

Example parse_ack_crlf :
  parse_ack (txt "ACK:0101 OK" ++ [CR; LF]) = Some (101, AckStatus.OK).
Proof. vm_compute. reflexivity. Qed.
Example parse_ack_max :
  parse_ack (txt "ACK:4294967295 BUSY") = Some (4294967295, AckStatus.BUSY).
Proof. vm_compute. reflexivity. Qed.
Example parse_ack_too_big : parse_ack (txt "ACK:4294967296 BUSY") = None.
Proof. vm_compute. reflexivity. Qed.
Example parse_ack_short : parse_ack (txt "ACK") = None.
Proof. vm_compute. reflexivity. Qed.

(** ** The printed names *)

#[export] Instance AckStatus_named : Named AckStatus := ack_status_to_string.
#[export] Instance AckStatus_named_inj : NamedInj AckStatus.
Proof. intros [] []; done. Qed.

Lemma parse_status_spec t st :
  parse_status t = Some st <-> t = ack_status_to_string st.
Proof.
  split.
  - intros H. unfold parse_status in H. by_cases.
  - intros ->. by destruct st.
Qed.

Lemma ack_status_last st :
  last (ack_status_to_string st) <> Some LF /\ last (ack_status_to_string st) <> Some CR.
Proof. by destruct st. Qed.

(** ** End of line *)

Definition eols : list text := [[]; [LF]; [CR; LF]].

Lemma removelast_last {A} (l : list A) x :
  last l = Some x -> l = removelast l ++ [x].
Proof.
  intros H. destruct l as [|y l] using rev_ind; [done|].
  rewrite last_snoc in H. simplify_eq. by rewrite removelast_last.
Qed.

Lemma strip_eol_split line : exists eol, eol ∈ eols /\ line = strip_eol line ++ eol.
Proof.
  unfold strip_eol, eols. case_decide as H1.
  - apply removelast_last in H1. case_decide as H2.
    + apply removelast_last in H2. exists [CR; LF]. split; [set_solver|].
      rewrite H1 at 1. rewrite H2 at 1. by rewrite <- app_assoc.
    + exists [LF]. split; [set_solver|done].
  - exists []. split; [set_solver|]. by rewrite app_nil_r.
Qed.

Lemma strip_eol_app t eol :
  eol ∈ eols -> last t <> Some LF -> last t <> Some CR -> strip_eol (t ++ eol) = t.
Proof.
  unfold eols, strip_eol. intros Heol Hlf Hcr.
  repeat (apply elem_of_cons in Heol as [->|Heol]); [..|by apply not_elem_of_nil in Heol].
  - rewrite app_nil_r. by case_decide.
  - rewrite last_snoc, decide_True by done.
    rewrite List.removelast_last. by case_decide.
  - change [CR; LF] with ([CR] ++ [LF]). rewrite app_assoc, last_snoc, decide_True by done.
    rewrite List.removelast_last, last_snoc, decide_True by done.
    apply List.removelast_last.
Qed.

(** ** The digit loop *)

Abbreviation digits ds := (Forall (fun c => is_digit c = true) ds).

(** The overflow guard is exact: it lets a digit through precisely when the
    longer number still fits. *)
Lemma overflow_guard a d :
  0 <= d <= 9 ->
  ((UINT32_MAX - u32 d) / 10 <? a) = (UINT32_MAX <? a * 10 + d).
Proof.
  intros Hd. rewrite u32_id by (unfold UINT32_MAX; lia).
  apply eq_bool_prop_intro. rewrite !Is_true_true, !Z.ltb_lt.
  unfold UINT32_MAX. pose proof (Z.div_mod (4294967295 - d) 10 ltac:(lia)) as Hdm.
  pose proof (Z.mod_pos_bound (4294967295 - d) 10 ltac:(lia)) as Hm.
  revert Hdm Hm. generalize ((4294967295 - d) / 10), ((4294967295 - d) mod 10). lia.
Qed.

Lemma scan_seq_sound a h t v h' r :
  0 <= a <= UINT32_MAX -> scan_seq a h t = Some (v, h', r) ->
  exists ds, t = ds ++ r /\ digits ds /\ v = dec_from a ds /\ v <= UINT32_MAX
             /\ (h' = true -> h = true \/ ds <> []).
Proof.
  revert a h. induction t as [|c t IH]; intros a h Ha; simpl.
  { intros; simplify_eq. exists []. repeat split; [constructor|lia|auto]. }
  destruct (is_digit c) eqn:Hc.
  2:{ intros; simplify_eq. exists []. repeat split; [constructor|lia|auto]. }
  pose proof (is_digit_value c Hc) as Hd. rewrite overflow_guard by lia.
  case_match eqn:E; [done|]. reflect_bools. intros H.
  rewrite (u32_id (digit_value c)), u32_id in H by (unfold UINT32_MAX in *; lia).
  apply IH in H as (ds & -> & ? & ? & ? & ?); [|lia].
  exists (c :: ds). repeat split; auto.
Qed.

Lemma scan_seq_complete a h ds r :
  0 <= a -> digits ds -> dec_from a ds <= UINT32_MAX ->
  (forall c r', r = c :: r' -> is_digit c = false) ->
  scan_seq a h (ds ++ r) = Some (dec_from a ds, h || bool_decide (ds <> []), r).
Proof.
  intros Ha Hds. revert a h Ha. induction Hds as [|c ds Hc Hds IH]; intros a h Ha Hmax Hr.
  - simpl. rewrite orb_false_r. destruct r as [|c r]; simpl; [done|]. by rewrite (Hr c r).
  - simpl in *. rewrite Hc. pose proof (is_digit_value c Hc) as Hd.
    rewrite overflow_guard by lia.
    pose proof (dec_from_lower (a * 10 + digit_value c) ds ltac:(lia) Hds).
    rewrite (proj2 (Z.ltb_ge _ _)) by lia.
    rewrite (u32_id (digit_value c)), u32_id by (unfold UINT32_MAX in *; lia).
    rewrite IH; [|lia|lia|done].
    by rewrite orb_true_r, orb_true_l.
Qed.

(** ** Properties *)

(** The accepted lines, both ways. *)
Lemma parse_ack_exact line seq status :
  parse_ack line = Some (seq, status) <->
  exists ds eol,
    line = txt "ACK:" ++ ds ++ SP :: ack_status_to_string status ++ eol
    /\ ds <> [] /\ digits ds /\ seq = dec_value ds /\ seq <= UINT32_MAX /\ eol ∈ eols.
Proof.
  split.
  - unfold parse_ack. destruct (strip_eol_split line) as (eol & Heol & Hline).
    revert Hline. generalize (strip_eol line) as t. intros t ->.
    case_decide as Hack; [|done].
    destruct (scan_seq 0 false (drop 4 t)) as [[[v h] r]|] eqn:Hscan; [|done].
    destruct h; simpl; [|done]. destruct r as [|c st]; [done|]. case_decide; [|done]. subst c.
    destruct (parse_status st) as [st'|] eqn:Hst; [|done]. intros; simplify_eq.
    apply parse_status_spec in Hst as ->.
    apply scan_seq_sound in Hscan as (ds & Hdrop & Hds & -> & Hmax & Hne);
      [|unfold UINT32_MAX; lia].
    exists ds, eol. repeat split; try done; [|by destruct (Hne eq_refl)].
    by rewrite <- (take_drop 4 t), Hack, Hdrop, <- !app_assoc.
  - intros (ds & eol & -> & Hne & Hds & -> & Hmax & Heol).
    assert (strip_eol (txt "ACK:" ++ ds ++ SP :: ack_status_to_string status ++ eol)
            = txt "ACK:" ++ ds ++ SP :: ack_status_to_string status) as Hstrip.
    { destruct (ack_status_last status) as [Hlf Hcr].
      assert (forall x, last (txt "ACK:" ++ ds ++ SP :: ack_status_to_string status) = Some x ->
                        last (ack_status_to_string status) = Some x) as Hlast.
      { intros x. rewrite app_assoc, last_app, last_cons. by destruct status. }
      transitivity (strip_eol ((txt "ACK:" ++ ds ++ SP :: ack_status_to_string status) ++ eol));
        [by rewrite <- !app_assoc|]. apply strip_eol_app; auto. }
    unfold parse_ack. rewrite Hstrip. clear Hstrip.
    rewrite decide_True by done. simpl drop. rewrite drop_0.
    rewrite scan_seq_complete; [|lia|done|done|].
    + rewrite bool_decide_eq_true_2 by done. simpl.
      by rewrite (proj2 (parse_status_spec _ _) eq_refl).
    + intros c r' Heq. by simplify_eq.
Qed.

(** C22: [parse_ack] accepts exactly the lines ["ACK:" digits " " status] ended by nothing, by a
    line feed or by a carriage return and a line feed, where the digits denote a number that
    fits 32 bits; it returns that number and that status, and rejects every other line. *)
Theorem parse_ack_spec line seq status :
  parse_ack line = Some (seq, status) <->
  exists ds eol,
    line = txt "ACK:" ++ ds ++ SP :: ack_status_to_string status ++ eol
    /\ ds <> [] /\ digits ds /\ seq = dec_value ds /\ seq <= UINT32_MAX /\ eol ∈ eols.
Proof. apply parse_ack_exact. Qed.

(** Every 32-bit sequence number and every status survive printing as an acknowledgement
    line and parsing back, whichever end of line the device appends. *)
Lemma parse_ack_roundtrip seq status eol :
  0 <= seq <= UINT32_MAX -> eol ∈ eols ->
  parse_ack (ack_line seq status ++ eol) = Some (seq, status).
Proof.
  intros Hseq Heol. apply parse_ack_exact. exists (to_string seq), eol.
  rewrite dec_value_to_string by lia. unfold ack_line.
  repeat split; auto with gateway; [|lia]. by rewrite <- !app_assoc.
Qed.

Lemma parse_ack_roundtrip_witness :
  parse_ack (ack_line 4294967295 AckStatus.PREEMPTED ++ [CR; LF])
  = Some (4294967295, AckStatus.PREEMPTED).
Proof.
  apply (parse_ack_roundtrip 4294967295 AckStatus.PREEMPTED [CR; LF]).
  - vm_compute. split; discriminate.
  - unfold eols. set_solver.
Defined.

(** A number that does not fit 32 bits is rejected, whatever follows it: the parser never
    returns a wrapped sequence number. *)
Lemma parse_ack_overflow ds rest :
  digits ds -> UINT32_MAX < dec_value ds ->
  parse_ack (txt "ACK:" ++ ds ++ SP :: rest) = None.
Proof.
  intros Hds Hbig. destruct (parse_ack _) as [[s st]|] eqn:E; [|done].
  apply parse_ack_exact in E as (ds' & eol & Heq & _ & Hds' & -> & Hmax & _).
  apply app_inv_head in Heq. exfalso.
  assert (ds = ds') as ->; [|lia].
  assert (forall (a b : text) r r', digits a -> digits b -> a ++ SP :: r = b ++ SP :: r' -> a = b)
    as Hspan; [|by eapply Hspan].
  clear. induction a as [|c a IH]; intros [|c' b] r r' Ha Hb Heq; simplify_eq/=; try done.
  - apply Forall_cons in Hb as [? _]. done.
  - apply Forall_cons in Ha as [? _]. done.
  - apply Forall_cons in Ha as [_ ?], Hb as [_ ?]. f_equal. eauto.
Qed.
