(* ===== verification/RetryPolicy.v ===== *)
(** * The retry policy of the hand bridge

    Models [ros2_ws/src/hand_bridge/include/hand_bridge/retry_policy.hpp]: the
    table of requests keyed by sequence number, the operations of the class
    [RetryPolicy], and the life cycle of a request as a step relation.

    A [TimePoint] is a count of nanoseconds of the steady clock (the period of
    [std::chrono::steady_clock] in libstdc++), an unbounded [Z]: a 64-bit count
    overflows after 292 years of uptime.

    The first part is the class, operation by operation.  The second part is
    what it promises: the well-formedness invariant, the life cycle every
    operation respects, the transmission budget, the progress measure and the
    exactness of [poll]. *)

From S2P Require Import Prelude AckParser.

Module RequestState.
Inductive RequestState :=
  | QUEUED
  | WAITING_ACK
  | EXECUTING
  | RETRY_QUEUED
  | SUCCEEDED
  | PREEMPTED
  | BUSY
  | ERROR
  | SUPERSEDED
  | RESULT_UNKNOWN.
End RequestState.
Abbreviation RequestState := RequestState.RequestState.
Import RequestState (QUEUED, WAITING_ACK, EXECUTING, RETRY_QUEUED, SUCCEEDED,
  SUPERSEDED, RESULT_UNKNOWN).

#[export] Instance RequestState_eq_dec : EqDecision RequestState.
Proof. solve_decision. Defined.

Record RetryFrame := mkFrame {
  frame_seq : Z;
  frame_text : text;
}.

#[export] Instance RetryFrame_eq_dec : EqDecision RetryFrame.
Proof. solve_decision. Defined.

Record Request := mkRequest {
  seq : Z;
  frame : text;
  is_stop : bool;
  state : RequestState;
  retries_used : Z;
  deadline : Z;
}.

(** ** Time *)

Abbreviation TimePoint := Z.

Definition milliseconds (n : Z) : Z := n * 1000000.

Definition MAX_RETRIES : Z := 2.
Definition ACK_TIMEOUT : Z := milliseconds 1500.
Definition EXEC_TIMEOUT : Z := milliseconds 15000.

(** ** Field updates *)

Definition set_state (s : RequestState) (r : Request) : Request :=
  mkRequest (seq r) (frame r) (is_stop r) s (retries_used r) (deadline r).
Definition set_deadline (t : TimePoint) (r : Request) : Request :=
  mkRequest (seq r) (frame r) (is_stop r) (state r) (retries_used r) t.
Definition incr_retries (r : Request) : Request :=
  mkRequest (seq r) (frame r) (is_stop r) (state r) (retries_used r + 1) (deadline r).

(** ** Operations

    [requests_] is the map; every operation returns its result and the new
    map. *)

Abbreviation Requests := (gmap Z Request).

Definition start (s : Z) (f : text) (stop : bool) (requests_ : Requests) : bool * Requests :=
  if (s =? 0) || bool_decide (f = []) then (false, requests_)
  else emplace s (mkRequest s f stop QUEUED 0 0) requests_.

Definition mark_sent (s : Z) (now : TimePoint) (requests_ : Requests) : bool * Requests :=
  match requests_ !! s with
  | None => (false, requests_)
  | Some request =>
      if negb (bool_decide (state request = QUEUED))
         && negb (bool_decide (state request = RETRY_QUEUED))
      then (false, requests_)
      else (true, <[s := set_deadline (now + ACK_TIMEOUT) (set_state WAITING_ACK request)]> requests_)
  end.

Definition mark_send_failed (s : Z) (requests_ : Requests) : bool * Requests :=
  match requests_ !! s with
  | None => (false, requests_)
  | Some request =>
      if negb (bool_decide (state request = QUEUED))
         && negb (bool_decide (state request = RETRY_QUEUED))
      then (false, requests_)
      else (true, <[s := set_state RESULT_UNKNOWN request]> requests_)
  end.

(** The switch of [on_ack] on a live request. *)
Definition ack_request (status : AckStatus) (now : TimePoint) (request : Request) : Request :=
  match status with
  | AckStatus.IN_PROGRESS => set_deadline (now + EXEC_TIMEOUT) (set_state EXECUTING request)
  | AckStatus.OK => set_state SUCCEEDED request
  | AckStatus.PREEMPTED => set_state RequestState.PREEMPTED request
  | AckStatus.BUSY => set_state RequestState.BUSY request
  | AckStatus.ERROR => set_state RequestState.ERROR request
  end.

Definition on_ack (s : Z) (status : AckStatus) (now : TimePoint) (requests_ : Requests)
    : bool * Requests :=
  match requests_ !! s with
  | None => (false, requests_)
  | Some request =>
      if bool_decide (state request = SUPERSEDED) then
        if bool_decide (status = AckStatus.PREEMPTED) then
          (true, <[s := set_state RequestState.PREEMPTED request]> requests_)
        else if bool_decide (status = AckStatus.OK) then
          (true, <[s := set_state SUCCEEDED request]> requests_)
        else if bool_decide (status = AckStatus.ERROR) then
          (true, <[s := set_state RequestState.ERROR request]> requests_)
        else (false, requests_)
      else if negb (bool_decide (state request = WAITING_ACK))
              && negb (bool_decide (state request = EXECUTING))
              && negb (bool_decide (state request = RETRY_QUEUED))
      then (false, requests_)
      else (true, <[s := ack_request status now request]> requests_)
  end.

(** The body of the loop of [poll] on one request. *)
Definition poll_body (now : TimePoint) (request : Request) (output : list RetryFrame)
    : Request * list RetryFrame :=
  if negb (bool_decide (state request = WAITING_ACK))
     && negb (bool_decide (state request = EXECUTING))
  then (request, output)
  else if now <? deadline request then (request, output)
  else if MAX_RETRIES <=? retries_used request
  then (set_state RESULT_UNKNOWN request, output)
  else
    let request := set_state RETRY_QUEUED (incr_retries request) in
    (request, output ++ [mkFrame (seq request) (frame request)]).

Definition poll (now : TimePoint) (requests_ : Requests) : list RetryFrame * Requests :=
  let '(requests_, output) := for_each_item (poll_body now) requests_ [] in
  (output, requests_).

Definition cancel_body (request : Request) : Request :=
  if is_stop request then request
  else if bool_decide (state request = QUEUED)
          || bool_decide (state request = WAITING_ACK)
          || bool_decide (state request = EXECUTING)
          || bool_decide (state request = RETRY_QUEUED)
  then set_state SUPERSEDED request
  else request.

Definition cancel_non_stop (requests_ : Requests) : Requests :=
  (for_each_item (fun request (o : list unit) => (cancel_body request, o)) requests_ []).1.

(** [nullptr] is [None]. *)
Definition find (s : Z) (requests_ : Requests) : option Request := requests_ !! s.

Definition should_transmit (s : Z) (requests_ : Requests) : bool :=
  match find s requests_ with
  | None => false
  | Some request =>
      bool_decide (state request = QUEUED) || bool_decide (state request = RETRY_QUEUED)
  end.

(** ** The operations as data *)

Inductive Op :=
  | Start (s : Z) (f : text) (stop : bool)
  | MarkSent (s : Z) (now : TimePoint)
  | MarkSendFailed (s : Z)
  | OnAck (s : Z) (status : AckStatus) (now : TimePoint)
  | Poll (now : TimePoint)
  | CancelNonStop.

Definition apply (op : Op) (m : Requests) : Requests :=
  match op with
  | Start s f stop => (start s f stop m).2
  | MarkSent s now => (mark_sent s now m).2
  | MarkSendFailed s => (mark_send_failed s m).2
  | OnAck s status now => (on_ack s status now m).2
  | Poll now => (poll now m).2
  | CancelNonStop => cancel_non_stop m
  end.

Definition run (ops : list Op) (m : Requests) : Requests :=
  foldl (fun m op => apply op m) m ops.

(** The number of times [mark_sent] succeeded on [s]: the node calls it after
    each complete transmission of the frame of [s]. *)
Fixpoint sent_count (s : Z) (ops : list Op) (m : Requests) : Z :=
  match ops with
  | [] => 0
  | op :: ops' =>
      (match op with
       | MarkSent s' now => if (s' =? s) && (mark_sent s' now m).1 then 1 else 0
       | _ => 0
       end) + sent_count s ops' (apply op m)
  end.

(** ** States *)

Definition transmittable (r : Request) : bool :=
  match state r with QUEUED | RETRY_QUEUED => true | _ => false end.
Definition awaiting (r : Request) : bool :=
  match state r with WAITING_ACK | EXECUTING => true | _ => false end.
Definition live (r : Request) : bool :=
  match state r with WAITING_ACK | EXECUTING | RETRY_QUEUED => true | _ => false end.
Definition superseded (r : Request) : bool :=
  match state r with SUPERSEDED => true | _ => false end.
Definition terminal (r : Request) : bool :=
  negb (transmittable r || awaiting r || superseded r).

(** The tests of the code on [request.state]. *)
Lemma transmittable_test r :
  bool_decide (state r = QUEUED) || bool_decide (state r = RETRY_QUEUED) = transmittable r.
Proof. unfold transmittable. by destruct (state r). Qed.
Lemma awaiting_test r :
  bool_decide (state r = WAITING_ACK) || bool_decide (state r = EXECUTING) = awaiting r.
Proof. unfold awaiting. by destruct (state r). Qed.
Lemma live_test r :
  bool_decide (state r = WAITING_ACK) || bool_decide (state r = EXECUTING)
  || bool_decide (state r = RETRY_QUEUED) = live r.
Proof. unfold live. by destruct (state r). Qed.
Lemma superseded_test r : bool_decide (state r = SUPERSEDED) = superseded r.
Proof. unfold superseded. by destruct (state r). Qed.
Lemma active_test r :
  bool_decide (state r = QUEUED) || bool_decide (state r = WAITING_ACK)
  || bool_decide (state r = EXECUTING) || bool_decide (state r = RETRY_QUEUED)
  = transmittable r || awaiting r.
Proof. unfold transmittable, awaiting. by destruct (state r). Qed.

Ltac fold_tests :=
  rewrite <- ?negb_orb,
    ?active_test, ?live_test, ?transmittable_test, ?awaiting_test, ?superseded_test.

Definition expired (now : TimePoint) (r : Request) : bool :=
  awaiting r && (deadline r <=? now).

(** How many more times the frame of a request may be transmitted. *)
Definition budget (r : Request) : Z :=
  if transmittable r then MAX_RETRIES - retries_used r + 1
  else if awaiting r then MAX_RETRIES - retries_used r
  else 0.

(** The number of sends and expiries the request still has before it settles. *)
Definition rank (r : Request) : Z :=
  if transmittable r then 2 * (MAX_RETRIES - retries_used r) + 2
  else if awaiting r then 2 * (MAX_RETRIES - retries_used r) + 1
  else 0.

Definition retries_ok (r : Request) : Prop := 0 <= retries_used r <= MAX_RETRIES.

(** The statuses a superseded request still accepts. *)
Definition late_ack (status : AckStatus) : option RequestState :=
  match status with
  | AckStatus.PREEMPTED => Some RequestState.PREEMPTED
  | AckStatus.OK => Some SUCCEEDED
  | AckStatus.ERROR => Some RequestState.ERROR
  | AckStatus.IN_PROGRESS | AckStatus.BUSY => None
  end.

(** ** The life cycle of one request *)

Inductive lc_step : Request -> Request -> Prop :=
  | lc_sent r t :
      transmittable r = true ->
      lc_step r (set_deadline t (set_state WAITING_ACK r))
  | lc_send_failed r :
      transmittable r = true -> lc_step r (set_state RESULT_UNKNOWN r)
  | lc_acked r status now :
      live r = true -> lc_step r (ack_request status now r)
  | lc_late_acked r status s :
      superseded r = true -> late_ack status = Some s -> lc_step r (set_state s r)
  | lc_retried r :
      awaiting r = true -> retries_used r < MAX_RETRIES ->
      lc_step r (set_state RETRY_QUEUED (incr_retries r))
  | lc_exhausted r :
      awaiting r = true -> MAX_RETRIES <= retries_used r ->
      lc_step r (set_state RESULT_UNKNOWN r)
  | lc_superseded r :
      is_stop r = false -> transmittable r || awaiting r = true ->
      lc_step r (set_state SUPERSEDED r).

#[export] Hint Constructors lc_step : gateway.

(** What an operation does to the request stored under [k]. *)
Definition effect (op : Op) (k : Z) (r : Request) : Request :=
  match op with
  | Start _ _ _ => r
  | MarkSent s now =>
      if (s =? k) && transmittable r
      then set_deadline (now + ACK_TIMEOUT) (set_state WAITING_ACK r) else r
  | MarkSendFailed s =>
      if (s =? k) && transmittable r then set_state RESULT_UNKNOWN r else r
  | OnAck s status now =>
      if s =? k then
        if superseded r then
          match late_ack status with Some st => set_state st r | None => r end
        else if live r then ack_request status now r else r
      else r
  | Poll now =>
      if expired now r then
        if MAX_RETRIES <=? retries_used r then set_state RESULT_UNKNOWN r
        else set_state RETRY_QUEUED (incr_retries r)
      else r
  | CancelNonStop => cancel_body r
  end.

(** What an operation stores under an absent [k]. *)
Definition created (op : Op) (k : Z) : option Request :=
  match op with
  | Start s f stop =>
      if (s =? k) && negb ((s =? 0) || bool_decide (f = []))
      then Some (mkRequest s f stop QUEUED 0 0) else None
  | _ => None
  end.

Lemma poll_body_effect now r out :
  poll_body now r out
  = (effect (Poll now) 0 r,
     out ++ if expired now r && (retries_used r <? MAX_RETRIES)
            then [mkFrame (seq r) (frame r)] else []).
Proof.
  unfold poll_body, effect, expired, set_state, incr_retries.
  fold_tests. destruct (awaiting r); simpl; [|by rewrite app_nil_r].
  rewrite (Z.ltb_antisym _ now), (Z.ltb_antisym _ (retries_used r)).
  destruct (deadline r <=? now); simpl; [|by rewrite app_nil_r].
  by destruct (MAX_RETRIES <=? retries_used r); simpl; rewrite ?app_nil_r.
Qed.

Lemma poll_spec now m :
  poll now m
  = (ordered_items m ≫= (fun kv =>
       if expired now kv.2 && (retries_used kv.2 <? MAX_RETRIES)
       then [mkFrame (seq kv.2) (frame kv.2)] else []),
     effect (Poll now) 0 <$> m).
Proof.
  unfold poll.
  by rewrite (for_each_item_spec (effect (Poll now) 0)
    (fun r => if expired now r && (retries_used r <? MAX_RETRIES)
              then [mkFrame (seq r) (frame r)] else [])) by apply poll_body_effect.
Qed.

Lemma cancel_non_stop_spec m : cancel_non_stop m = cancel_body <$> m.
Proof.
  unfold cancel_non_stop. rewrite (for_each_item_spec cancel_body (fun _ => [])); [done|].
  intros v o. by rewrite app_nil_r.
Qed.

(** The single-key operations update one request in place. *)
Definition update_at (s : Z) (g : Request -> Request) (m : Requests) : Requests :=
  match m !! s with None => m | Some r => <[s := g r]> m end.

Lemma update_at_lookup s g m k :
  update_at s g m !! k = (fun r => if s =? k then g r else r) <$> m !! k.
Proof.
  unfold update_at. destruct (Z.eqb_spec s k) as [->|Hne].
  - destruct (m !! k) eqn:E; simpl; [apply lookup_insert_eq|done].
  - destruct (m !! s); [rewrite lookup_insert_ne by done|]; by destruct (m !! k).
Qed.

Lemma mark_sent_spec s now m :
  mark_sent s now m
  = (from_option transmittable false (m !! s), update_at s (effect (MarkSent s now) s) m).
Proof.
  unfold mark_sent, update_at, effect. rewrite Z.eqb_refl.
  destruct (m !! s) as [r|] eqn:E; simpl; [|done]. fold_tests.
  destruct (transmittable r); simpl; [done|]. by rewrite insert_id.
Qed.

Lemma mark_send_failed_spec s m :
  mark_send_failed s m
  = (from_option transmittable false (m !! s), update_at s (effect (MarkSendFailed s) s) m).
Proof.
  unfold mark_send_failed, update_at, effect. rewrite Z.eqb_refl.
  destruct (m !! s) as [r|] eqn:E; simpl; [|done]. fold_tests.
  destruct (transmittable r); simpl; [done|]. by rewrite insert_id.
Qed.

(** Whether [on_ack] has an effect on a request. *)
Definition ack_accepted (status : AckStatus) (r : Request) : bool :=
  if superseded r then match late_ack status with Some _ => true | None => false end
  else live r.

Lemma on_ack_effect s status now m :
  on_ack s status now m
  = (from_option (ack_accepted status) false (m !! s),
     update_at s (effect (OnAck s status now) s) m).
Proof.
  unfold on_ack, update_at, effect, ack_accepted. rewrite Z.eqb_refl.
  destruct (m !! s) as [r|] eqn:E; simpl; [|done].
  fold_tests. destruct (superseded r).
  - destruct status; repeat (case_bool_decide; try done); simpl; by rewrite ?insert_id.
  - destruct (live r); simpl; [done|]. by rewrite insert_id.
Qed.

Lemma start_equation s f stop m :
  start s f stop m
  = if decide (s <> 0 /\ f <> [] /\ m !! s = None)
    then (true, <[s := mkRequest s f stop QUEUED 0 0]> m)
    else (false, m).
Proof.
  unfold start, emplace. case_decide as H.
  - destruct H as (Hs & Hf & ->). apply Z.eqb_neq in Hs as ->.
    by rewrite bool_decide_eq_false_2.
  - destruct (Z.eqb_spec s 0); [done|]. case_bool_decide; [done|].
    destruct (m !! s) eqn:E; [done|]. naive_solver.
Qed.

Lemma start_lookup s f stop m k :
  (start s f stop m).2 !! k
  = match m !! k with Some r => Some r | None => created (Start s f stop) k end.
Proof.
  unfold start, emplace, created. destruct (_ || _) eqn:E; simpl.
  { rewrite andb_false_r. by destruct (m !! k). }
  rewrite andb_true_r. destruct (Z.eqb_spec s k) as [->|Hne].
  - destruct (m !! k) as [r|] eqn:Hk; simpl; [by rewrite Hk|]. by rewrite lookup_insert_eq.
  - destruct (m !! s); simpl; [by destruct (m !! k)|].
    rewrite lookup_insert_ne by done. by destruct (m !! k).
Qed.

(** Every operation acts on each request separately. *)
Lemma apply_lookup op m k :
  apply op m !! k
  = match m !! k with Some r => Some (effect op k r) | None => created op k end.
Proof.
  destruct op as [s f stop|s now|s|s status now|now|]; simpl apply.
  - apply start_lookup.
  - rewrite mark_sent_spec. simpl snd. rewrite update_at_lookup. unfold effect.
    rewrite Z.eqb_refl. by destruct (m !! k), (s =? k).
  - rewrite mark_send_failed_spec. simpl snd. rewrite update_at_lookup. unfold effect.
    rewrite Z.eqb_refl. by destruct (m !! k), (s =? k).
  - rewrite on_ack_effect. simpl snd. rewrite update_at_lookup. unfold effect.
    rewrite Z.eqb_refl. by destruct (m !! k), (s =? k).
  - rewrite poll_spec. simpl snd. rewrite lookup_fmap. by destruct (m !! k).
  - rewrite cancel_non_stop_spec, lookup_fmap. by destruct (m !! k).
Qed.

(** An operation leaves a request alone or moves it along the life cycle. *)
Lemma effect_lc op k r : effect op k r = r \/ lc_step r (effect op k r).
Proof.
  destruct op as [s f stop|s now|s|s status now|now|]; simpl.
  - by left.
  - case_match eqn:E; [|by left]. reflect_bools. auto with gateway.
  - case_match eqn:E; [|by left]. reflect_bools. auto with gateway.
  - case_match; [|by left]. destruct (superseded r) eqn:Hs.
    + destruct (late_ack status) eqn:E; [|by left]. right. by eapply lc_late_acked.
    + destruct (live r) eqn:E; [|by left]. auto with gateway.
  - unfold expired. case_match eqn:E; [|by left]. reflect_bools.
    case_match; reflect_bools; auto with gateway.
  - unfold cancel_body. destruct (is_stop r) eqn:Hs; [by left|].
    fold_tests. case_match; [|by left]. auto with gateway.
Qed.

(** ** What a life-cycle step preserves *)

(** Case analysis on a step: the rule, then the state of the request as far as
    the rule's guard leaves it open. *)
Ltac lc_cases :=
  intros [? ? Hg|? Hg|? [] ? Hg|? ? ? Hg ?|? Hg ?|? Hg ?|? ? Hg];
  unfold terminal, budget, rank, transmittable, awaiting, live, superseded,
    retries_ok, MAX_RETRIES in *;
  cbn [ack_request set_state set_deadline incr_retries state retries_used] in *;
  match goal with r : Request |- _ => destruct (state r) end; try discriminate Hg;
  cbn [orb negb] in *.

Lemma lc_step_identity r r' :
  lc_step r r' -> seq r' = seq r /\ frame r' = frame r /\ is_stop r' = is_stop r.
Proof. by intros [| |? []| | | |]. Qed.

Lemma lc_step_not_terminal r r' : lc_step r r' -> terminal r = false.
Proof. lc_cases; reflexivity. Qed.

Lemma lc_step_retries r r' :
  lc_step r r' ->
  retries_used r <= retries_used r' <= Z.max MAX_RETRIES (retries_used r).
Proof.
  destruct 1 as [| |? status| | | |];
    try destruct status; simpl; unfold MAX_RETRIES in *; lia.
Qed.

Lemma budget_bounds r : retries_ok r -> 0 <= budget r <= MAX_RETRIES + 1.
Proof. unfold retries_ok, budget, MAX_RETRIES. repeat case_match; lia. Qed.

Lemma rank_bounds r : retries_ok r -> 0 <= rank r <= 2 * MAX_RETRIES + 2.
Proof. unfold retries_ok, rank, MAX_RETRIES. repeat case_match; lia. Qed.

Lemma lc_step_retries_ok r r' : lc_step r r' -> retries_ok r -> retries_ok r'.
Proof. intros H%lc_step_retries. unfold retries_ok. lia. Qed.

Lemma lc_step_budget r r' : lc_step r r' -> retries_ok r -> budget r' <= budget r.
Proof.
  lc_cases; try match goal with H : late_ack ?st = _ |- _ => destruct st; inversion H; subst end;
  lia.
Qed.

Lemma lc_step_rank r r' : lc_step r r' -> retries_ok r -> rank r' <= rank r.
Proof.
  lc_cases; try match goal with H : late_ack ?st = _ |- _ => destruct st; inversion H; subst end;
  lia.
Qed.

Lemma lc_steps_identity r r' :
  rtc lc_step r r' -> seq r' = seq r /\ frame r' = frame r /\ is_stop r' = is_stop r.
Proof.
  induction 1 as [|r1 r2 r3 Hstep%lc_step_identity _ IH]; [done|].
  destruct Hstep as (? & ? & ?), IH as (? & ? & ?). split_and!; congruence.
Qed.

Lemma lc_steps_retries_ok r r' : rtc lc_step r r' -> retries_ok r -> retries_ok r'.
Proof. induction 1; eauto using lc_step_retries_ok. Qed.

Lemma lc_steps_budget r r' : rtc lc_step r r' -> retries_ok r -> budget r' <= budget r.
Proof.
  induction 1 as [|r1 r2 r3 Hstep _ IH]; intros Hok; [done|].
  etrans; [apply IH; by eapply lc_step_retries_ok|by apply lc_step_budget].
Qed.

Lemma lc_steps_terminal r r' : rtc lc_step r r' -> terminal r = true -> r' = r.
Proof.
  destruct 1 as [|r1 r2 r3 Hstep _]; [done|]. intros Ht.
  apply lc_step_not_terminal in Hstep. congruence.
Qed.

(** ** The order every operation respects

    [evolves m m'] is the interface the clients of the policy rely on: no
    request disappears, each one moves only along the life cycle, and a new
    one starts as a queued request under its own number. *)
Definition fresh_request (k : Z) (r : Request) : Prop :=
  seq r = k /\ k <> 0 /\ frame r <> [] /\ state r = QUEUED /\ retries_used r = 0.

Definition evolves_at (k : Z) (o o' : option Request) : Prop :=
  match o, o' with
  | Some r, Some r' => rtc lc_step r r'
  | None, Some r' => exists r, fresh_request k r /\ rtc lc_step r r'
  | None, None => True
  | Some _, None => False
  end.

Definition evolves (m m' : Requests) : Prop := forall k, evolves_at k (m !! k) (m' !! k).

#[export] Instance evolves_preorder : PreOrder evolves.
Proof.
  split.
  - intros m k. unfold evolves_at. by destruct (m !! k).
  - intros m1 m2 m3 H12 H23 k. specialize (H12 k). specialize (H23 k).
    unfold evolves_at in *. destruct (m1 !! k), (m2 !! k), (m3 !! k); try done.
    + by etrans.
    + destruct H12 as (rf & ? & ?). exists rf. split; [done|]. by etrans.
Qed.

Lemma created_fresh op k r : created op k = Some r -> fresh_request k r.
Proof.
  unfold created. destruct op; try done. case_match eqn:E; [|done].
  intros; simplify_eq. apply andb_prop in E as [Hk Hne].
  apply negb_true_iff in Hne. reflect_bools. subst. by repeat split.
Qed.

Lemma apply_evolves op m : evolves m (apply op m).
Proof.
  intros k. rewrite apply_lookup. unfold evolves_at. destruct (m !! k) as [r|].
  - destruct (effect_lc op k r) as [->|]; [done|]. by apply rtc_once.
  - destruct (created op k) as [r|] eqn:E; [|done]. exists r.
    split; [by eapply created_fresh|done].
Qed.

Lemma run_evolves ops m : evolves m (run ops m).
Proof.
  revert m. induction ops as [|op ops IH]; intros m; simpl; [done|].
  etrans; [apply apply_evolves|apply IH].
Qed.

#[export] Hint Resolve apply_evolves run_evolves : gateway.

Lemma evolves_lookup m m' k r :
  evolves m m' -> m !! k = Some r -> exists r', m' !! k = Some r' /\ rtc lc_step r r'.
Proof.
  intros H Hk. specialize (H k). unfold evolves_at in H. rewrite Hk in H.
  destruct (m' !! k); [eauto|done].
Qed.

(** ** The invariant *)

Definition wf_request (k : Z) (r : Request) : Prop :=
  seq r = k /\ k <> 0 /\ frame r <> [] /\ retries_ok r.

Definition wf (m : Requests) : Prop := map_Forall wf_request m.

Lemma wf_empty : wf ∅.
Proof. apply map_Forall_empty. Qed.

Lemma fresh_wf k r : fresh_request k r -> wf_request k r.
Proof.
  intros (? & ? & ? & ? & ?). repeat split; try done; unfold MAX_RETRIES; lia.
Qed.

Lemma wf_request_steps k r r' : rtc lc_step r r' -> wf_request k r -> wf_request k r'.
Proof.
  intros Hst (? & ? & ? & ?). destruct (lc_steps_identity _ _ Hst) as (? & ? & _).
  pose proof (lc_steps_retries_ok _ _ Hst). unfold wf_request. split_and!; auto; congruence.
Qed.

Lemma wf_evolves m m' : evolves m m' -> wf m -> wf m'.
Proof.
  intros Hev Hwf k r' Hk. specialize (Hev k). unfold evolves_at in Hev.
  rewrite Hk in Hev. destruct (m !! k) as [r|] eqn:E.
  - eapply wf_request_steps; [done|]. by apply Hwf.
  - destruct Hev as (r0 & ? & ?). eapply wf_request_steps; [done|]. by apply fresh_wf.
Qed.

#[export] Instance wf_evolves_proper : Proper (evolves ==> impl) wf.
Proof. intros m m' Hev Hwf. by eapply wf_evolves. Qed.

#[export] Hint Resolve wf_empty wf_evolves : gateway.

(** ** Settled requests *)

(** A settled request is neither queued nor waiting: it needs no time-out. *)
Definition settled (r : Request) : bool := negb (transmittable r || awaiting r).

Lemma lc_steps_settled r r' : rtc lc_step r r' -> settled r = true -> settled r' = true.
Proof.
  induction 1 as [|r1 r2 r3 Hstep _ IH]; [done|]. intros Hs. apply IH.
  revert Hstep Hs. unfold settled.
  lc_cases; try discriminate; match goal with H : late_ack ?st = _ |- _ =>
    destruct st; inversion H; subst end; done.
Qed.

Lemma cancel_body_settled r : is_stop r = false -> settled (cancel_body r) = true.
Proof.
  intros Hs. unfold cancel_body, settled. rewrite Hs. fold_tests.
  destruct (transmittable r || awaiting r) eqn:E; [done|]. by rewrite E.
Qed.

Lemma settled_budget r : settled r = true -> budget r = 0.
Proof.
  unfold settled, budget. destruct (transmittable r), (awaiting r); done.
Qed.

Lemma should_transmit_spec k m :
  should_transmit k m = from_option transmittable false (m !! k).
Proof. unfold should_transmit, find. destruct (m !! k); simpl; [|done]. apply transmittable_test. Qed.

Lemma elem_of_poll now m f :
  f ∈ (poll now m).1 <->
  exists k r, m !! k = Some r /\ expired now r = true /\ retries_used r < MAX_RETRIES
              /\ f = mkFrame (seq r) (frame r).
Proof.
  rewrite poll_spec. simpl fst. rewrite list_elem_of_bind. split.
  - intros ([k r] & Hf & Hin). simpl in Hf. apply elem_of_ordered_items in Hin.
    case_match eqn:E; [|by apply not_elem_of_nil in Hf].
    apply list_elem_of_singleton in Hf as ->. reflect_bools. eauto 10.
  - intros (k & r & Hk & He & Hr & ->). exists (k, r). split; [|by apply elem_of_ordered_items].
    simpl. rewrite He, (proj2 (Z.ltb_lt _ _)) by done. simpl. by apply list_elem_of_singleton.
Qed.

(** ** Properties *)

(** C25: whatever sequence of operations runs on a fresh policy, every request is stored under
    its own non-zero number with a non-empty frame and between 0 and [MAX_RETRIES] retries,
    and from any table on, requests are never lost, keep their number, frame and kind, and
    move only along the life cycle; a request that reached a final state is never touched
    again. *)
Theorem run_preserves_requests ops1 ops2 :
  let m1 := run ops1 ∅ in
  let m2 := run ops2 m1 in
  wf m2
  /\ forall k r1, m1 !! k = Some r1 ->
       exists r2, m2 !! k = Some r2 /\ rtc lc_step r1 r2
         /\ seq r2 = seq r1 /\ frame r2 = frame r1 /\ is_stop r2 = is_stop r1
         /\ (terminal r1 = true -> r2 = r1).
Proof.
  intros m1 m2. split.
  { apply (wf_evolves ∅); [|apply wf_empty]. etrans; apply run_evolves. }
  intros k r1 Hk. destruct (evolves_lookup m1 m2 k r1) as (r2 & Hk2 & Hst); [|done|].
  { apply run_evolves. }
  exists r2. destruct (lc_steps_identity _ _ Hst) as (? & ? & ?).
  repeat split; try done. by apply lc_steps_terminal.
Qed.

Lemma mark_sent_budget s now k r :
  retries_ok r ->
  budget (effect (MarkSent s now) k r) + (if (s =? k) && transmittable r then 1 else 0)
  <= budget r.
Proof.
  intros Hok. simpl. destruct ((s =? k) && transmittable r) eqn:E; [|lia].
  apply andb_prop in E as [_ E]. unfold budget. rewrite E. simpl. lia.
Qed.

Lemma sent_count_budget ops m k :
  wf m ->
  0 <= sent_count k ops m
  <= match m !! k with Some r => budget r | None => MAX_RETRIES + 1 end.
Proof.
  revert m. induction ops as [|op ops IH]; intros m Hwf.
  { simpl. destruct (m !! k) as [r|] eqn:Hk; [|unfold MAX_RETRIES; lia].
    split; [done|]. apply budget_bounds, (Hwf k r Hk). }
  specialize (IH (apply op m) ltac:(eauto with gateway)).
  rewrite apply_lookup in IH. cbn [sent_count].
  destruct (m !! k) as [r|] eqn:Hk.
  - assert (retries_ok r) as Hok by apply (Hwf k r Hk).
    assert (budget (effect op k r) <= budget r) as Hb.
    { destruct (effect_lc op k r) as [->|]; [done|]. by apply lc_step_budget. }
    destruct op as [| s now | | | |]; try lia.
    pose proof (mark_sent_budget s now k r Hok) as Hm.
    rewrite mark_sent_spec. cbn [fst].
    destruct (Z.eqb_spec s k) as [->|]; [|simpl in *; lia].
    rewrite Hk. cbn [from_option andb] in *. destruct (transmittable r); lia.
  - assert (forall o, o = created op k ->
              match o with Some r => budget r | None => MAX_RETRIES + 1 end <= MAX_RETRIES + 1).
    { intros [r|] Ho; [|done]. symmetry in Ho.
      apply created_fresh, fresh_wf in Ho as (_ & _ & _ & Ho). by apply budget_bounds. }
    specialize (H _ eq_refl). destruct op as [| s now | | | |]; try lia.
    rewrite mark_sent_spec. cbn [fst].
    destruct (Z.eqb_spec s k) as [->|]; [|simpl in *; lia]. rewrite Hk. simpl in *. lia.
Qed.

(** In every run of a fresh policy, the frame of a request is transmitted at most
    [MAX_RETRIES + 1] = 3 times, whatever acknowledgements, time-outs and stops are
    interleaved. *)
Lemma at_most_three_transmissions ops k :
  sent_count k ops ∅ <= 3.
Proof.
  pose proof (sent_count_budget ops ∅ k wf_empty) as H.
  rewrite lookup_empty in H. unfold MAX_RETRIES in H. lia.
Qed.

(** After [cancel_non_stop], no request other than a stop that was known at that moment is
    ever transmitted or retried again: its frame is never sent, [should_transmit] answers no,
    and no later [poll] returns it. *)
Lemma cancelled_never_transmitted m ops k r :
  wf m -> m !! k = Some r -> is_stop r = false ->
  sent_count k ops (cancel_non_stop m) = 0
  /\ should_transmit k (run ops (cancel_non_stop m)) = false
  /\ forall now, k ∉ (frame_seq <$> (poll now (run ops (cancel_non_stop m))).1).
Proof.
  intros Hwf Hk Hstop.
  assert (cancel_non_stop m !! k = Some (cancel_body r)) as Hc.
  { by rewrite cancel_non_stop_spec, lookup_fmap, Hk. }
  pose proof (cancel_body_settled r Hstop) as Hsettled.
  assert (wf (cancel_non_stop m)) as Hwfc.
  { eapply wf_evolves, Hwf. apply (apply_evolves CancelNonStop). }
  destruct (evolves_lookup _ _ _ _ (run_evolves ops _) Hc) as (r' & Hr' & Hst).
  pose proof (lc_steps_settled _ _ Hst Hsettled) as Hs'. split_and!.
  - pose proof (sent_count_budget ops _ k Hwfc) as Hb. rewrite Hc in Hb.
    rewrite (settled_budget _ Hsettled) in Hb. lia.
  - rewrite should_transmit_spec, Hr'. unfold settled in Hs'. simpl.
    by destruct (transmittable r').
  - intros now ([s fr] & -> & Hin)%list_elem_of_fmap.
    apply elem_of_poll in Hin as (k' & r2 & Hk' & He & _ & Heq).
    assert (wf (run ops (cancel_non_stop m))) as Hwf' by (eauto with gateway).
    destruct (Hwf' _ _ Hk') as (Hseq & _). simplify_eq/=.
    unfold expired, settled in *. destruct (awaiting r'), (transmittable r'); done.
Qed.

(** A small run: a grab is sent, a stop arrives. *)
Definition grab_frame : text := txt "SEQ:103 CMD:HAND_GRAB" ++ [CR; LF].
Definition stop_frame : text := txt "SEQ:104 CMD:HAND_STOP" ++ [CR; LF].

Lemma cancelled_never_transmitted_witness :
  let m := run [Start 103 grab_frame false; MarkSent 103 0] ∅ in
  sent_count 103 [Start 104 stop_frame true; Poll (milliseconds 20000); MarkSent 103 5]
    (cancel_non_stop m) = 0.
Proof.
  intros m.
  eapply (cancelled_never_transmitted m _ 103
            (mkRequest 103 grab_frame false WAITING_ACK 0 ACK_TIMEOUT)).
  - apply (wf_evolves ∅); [apply run_evolves|apply wf_empty].
  - vm_compute. reflexivity.
  - reflexivity.
Defined.

(** C26: [poll] is exact: it returns one frame for each waiting request whose deadline has
    passed and whose retries are not used up, with that request's own number and bytes, in
    strictly ascending order of the numbers; those requests become [RETRY_QUEUED] with one
    more retry, the expired ones without retries left become [RESULT_UNKNOWN], and every
    other request is left alone. *)
Theorem poll_exact now m :
  wf m ->
  (forall f, f ∈ (poll now m).1 <->
     exists k r, m !! k = Some r /\ expired now r = true /\ retries_used r < MAX_RETRIES
                 /\ f = mkFrame k (frame r))
  /\ StronglySorted (fun a b => frame_seq a < frame_seq b) (poll now m).1
  /\ forall k, (poll now m).2 !! k =
       (fun r => if expired now r then
                   if retries_used r <? MAX_RETRIES
                   then set_state RETRY_QUEUED (incr_retries r)
                   else set_state RESULT_UNKNOWN r
                 else r) <$> m !! k.
Proof.
  intros Hwf. split_and!.
  - intros f. rewrite elem_of_poll. split; intros (k & r & Hk & ? & ? & ->);
      destruct (Hwf _ _ Hk) as (Hs & _); exists k, r; by rewrite ?Hs.
  - rewrite poll_spec. apply (StronglySorted_select (fun a b => a.1 < b.1));
      [|apply ordered_items_strict].
    intros [k r] [k' r'] Hk%elem_of_ordered_items Hk'%elem_of_ordered_items ?.
    destruct (Hwf _ _ Hk) as (Hs & _), (Hwf _ _ Hk') as (Hs' & _).
    simpl in *. by rewrite Hs, Hs'.
  - intros k. rewrite poll_spec. simpl snd. rewrite lookup_fmap.
    destruct (m !! k) as [r|]; simpl; [|done]. rewrite (Z.ltb_antisym _ (retries_used r)).
    by destruct (expired now r), (MAX_RETRIES <=? retries_used r).
Qed.

Lemma poll_exact_witness :
  let m := run [Start 101 grab_frame false; MarkSent 101 0] ∅ in
  (poll (milliseconds 1499) m).1 = []
  /\ mkFrame 101 grab_frame ∈ (poll (milliseconds 1500) m).1.
Proof.
  intros m. split; [vm_compute; reflexivity|].
  apply (poll_exact (milliseconds 1500) m).
  - apply (wf_evolves ∅); [apply run_evolves|apply wf_empty].
  - exists 101, (mkRequest 101 grab_frame false WAITING_ACK 0 ACK_TIMEOUT).
    repeat split; vm_compute; reflexivity.
Defined.

(** The transition table of the acknowledgements. *)
Definition ack_next (s : RequestState) (a : AckStatus) : option RequestState :=
  match s, a with
  | (WAITING_ACK | EXECUTING | RETRY_QUEUED), AckStatus.IN_PROGRESS => Some EXECUTING
  | (WAITING_ACK | EXECUTING | RETRY_QUEUED | SUPERSEDED), AckStatus.OK => Some SUCCEEDED
  | (WAITING_ACK | EXECUTING | RETRY_QUEUED | SUPERSEDED), AckStatus.PREEMPTED =>
      Some RequestState.PREEMPTED
  | (WAITING_ACK | EXECUTING | RETRY_QUEUED | SUPERSEDED), AckStatus.ERROR =>
      Some RequestState.ERROR
  | (WAITING_ACK | EXECUTING | RETRY_QUEUED), AckStatus.BUSY => Some RequestState.BUSY
  | _, _ => None
  end.

(** C27: [on_ack] implements the acknowledgement table: it answers false and changes nothing for
    an unknown number and for a status the request's state does not accept (queued, settled,
    or superseded and only in progress or busy); otherwise it answers true, moves that one
    request to the state of the table, and restarts its time-out exactly when the device
    reports it in progress. *)
Theorem on_ack_table s status now m :
  on_ack s status now m
  = match m !! s with
    | None => (false, m)
    | Some r =>
        match ack_next (state r) status with
        | None => (false, m)
        | Some st =>
            (true,
             <[s := mkRequest (seq r) (frame r) (is_stop r) st (retries_used r)
                      (if decide (st = EXECUTING) then now + EXEC_TIMEOUT else deadline r)]> m)
        end
    end.
Proof.
  unfold on_ack. destruct (m !! s) as [[q f stop st n d]|]; [|done]. cbn [state].
  by destruct st, status.
Qed.

(** ** Termination of the retries *)

(** One round in which the device stays silent: the frame of [s] goes out at
    [t], and the table is polled at a moment past its time-out. *)
Definition silent_round (s : Z) (tn : TimePoint * TimePoint) : list Op :=
  [MarkSent s tn.1; Poll tn.2].

Definition late_enough (tn : TimePoint * TimePoint) : Prop := tn.1 + ACK_TIMEOUT <= tn.2.

Lemma run_app ops1 ops2 m : run (ops1 ++ ops2) m = run ops2 (run ops1 m).
Proof. apply foldl_app. Qed.

Lemma sent_count_app s ops1 ops2 m :
  sent_count s (ops1 ++ ops2) m = sent_count s ops1 m + sent_count s ops2 (run ops1 m).
Proof.
  revert m. induction ops1 as [|op ops1 IH]; intros m; [done|].
  cbn [sent_count app]. rewrite IH. change (run (op :: ops1) m) with (run ops1 (apply op m)).
  lia.
Qed.

Lemma silent_round_step s tn m r :
  m !! s = Some r -> transmittable r = true -> late_enough tn ->
  run (silent_round s tn) m !! s
  = Some (let r' := set_deadline (tn.1 + ACK_TIMEOUT) (set_state WAITING_ACK r) in
          if MAX_RETRIES <=? retries_used r then set_state RESULT_UNKNOWN r'
          else set_state RETRY_QUEUED (incr_retries r'))
  /\ (mark_sent s tn.1 m).1 = true.
Proof.
  destruct tn as [t n]. unfold late_enough. simpl. intros Hm Ht Hlate. split.
  - change (poll n ?m).2 with (apply (Poll n) m).
    change (mark_sent s t m).2 with (apply (MarkSent s t) m).
    rewrite !apply_lookup, Hm. unfold effect at 2. rewrite Z.eqb_refl, Ht. cbn [andb].
    unfold effect, expired. cbn. by rewrite (proj2 (Z.leb_le _ _) Hlate).
  - by rewrite mark_sent_spec, Hm.
Qed.

(** A request the device never answers is given up after exactly its remaining retries: if
    each queued transmission is carried out and each poll comes past the time-out, then
    [MAX_RETRIES + 1 - retries_used] rounds, each of which transmits the frame, end in
    [RESULT_UNKNOWN]. *)
Lemma silent_request_gives_up s rounds m r :
  m !! s = Some r -> transmittable r = true -> retries_ok r ->
  Forall late_enough rounds ->
  Z.of_nat (length rounds) = MAX_RETRIES + 1 - retries_used r ->
  sent_count s (rounds ≫= silent_round s) m = Z.of_nat (length rounds)
  /\ exists r', run (rounds ≫= silent_round s) m !! s = Some r'
                /\ state r' = RESULT_UNKNOWN /\ retries_used r' = MAX_RETRIES.
Proof.
  intros Hm Ht Hok Hlate. revert m r Hm Ht Hok.
  induction Hlate as [|[t n] rounds Hl _ IH]; intros m r Hm Ht Hok Hlen.
  { unfold retries_ok in Hok. simpl in Hlen. lia. }
  destruct (silent_round_step s (t, n) m r Hm Ht Hl) as [Hrun Hsent].
  rewrite bind_cons, sent_count_app, run_app.
  assert (sent_count s (silent_round s (t, n)) m = 1) as ->.
  { cbn. rewrite Z.eqb_refl. cbn in Hsent. by rewrite Hsent. }
  revert Hrun. generalize (run (silent_round s (t, n)) m). intros m' Hrun.
  destruct (MAX_RETRIES <=? retries_used r) eqn:Hmax; reflect_bools; unfold retries_ok in Hok.
  - destruct rounds; [|cbn [length] in Hlen; lia]. simpl. split; [lia|].
    eexists; split_and!; [done|done|]. simpl. lia.
  - cbn [length] in *. destruct (IH m' _ Hrun) as [Hcount Hex].
    + done.
    + unfold retries_ok. simpl. lia.
    + simpl. lia.
    + split; [lia|done].
Qed.

Lemma silent_request_gives_up_witness :
  let rounds := [(0, milliseconds 1500); (milliseconds 1500, milliseconds 3000);
                 (milliseconds 3000, milliseconds 4500)] in
  exists r', run (rounds ≫= silent_round 102) (run [Start 102 grab_frame false] ∅) !! 102
             = Some r' /\ state r' = RESULT_UNKNOWN /\ retries_used r' = MAX_RETRIES.
Proof.
  intros rounds.
  apply (silent_request_gives_up 102 rounds _ (mkRequest 102 grab_frame false QUEUED 0 0)).
  - vm_compute. reflexivity.
  - reflexivity.
  - vm_compute. split; discriminate.
  - repeat constructor; vm_compute; discriminate.
  - reflexivity.
Defined.

(** Whether an operation transmits the frame of [k], reports that it could
    not be transmitted, or lets its time-out expire. *)
Definition activity (k : Z) (op : Op) (m : Requests) : bool :=
  match op, m !! k with
  | MarkSent s _, Some r | MarkSendFailed s, Some r => (s =? k) && transmittable r
  | Poll now, Some r => expired now r
  | _, _ => false
  end.

Fixpoint activity_count (k : Z) (ops : list Op) (m : Requests) : Z :=
  match ops with
  | [] => 0
  | op :: ops' => (if activity k op m then 1 else 0) + activity_count k ops' (apply op m)
  end.

Ltac rank_cases :=
  unfold rank, transmittable, awaiting, MAX_RETRIES in *;
  cbn [state set_state set_deadline incr_retries retries_used] in *;
  match goal with r : Request |- _ => destruct (state r) end; try done; lia.

Lemma activity_rank op k m r :
  m !! k = Some r -> retries_ok r ->
  rank (effect op k r) + (if activity k op m then 1 else 0) <= rank r.
Proof.
  intros Hk Hok.
  assert (rank (effect op k r) <= rank r) as Hle.
  { destruct (effect_lc op k r) as [->|]; [done|]. by apply lc_step_rank. }
  destruct (activity k op m) eqn:Ha; [|lia]. unfold activity in Ha. rewrite Hk in Ha.
  unfold retries_ok in Hok. clear Hle.
  destruct op; try done; unfold effect; rewrite Ha; revert Ha.
  - intros [_ Ht]%andb_prop. rank_cases.
  - intros [_ Ht]%andb_prop. rank_cases.
  - intros [Ht _]%andb_prop. case_match; reflect_bools; rank_cases.
Qed.

Lemma activity_count_rank ops m k :
  wf m ->
  activity_count k ops m
  <= match m !! k with Some r => rank r | None => 2 * MAX_RETRIES + 2 end.
Proof.
  revert m. induction ops as [|op ops IH]; intros m Hwf; cbn [activity_count].
  { destruct (m !! k) as [r|] eqn:Hk; [|unfold MAX_RETRIES; lia].
    apply rank_bounds, (Hwf k r Hk). }
  specialize (IH (apply op m) ltac:(eauto with gateway)).
  rewrite apply_lookup in IH. destruct (m !! k) as [r|] eqn:Hk.
  - pose proof (activity_rank op k m r Hk) as Ha. destruct (Hwf k r Hk) as (_ & _ & _ & Hok).
    specialize (Ha Hok). lia.
  - assert (activity k op m = false) as ->.
    { unfold activity. rewrite Hk. by destruct op. }
    destruct (created op k) as [r|] eqn:E; [|lia].
    apply created_fresh, fresh_wf in E as (_ & _ & _ & Hok).
    pose proof (rank_bounds r Hok). lia.
Qed.

(** C28: the retry machinery of a request terminates: in any run of a fresh policy the number
    of its transmissions, failed transmissions and expired time-outs together is at most six,
    and as long as the request is not settled one more of them is possible, so no request can
    wait for ever without one. *)
Theorem request_activity_terminates ops k :
  activity_count k ops ∅ <= 6
  /\ forall r, run ops ∅ !! k = Some r -> settled r = false ->
       exists op, activity k op (run ops ∅) = true.
Proof.
  split.
  { pose proof (activity_count_rank ops ∅ k wf_empty) as H.
    rewrite lookup_empty in H. unfold MAX_RETRIES in H. lia. }
  intros r Hr Hs. unfold settled in Hs. reflect_bools.
  destruct (transmittable r) eqn:Ht; simpl in Hs.
  - exists (MarkSent k 0). simpl. by rewrite Hr, Z.eqb_refl, Ht.
  - exists (Poll (deadline r)). simpl. rewrite Hr. unfold expired. by rewrite Hs, Z.leb_refl.
Qed.


(** A sequence number is given out once: after [start] accepted it, whatever operations
    follow, the table still holds that frame and that kind under it, and a second [start]
    with the same number is refused and changes nothing. *)
Lemma start_once s f stop m m' ops f2 stop2 :
  start s f stop m = (true, m') ->
  start s f2 stop2 (run ops m') = (false, run ops m')
  /\ exists r, run ops m' !! s = Some r /\ frame r = f /\ is_stop r = stop.
Proof.
  rewrite start_equation. case_decide as H; [|done]. intros [= <-].
  destruct (evolves_lookup _ _ s (mkRequest s f stop QUEUED 0 0)
              (run_evolves ops (<[s := mkRequest s f stop QUEUED 0 0]> m)))
    as (r & Hr & Hst); [apply lookup_insert_eq|].
  apply lc_steps_identity in Hst as (_ & ? & ?). split; [|eauto].
  rewrite start_equation, decide_False; [done|]. rewrite Hr. by intros (_ & _ & ?).
Qed.

Lemma start_once_witness :
  let m' := <[7 := mkRequest 7 grab_frame false QUEUED 0 0]> ∅ in
  let ops := [MarkSent 7 0; OnAck 7 AckStatus.OK 5] in
  start 7 stop_frame true (run ops m') = (false, run ops m')
  /\ exists r, run ops m' !! 7 = Some r /\ frame r = grab_frame /\ is_stop r = false.
Proof.
  intros m' ops. apply (start_once 7 grab_frame false ∅). vm_compute. reflexivity.
Defined.
