(* ===== verification/HandUart.v ===== *)
(** * The serial port of the hand bridge

    Models the functions of [ros2_ws/src/hand_bridge/src/hand_bridge_node.cpp]
    that talk to the UART: [open_uart], [write_uart] and the line assembly of
    [uart_rx_worker].

    A system call is represented by what it returned, [ret] and [errno]; the
    kernel's side is an argument of the definitions.  The termios constants and
    [cfmakeraw] are section variables. *)

From Stdlib Require Import Ascii.
From S2P Require Import Prelude.

(** What a system call returned. *)
Record SysRet := mkRet { ret : Z; errno : Z }.

Definition EINTR : Z := 4.
Definition EAGAIN : Z := 11.

(** ** [write_uart] *)

(** The [while] loop from [total_written] on, consuming the results of the
    successive [write] calls; a call that returns [ret > 0] has taken the first
    [ret] bytes it was offered.  The result is the returned flag with the bytes
    that went out, or [None] while the results at hand do not finish the loop. *)
Fixpoint write_loop (data : text) (total_written : nat) (results : list SysRet)
    : option (bool * text) :=
  if decide (total_written < length data)%nat then
    match results with
    | [] => None
    | r :: results' =>
        if 0 <? ret r then
          let n := Z.to_nat (ret r) in
          match write_loop data (total_written + n) results' with
          | Some (ok, out) => Some (ok, take n (drop total_written data) ++ out)
          | None => None
          end
        else if (ret r <? 0) && (errno r =? EINTR) then
          write_loop data total_written results'
        else if ret r =? 0 then Some (false, [])
        else Some (false, [])
    end
  else Some (true, []).

Definition write_uart (uart_fd : Z) (data : text) (results : list SysRet)
    : option (bool * text) :=
  if uart_fd <? 0 then Some (false, []) else write_loop data 0 results.

(** A call interrupted before it transferred anything. *)
Definition interrupted (r : SysRet) : bool := (ret r <? 0) && (errno r =? EINTR).

Lemma write_loop_spec data total results ok out :
  (total <= length data)%nat ->
  write_loop data total results = Some (ok, out) ->
  (ok = true /\ out = drop total data)
  \/ (ok = false /\ exists rest, rest <> [] /\ drop total data = out ++ rest).
Proof.
  revert total ok out. induction results as [|r results IH]; intros total ok out Hle;
    simpl; case_decide as Hlt; intros Hw; simplify_eq.
  - left. by rewrite drop_ge by lia.
  - destruct (0 <? ret r) eqn:Hpos; reflect_bools.
    + destruct (write_loop data (total + Z.to_nat (ret r)) results) as [[ok' out']|] eqn:E;
        [|done]. simplify_eq.
      destruct (decide (total + Z.to_nat (ret r) <= length data)%nat) as [Hin|Hout].
      * apply IH in E; [|done]. rewrite <- drop_drop in E.
        destruct E as [[-> ->]|(-> & rest & ? & Hrest)]; [left|right].
        { by rewrite take_drop. }
        split; [done|]. exists rest. by rewrite <- app_assoc, <- Hrest, take_drop.
      * rewrite take_ge by (rewrite length_drop; lia).
        destruct results; simpl in E; rewrite decide_False in E by lia; simplify_eq;
          left; by rewrite app_nil_r.
    + destruct (_ && _); [by eapply IH|].
      right. assert (ok = false /\ out = []) as [-> ->] by (by case_match; simplify_eq).
      split; [done|]. exists (drop total data). split; [|done].
      intros Hnil%(f_equal length). rewrite length_drop in Hnil. simpl in Hnil. lia.
  - left. by rewrite drop_ge by lia.
Qed.

Lemma write_uart_cases uart_fd data results ok out :
  0 <= uart_fd -> write_uart uart_fd data results = Some (ok, out) ->
  (ok = true /\ out = data)
  \/ (ok = false /\ exists rest, rest <> [] /\ data = out ++ rest).
Proof.
  unfold write_uart. intros Hfd. rewrite (proj2 (Z.ltb_ge _ _)) by done.
  intros H%write_loop_spec; [|lia]. by rewrite drop_0 in H.
Qed.

(** C30: on an open port [write_uart] reports success exactly when every byte of the frame has
    gone out, in order; when it reports failure the bytes that went out are a proper prefix
    of the frame. *)
Theorem write_uart_all_or_prefix uart_fd data results ok out :
  0 <= uart_fd -> write_uart uart_fd data results = Some (ok, out) ->
  (ok = true <-> out = data)
  /\ (ok = false -> exists rest, rest <> [] /\ data = out ++ rest).
Proof.
  intros Hfd Hw. destruct (write_uart_cases _ _ _ _ _ Hfd Hw) as [[-> ->]|(-> & rest & Hr & ->)].
  - done.
  - split; [|by eauto]. split; [done|]. intros Heq%(f_equal length).
    rewrite length_app in Heq. destruct rest; [done|]. simpl in Heq. lia.
Qed.

Lemma write_uart_all_or_prefix_witness :
  let results := [mkRet 4 0; mkRet (-1) EINTR; mkRet 3 0; mkRet 0 0] in
  write_uart 3 (txt "SEQ:1 STOP") results = Some (false, txt "SEQ:1 S")
  /\ exists rest, rest <> [] /\ txt "SEQ:1 STOP" = txt "SEQ:1 S" ++ rest.
Proof.
  intros results. split; [vm_compute; reflexivity|].
  apply (write_uart_all_or_prefix 3 _ results false); [lia|vm_compute; reflexivity|done].
Defined.

(** [write_uart] returns as soon as the kernel has answered [data.size()] calls that were
    not interrupted by a signal, so interrupted calls alone can delay it. *)
Lemma write_uart_terminates uart_fd data results :
  (length data <= length (filter (fun r => interrupted r = false) results))%nat ->
  is_Some (write_uart uart_fd data results).
Proof.
  unfold write_uart. intros Hlen. case_match; [done|].
  assert (forall total, (length data <= total + length (filter (fun r => interrupted r = false) results))%nat ->
            is_Some (write_loop data total results)) as Hgen; [|by apply Hgen].
  clear. induction results as [|r results IH]; intros total Hlen; simpl;
    case_decide; try done; [simpl in Hlen; lia|].
  rewrite filter_cons in Hlen. fold (interrupted r). case_decide as Hi; simpl in Hlen.
  - destruct (0 <? ret r) eqn:Hpos; reflect_bools.
    + by destruct (IH (total + Z.to_nat (ret r))%nat ltac:(lia)) as [[ok out] ->].
    + rewrite Hi. by case_match.
  - destruct (0 <? ret r) eqn:Hpos; reflect_bools.
    + by destruct (IH (total + Z.to_nat (ret r))%nat ltac:(lia)) as [[ok out] ->].
    + apply not_false_is_true in Hi as ->. auto.
Qed.

Lemma write_uart_terminates_witness :
  is_Some (write_uart 3 (txt "AB") [mkRet (-1) EINTR; mkRet 1 0; mkRet (-1) 5]).
Proof. apply write_uart_terminates. vm_compute. repeat constructor. Defined.

(** ** The line assembly of [uart_rx_worker] *)

Record RxState := mkRx { rx_line : text; discard_line : bool }.

Definition rx_init : RxState := mkRx [] false.

(** One turn of the [for] loop over the buffer: the new state, and the line
    handed to the parser, if this character completed one. *)
Definition rx_char (st : RxState) (ch : ascii) : RxState * option text :=
  if decide (ch = LF) then
    (mkRx [] false,
     if negb (discard_line st) && negb (bool_decide (rx_line st = []))
     then Some (rx_line st) else None)
  else if negb (discard_line st) then
    if (length (rx_line st) <? 95)%nat
    then (mkRx (rx_line st ++ [ch]) (discard_line st), None)
    else (mkRx [] true, None)
  else (st, None).

Fixpoint rx_feed (st : RxState) (chars : text) : RxState * list text :=
  match chars with
  | [] => (st, [])
  | ch :: chars' =>
      let '(st', line) := rx_char st ch in
      let '(st'', lines) := rx_feed st' chars' in
      (st'', option_list line ++ lines)
  end.

(** *** Reference: split at the line feeds, keep the lines that fit *)

(** The completed lines of a stream and the unfinished rest, [cur] being what
    has been read of the current line. *)
Fixpoint split_lines (cur : text) (chars : text) : list text * text :=
  match chars with
  | [] => ([], cur)
  | ch :: chars' =>
      if decide (ch = LF) then
        let '(lines, rest) := split_lines [] chars' in (cur :: lines, rest)
      else split_lines (cur ++ [ch]) chars'
  end.

Definition line_fits (l : text) : bool := (0 <? length l)%nat && (length l <=? 95)%nat.

(** The worker's state after reading the unfinished line [cur]. *)
Definition rx_of (cur : text) : RxState :=
  if (length cur <=? 95)%nat then mkRx cur false else mkRx [] true.

Lemma rx_char_lf cur :
  rx_char (rx_of cur) LF = (rx_of [], if line_fits cur then Some cur else None).
Proof.
  unfold rx_char, rx_of, line_fits. rewrite decide_True by done.
  destruct (Nat.leb_spec (length cur) 95); simpl; [|by rewrite andb_false_r].
  destruct cur; done.
Qed.

Lemma rx_char_other cur ch :
  ch <> LF -> rx_char (rx_of cur) ch = (rx_of (cur ++ [ch]), None).
Proof.
  intros Hch. unfold rx_char, rx_of. rewrite decide_False by done.
  rewrite length_app. simpl.
  destruct (Nat.leb_spec (length cur) 95); simpl.
  - destruct (Nat.ltb_spec (length cur) 95), (Nat.leb_spec (length cur + 1) 95); (done || lia).
  - destruct (Nat.leb_spec (length cur + 1) 95); [lia|done].
Qed.

Lemma rx_feed_split cur chars :
  rx_feed (rx_of cur) chars
  = (rx_of (split_lines cur chars).2,
     filter (fun l => line_fits l = true) (split_lines cur chars).1).
Proof.
  revert cur. induction chars as [|ch chars IH]; intros cur; cbn [rx_feed split_lines]; [done|].
  destruct (decide (ch = LF)) as [->|Hch].
  - rewrite rx_char_lf, IH. destruct (split_lines [] chars) as [lines rest]. cbn [fst snd].
    rewrite filter_cons. by destruct (line_fits cur).
  - by rewrite rx_char_other, IH by done.
Qed.

(** C29: the receive worker hands to the parser exactly the lines of the stream, split at line
    feeds, that have between 1 and 95 characters, in their order; empty and longer lines are
    dropped whole and never merged with the next one, and at most 95 characters are held. *)
Theorem rx_feed_reference chars :
  (rx_feed rx_init chars).2
    = filter (fun l => line_fits l = true) (split_lines [] chars).1
  /\ (length (rx_line (rx_feed rx_init chars).1) <= 95)%nat.
Proof.
  change rx_init with (rx_of []). rewrite rx_feed_split. split; [done|].
  unfold rx_of. cbn [fst].
  destruct (Nat.leb_spec (length (split_lines [] chars).2) 95); simpl; lia.
Qed.

Lemma rx_feed_app st a b :
  rx_feed st (a ++ b)
  = let '(st1, l1) := rx_feed st a in
    let '(st2, l2) := rx_feed st1 b in (st2, l1 ++ l2).
Proof.
  revert st. induction a as [|ch a IH]; intros st; simpl; [by destruct (rx_feed st b)|].
  destruct (rx_char st ch) as [st' line]. rewrite IH.
  destruct (rx_feed st' a) as [st1 l1]. destruct (rx_feed st1 b) as [st2 l2].
  by rewrite app_assoc.
Qed.

(** ** [open_uart] *)

(** The fields of [struct termios] that the function assigns itself. *)
Record Termios := mkTermios { c_cflag : Z; vmin : Z; vtime : Z }.

Inductive UartCall :=
  | CallOpen
  | CallClose (fd : Z)
  | CallSetattr (tty : Termios)
  | CallFlush.

Definition closes (calls : list UartCall) : list Z :=
  omap (fun c => match c with CallClose fd => Some fd | _ => None end) calls.

Section open_uart.
(** The [c_cflag] masks of [termios.h], and the library functions that fill in
    the rest of the structure. *)
Context (CSIZE CS8 PARENB CSTOPB CRTSCTS CREAD CLOCAL : Z).
Context (cfmakeraw : Termios -> Termios).
Context (cfsetispeed cfsetospeed : Termios -> Z * Termios).

(** [c_cflag &= ~CSIZE; c_cflag |= CS8; ...] *)
Definition set_cflags (flags : Z) : Z :=
  let flags := Z.land flags (Z.lnot CSIZE) in
  let flags := Z.lor flags CS8 in
  let flags := Z.land flags (Z.lnot PARENB) in
  let flags := Z.land flags (Z.lnot CSTOPB) in
  let flags := Z.land flags (Z.lnot CRTSCTS) in
  Z.lor flags (Z.lor CREAD CLOCAL).

(** The returned flag, the new [uart_fd_] and the calls made.  [open_ret],
    [getattr] and [setattr_ret] are what [open], [tcgetattr] (with the structure
    it filled) and [tcsetattr] returned. *)
Definition open_uart (baud_rate : Z) (uart_fd : Z)
    (open_ret : Z) (getattr : Z * Termios) (setattr_ret : Z)
    : bool * Z * list UartCall :=
  if negb (baud_rate =? 115200) then (false, uart_fd, [])
  else
    let uart_fd := open_ret in
    if uart_fd <? 0 then (false, uart_fd, [CallOpen])
    else if negb (getattr.1 =? 0) then (false, -1, [CallOpen; CallClose uart_fd])
    else
      let tty := cfmakeraw getattr.2 in
      let '(iret, tty) := cfsetispeed tty in
      if negb (iret =? 0) then (false, -1, [CallOpen; CallClose uart_fd])
      else
        let '(oret, tty) := cfsetospeed tty in
        if negb (oret =? 0) then (false, -1, [CallOpen; CallClose uart_fd])
        else
          let tty := mkTermios (set_cflags (c_cflag tty)) 0 5 in
          if negb (setattr_ret =? 0)
          then (false, -1, [CallOpen; CallSetattr tty; CallClose uart_fd])
          else (true, uart_fd, [CallOpen; CallSetattr tty; CallFlush]).

(** C31: [open_uart] never leaks a descriptor: when it succeeds [uart_fd_] is the opened
    descriptor and nothing was closed; when it fails after opening the port, that descriptor
    is closed exactly once, and [uart_fd_] stays negative on every failure. *)
Theorem open_uart_no_leak baud_rate uart_fd open_ret getattr setattr_ret :
  uart_fd < 0 ->
  let '(ok, fd, calls) := open_uart baud_rate uart_fd open_ret getattr setattr_ret in
  if ok then fd = open_ret /\ 0 <= fd /\ closes calls = []
  else fd < 0 /\ closes calls
                 = if (baud_rate =? 115200) && (0 <=? open_ret) then [open_ret] else [].
Proof.
  intros Hfd. unfold open_uart. destruct (baud_rate =? 115200); simpl; [|done].
  rewrite (Z.ltb_antisym _ open_ret).
  destruct (0 <=? open_ret) eqn:Ho; simpl; reflect_bools; [|done].
  destruct (getattr.1 =? 0); simpl; [|done].
  destruct (cfsetispeed _) as [iret tty]. destruct (iret =? 0); simpl; [|done].
  destruct (cfsetospeed _) as [oret tty']. destruct (oret =? 0); simpl; [|done].
  by destruct (setattr_ret =? 0).
Qed.
End open_uart.

Lemma open_uart_no_leak_witness :
  let '(ok, fd, calls) :=
    open_uart 48 48 256 64 2147483648 128 2048 (fun t => t) (fun t => (0, t))
      (fun t => (0, t)) 115200 (-1) 7 (0, mkTermios 0 1 0) (-1) in
  ok = false /\ fd < 0 /\ closes calls = [7].
Proof.
  pose proof (open_uart_no_leak 48 48 256 64 2147483648 128 2048 (fun t => t)
    (fun t => (0, t)) (fun t => (0, t)) 115200 (-1) 7 (0, mkTermios 0 1 0) (-1) eq_refl) as H.
  vm_compute in H. vm_compute. destruct H. auto.
Defined.
