(* ===== verification/HandBridgeNode.v ===== *)
(** * The hand bridge node

    Models [ros2_ws/src/hand_bridge/src/hand_bridge_node.cpp]: the command
    callback, the status service, the three worker threads, the destructor, and
    their interleavings.

    Each thread is a small automaton whose transitions are the code's atomic
    sections: what runs while [ack_mutex_] or [queue_mutex_] is held, or one
    access to an atomic variable.  [step e n] performs one such section of one
    thread, [None] meaning that the thread is not there or has to wait.  Only
    [uart_tx_worker] waits on [queue_cv_]: under the mutex it tests its predicate
    and, if that does not hold, falls asleep, and a sleeping thread moves only when
    a [notify_one], a [notify_all] or a spurious wake-up makes it test again.  The
    notifications come after the mutex was released, so they are sections of their
    own.  The
    outcome of every system call and every reading of the clock is part of the
    event.  [rclcpp::spin] runs the callbacks one at a time in the main thread,
    which also runs the destructor after it returned, so callbacks and
    destructor share one automaton. *)

From Stdlib Require Import Ascii String.
From S2P Require Import Prelude AckParser RetryPolicy HandUart.
Import RequestState (QUEUED, WAITING_ACK, EXECUTING, RETRY_QUEUED, SUCCEEDED,
  SUPERSEDED, RESULT_UNKNOWN).

(** ** Commands and their frames *)

Definition valid_command (cmd : text) : bool :=
  bool_decide (cmd = txt "OPEN") || bool_decide (cmd = txt "GRAB")
  || bool_decide (cmd = txt "RELEASE") || bool_decide (cmd = txt "STOP").

Definition map_to_uart_command (cmd : text) (seq : Z) : text :=
  let finish (action : text) :=
    txt "SEQ:" ++ to_string seq ++ txt " CMD:" ++ action ++ [CR; LF] in
  if decide (cmd = txt "OPEN") then finish (txt "HAND_OPEN")
  else if decide (cmd = txt "GRAB") then finish (txt "HAND_GRAB")
  else if decide (cmd = txt "RELEASE") then finish (txt "HAND_RELEASE")
  else if decide (cmd = txt "STOP") then finish (txt "HAND_STOP")
  else [].

Definition request_state_to_string (s : RequestState) : text :=
  match s with
  | QUEUED => txt "QUEUED"
  | WAITING_ACK => txt "WAITING_ACK"
  | EXECUTING => txt "EXECUTING"
  | RETRY_QUEUED => txt "RETRY_QUEUED"
  | SUCCEEDED => txt "SUCCEEDED"
  | RequestState.PREEMPTED => txt "PREEMPTED"
  | RequestState.BUSY => txt "BUSY"
  | RequestState.ERROR => txt "ERROR"
  | SUPERSEDED => txt "SUPERSEDED"
  | RESULT_UNKNOWN => txt "RESULT_UNKNOWN"
  end.

#[export] Instance RequestState_named : Named RequestState := request_state_to_string.
#[export] Instance RequestState_named_inj : NamedInj RequestState.
Proof. intros [] []; done. Qed.

(** ** The state *)

(** Where the main thread is. *)
Inductive MainPc :=
  | Spinning                                       (* in [rclcpp::spin], no callback *)
  | Enqueueing (f : RetryFrame) (is_stop : bool)   (* callback, before [enqueue_uart_command] *)
  | Notifying                                      (* callback, before [notify_one] *)
  | EnqueueFailed (seq : Z)                        (* callback, before [mark_send_failed] *)
  | DtorStopRx                                     (* destructor, [retry_stop_] is set *)
  | DtorStopTx                                     (* destructor, [rx_stop_] is set too *)
  | DtorNotifying                                  (* destructor, queue cleared, before [notify_all] *)
  | DtorJoining                                    (* destructor, notified *)
  | Destroyed.

(** Where [uart_tx_worker] is. *)
Inductive TxPc :=
  | TxWaiting                    (* before the test of the predicate, awake *)
  | TxAsleep                     (* in [queue_cv_.wait], not notified *)
  | TxHolding (f : RetryFrame)
  | TxStopped.

(** Where [uart_rx_worker] is, with its local [rx_line] and [discard_line]. *)
Inductive RxPc :=
  | RxTop (st : RxState)
  | RxReading (st : RxState)
  | RxBytes (st : RxState) (bytes : text)
  | RxStopped.

#[export] Instance RxState_eq_dec : EqDecision RxState.
Proof. solve_decision. Defined.
#[export] Instance RxPc_eq_dec : EqDecision RxPc.
Proof. solve_decision. Defined.
#[export] Instance TxPc_eq_dec : EqDecision TxPc.
Proof. solve_decision. Defined.

(** Where [retry_worker] is. *)
Inductive RetryPc :=
  | RetryTop
  | RetryPolling
  | RetryFrames (frames : list RetryFrame)
  | RetryEnqueue (f : RetryFrame) (frames : list RetryFrame)
  | RetryNotify (frames : list RetryFrame)   (* enqueued, before [notify_one] *)
  | RetryStopped.

#[export] Instance RetryPc_eq_dec : EqDecision RetryPc.
Proof. solve_decision. Defined.

(** One call of [write_uart]: the frame, the bytes that went out, the result. *)
Record Transmission := mkTransmission {
  tx_frame : RetryFrame;
  tx_bytes : text;
  tx_ok : bool;
}.

Record Node := mkNode {
  uart_fd_ : Z;
  next_seq_ : Z;
  latest_requested_seq_ : Z;
  command_queue_ : list RetryFrame;
  stop_worker_ : bool;
  rx_stop_ : bool;
  retry_stop_ : bool;
  requests_ : Requests;
  main_pc : MainPc;
  tx_pc : TxPc;
  rx_pc : RxPc;
  retry_pc : RetryPc;
  wire : list Transmission;    (* what left through the port, oldest first *)
  acks : list (Z * AckStatus); (* the acknowledgements parsed so far *)
}.

(** Field updates. *)
Definition with_main (pc : MainPc) (n : Node) : Node :=
  mkNode (uart_fd_ n) (next_seq_ n) (latest_requested_seq_ n) (command_queue_ n)
    (stop_worker_ n) (rx_stop_ n) (retry_stop_ n) (requests_ n)
    pc (tx_pc n) (rx_pc n) (retry_pc n) (wire n) (acks n).
Definition with_tx (pc : TxPc) (n : Node) : Node :=
  mkNode (uart_fd_ n) (next_seq_ n) (latest_requested_seq_ n) (command_queue_ n)
    (stop_worker_ n) (rx_stop_ n) (retry_stop_ n) (requests_ n)
    (main_pc n) pc (rx_pc n) (retry_pc n) (wire n) (acks n).
Definition with_rx (pc : RxPc) (n : Node) : Node :=
  mkNode (uart_fd_ n) (next_seq_ n) (latest_requested_seq_ n) (command_queue_ n)
    (stop_worker_ n) (rx_stop_ n) (retry_stop_ n) (requests_ n)
    (main_pc n) (tx_pc n) pc (retry_pc n) (wire n) (acks n).
Definition with_retry (pc : RetryPc) (n : Node) : Node :=
  mkNode (uart_fd_ n) (next_seq_ n) (latest_requested_seq_ n) (command_queue_ n)
    (stop_worker_ n) (rx_stop_ n) (retry_stop_ n) (requests_ n)
    (main_pc n) (tx_pc n) (rx_pc n) pc (wire n) (acks n).
Definition with_requests (m : Requests) (n : Node) : Node :=
  mkNode (uart_fd_ n) (next_seq_ n) (latest_requested_seq_ n) (command_queue_ n)
    (stop_worker_ n) (rx_stop_ n) (retry_stop_ n) m
    (main_pc n) (tx_pc n) (rx_pc n) (retry_pc n) (wire n) (acks n).
Definition with_queue (q : list RetryFrame) (n : Node) : Node :=
  mkNode (uart_fd_ n) (next_seq_ n) (latest_requested_seq_ n) q
    (stop_worker_ n) (rx_stop_ n) (retry_stop_ n) (requests_ n)
    (main_pc n) (tx_pc n) (rx_pc n) (retry_pc n) (wire n) (acks n).
Definition with_flags (fd : Z) (stop rx retry : bool) (n : Node) : Node :=
  mkNode fd (next_seq_ n) (latest_requested_seq_ n) (command_queue_ n)
    stop rx retry (requests_ n)
    (main_pc n) (tx_pc n) (rx_pc n) (retry_pc n) (wire n) (acks n).
Definition with_seqs (next latest : Z) (n : Node) : Node :=
  mkNode (uart_fd_ n) next latest (command_queue_ n)
    (stop_worker_ n) (rx_stop_ n) (retry_stop_ n) (requests_ n)
    (main_pc n) (tx_pc n) (rx_pc n) (retry_pc n) (wire n) (acks n).
Definition with_wire (w : list Transmission) (n : Node) : Node :=
  mkNode (uart_fd_ n) (next_seq_ n) (latest_requested_seq_ n) (command_queue_ n)
    (stop_worker_ n) (rx_stop_ n) (retry_stop_ n) (requests_ n)
    (main_pc n) (tx_pc n) (rx_pc n) (retry_pc n) w (acks n).
Definition with_acks (a : list (Z * AckStatus)) (n : Node) : Node :=
  mkNode (uart_fd_ n) (next_seq_ n) (latest_requested_seq_ n) (command_queue_ n)
    (stop_worker_ n) (rx_stop_ n) (retry_stop_ n) (requests_ n)
    (main_pc n) (tx_pc n) (rx_pc n) (retry_pc n) (wire n) a.

(** The constructor: [open_result] is what [open_uart] returned with the
    descriptor it left; the workers are started only when it succeeded. *)
Definition construct (open_result : bool * Z) : Node :=
  let '(opened, fd) := open_result in
  mkNode fd 1 0 [] false false false ∅ Spinning
    (if opened then TxWaiting else TxStopped)
    (if opened then RxTop rx_init else RxStopped)
    (if opened then RetryTop else RetryStopped)
    [] [].

(** ** The main thread *)

(** [queue_cv_.notify_one] and [queue_cv_.notify_all] wake the one thread that may
    sleep, and are lost when it does not. *)
Definition woken (pc : TxPc) : TxPc := match pc with TxAsleep => TxWaiting | pc => pc end.
Definition notify (n : Node) : Node := with_tx (woken (tx_pc n)) n.

(** The section of [enqueue_uart_command] under [queue_mutex_], with the result
    of the call; when it is true the notification follows. *)
Definition enqueue_uart_command (f : RetryFrame) (high_priority : bool) (n : Node)
    : bool * Node :=
  if stop_worker_ n then (false, n)
  else if high_priority then (true, with_queue (f :: command_queue_ n) n)
  else (true, with_queue (command_queue_ n ++ [f]) n).

(** The callback up to the end of the section under [ack_mutex_]; the rest of
    it, when it goes on, is [Enqueueing]. *)
Definition command_callback (cmd : text) (n : Node) : Node :=
  if negb (valid_command cmd) then n
  else if uart_fd_ n <? 0 then n
  else
    let seq := next_seq_ n in
    let n := with_seqs (u32 (seq + 1)) (latest_requested_seq_ n) n in
    if seq =? 0 then n
    else
      let is_stop := bool_decide (cmd = txt "STOP") in
      let frame := map_to_uart_command cmd seq in
      if bool_decide (frame = []) then n
      else
        let m := if is_stop then cancel_non_stop (requests_ n) else requests_ n in
        let '(started, m) := start seq frame is_stop m in
        let n := with_requests m n in
        if negb started then n
        else with_main (Enqueueing (mkFrame seq frame) is_stop)
               (with_seqs (next_seq_ n) seq n).

(** The [/hand_status] service: [(success, message)]. *)
Definition status_callback (n : Node) : bool * text :=
  let seq := latest_requested_seq_ n in
  if seq =? 0 then (false, txt "No command submitted")
  else
    match find seq (requests_ n) with
    | None => (false, txt "Request not found")
    | Some item =>
        (bool_decide (state item = SUCCEEDED),
         txt "SEQ:" ++ to_string seq ++ txt " STATUS:" ++ request_state_to_string (state item))
    end.

(** ** [uart_tx_worker] *)

(** The section under [queue_mutex_]: the test of the predicate, which puts the
    thread to sleep on the condition variable or lets it go on. *)
Definition tx_take (n : Node) : option Node :=
  match tx_pc n with
  | TxWaiting =>
      if stop_worker_ n then Some (with_tx TxStopped n)
      else
        match command_queue_ n with
        | [] => Some (with_tx TxAsleep n)
        | frame :: queue => Some (with_tx (TxHolding frame) (with_queue queue n))
        end
  | _ => None
  end.

(** A wake-up without a notification. *)
Definition tx_spurious (n : Node) : option Node :=
  match tx_pc n with TxAsleep => Some (with_tx TxWaiting n) | _ => None end.

(** The section under [ack_mutex_]: the check, the write and the bookkeeping. *)
Definition tx_send (now : TimePoint) (results : list SysRet) (n : Node) : option Node :=
  match tx_pc n with
  | TxHolding frame =>
      if negb (should_transmit (frame_seq frame) (requests_ n)) then
        Some (with_tx TxWaiting n)
      else
        match write_uart (uart_fd_ n) (frame_text frame) results with
        | None => None
        | Some (sent, out) =>
            let m :=
              if sent then (mark_sent (frame_seq frame) now (requests_ n)).2
              else (mark_send_failed (frame_seq frame) (requests_ n)).2 in
            Some (with_tx TxWaiting
                    (with_wire (wire n ++ [mkTransmission frame out sent])
                       (with_requests m n)))
        end
  | _ => None
  end.

(** ** [uart_rx_worker] *)

Definition rx_top (n : Node) : option Node :=
  match rx_pc n with
  | RxTop st => Some (with_rx (if rx_stop_ n then RxStopped else RxReading st) n)
  | _ => None
  end.

(** [read] returned [r] and filled [buffer]; it returns at most the 128 bytes
    asked for. *)
Definition rx_read (r : SysRet) (buffer : text) (n : Node) : option Node :=
  match rx_pc n with
  | RxReading st =>
      if 128 <? ret r then None
      else if ret r =? 0 then Some (with_rx (RxTop st) n)
      else if ret r <? 0 then
        if (errno r =? EINTR) || (errno r =? EAGAIN) then Some (with_rx (RxTop st) n)
        else Some (with_rx RxStopped n)
      else Some (with_rx (RxBytes st (take (Z.to_nat (ret r)) buffer)) n)
  | _ => None
  end.

(** One turn of the [for] loop, or its exit. *)
Definition rx_byte (now : TimePoint) (n : Node) : option Node :=
  match rx_pc n with
  | RxBytes st [] => Some (with_rx (RxTop st) n)
  | RxBytes st (ch :: bytes) =>
      let '(st, line) := rx_char st ch in
      let n := with_rx (RxBytes st bytes) n in
      match line with
      | None => Some n
      | Some rx_line =>
          match parse_ack (rx_line ++ [LF]) with
          | None => Some n
          | Some (seq, status) =>
              let '(accepted, m) := on_ack seq status now (requests_ n) in
              Some (with_acks (acks n ++ [(seq, status)]) (with_requests m n))
          end
      end
  | _ => None
  end.

(** ** [retry_worker] *)

Definition retry_top (n : Node) : option Node :=
  match retry_pc n with
  | RetryTop => Some (with_retry (if retry_stop_ n then RetryStopped else RetryPolling) n)
  | _ => None
  end.

Definition retry_poll (now : TimePoint) (n : Node) : option Node :=
  match retry_pc n with
  | RetryPolling =>
      let '(frames, m) := poll now (requests_ n) in
      Some (with_retry (RetryFrames frames) (with_requests m n))
  | _ => None
  end.

(** The head of the [for] loop: the exits lead to the sleep and the loop test. *)
Definition retry_next (n : Node) : option Node :=
  match retry_pc n with
  | RetryFrames [] => Some (with_retry RetryTop n)
  | RetryFrames (frame :: frames) =>
      if retry_stop_ n then Some (with_retry RetryTop n)
      else Some (with_retry (RetryEnqueue frame frames) n)
  | _ => None
  end.

Definition retry_enqueue (n : Node) : option Node :=
  match retry_pc n with
  | RetryEnqueue frame frames =>
      let '(ok, n) := enqueue_uart_command frame false n in
      Some (with_retry (if ok then RetryNotify frames else RetryFrames frames) n)
  | _ => None
  end.

Definition retry_notify (n : Node) : option Node :=
  match retry_pc n with
  | RetryNotify frames => Some (with_retry (RetryFrames frames) (notify n))
  | _ => None
  end.

(** ** Interleavings *)

Inductive Event :=
  | EvCommand (cmd : text)
  | EvEnqueue
  | EvNotify
  | EvSendFailed
  | EvDestroy
  | EvDtorRx
  | EvDtorQueue
  | EvDtorClose
  | EvTxTake
  | EvTxSpurious
  | EvTxSend (now : TimePoint) (results : list SysRet)
  | EvRxTop
  | EvRxRead (r : SysRet) (buffer : text)
  | EvRxByte (now : TimePoint)
  | EvRetryTop
  | EvRetryPoll (now : TimePoint)
  | EvRetryNext
  | EvRetryEnqueue
  | EvRetryNotify.

Definition joined (n : Node) : bool :=
  match tx_pc n, rx_pc n, retry_pc n with
  | TxStopped, RxStopped, RetryStopped => true
  | _, _, _ => false
  end.

(** The sections of the main thread: callbacks, then the destructor. *)
Definition main_step (e : Event) (n : Node) : option Node :=
  match e, main_pc n with
  | EvCommand cmd, Spinning => Some (command_callback cmd n)
  | EvEnqueue, Enqueueing f is_stop =>
      let '(ok, n) := enqueue_uart_command f is_stop n in
      Some (with_main (if ok then Notifying else EnqueueFailed (frame_seq f)) n)
  | EvNotify, Notifying => Some (with_main Spinning (notify n))
  | EvSendFailed, EnqueueFailed seq =>
      Some (with_main Spinning (with_requests (mark_send_failed seq (requests_ n)).2 n))
  | EvDestroy, Spinning =>
      Some (with_main DtorStopRx
              (with_flags (uart_fd_ n) (stop_worker_ n) (rx_stop_ n) true n))
  | EvDtorRx, DtorStopRx =>
      Some (with_main DtorStopTx
              (with_flags (uart_fd_ n) (stop_worker_ n) true (retry_stop_ n) n))
  | EvDtorQueue, DtorStopTx =>
      Some (with_main DtorNotifying
              (with_queue [] (with_flags (uart_fd_ n) true (rx_stop_ n) (retry_stop_ n) n)))
  | EvNotify, DtorNotifying => Some (with_main DtorJoining (notify n))
  | EvDtorClose, DtorJoining =>
      if joined n then
        Some (with_main Destroyed
                (with_flags (if 0 <=? uart_fd_ n then -1 else uart_fd_ n)
                   (stop_worker_ n) (rx_stop_ n) (retry_stop_ n) n))
      else None
  | _, _ => None
  end.

Definition step (e : Event) (n : Node) : option Node :=
  match e with
  | EvTxTake => tx_take n
  | EvTxSpurious => tx_spurious n
  | EvTxSend now results => tx_send now results n
  | EvRxTop => rx_top n
  | EvRxRead r buffer => rx_read r buffer n
  | EvRxByte now => rx_byte now n
  | EvRetryTop => retry_top n
  | EvRetryPoll now => retry_poll now n
  | EvRetryNext => retry_next n
  | EvRetryEnqueue => retry_enqueue n
  | EvRetryNotify => retry_notify n
  | _ => main_step e n
  end.

Fixpoint exec (es : list Event) (n : Node) : option Node :=
  match es with
  | [] => Some n
  | e :: es' => match step e n with Some n' => exec es' n' | None => None end
  end.

Definition nstep (n n' : Node) : Prop := exists e, step e n = Some n'.

(** The states a node with port [r] can be in. *)
Definition reachable (r : bool * Z) (n : Node) : Prop := rtc nstep (construct r) n.

Lemma exec_rtc es n n' : exec es n = Some n' -> rtc nstep n n'.
Proof.
  revert n. induction es as [|e es IH]; intros n; simpl; [by intros; simplify_eq|].
  destruct (step e n) eqn:E; [|done]. intros H. eapply rtc_l; [by exists e|by apply IH].
Qed.

Lemma rtc_exec n n' : rtc nstep n n' -> exists es, exec es n = Some n'.
Proof.
  induction 1 as [n|n1 n2 n3 [e He] _ [es Hes]]; [by exists []|].
  exists (e :: es). simpl. by rewrite He.
Qed.
