(* ===== verification/HandBridgeScenarios.v ===== *)
(** * Runs of the hand bridge node

    The scenario of [notes/month7/day09_phase7.md] (a lost acknowledgement, a
    retry with the same number, success) and a stop that arrives while a grab
    is queued, as explicit schedules; the theorems use them as instances. *)

From Stdlib Require Import Ascii String.
From S2P Require Import Prelude AckParser RetryPolicy HandUart HandBridgeNode.

(** The kernel takes all [n] bytes in one call of [write]. *)
Definition writes (n : Z) : list SysRet := [mkRet n 0].

(** The transmitting thread sends the next frame at [now]. *)
Definition transmit (now : TimePoint) (n : Z) : list Event := [EvTxTake; EvTxSend now (writes n)].

(** The retry thread makes one round at [now] that finds one frame. *)
Definition retry_round (now : TimePoint) : list Event :=
  [EvRetryTop; EvRetryPoll now; EvRetryNext; EvRetryEnqueue; EvRetryNotify; EvRetryNext].

(** The receiving thread reads [line] at [now] in one call of [read]. *)
Definition receive (now : TimePoint) (line : text) : list Event :=
  [EvRxTop; EvRxRead (mkRet (Z.of_nat (length line)) 0) line]
  ++ replicate (S (length line)) (EvRxByte now).

Definition crlf (t : text) : text := t ++ [CR; LF].

(** A command is submitted and queued. *)
Definition submit (cmd : text) : list Event := [EvCommand cmd; EvEnqueue; EvNotify].
Definition grab : list Event := submit (txt "GRAB").

Definition in_progress_line : text := crlf (ack_line 1 AckStatus.IN_PROGRESS).
Definition ok_line : text := crlf (ack_line 1 AckStatus.OK).

(** Sent, unanswered for 1.5 s, sent again, in progress, done. *)
Definition lost_ack_trace : list Event :=
  grab ++ transmit 0 21 ++ retry_round (milliseconds 1500)
  ++ transmit (milliseconds 1510) 21
  ++ receive (milliseconds 1600) in_progress_line
  ++ receive (milliseconds 2600) ok_line.

Definition started : Node := construct (true, 3).

(** The node after a schedule. *)
Definition after (es : list Event) : Node := default started (exec es started).

Lemma after_reachable es : is_Some (exec es started) -> reachable (true, 3) (after es).
Proof. intros [n H]. unfold after. rewrite H. by apply (exec_rtc es). Qed.

Ltac run_trace := apply after_reachable, (bool_decide_unpack _); vm_compute; exact I.

Example lost_ack_wire :
  (fun t => (tx_bytes t, tx_ok t)) <$> wire (after lost_ack_trace)
  = replicate 2 (crlf (txt "SEQ:1 CMD:HAND_GRAB"), true).
Proof. vm_compute. reflexivity. Qed.

Example lost_ack_status :
  status_callback (after lost_ack_trace) = (true, txt "SEQ:1 STATUS:SUCCEEDED").
Proof. vm_compute. reflexivity. Qed.

(** A grab waits in the hands of the transmitting thread and an open in the
    queue when the stop comes. *)
Definition stop_trace : list Event :=
  grab ++ [EvTxTake] ++ submit (txt "OPEN") ++ [EvCommand (txt "STOP")].

Definition stop_wire_trace : list Event :=
  [EvNotify; EvTxSend 0 []] ++ transmit 0 21 ++ [EvTxTake; EvTxSend 0 []].

Example stop_wire :
  (fun t => (tx_bytes t, tx_ok t)) <$> wire (after (stop_trace ++ EvEnqueue :: stop_wire_trace))
  = [(crlf (txt "SEQ:3 CMD:HAND_STOP"), true)].
Proof. vm_compute. reflexivity. Qed.
