(* ===== verification/HandBridgeFacts.v ===== *)
(** * What the hand bridge node guarantees

    The theorems about [HandBridgeNode], for every interleaving of its threads.
    The central lemma, [nstep_refines], says that the node drives its request
    table only through the operations of [RetryPolicy] and that a completed
    transmission is exactly a successful [mark_sent]; the transmission bound and
    the effect of a stop are then inherited from the policy. *)

From Stdlib Require Import Ascii String.
From S2P Require Import Prelude AckParser RetryPolicy HandUart HandBridgeNode HandBridgeScenarios.
Import RequestState (QUEUED, WAITING_ACK, EXECUTING, RETRY_QUEUED, SUCCEEDED,
  SUPERSEDED, RESULT_UNKNOWN).

(** ** Frames *)

Lemma map_to_uart_command_nil cmd seq :
  map_to_uart_command cmd seq = [] <-> valid_command cmd = false.
Proof.
  unfold map_to_uart_command, valid_command.
  split.
  - intros H. do 4 (case_decide; [discriminate H|]). by rewrite !bool_decide_eq_false_2.
  - intros H. reflect_bools. by rewrite !decide_False.
Qed.

(** ** The node as a client of the policy *)

(** What the parser makes of a completed line. *)
Definition line_ack (line : option text) : option (Z * AckStatus) :=
  match line with Some l => parse_ack (l ++ [LF]) | None => None end.

(** The policy operations an event performs on the table. *)
Definition policy_ops (e : Event) (n : Node) : list Op :=
  match e with
  | EvCommand cmd =>
      match main_pc n with
      | Spinning =>
          if negb (valid_command cmd) || (uart_fd_ n <? 0) || (next_seq_ n =? 0) then []
          else (if bool_decide (cmd = txt "STOP") then [CancelNonStop] else [])
               ++ [Start (next_seq_ n) (map_to_uart_command cmd (next_seq_ n))
                     (bool_decide (cmd = txt "STOP"))]
      | _ => []
      end
  | EvSendFailed =>
      match main_pc n with EnqueueFailed seq => [MarkSendFailed seq] | _ => [] end
  | EvTxSend now results =>
      match tx_pc n with
      | TxHolding f =>
          if should_transmit (frame_seq f) (requests_ n) then
            match write_uart (uart_fd_ n) (frame_text f) results with
            | Some (true, _) => [MarkSent (frame_seq f) now]
            | Some (false, _) => [MarkSendFailed (frame_seq f)]
            | None => []
            end
          else []
      | _ => []
      end
  | EvRxByte now =>
      match rx_pc n with
      | RxBytes st (ch :: _) =>
          match line_ack (rx_char st ch).2 with
          | Some (seq, status) => [OnAck seq status now]
          | None => []
          end
      | _ => []
      end
  | EvRetryPoll now => [Poll now]
  | _ => []
  end.

(** The completed transmissions of the frame of [k]. *)
Definition transmissions (k : Z) (w : list Transmission) : Z :=
  Z.of_nat (length (filter (fun t => tx_ok t && (frame_seq (tx_frame t) =? k) = true) w)).

Lemma transmissions_app k w1 w2 :
  transmissions k (w1 ++ w2) = transmissions k w1 + transmissions k w2.
Proof. unfold transmissions. rewrite filter_app, length_app. lia. Qed.

(** ** The transitions, branch by branch *)

Inductive trans : Event -> Node -> Node -> Prop :=
  | t_command cmd n :
      main_pc n = Spinning -> trans (EvCommand cmd) n (command_callback cmd n)
  | t_enqueued f high n :
      main_pc n = Enqueueing f high -> stop_worker_ n = false ->
      trans EvEnqueue n
        (with_main Notifying
           (with_queue (if high then f :: command_queue_ n else command_queue_ n ++ [f]) n))
  | t_enqueue_failed f high n :
      main_pc n = Enqueueing f high -> stop_worker_ n = true ->
      trans EvEnqueue n (with_main (EnqueueFailed (frame_seq f)) n)
  | t_send_failed s n :
      main_pc n = EnqueueFailed s ->
      trans EvSendFailed n
        (with_main Spinning (with_requests (mark_send_failed s (requests_ n)).2 n))
  | t_destroy n :
      main_pc n = Spinning ->
      trans EvDestroy n
        (with_main DtorStopRx (with_flags (uart_fd_ n) (stop_worker_ n) (rx_stop_ n) true n))
  | t_dtor_rx n :
      main_pc n = DtorStopRx ->
      trans EvDtorRx n
        (with_main DtorStopTx (with_flags (uart_fd_ n) (stop_worker_ n) true (retry_stop_ n) n))
  | t_dtor_queue n :
      main_pc n = DtorStopTx ->
      trans EvDtorQueue n
        (with_main DtorNotifying
           (with_queue [] (with_flags (uart_fd_ n) true (rx_stop_ n) (retry_stop_ n) n)))
  | t_dtor_close n :
      main_pc n = DtorJoining -> joined n = true ->
      trans EvDtorClose n
        (with_main Destroyed
           (with_flags (if 0 <=? uart_fd_ n then -1 else uart_fd_ n)
              (stop_worker_ n) (rx_stop_ n) (retry_stop_ n) n))
  | t_tx_stop n :
      tx_pc n = TxWaiting -> stop_worker_ n = true ->
      trans EvTxTake n (with_tx TxStopped n)
  | t_tx_take f q n :
      tx_pc n = TxWaiting -> stop_worker_ n = false -> command_queue_ n = f :: q ->
      trans EvTxTake n (with_tx (TxHolding f) (with_queue q n))
  | t_tx_skip f now results n :
      tx_pc n = TxHolding f -> should_transmit (frame_seq f) (requests_ n) = false ->
      trans (EvTxSend now results) n (with_tx TxWaiting n)
  | t_tx_write f now results sent out n :
      tx_pc n = TxHolding f -> should_transmit (frame_seq f) (requests_ n) = true ->
      write_uart (uart_fd_ n) (frame_text f) results = Some (sent, out) ->
      trans (EvTxSend now results) n
        (with_tx TxWaiting
           (with_wire (wire n ++ [mkTransmission f out sent])
              (with_requests
                 (if sent then (mark_sent (frame_seq f) now (requests_ n)).2
                  else (mark_send_failed (frame_seq f) (requests_ n)).2) n)))
  | t_rx_top st n :
      rx_pc n = RxTop st ->
      trans EvRxTop n (with_rx (if rx_stop_ n then RxStopped else RxReading st) n)
  | t_rx_again st r buffer n :
      rx_pc n = RxReading st -> ret r <= 0 ->
      trans (EvRxRead r buffer) n (with_rx (RxTop st) n)
  | t_rx_error st r buffer n :
      rx_pc n = RxReading st -> ret r < 0 ->
      trans (EvRxRead r buffer) n (with_rx RxStopped n)
  | t_rx_data st r buffer n :
      rx_pc n = RxReading st -> 0 < ret r <= 128 ->
      trans (EvRxRead r buffer) n
        (with_rx (RxBytes st (take (Z.to_nat (ret r)) buffer)) n)
  | t_rx_done st now n :
      rx_pc n = RxBytes st [] -> trans (EvRxByte now) n (with_rx (RxTop st) n)
  | t_rx_char st ch bytes now n :
      rx_pc n = RxBytes st (ch :: bytes) ->
      line_ack (rx_char st ch).2 = None ->
      trans (EvRxByte now) n (with_rx (RxBytes (rx_char st ch).1 bytes) n)
  | t_rx_ack st ch bytes now s status n :
      rx_pc n = RxBytes st (ch :: bytes) ->
      line_ack (rx_char st ch).2 = Some (s, status) ->
      trans (EvRxByte now) n
        (with_acks (acks n ++ [(s, status)])
           (with_requests (on_ack s status now (requests_ n)).2
              (with_rx (RxBytes (rx_char st ch).1 bytes) n)))
  | t_retry_top n :
      retry_pc n = RetryTop ->
      trans EvRetryTop n (with_retry (if retry_stop_ n then RetryStopped else RetryPolling) n)
  | t_retry_poll now n :
      retry_pc n = RetryPolling ->
      trans (EvRetryPoll now) n
        (with_retry (RetryFrames (poll now (requests_ n)).1)
           (with_requests (poll now (requests_ n)).2 n))
  | t_retry_done n :
      retry_pc n = RetryFrames [] -> trans EvRetryNext n (with_retry RetryTop n)
  | t_retry_break f frames n :
      retry_pc n = RetryFrames (f :: frames) -> retry_stop_ n = true ->
      trans EvRetryNext n (with_retry RetryTop n)
  | t_retry_next f frames n :
      retry_pc n = RetryFrames (f :: frames) -> retry_stop_ n = false ->
      trans EvRetryNext n (with_retry (RetryEnqueue f frames) n)
  | t_retry_enqueue f frames n :
      retry_pc n = RetryEnqueue f frames ->
      trans EvRetryEnqueue n
        (if stop_worker_ n then with_retry (RetryFrames frames) n
         else with_retry (RetryNotify frames) (with_queue (command_queue_ n ++ [f]) n))
  | t_tx_sleep n :
      tx_pc n = TxWaiting -> stop_worker_ n = false -> command_queue_ n = [] ->
      trans EvTxTake n (with_tx TxAsleep n)
  | t_tx_spurious n :
      tx_pc n = TxAsleep -> trans EvTxSpurious n (with_tx TxWaiting n)
  | t_notify n :
      main_pc n = Notifying -> trans EvNotify n (with_main Spinning (notify n))
  | t_dtor_notify n :
      main_pc n = DtorNotifying -> trans EvNotify n (with_main DtorJoining (notify n))
  | t_retry_notify frames n :
      retry_pc n = RetryNotify frames ->
      trans EvRetryNotify n (with_retry (RetryFrames frames) (notify n)).

Lemma main_step_trans e n n' : main_step e n = Some n' -> trans e n n'.
Proof.
  intros H. unfold main_step in H.
  destruct e; try discriminate H; destruct (main_pc n) eqn:Hpc; try discriminate H.
  - injection H as <-. by constructor.
  - unfold enqueue_uart_command in H. destruct (stop_worker_ n) eqn:Hs; [|destruct is_stop].
    + injection H as <-. by econstructor.
    + injection H as <-. by apply (t_enqueued f true).
    + injection H as <-. by apply (t_enqueued f false).
  - injection H as <-. by constructor.
  - injection H as <-. by constructor.
  - injection H as <-. by constructor.
  - injection H as <-. by constructor.
  - injection H as <-. by constructor.
  - injection H as <-. by constructor.
  - destruct (joined n) eqn:Hj; [|discriminate H]. injection H as <-. by constructor.
Qed.

Lemma tx_step_trans n n' now results :
  (tx_take n = Some n' -> trans EvTxTake n n')
  /\ (tx_spurious n = Some n' -> trans EvTxSpurious n n')
  /\ (tx_send now results n = Some n' -> trans (EvTxSend now results) n n').
Proof.
  unfold tx_take, tx_spurious, tx_send. destruct (tx_pc n) as [| |f|] eqn:Hpc; split_and!; try discriminate.
  - destruct (stop_worker_ n) eqn:Hs; [intros [= <-]; by constructor|].
    destruct (command_queue_ n) eqn:Hq; intros [= <-]; [by apply t_tx_sleep|by econstructor].
  - intros [= <-]. by constructor.
  - destruct (should_transmit (frame_seq f) (requests_ n)) eqn:Hs; cbn [negb].
    + destruct (write_uart _ _ _) as [[sent out]|] eqn:Hw; [|discriminate].
      intros [= <-]. by eapply t_tx_write.
    + intros [= <-]. by econstructor.
Qed.

Lemma rx_step_trans n n' now r buffer :
  (rx_top n = Some n' -> trans EvRxTop n n')
  /\ (rx_read r buffer n = Some n' -> trans (EvRxRead r buffer) n n')
  /\ (rx_byte now n = Some n' -> trans (EvRxByte now) n n').
Proof.
  unfold rx_top, rx_read, rx_byte.
  destruct (rx_pc n) as [st|st|st [|ch bytes]|] eqn:Hpc; split_and!; try discriminate.
  - intros [= <-]. by econstructor.
  - destruct (Z.ltb_spec 128 (ret r)); [discriminate|].
    destruct (Z.eqb_spec (ret r) 0); [intros [= <-]; econstructor; [done|lia]|].
    destruct (Z.ltb_spec (ret r) 0).
    + destruct (_ || _); intros [= <-]; [apply t_rx_again|eapply t_rx_error]; (done || lia).
    + intros [= <-]. apply t_rx_data; [done|lia].
  - intros [= <-]. by constructor.
  - pose proof (t_rx_char st ch bytes now n Hpc) as Hchar.
    pose proof (t_rx_ack st ch bytes now) as Hack.
    destruct (rx_char st ch) as [st' [line|]]; cbn [fst snd line_ack] in *.
    + destruct (parse_ack _) as [[s status]|].
      * specialize (Hack s status n Hpc eq_refl).
        change (requests_ (with_rx (RxBytes st' bytes) n)) with (requests_ n).
        destruct (on_ack s status now (requests_ n)) as [acc m]. intros [= <-]. exact Hack.
      * intros [= <-]. by apply Hchar.
    + intros [= <-]. by apply Hchar.
Qed.

Lemma retry_step_trans n n' now :
  (retry_top n = Some n' -> trans EvRetryTop n n')
  /\ (retry_poll now n = Some n' -> trans (EvRetryPoll now) n n')
  /\ (retry_next n = Some n' -> trans EvRetryNext n n')
  /\ (retry_enqueue n = Some n' -> trans EvRetryEnqueue n n')
  /\ (retry_notify n = Some n' -> trans EvRetryNotify n n').
Proof.
  unfold retry_top, retry_poll, retry_next, retry_enqueue, retry_notify, enqueue_uart_command.
  destruct (retry_pc n) as [| |[|f frames]|f frames|frames|] eqn:Hpc; split_and!; try discriminate.
  - intros [= <-]. by constructor.
  - pose proof (t_retry_poll now n Hpc) as Hp.
    destruct (poll now (requests_ n)) as [frames m]. intros [= <-]. exact Hp.
  - intros [= <-]. by constructor.
  - destruct (retry_stop_ n) eqn:Hs; intros [= <-]; by econstructor.
  - pose proof (t_retry_enqueue f frames n Hpc) as Hp.
    destruct (stop_worker_ n); intros [= <-]; exact Hp.
  - intros [= <-]. by constructor.
Qed.

Lemma step_trans e n n' : step e n = Some n' -> trans e n n'.
Proof.
  destruct e; cbn [step]; try apply main_step_trans;
    (apply (tx_step_trans n n' 0 []) || apply (tx_step_trans n n' now results)
     || apply (rx_step_trans n n' 0 (mkRet 0 0) []) || apply (rx_step_trans n n' 0 r buffer)
     || apply (rx_step_trans n n' now (mkRet 0 0) [])
     || apply (retry_step_trans n n' 0) || apply (retry_step_trans n n' now)).
Qed.

(** *** The command callback *)

Lemma command_callback_requests cmd n :
  main_pc n = Spinning ->
  requests_ (command_callback cmd n) = run (policy_ops (EvCommand cmd) n) (requests_ n).
Proof.
  intros Hpc. unfold command_callback, policy_ops. rewrite Hpc.
  destruct (valid_command cmd) eqn:Hv; [|done]. cbn [negb orb].
  destruct (uart_fd_ n <? 0); [done|]. cbn [orb].
  destruct (Z.eqb_spec (next_seq_ n) 0); [done|].
  rewrite bool_decide_eq_false_2 by (rewrite map_to_uart_command_nil; congruence).
  destruct (bool_decide (cmd = txt "STOP")); cbn;
    destruct (start _ _ _ _) as [[] m]; done.
Qed.

Lemma command_callback_other cmd n :
  let n' := command_callback cmd n in
  uart_fd_ n' = uart_fd_ n /\ command_queue_ n' = command_queue_ n
  /\ stop_worker_ n' = stop_worker_ n /\ rx_stop_ n' = rx_stop_ n
  /\ retry_stop_ n' = retry_stop_ n /\ tx_pc n' = tx_pc n /\ rx_pc n' = rx_pc n
  /\ retry_pc n' = retry_pc n /\ wire n' = wire n /\ acks n' = acks n.
Proof.
  unfold command_callback. repeat (case_match; [done|]).
  destruct (start _ _ _ _) as [[] m]; done.
Qed.

(** The callback either leaves the main thread where it was, and then no number became known,
    or it registered the frame it goes on to enqueue. *)
Lemma command_callback_main cmd n :
  main_pc n = Spinning ->
  let n' := command_callback cmd n in
  (main_pc n' = Spinning /\ latest_requested_seq_ n' = latest_requested_seq_ n
   /\ forall k, requests_ n !! k = None -> requests_ n' !! k = None)
  \/ exists stop,
       main_pc n' = Enqueueing (mkFrame (next_seq_ n) (map_to_uart_command cmd (next_seq_ n))) stop
       /\ latest_requested_seq_ n' = next_seq_ n
       /\ stop = bool_decide (cmd = txt "STOP")
       /\ next_seq_ n <> 0 /\ requests_ n !! next_seq_ n = None
       /\ requests_ n'
          = <[next_seq_ n := mkRequest (next_seq_ n) (map_to_uart_command cmd (next_seq_ n))
                               stop QUEUED 0 0]>
              (if stop then cancel_non_stop (requests_ n) else requests_ n).
Proof.
  intros Hpc. unfold command_callback.
  destruct (negb _); [by left|]. destruct (_ <? 0); [by left|].
  destruct (Z.eqb_spec (next_seq_ n) 0) as [|Hnz]; [by left|].
  case_bool_decide as Hf; [by left|].
  set (stop := bool_decide (cmd = txt "STOP")).
  assert (forall k, (if stop then cancel_non_stop (requests_ n) else requests_ n) !! k = None
                    <-> requests_ n !! k = None) as Hnone.
  { intros k. destruct stop; [|done].
    rewrite cancel_non_stop_spec, lookup_fmap. by destruct (requests_ n !! k). }
  change (requests_ (with_seqs _ _ n)) with (requests_ n).
  rewrite start_equation. case_decide as Hs.
  - right. exists stop. destruct Hs as (? & ? & ?%Hnone). done.
  - left. split; [done|]. split; [done|]. intros k Hk. by apply Hnone.
Qed.

(** *** Refinement *)

Lemma trans_refines e n n' :
  trans e n n' ->
  requests_ n' = run (policy_ops e n) (requests_ n)
  /\ forall k, transmissions k (wire n')
               = transmissions k (wire n) + sent_count k (policy_ops e n) (requests_ n).
Proof.
  intros Ht.
  destruct Ht as [cmd n Hpc| | | | | | | | | | |f now results sent out n Hpc Hsend Hw
                  | | | | | | | | | | | | | | | | | |];
    unfold policy_ops;
    repeat match goal with
    | H : ?x = _ |- context [match ?x with _ => _ end] => rewrite H
    end;
    try (split; [done|intros k; cbn; lia]).
  - pose proof (command_callback_requests cmd n Hpc) as Hr. unfold policy_ops in Hr.
    rewrite Hpc in Hr. split; [done|]. intros k.
    destruct (command_callback_other cmd n) as (_&_&_&_&_&_&_&_&->&_).
    destruct (_ || _); [cbn; lia|]. by destruct (bool_decide _); cbn; lia.
  - split; [by destruct sent|]. intros k.
    cbn [wire with_tx with_wire]. rewrite transmissions_app.
    unfold transmissions at 2. rewrite filter_cons, filter_nil.
    rewrite should_transmit_spec in Hsend. destruct sent; cbn [sent_count tx_ok tx_frame andb].
    + rewrite mark_sent_spec. cbn [fst]. rewrite Hsend, andb_true_r.
      destruct (frame_seq f =? k); case_decide; (done || simpl; lia).
    + rewrite decide_False by done. simpl. lia.
  - destruct (stop_worker_ n); (split; [done|intros k; cbn; lia]).
Qed.

Lemma trans_evolves e n n' : trans e n n' -> evolves (requests_ n) (requests_ n').
Proof. intros [-> _]%trans_refines. apply run_evolves. Qed.

(** An execution of the node is a run of the policy, transmission for transmission. *)
Lemma nsteps_refine n n' :
  rtc nstep n n' ->
  exists ops, requests_ n' = run ops (requests_ n)
    /\ forall k, transmissions k (wire n')
                 = transmissions k (wire n) + sent_count k ops (requests_ n).
Proof.
  induction 1 as [n|n1 n2 n3 [e He] _ (ops & IHr & IHs)].
  { exists []. split; [done|]. intros k. simpl. lia. }
  apply step_trans, trans_refines in He as [Hr Hs].
  exists (policy_ops e n1 ++ ops). rewrite run_app, <- Hr. split; [done|].
  intros k. rewrite IHs, Hs, sent_count_app, <- Hr. lia.
Qed.

Lemma nsteps_evolve n n' : rtc nstep n n' -> evolves (requests_ n) (requests_ n').
Proof. intros (ops & -> & _)%nsteps_refine. apply run_evolves. Qed.

Lemma reachable_wf r n : reachable r n -> wf (requests_ n).
Proof.
  intros H. eapply wf_evolves; [by eapply nsteps_evolve|].
  destruct r. apply wf_empty.
Qed.

(** ** Where the frames are *)

Definition main_frames (pc : MainPc) : list RetryFrame :=
  match pc with Enqueueing f _ => [f] | _ => [] end.
Definition tx_frames (pc : TxPc) : list RetryFrame :=
  match pc with TxHolding f => [f] | _ => [] end.
Definition retry_frames (pc : RetryPc) : list RetryFrame :=
  match pc with
  | RetryFrames fs => fs
  | RetryEnqueue f fs => f :: fs
  | RetryNotify fs => fs
  | _ => []
  end.

(** The frames queued or in the hands of a thread. *)
Definition pending (n : Node) : list RetryFrame :=
  main_frames (main_pc n) ++ command_queue_ n ++ tx_frames (tx_pc n)
  ++ retry_frames (retry_pc n).

(** A frame that belongs to a request of the table, byte for byte. *)
Definition registered (m : Requests) (f : RetryFrame) : Prop :=
  exists r, m !! frame_seq f = Some r /\ frame r = frame_text f.

Lemma registered_evolves m m' f : evolves m m' -> registered m f -> registered m' f.
Proof.
  intros Hev (r & Hr & Hf). destruct (evolves_lookup _ _ _ _ Hev Hr) as (r' & Hr' & Hst).
  exists r'. split; [done|]. apply lc_steps_identity in Hst as (_ & -> & _). done.
Qed.

Lemma registered_poll now m f :
  wf m -> f ∈ (poll now m).1 -> registered (poll now m).2 f.
Proof.
  intros Hwf (k & r & Hk & _ & _ & ->)%elem_of_poll.
  apply (registered_evolves m); [apply (apply_evolves (Poll now))|].
  exists r. destruct (Hwf _ _ Hk) as (-> & _). done.
Qed.

(** A transmission of a registered frame: all of it, or a proper prefix of it
    when [write_uart] gave up. *)
Definition sound (m : Requests) (t : Transmission) : Prop :=
  registered m (tx_frame t)
  /\ if tx_ok t then tx_bytes t = frame_text (tx_frame t)
     else exists rest, rest <> [] /\ frame_text (tx_frame t) = tx_bytes t ++ rest.

Lemma write_uart_sound m fd f results ok out :
  wf m -> registered m f -> write_uart fd (frame_text f) results = Some (ok, out) ->
  sound m (mkTransmission f out ok).
Proof.
  intros Hwf Hf Hw. split; [done|]. cbn.
  destruct (Z.ltb_spec fd 0) as [Hneg|].
  - unfold write_uart in Hw. rewrite (proj2 (Z.ltb_lt _ _)) in Hw by done. simplify_eq.
    destruct Hf as (r & Hr & <-). destruct (Hwf _ _ Hr) as (_ & _ & Hne & _).
    by exists (frame r).
  - by destruct (write_uart_cases fd (frame_text f) results ok out)
      as [[-> ->]|(-> & rest & ? & ?)]; eauto.
Qed.

(** What holds of the frames in every state of the node. *)
Record frames_inv (n : Node) : Prop := {
  fi_wf : wf (requests_ n);
  fi_pending : Forall (registered (requests_ n)) (pending n);
  fi_wire : Forall (sound (requests_ n)) (wire n);
}.

Lemma frames_inv_keep n n' :
  frames_inv n -> evolves (requests_ n) (requests_ n') ->
  (forall f, f ∈ pending n' -> f ∈ pending n \/ registered (requests_ n') f) ->
  (forall t, t ∈ wire n' -> t ∈ wire n \/ sound (requests_ n') t) ->
  frames_inv n'.
Proof.
  intros [Hwf Hp Hw] Hev Hpend Hwire. rewrite Forall_forall in Hp. rewrite Forall_forall in Hw.
  split; [by eapply wf_evolves|..]; apply Forall_forall.
  - intros f [Hf|]%Hpend; [|done]. eapply registered_evolves; eauto.
  - intros t [Ht|]%Hwire; [|done]. destruct (Hw t Ht) as [? ?].
    split; [by eapply registered_evolves|done].
Qed.

Lemma tx_frames_woken pc : tx_frames (woken pc) = tx_frames pc.
Proof. by destruct pc. Qed.

(** Computes [pending] on both sides of a transition. *)
Ltac pending_cases :=
  unfold pending; cbn -[poll];
  repeat match goal with
  | H : main_pc _ = _ |- _ => rewrite H in *; clear H
  | H : tx_pc _ = _ |- _ => rewrite H in *; clear H
  | H : retry_pc _ = _ |- _ => rewrite H in *; clear H
  | H : command_queue_ _ = _ |- _ => rewrite H in *; clear H
  end; cbn -[poll]; rewrite ?tx_frames_woken; cbn -[poll].

(** The frames a transition puts into circulation belong to the table. *)
Lemma pending_step e n n' f :
  trans e n n' -> wf (requests_ n) ->
  f ∈ pending n' -> f ∈ pending n \/ registered (requests_ n') f.
Proof.
  intros Ht Hwf. destruct Ht as [cmd n Hpc|f' high n Hpc Hs| | | | | | | | | | | | | | | | | |
    n Hpc|now n Hpc| | | |f' frames n Hpc | | | | |]; try (pending_cases; set_solver).
  - destruct (command_callback_other cmd n) as (_&Hq&_&_&_&Htx&_&Hre&_&_).
    unfold pending. rewrite Hq, Htx, Hre, Hpc.
    destruct (command_callback_main cmd n Hpc) as [(-> & _)|(stop & -> & _ & _ & _ & _ & Hr)].
    + auto.
    + cbn [main_frames app]. intros [->|]%elem_of_cons; [right|auto].
      rewrite Hr. eexists. split; [apply lookup_insert_eq|done].
  - pending_cases. destruct high; set_solver.
  - pending_cases. destruct (retry_stop_ n); set_solver.
  - pending_cases. rewrite !elem_of_app. intros [?|[?|[?|?]]]; [by auto..|right].
    by apply registered_poll.
  - destruct (stop_worker_ n); pending_cases; set_solver.
Qed.

Lemma wire_step e n n' :
  trans e n n' ->
  wire n' = wire n
  \/ exists f sent out,
      wire n' = wire n ++ [mkTransmission f out sent] /\ f ∈ pending n
      /\ should_transmit (frame_seq f) (requests_ n) = true
      /\ exists results, write_uart (uart_fd_ n) (frame_text f) results = Some (sent, out).
Proof.
  destruct 1; try (by left).
  - left. by destruct (command_callback_other cmd n) as (_&_&_&_&_&_&_&_&->&_).
  - right. exists f, sent, out. repeat split; eauto.
    pending_cases. set_solver.
  - left. by destruct (stop_worker_ n).
Qed.

Lemma frames_inv_step e n n' : trans e n n' -> frames_inv n -> frames_inv n'.
Proof.
  intros Ht Hinv. apply (frames_inv_keep n); [done|by eapply trans_evolves|..].
  - intros f. eapply pending_step; [done|apply Hinv].
  - destruct Hinv as [Hwf Hp _]. rewrite Forall_forall in Hp. intros t.
    destruct (wire_step e n n' Ht) as [->|(f & sent & out & -> & Hf & _ & results & Hw)];
      [by left|].
    intros [? | ->%list_elem_of_singleton]%elem_of_app; [by left|right].
    destruct (write_uart_sound _ _ _ _ _ _ Hwf (Hp f Hf) Hw) as [? ?].
    split; [by eapply registered_evolves; [eapply trans_evolves|]|done].
Qed.

Lemma reachable_ind_trans (P : Node -> Prop) r :
  P (construct r) ->
  (forall e n n', P n -> trans e n n' -> P n') ->
  forall n, reachable r n -> P n.
Proof.
  intros H0 Hs n Hn. unfold reachable in Hn. revert Hn H0. generalize (construct r).
  induction 1 as [|n1 n2 n3 [e He] _ IH]; [done|].
  intros H1. apply IH. eapply Hs; [done|by apply step_trans].
Qed.

Lemma reachable_frames_inv r n : reachable r n -> frames_inv n.
Proof.
  apply reachable_ind_trans; [|intros; by eapply frames_inv_step].
  destruct r as [[] fd]; split; try apply wf_empty; constructor.
Qed.

(** ** Properties *)

(** C7: whatever the interleaving of callbacks, workers, acknowledgements and time-outs, the
    complete frame of a command goes out through the port at most three times. *)
Theorem node_at_most_three_transmissions r n k :
  reachable r n -> transmissions k (wire n) <= 3.
Proof.
  intros (ops & _ & Hs)%nsteps_refine. specialize (Hs k).
  destruct r. cbn [wire construct requests_] in Hs.
  pose proof (sent_count_budget ops ∅ k wf_empty) as Hb.
  rewrite lookup_empty in Hb. unfold MAX_RETRIES in Hb.
  change (transmissions k []) with 0 in Hs. lia.
Qed.

Lemma node_at_most_three_transmissions_witness :
  transmissions 1 (wire (after lost_ack_trace)) = 2
  /\ transmissions 1 (wire (after lost_ack_trace)) <= 3.
Proof.
  split; [vm_compute; reflexivity|].
  apply (node_at_most_three_transmissions (true, 3)). run_trace.
Defined.

(** Every byte string on the wire is the frame of a registered request: whole when the
    transmission is reported as done, and a proper prefix when it is reported as failed; in
    particular a retry sends exactly the bytes of the original command. *)
Lemma wire_carries_registered_frames r n t :
  reachable r n -> t ∈ wire n ->
  exists q, requests_ n !! frame_seq (tx_frame t) = Some q
    /\ if tx_ok t then tx_bytes t = frame q
       else exists rest, rest <> [] /\ frame q = tx_bytes t ++ rest.
Proof.
  intros Hn Ht. destruct (reachable_frames_inv _ _ Hn) as [_ _ Hw].
  rewrite Forall_forall in Hw. destruct (Hw t Ht) as [(q & Hq & Hf) Hbytes].
  exists q. by rewrite Hf.
Qed.

Lemma wire_carries_registered_frames_witness :
  exists q, requests_ (after lost_ack_trace) !! 1 = Some q
            /\ crlf (txt "SEQ:1 CMD:HAND_GRAB") = frame q.
Proof.
  apply (wire_carries_registered_frames (true, 3) (after lost_ack_trace)
           (mkTransmission (mkFrame 1 (crlf (txt "SEQ:1 CMD:HAND_GRAB")))
                           (crlf (txt "SEQ:1 CMD:HAND_GRAB")) true)).
  - run_trace.
  - replace (wire (after lost_ack_trace))
      with (replicate 2 (mkTransmission (mkFrame 1 (crlf (txt "SEQ:1 CMD:HAND_GRAB")))
                           (crlf (txt "SEQ:1 CMD:HAND_GRAB")) true))
      by (vm_compute; reflexivity).
    apply list_elem_of_here.
Defined.

(** *** The stop command *)

(** A settled request stays settled and puts nothing more on the wire. *)
Lemma settled_silent n n' k q :
  rtc nstep n n' -> requests_ n !! k = Some q -> settled q = true ->
  exists new, wire n' = wire n ++ new /\ Forall (fun t => frame_seq (tx_frame t) <> k) new.
Proof.
  induction 1 as [n|n1 n2 n3 [e He] _ IH] in q |- *; intros Hk Hs.
  { exists []. by rewrite app_nil_r. }
  apply step_trans in He.
  destruct (evolves_lookup _ _ _ _ (trans_evolves _ _ _ He) Hk) as (q2 & Hk2 & Hst).
  destruct (IH q2 Hk2 (lc_steps_settled _ _ Hst Hs)) as (new & -> & Hnew).
  destruct (wire_step e n1 n2 He) as [->|(f & sent & out & -> & _ & Hsend & _)]; [by eauto|].
  exists (mkTransmission f out sent :: new). rewrite <- app_assoc. split; [done|].
  constructor; [|done]. cbn. intros <-. rewrite should_transmit_spec, Hk in Hsend.
  cbn in Hsend. unfold settled in Hs. by rewrite Hsend in Hs.
Qed.

(** C11: once the callback of a STOP has registered it, no command other than a stop that was
    submitted before is ever written to the port again, not even in part, whatever the
    queues, the workers and the time-outs do afterwards. *)
Theorem stop_silences_earlier_commands n n' k q :
  main_pc n = Spinning ->
  main_pc (command_callback (txt "STOP") n) <> Spinning ->
  rtc nstep (command_callback (txt "STOP") n) n' ->
  requests_ n !! k = Some q -> is_stop q = false ->
  exists new, wire n' = wire n ++ new /\ Forall (fun t => frame_seq (tx_frame t) <> k) new.
Proof.
  intros Hpc Hreg Hsteps Hk Hq.
  destruct (command_callback_other (txt "STOP") n) as (_&_&_&_&_&_&_&_&<-&_).
  destruct (command_callback_main (txt "STOP") n Hpc)
    as [(? & _)|(stop & _ & _ & -> & _ & Hnone & Hr)]; [done|].
  eapply (settled_silent _ _ k (cancel_body q)); [done| |by apply cancel_body_settled].
  rewrite Hr, lookup_insert_ne by congruence.
  by rewrite bool_decide_eq_true_2, cancel_non_stop_spec, lookup_fmap, Hk.
Qed.

Lemma stop_silences_earlier_commands_witness :
  let n' := default started (exec (EvEnqueue :: transmit 0 21)
                               (command_callback (txt "STOP") (after grab))) in
  exists new, wire n' = wire (after grab) ++ new
              /\ Forall (fun t => frame_seq (tx_frame t) <> 1) new.
Proof.
  intros n'.
  apply (stop_silences_earlier_commands (after grab) n' 1
           (mkRequest 1 (crlf (txt "SEQ:1 CMD:HAND_GRAB")) false QUEUED 0 0)).
  - vm_compute. reflexivity.
  - vm_compute. discriminate.
  - apply (exec_rtc (EvEnqueue :: transmit 0 21)). vm_compute. reflexivity.
  - vm_compute. reflexivity.
  - reflexivity.
Defined.

(** *** No command is lost *)

(** The stop flags follow the main thread. *)
Definition closing (pc : MainPc) : bool :=
  match pc with DtorStopRx | DtorStopTx | DtorNotifying | DtorJoining | Destroyed => true | _ => false end.
Definition queue_closed (pc : MainPc) : bool :=
  match pc with DtorNotifying | DtorJoining | Destroyed => true | _ => false end.

Definition rx_closed (pc : MainPc) : bool :=
  match pc with DtorStopTx | DtorNotifying | DtorJoining | Destroyed => true | _ => false end.

Definition not_enqueue_failed (pc : MainPc) : Prop :=
  match pc with EnqueueFailed _ => False | _ => True end.

Record flags_inv (n : Node) : Prop := {
  fl_retry : retry_stop_ n = closing (main_pc n);
  fl_rx : rx_stop_ n = rx_closed (main_pc n);
  fl_queue : stop_worker_ n = queue_closed (main_pc n);
  fl_empty : stop_worker_ n = true -> command_queue_ n = [];
  fl_main : not_enqueue_failed (main_pc n);
}.

Lemma flags_inv_step e n n' : trans e n n' -> flags_inv n -> flags_inv n'.
Proof.
  intros Ht [Hr Hx Hq He Hm].
  destruct Ht as [cmd n Hpc|f high n Hpc Hs|f high n Hpc Hs| | | | | | |f q n Hpc Hs Hcq
                  | | | | | | | | | | | | | | |f frames n Hpc | | | | |];
    try (rewrite ?H in *; split; cbn in *; by auto).
  - destruct (command_callback_other cmd n) as (_&Hcq&Hs&Hrx&Hrs&_).
    rewrite Hpc in *.
    destruct (command_callback_main cmd n Hpc) as [(Hpc' & _)|(stop & Hpc' & _)];
      split; rewrite ?Hpc', ?Hrs, ?Hrx, ?Hs, ?Hcq; auto; done.
  - rewrite Hpc in *. split; cbn in *; try done. congruence.
  - rewrite Hpc in *. cbn in *. congruence.
  - split; cbn in *; try done. congruence.
  - destruct (stop_worker_ n) eqn:Hs; split; cbn in *; rewrite ?Hs in *; auto. done.
Qed.

Lemma reachable_flags_inv r n : reachable r n -> flags_inv n.
Proof.
  apply reachable_ind_trans; [|intros; by eapply flags_inv_step].
  by destruct r as [[] fd]; split.
Qed.

(** Only a poll makes a request transmittable again. *)
Lemma effect_transmittable op k r :
  transmittable (effect op k r) = true ->
  transmittable r = true
  \/ exists now, op = Poll now /\ expired now r = true /\ retries_used r < MAX_RETRIES.
Proof.
  destruct op as [| | | s status now|now|]; unfold effect, cancel_body; fold_tests.
  - auto.
  - by destruct (_ && _) eqn:?; [|auto].
  - by destruct (_ && _) eqn:?; [|auto].
  - destruct (s =? k); [|auto]. destruct (superseded r).
    + destruct (late_ack status) eqn:E; [|auto].
      by destruct status; inversion E; subst.
    + destruct (live r); [|auto]. by destruct status.
  - destruct (expired now r) eqn:E; [|auto].
    destruct (MAX_RETRIES <=? retries_used r) eqn:E2; [done|]. reflect_bools. eauto.
  - destruct (is_stop r); [auto|]. by destruct (_ || _); [|auto].
Qed.

Definition is_poll (op : Op) : bool := match op with Poll _ => true | _ => false end.

Lemma run_transmittable ops m k q :
  existsb is_poll ops = false ->
  run ops m !! k = Some q -> transmittable q = true ->
  m !! k = None \/ exists q0, m !! k = Some q0 /\ transmittable q0 = true.
Proof.
  revert m. induction ops as [|op ops IH]; intros m Hnp Hk Ht; cbn in Hnp; [by eauto|].
  reflect_bools. destruct (IH (apply op m)) as [Hnone|(q1 & Hq1 & Ht1)]; try done.
  - left. rewrite apply_lookup in Hnone. by destruct (m !! k).
  - rewrite apply_lookup in Hq1. destruct (m !! k) as [q0|]; [right|by left].
    simplify_eq. destruct (effect_transmittable _ _ _ Ht1) as [|(now & -> & _)]; [by eauto|done].
Qed.

Lemma policy_ops_poll e n :
  (exists now, e = EvRetryPoll now) \/ existsb is_poll (policy_ops e n) = false.
Proof.
  destruct e; eauto; right; unfold policy_ops; try done;
    repeat case_match; try done; destruct (bool_decide _); done.
Qed.

(** Only a command callback creates a request, and it holds the frame. *)
Lemma trans_new_request e n n' k :
  trans e n n' -> requests_ n !! k = None -> is_Some (requests_ n' !! k) ->
  exists f, f ∈ pending n' /\ frame_seq f = k.
Proof.
  intros Ht Hnone Hsome. pose proof (proj1 (trans_refines _ _ _ Ht)) as Hr.
  assert (Hone : forall op, created op k = None -> requests_ n' <> apply op (requests_ n)).
  { intros op Hop Heq. rewrite Heq, apply_lookup, Hnone, Hop in Hsome. by destruct Hsome. }
  destruct Ht as [cmd n Hpc| | | | | | | | | | | | | | | | | | | | | | | |f frames n Hpc | | | | |].
  1: { destruct (command_callback_main cmd n Hpc) as [(_ & _ & Hk)|(stop & Hm & _ & _ & _ & _ & Hreq)].
       { apply Hk in Hnone. rewrite Hnone in Hsome. by destruct Hsome. }
       exists (mkFrame (next_seq_ n) (map_to_uart_command cmd (next_seq_ n))).
       split; [unfold pending; rewrite Hm; set_solver|]. cbn.
       destruct (decide (next_seq_ n = k)); [done|]. exfalso.
       rewrite Hreq, lookup_insert_ne in Hsome by done. destruct stop.
       - rewrite cancel_non_stop_spec, lookup_fmap, Hnone in Hsome. by destruct Hsome.
       - rewrite Hnone in Hsome. by destruct Hsome. }
  all: exfalso; revert Hone Hsome; clear Hr; cbn -[poll];
    try (intros _ [? ?]; congruence).
  - intros Hone _. by apply (Hone (MarkSendFailed s)).
  - intros Hone _. destruct sent;
      [by apply (Hone (MarkSent (frame_seq f) now))|by apply (Hone (MarkSendFailed (frame_seq f)))].
  - intros Hone _. by apply (Hone (OnAck s status now)).
  - intros Hone _. by apply (Hone (Poll now)).
  - destruct (stop_worker_ n); cbn; intros _ [? ?]; congruence.
Qed.

Lemma sent_not_transmittable s now m (sent : bool) :
  should_transmit s (if sent then (mark_sent s now m).2 else (mark_send_failed s m).2) = false.
Proof.
  rewrite should_transmit_spec. destruct sent.
  - change (mark_sent s now m).2 with (apply (MarkSent s now) m). rewrite apply_lookup.
    destruct (m !! s) as [r|]; [|done]. unfold effect. rewrite Z.eqb_refl.
    by destruct (transmittable r) eqn:E.
  - change (mark_send_failed s m).2 with (apply (MarkSendFailed s) m). rewrite apply_lookup.
    destruct (m !! s) as [r|]; [|done]. unfold effect. rewrite Z.eqb_refl.
    by destruct (transmittable r) eqn:E.
Qed.

(** A frame leaves circulation only when its request needs no transmission any
    more, or when the node shuts down. *)
Lemma pending_kept e n n' f :
  trans e n n' -> flags_inv n -> f ∈ pending n ->
  f ∈ pending n' \/ retry_stop_ n' = true
  \/ should_transmit (frame_seq f) (requests_ n') = false.
Proof.
  intros Ht Hfl Hin. revert Hin.
  destruct Ht as [cmd n Hpc|f' high n Hpc Hs|f' high n Hpc Hs| | | |n Hpc| | | |f' now results n Hpc Hst
    |f' now results sent out n Hpc| | | | | | | |n Hpc|now n Hpc| |f' frames n Hpc| |f' frames n Hpc | | | | |];
    try (pending_cases; intros; left; set_solver).
  - destruct (command_callback_other cmd n) as (_&Hq&_&_&_&Htx&_&Hre&_&_).
    unfold pending. rewrite Hq, Htx, Hre, Hpc. cbn [main_frames app]. set_solver.
  - pending_cases. destruct high; intros; left; set_solver.
  - intros _. exfalso. destruct Hfl as [_ _ Hq _ _]. rewrite Hpc in Hq. cbn in Hq. congruence.
  - intros _. right; left. cbn. destruct Hfl as [Hr _ _ _ _]. by rewrite Hr, Hpc.
  - pending_cases. intros Hin. destruct (decide (f = f')) as [->|]; [|left; set_solver].
    by right; right.
  - pending_cases. intros Hin. destruct (decide (f = f')) as [->|]; [|left; set_solver].
    right; right. apply sent_not_transmittable.
  - intros _. right; left. done.
  - destruct (stop_worker_ n) eqn:Hs.
    + intros _. right; left. cbn. destruct Hfl as [Hr _ Hq _ _]. rewrite Hr.
      rewrite Hs in Hq. by destruct (main_pc n).
    + pending_cases. intros; left; set_solver.
Qed.

Definition nothing_lost (n : Node) : Prop :=
  retry_stop_ n = true
  \/ forall k, should_transmit k (requests_ n) = true -> exists f, f ∈ pending n /\ frame_seq f = k.

Lemma retry_stop_kept e n n' : trans e n n' -> retry_stop_ n = true -> retry_stop_ n' = true.
Proof.
  destruct 1; cbn; try done.
  - by destruct (command_callback_other cmd n) as (_&_&_&_&->&_).
  - by destruct (stop_worker_ n).
Qed.

Lemma nothing_lost_step e n n' :
  trans e n n' -> flags_inv n -> wf (requests_ n) -> nothing_lost n -> nothing_lost n'.
Proof.
  intros Ht Hfl Hwf [Hr|Hn]; [left; by eapply retry_stop_kept|].
  destruct (retry_stop_ n') eqn:Hr'; [by left|right]. intros k Hk.
  assert (Hold : should_transmit k (requests_ n) = true ->
                 exists f, f ∈ pending n' /\ frame_seq f = k).
  { intros Ho. destruct (Hn k Ho) as (f & Hf & <-). exists f. split; [|done].
    destruct (pending_kept e n n' f Ht Hfl Hf) as [|[|]]; congruence. }
  rewrite should_transmit_spec in Hk. destruct (requests_ n' !! k) as [q|] eqn:Hq; [|done].
  cbn in Hk. destruct (requests_ n !! k) as [q0|] eqn:Hq0.
  2:{ eapply trans_new_request; eauto. }
  destruct (policy_ops_poll e n) as [[now ->]|Hnp].
  - inversion Ht as [ | | | | | | | | | | | | | | | | | | | |? ? Hpc| | | |  | | | | |]; subst.
    cbn -[poll] in Hq. change (poll now (requests_ n)).2 with (apply (Poll now) (requests_ n)) in Hq.
    rewrite apply_lookup, Hq0 in Hq. simplify_eq.
    destruct (effect_transmittable _ _ _ Hk) as [|(now' & [= <-] & He & Hret)].
    { apply Hold. by rewrite should_transmit_spec, Hq0. }
    destruct (Hwf _ _ Hq0) as (Hseq & _).
    exists (mkFrame (seq q0) (frame q0)). split; [|done]. pending_cases.
    apply elem_of_app; right. apply elem_of_app; right. apply elem_of_app; right.
    apply elem_of_poll. eauto 10.
  - rewrite (proj1 (trans_refines _ _ _ Ht)) in Hq.
    destruct (run_transmittable _ _ _ _ Hnp Hq Hk) as [|(q1 & Hq1 & Ht1)]; [congruence|].
    apply Hold. by rewrite should_transmit_spec, Hq1.
Qed.

Lemma reachable_nothing_lost r n : reachable r n -> nothing_lost n.
Proof.
  intros Hn. cut (flags_inv n /\ wf (requests_ n) /\ nothing_lost n); [naive_solver|].
  revert n Hn. apply reachable_ind_trans.
  - split_and!; [by destruct r as [[] fd]; split|destruct r; apply wf_empty|].
    right. intros k. by destruct r.
  - intros e n n' (Hf & Hw & Hl) Ht. split_and!.
    + by eapply flags_inv_step.
    + eapply wf_evolves; [by eapply trans_evolves|done].
    + by eapply nothing_lost_step.
Qed.

(** *** No wake-up is lost *)

Lemma woken_awake pc : woken pc <> TxAsleep.
Proof. by destruct pc. Qed.

(** While the transmitting thread sleeps although its predicate holds, some thread
    is about to notify it. *)
Record sleep_inv (n : Node) : Prop := {
  sl_stop : tx_pc n = TxAsleep -> stop_worker_ n = true -> main_pc n = DtorNotifying;
  sl_queue : tx_pc n = TxAsleep ->
    command_queue_ n = [] \/ main_pc n = Notifying \/ exists fs, retry_pc n = RetryNotify fs;
}.

Lemma sleep_inv_step e n n' : trans e n n' -> flags_inv n -> sleep_inv n -> sleep_inv n'.
Proof.
  intros Ht Hfl [Hs Hq]. pose proof (fl_queue _ Hfl) as Hc.
  destruct Ht as [cmd n Hpc| | | | | | | | | | | | | | | | | | | | | | | |f frames n Hpc| | | | |];
    try (by split; cbn; intros Ha; [..|by auto]; first [done|by destruct (woken_awake _ Ha)]);
    try (split; cbn; intros Ha; try (by destruct (woken_awake _ Ha)); specialize (Hq Ha); naive_solver congruence).
  - destruct (command_callback_other cmd n) as (_&Hcq&Hsw&_&_&Htx&_&Hre&_).
    split; rewrite Htx, ?Hsw, ?Hcq, ?Hre; intros Ha.
    + intros Hst. specialize (Hs Ha Hst). congruence.
    + destruct (Hq Ha) as [|[|]]; [by left|congruence|by right; right].
  - destruct (stop_worker_ n) eqn:Hsw; split; cbn; intros Ha; try congruence; [by auto| |eauto].
    left. by apply (fl_empty _ Hfl).
  - split; cbn; [congruence|by left].
Qed.

Lemma reachable_sleep_inv r n : reachable r n -> sleep_inv n.
Proof.
  intros Hn. cut (flags_inv n /\ sleep_inv n); [by intros [_ ?]|]. revert n Hn.
  apply reachable_ind_trans; [by destruct r as [[] fd]; do 2 split|].
  intros e n n' [Hf Hs] Ht. split; [by eapply flags_inv_step|by eapply sleep_inv_step].
Qed.

(** C5: no accepted command is lost: until the node is being destroyed, the frame of every
    request that still has to be transmitted, first or again, is in the queue or in the hands
    of the thread about to queue or to send it, with the very bytes of the request; and the
    transmitting thread sleeps over a command in the queue only while a notification for it is
    still to come. *)
Theorem no_command_lost r n k :
  reachable r n -> main_pc n <> DtorStopRx -> main_pc n <> DtorStopTx ->
  main_pc n <> DtorNotifying -> main_pc n <> DtorJoining -> main_pc n <> Destroyed ->
  should_transmit k (requests_ n) = true ->
  (exists f q, f ∈ pending n /\ frame_seq f = k /\ requests_ n !! k = Some q
               /\ frame_text f = frame q)
  /\ (tx_pc n = TxAsleep ->
      command_queue_ n = [] \/ main_pc n = Notifying \/ exists fs, retry_pc n = RetryNotify fs).
Proof.
  intros Hn H1 H2 H3 H4 H5 Hk. split; [|by apply (reachable_sleep_inv r)]. destruct (reachable_nothing_lost r n Hn) as [Hr|Hp].
  - destruct (reachable_flags_inv r n Hn) as [Hc _ _ _ _]. rewrite Hr in Hc.
    by destruct (main_pc n).
  - destruct (Hp k Hk) as (f & Hf & <-).
    destruct (reachable_frames_inv r n Hn) as [_ Hpend _]. rewrite Forall_forall in Hpend.
    destruct (Hpend f Hf) as (q & Hq & Hfr). eauto 10.
Qed.

Lemma no_command_lost_witness :
  exists f q, f ∈ pending (after grab) /\ frame_seq f = 1
              /\ requests_ (after grab) !! 1 = Some q /\ frame_text f = frame q.
Proof.
  apply (no_command_lost (true, 3));
    [run_trace|vm_compute; discriminate..|vm_compute; reflexivity].
Defined.

(** *** The status service *)

Lemma effect_succeeded op k r :
  state (effect op k r) = SUCCEEDED ->
  state r = SUCCEEDED \/ exists now, op = OnAck k AckStatus.OK now.
Proof.
  destruct op as [| | | s status now|now|]; unfold effect, cancel_body; fold_tests.
  - auto.
  - by destruct (_ && _) eqn:?; [|auto].
  - by destruct (_ && _) eqn:?; [|auto].
  - destruct (Z.eqb_spec s k) as [->|]; [|auto].
    destruct (superseded r), (live r); destruct status; cbn; eauto; done.
  - destruct (expired now r); [|auto]. by destruct (MAX_RETRIES <=? retries_used r).
  - destruct (is_stop r); [auto|]. by destruct (_ || _); [|auto].
Qed.

(** What the status service relies on. *)
Record status_inv (n : Node) : Prop := {
  si_latest : latest_requested_seq_ n = 0 \/ is_Some (requests_ n !! latest_requested_seq_ n);
  si_succeeded : forall k q,
    requests_ n !! k = Some q -> state q = SUCCEEDED -> (k, AckStatus.OK) ∈ acks n;
  si_numbers : 0 <= next_seq_ n /\ 0 <= latest_requested_seq_ n;
}.

(** Both counters only take values of their 32-bit type. *)
Lemma command_callback_numbers cmd n :
  (next_seq_ (command_callback cmd n) = next_seq_ n
   \/ next_seq_ (command_callback cmd n) = u32 (next_seq_ n + 1))
  /\ (latest_requested_seq_ (command_callback cmd n) = latest_requested_seq_ n
      \/ latest_requested_seq_ (command_callback cmd n) = next_seq_ n).
Proof.
  unfold command_callback. destruct (negb (valid_command cmd)); [auto|].
  destruct (_ <? 0); [auto|]. destruct (_ =? 0); [auto|].
  destruct (bool_decide (_ = [])); [auto|].
  destruct (start _ _ _ _) as [[] m]; cbn; auto.
Qed.

Lemma run_succeeded ops m k q :
  run ops m !! k = Some q -> state q = SUCCEEDED ->
  (exists q0, m !! k = Some q0 /\ state q0 = SUCCEEDED)
  \/ exists now, OnAck k AckStatus.OK now ∈ ops.
Proof.
  revert m. induction ops as [|op ops IH]; intros m Hk Hs; [by eauto|].
  destruct (IH (apply op m)) as [(q1 & Hq1 & Hs1)|[now Hin]]; [done..| |].
  - rewrite apply_lookup in Hq1. destruct (m !! k) as [q0|] eqn:Hq0.
    + simplify_eq. destruct (effect_succeeded _ _ _ Hs1) as [|[now ->]]; [by eauto|].
      right. exists now. by left.
    + apply created_fresh in Hq1 as (_ & _ & _ & Hst & _). congruence.
  - right. exists now. by right.
Qed.

Lemma trans_acks e n n' k now :
  trans e n n' -> acks n `prefix_of` acks n'
  /\ (OnAck k AckStatus.OK now ∈ policy_ops e n -> (k, AckStatus.OK) ∈ acks n').
Proof.
  intros Ht. destruct Ht as [cmd n Hpc| | | | | | | | | | | | | | | | | |st ch bytes now' s status n Hpc Hl
    | | | | | |f frames n Hpc | | | | |];
    unfold policy_ops;
    repeat match goal with
    | H : ?x = _ |- context [match ?x with _ => _ end] => rewrite H
    end;
    try (split; [done|set_solver]).
  - destruct (command_callback_other cmd n) as (_&_&_&_&_&_&_&_&_&->).
    split; [done|]. destruct (_ || _); [set_solver|]. destruct (bool_decide _); set_solver.
  - destruct sent; (split; [done|set_solver]).
  - split; [by eexists|]. cbn. intros [= -> -> _]%list_elem_of_singleton. set_solver.
  - by destruct (stop_worker_ n); (split; [done|set_solver]).
Qed.

Lemma status_inv_step e n n' : trans e n n' -> status_inv n -> status_inv n'.
Proof.
  intros Ht [Hl Hs Hnum]. pose proof (trans_evolves _ _ _ Ht) as Hev. split.
  - assert (Hkeep : latest_requested_seq_ n' = latest_requested_seq_ n
      \/ is_Some (requests_ n' !! latest_requested_seq_ n')).
    { clear Hs Hl Hev Hnum. destruct Ht as [cmd n Hpc| | | | | | | | | | | | | | | | | | | | | | | | | | | | |];
        try (by left).
      - destruct (command_callback_main cmd n Hpc) as [(_ & -> & _)|(stop & _ & -> & _ & _ & _ & ->)];
          [by left|right]. rewrite lookup_insert_eq. eauto.
      - left. by destruct (stop_worker_ n). }
    destruct Hkeep as [->|]; [|by right]. destruct Hl as [|[q Hq]]; [by left|right].
    by destruct (evolves_lookup _ _ _ _ Hev Hq) as (q' & -> & _).
  - intros k q Hk Hst. rewrite (proj1 (trans_refines _ _ _ Ht)) in Hk.
    destruct (run_succeeded _ _ _ _ Hk Hst) as [(q0 & Hq0 & Hs0)|[now Hin]].
    + destruct (trans_acks e n n' k 0 Ht) as [[l ->] _]. apply elem_of_app. left. by eapply Hs.
    + by apply (trans_acks e n n' k now Ht).
  - clear Hl Hs Hev. destruct Ht as [cmd n Hpc| | | | | | | | | | | | | | | | | | | | | | | | | | | | |];
      try done.
    + pose proof (u32_range (next_seq_ n + 1)).
      destruct (command_callback_numbers cmd n) as [[-> | ->] [-> | ->]]; lia.
    + by destruct (stop_worker_ n).
Qed.

Lemma reachable_status_inv r n : reachable r n -> status_inv n.
Proof.
  apply reachable_ind_trans; [|intros; by eapply status_inv_step].
  destruct r as [[] fd]; (split; [by left|done|done]).
Qed.

(** C18: [/hand_status] is truthful in every reachable state: it says that no command was
    submitted exactly while none was, otherwise it reports the state of the latest one (never
    "Request not found"), in a message from which number and state can be read back, and it
    reports success only if an acknowledgement line with that very number and the status OK
    came in through the port. *)
Theorem status_callback_truthful r n :
  reachable r n ->
  (latest_requested_seq_ n = 0 /\ status_callback n = (false, txt "No command submitted"))
  \/ exists q, latest_requested_seq_ n <> 0
       /\ requests_ n !! latest_requested_seq_ n = Some q
       /\ (status_callback n).2
          = txt "SEQ:" ++ to_string (latest_requested_seq_ n) ++ txt " STATUS:"
            ++ request_state_to_string (state q)
       /\ (forall k st, 0 <= k ->
             (status_callback n).2
             = txt "SEQ:" ++ to_string k ++ txt " STATUS:" ++ request_state_to_string st ->
             k = latest_requested_seq_ n /\ st = state q)
       /\ ((status_callback n).1 = true <-> state q = SUCCEEDED)
       /\ ((status_callback n).1 = true ->
           (latest_requested_seq_ n, AckStatus.OK) ∈ acks n).
Proof.
  intros [Hl Hs [_ Hpos]]%reachable_status_inv. unfold status_callback, find.
  destruct (Z.eqb_spec (latest_requested_seq_ n) 0) as [Hz|Hnz]; [by left|right].
  destruct Hl as [|[q Hq]]; [done|]. rewrite Hq. exists q. cbn [fst snd].
  rewrite bool_decide_eq_true. split_and!; try naive_solver.
  intros k st Hk Heq%app_inv_head.
  by apply (numbered_name_inj _ _ (txt " STATUS:")) in Heq as [-> ->].
Qed.

Lemma status_callback_truthful_witness :
  (status_callback (after lost_ack_trace)).1 = true
  /\ (latest_requested_seq_ (after lost_ack_trace), AckStatus.OK) ∈ acks (after lost_ack_trace).
Proof.
  split; [vm_compute; reflexivity|].
  destruct (status_callback_truthful (true, 3) (after lost_ack_trace))
    as [[Hz _]|(q & _ & _ & _ & _ & _ & Hok)].
  - run_trace.
  - vm_compute in Hz. discriminate Hz.
  - apply Hok. vm_compute. reflexivity.
Defined.
