(* ===== verification/HandBridgeStop.v ===== *)
(** * The stop command and the shutdown of the hand bridge node

    Theorems about [HandBridgeNode] that need a finer invariant than those of
    [HandBridgeFacts]: a stop overtakes every other command in the queue, and
    the destructor always gets all threads joined and the port closed. *)

From Stdlib Require Import Ascii String.
From S2P Require Import Prelude AckParser RetryPolicy HandUart HandBridgeNode.
From S2P Require Import HandBridgeScenarios HandBridgeFacts.
Import RequestState (QUEUED, WAITING_ACK, EXECUTING, RETRY_QUEUED, SUCCEEDED,
  SUPERSEDED, RESULT_UNKNOWN).

(** *** A stop overtakes every other command *)

(** A stop that waits in the queue is touched only when it is sent. *)
Lemma effect_queued_stop op k r :
  state r = QUEUED -> is_stop r = true ->
  (forall now, op <> MarkSent k now) -> op <> MarkSendFailed k ->
  effect op k r = r.
Proof.
  intros Hq Hs H1 H2. destruct op as [|s now|s|s status now|now|]; unfold effect; try done.
  - destruct (Z.eqb_spec s k) as [->|]; [by destruct (H1 now)|done].
  - destruct (Z.eqb_spec s k) as [->|]; [by destruct H2|done].
  - unfold superseded, live. rewrite Hq. by destruct (s =? k).
  - unfold expired, awaiting. by rewrite Hq.
  - unfold cancel_body. by rewrite Hs.
Qed.

Definition touches (k : Z) (op : Op) : bool :=
  match op with MarkSent s _ | MarkSendFailed s => s =? k | _ => false end.

Lemma run_queued_stop ops m k q :
  existsb (touches k) ops = false ->
  m !! k = Some q -> state q = QUEUED -> is_stop q = true -> run ops m !! k = Some q.
Proof.
  revert m. induction ops as [|op ops IH]; intros m Ht Hk Hq Hs; [done|]. cbn in Ht.
  reflect_bools. apply (IH (apply op m)); try done. rewrite apply_lookup, Hk. f_equal.
  apply effect_queued_stop; [done..| |].
  - intros now ->. cbn in *. by rewrite Z.eqb_refl in *.
  - intros ->. cbn in *. by rewrite Z.eqb_refl in *.
Qed.

(** The transmitting thread is the only one that touches a queued request. *)
Lemma trans_touches e n n' k :
  trans e n n' -> flags_inv n ->
  existsb (touches k) (policy_ops e n) = false
  \/ exists f sent out, tx_pc n = TxHolding f /\ frame_seq f = k
       /\ wire n' = wire n ++ [mkTransmission f out sent].
Proof.
  intros Ht Hfl. destruct Ht as [cmd n Hpc| | |s n Hpc| | | | | | | |f now results sent out n Hpc Hs Hw
    | | | | | | | | | | | | | | | | | |]; unfold policy_ops;
    repeat match goal with
    | H : ?x = _ |- context [match ?x with _ => _ end] => rewrite H
    end; try (by left).
  - left. destruct (_ || _); [done|]. by destruct (bool_decide _).
  - destruct Hfl as [_ _ _ _ Hm]. by rewrite Hpc in Hm.
  - destruct (Z.eqb_spec (frame_seq f) k) as [Heq|Hne].
    + right. by exists f, sent, out.
    + left. destruct sent; cbn; by rewrite (proj2 (Z.eqb_neq _ _) Hne).
Qed.

Lemma queued_stop_step e n n' k q :
  trans e n n' -> flags_inv n ->
  (forall f, tx_pc n = TxHolding f -> frame_seq f = k -> wire n' = wire n) ->
  requests_ n !! k = Some q -> state q = QUEUED -> is_stop q = true ->
  requests_ n' !! k = Some q.
Proof.
  intros Ht Hfl Hwire Hk Hq Hs. rewrite (proj1 (trans_refines _ _ _ Ht)).
  destruct (trans_touches e n n' k Ht Hfl) as [|(f & sent & out & Hpc & Hf & Hw)].
  - by apply run_queued_stop.
  - exfalso. rewrite (Hwire f Hpc Hf) in Hw.
    apply (f_equal length) in Hw. rewrite length_app in Hw. simpl in Hw. lia.
Qed.

(** While a stop waits to be enqueued: it is untouched, nobody else has its
    frame, and every earlier command is settled. *)
Definition circulating (n : Node) : list RetryFrame :=
  command_queue_ n ++ tx_frames (tx_pc n) ++ retry_frames (retry_pc n).

Definition stop_waiting (f : RetryFrame) (n : Node) : Prop :=
  (exists q, requests_ n !! frame_seq f = Some q /\ state q = QUEUED /\ is_stop q = true)
  /\ Forall (fun g => frame_seq g <> frame_seq f) (circulating n)
  /\ forall k q, requests_ n !! k = Some q -> is_stop q = false -> settled q = true.

Definition stop_waiting_inv (n : Node) : Prop :=
  forall f, main_pc n = Enqueueing f true -> stop_waiting f n.

Lemma settled_step e n n' :
  trans e n n' -> main_pc n <> Spinning ->
  (forall k q, requests_ n !! k = Some q -> is_stop q = false -> settled q = true) ->
  forall k q, requests_ n' !! k = Some q -> is_stop q = false -> settled q = true.
Proof.
  intros Ht Hpc Hall k q' Hk' Hs'. destruct (requests_ n !! k) as [q|] eqn:Hk.
  - destruct (evolves_lookup _ _ _ _ (trans_evolves _ _ _ Ht) Hk) as (q2 & Hk2 & Hst).
    simplify_eq. eapply lc_steps_settled; [done|]. eapply Hall; [done|].
    apply lc_steps_identity in Hst as (_ & _ & <-). done.
  - exfalso. assert (forall op, created op k = None ->
                            apply op (requests_ n) !! k = Some q' -> False) as Hc.
    { intros op Hop. by rewrite apply_lookup, Hk, Hop. }
    destruct Ht as [cmd n Hspin| | |s n _| | | | | | | |f now results sent out n _ _ _
      | | | | | | |st ch bytes now s status n _ _| |now n _| | | | | | | | |]; try done; cbn -[poll] in Hk';
      try congruence.
    + by specialize (Hc (MarkSendFailed s) eq_refl (ltac:(exact Hk'))).
    + destruct sent; [by specialize (Hc (MarkSent (frame_seq f) now) eq_refl (ltac:(exact Hk')))
        |by specialize (Hc (MarkSendFailed (frame_seq f)) eq_refl (ltac:(exact Hk')))].
    + by specialize (Hc (OnAck s status now) eq_refl (ltac:(exact Hk'))).
    + by specialize (Hc (Poll now) eq_refl (ltac:(exact Hk'))).
    + destruct (stop_worker_ n); cbn in Hk'; congruence.
Qed.

Lemma circulating_step e n n' g :
  trans e n n' -> (forall f high, main_pc n = Enqueueing f high -> e <> EvEnqueue) ->
  g ∈ circulating n' ->
  g ∈ circulating n
  \/ exists now k q, requests_ n !! k = Some q /\ expired now q = true /\ frame_seq g = seq q.
Proof.
  intros Ht Hne. unfold circulating.
  destruct Ht as [cmd n Hpc|f high n Hpc| | | | | | | | | | | | | | | | | | |now n Hpc
    | | | |f frames n Hpc | | | | |];
    try (pending_cases; by auto);
    try (pending_cases; rewrite !elem_of_app, ?elem_of_cons; by intuition auto).
  - destruct (command_callback_other cmd n) as (_&->&_&_&_&->&_&->&_&_). auto.
  - by destruct (Hne f high Hpc).
  - pending_cases. set_solver.
  - pending_cases. destruct (retry_stop_ n); set_solver.
  - pending_cases. rewrite !elem_of_app. intros [?|[?|(k & q & ? & ? & ? & ->)%elem_of_poll]];
      [by auto..|right]. by exists now, k, q.
  - pending_cases. set_solver.
  - destruct (stop_worker_ n); pending_cases; set_solver.
Qed.

Lemma trans_enqueueing e n n' f high :
  trans e n n' -> main_pc n' = Enqueueing f high ->
  (main_pc n = Enqueueing f high /\ e <> EvEnqueue)
  \/ exists cmd, e = EvCommand cmd /\ main_pc n = Spinning /\ n' = command_callback cmd n.
Proof.
  destruct 1; cbn; intros Hf; try discriminate Hf; try (left; split; [done|discriminate]).
  - right. by exists cmd.
  - left. split; [|discriminate]. by destruct (stop_worker_ n).
Qed.

Lemma stop_waiting_start n cmd f :
  frames_inv n -> main_pc n = Spinning ->
  main_pc (command_callback cmd n) = Enqueueing f true -> stop_waiting f (command_callback cmd n).
Proof.
  intros Hfr Hspin Hf.
  destruct (command_callback_main cmd n Hspin) as [(? & _)|(stop & Hm & _ & _ & _ & Hnone & Hr)];
    [congruence|].
  rewrite Hf in Hm. injection Hm as -> <-.
  destruct (command_callback_other cmd n) as (_&Hq&_&_&_&Htx&_&Hre&_&_).
  split_and!.
  - rewrite Hr. cbn [frame_seq]. rewrite lookup_insert_eq. eauto.
  - unfold circulating. rewrite Hq, Htx, Hre. apply Forall_forall. intros g Hg Heq.
    destruct Hfr as [_ Hp _]. rewrite Forall_forall in Hp.
    destruct (Hp g) as (q & Hq' & _).
    { unfold pending. rewrite Hspin. done. }
    rewrite Heq in Hq'. cbn in Hq'. congruence.
  - intros k q. rewrite Hr. destruct (decide (k = next_seq_ n)) as [->|].
    + rewrite lookup_insert_eq. intros; by simplify_eq.
    + rewrite lookup_insert_ne, cancel_non_stop_spec, lookup_fmap by congruence.
      destruct (requests_ n !! k) as [q0|]; [|done]. cbn. intros [= <-] Hs.
      apply cancel_body_settled. revert Hs. unfold cancel_body.
      destruct (is_stop q0) eqn:E; [congruence|done].
Qed.

Lemma stop_waiting_step e n n' f :
  trans e n n' -> flags_inv n -> wf (requests_ n) -> e <> EvEnqueue ->
  main_pc n = Enqueueing f true -> stop_waiting f n -> stop_waiting f n'.
Proof.
  intros Ht Hfl Hwf He Hf ((q & Hq & Hst & Hs) & Hcirc & Hset). split_and!.
  - exists q. split; [|done]. eapply queued_stop_step; try done.
    intros g Hg Heq. exfalso. rewrite Forall_forall in Hcirc.
    apply (Hcirc g); [|done]. unfold circulating. rewrite Hg. set_solver.
  - rewrite Forall_forall in Hcirc. apply Forall_forall. intros g Hg.
    destruct (circulating_step e n n' g Ht) as [|(now & k & q' & Hk & Hexp & ->)]; [|done|auto|].
    { by intros. }
    destruct (Hwf _ _ Hk) as (-> & _). intros ->.
    assert (q' = q) as -> by congruence. unfold expired, awaiting in Hexp. by rewrite Hst in Hexp.
  - eapply settled_step; eauto. by rewrite Hf.
Qed.

Lemma reachable_stop_waiting r n : reachable r n -> stop_waiting_inv n.
Proof.
  intros Hn. cut (flags_inv n /\ frames_inv n /\ stop_waiting_inv n); [by intros (_ & _ & ?)|].
  revert n Hn. apply reachable_ind_trans.
  - split_and!; [eapply reachable_flags_inv, rtc_refl|eapply reachable_frames_inv, rtc_refl|].
    by destruct r as [[] fd].
  - intros e n n' (Hfl & Hfr & Hinv) Ht.
    split_and!; [by eapply flags_inv_step|by eapply frames_inv_step|].
    intros f Hf. destruct (trans_enqueueing e n n' f true Ht Hf)
      as [[Hf' He]|(cmd & -> & Hspin & ->)].
    + eapply stop_waiting_step; eauto. apply Hfr.
    + by apply stop_waiting_start.
Qed.

(** A frame that cannot put an ordinary command on the wire. *)
Definition harmless (m : Requests) (f : RetryFrame) : Prop :=
  exists q, m !! frame_seq f = Some q /\ (settled q = true \/ is_stop q = true).

Lemma harmless_evolves m m' f : evolves m m' -> harmless m f -> harmless m' f.
Proof.
  intros Hev (q & Hq & Hh). destruct (evolves_lookup _ _ _ _ Hev Hq) as (q' & Hq' & Hst).
  exists q'. split; [done|]. destruct Hh as [?|<-].
  - left. by eapply lc_steps_settled.
  - right. by apply lc_steps_identity in Hst as (_ & _ & ?).
Qed.

(** The phase between the enqueueing of the stop frame [f] and the next write. *)
Record stop_queued (f : RetryFrame) (n : Node) : Prop := {
  sq_hand : Forall (harmless (requests_ n)) (tx_frames (tx_pc n));
  sq_main : forall g, main_pc n = Enqueueing g true -> harmless (requests_ n) g;
  sq_place :
    stop_worker_ n = true
    \/ (exists q, requests_ n !! frame_seq f = Some q /\ state q = QUEUED /\ is_stop q = true)
       /\ ((exists front back, command_queue_ n = front ++ f :: back
                               /\ Forall (harmless (requests_ n)) front)
           \/ f ∈ tx_frames (tx_pc n));
}.

Lemma stop_queued_keep n n' f :
  evolves (requests_ n) (requests_ n') ->
  (forall k q, requests_ n !! k = Some q -> state q = QUEUED -> is_stop q = true ->
               requests_ n' !! k = Some q) ->
  tx_frames (tx_pc n') = tx_frames (tx_pc n) ->
  command_queue_ n' = command_queue_ n -> stop_worker_ n' = stop_worker_ n ->
  (forall g, main_pc n' = Enqueueing g true ->
             main_pc n = Enqueueing g true \/ harmless (requests_ n') g) ->
  stop_queued f n -> stop_queued f n'.
Proof.
  intros Hev Hq' Htx Hq Hs Hm [Hhand Hmain Hplace].
  assert (Hmono : forall g, harmless (requests_ n) g -> harmless (requests_ n') g).
  { intros g. by apply harmless_evolves. }
  split; rewrite ?Htx, ?Hq, ?Hs.
  - by eapply Forall_impl.
  - intros g [?|?]%Hm; auto.
  - destruct Hplace as [?|[(q & ? & ? & ?) Hp]]; [by left|right].
    split; [by exists q; auto|]. destruct Hp as [(front & back & -> & Hf)|?]; [left|by right].
    exists front, back. split; [done|]. by eapply Forall_impl.
Qed.

(** Until something is written, the phase lasts. *)
Lemma stop_queued_step e n n' f :
  trans e n n' -> flags_inv n -> frames_inv n -> wire n' = wire n ->
  stop_queued f n -> stop_queued f n'.
Proof.
  intros Ht Hfl Hfr Hwire Hsq.
  pose proof (trans_evolves _ _ _ Ht) as Hev.
  assert (Hq' : forall k q, requests_ n !! k = Some q -> state q = QUEUED -> is_stop q = true ->
                  requests_ n' !! k = Some q).
  { intros. by eapply queued_stop_step. }
  assert (Hkeep := stop_queued_keep n n' f Hev Hq').
  destruct Ht as [cmd n Hpc|g high n Hpc Hs| | | | |n Hpc| | |g q n Hpc Hs Hcq
    |g now results n Hpc Hst|g now results sent out n Hpc| | | | | | | | | | | | |g frames n Hpc | | | | |];
    try (apply Hkeep; try done; cbn; rewrite ?tx_frames_woken; try done; try (by rewrite H); intros; by left).
  - destruct (command_callback_other cmd n) as (_&Hq&Hsw&_&_&Htx&_).
    apply Hkeep; [by rewrite Htx|done..| |done]. intros g Hg.
    destruct (command_callback_main cmd n Hpc) as [(? & _)|(stop & Hm & _ & _ & _ & _ & Hr)];
      [congruence|right]. rewrite Hg in Hm. injection Hm as -> <-.
    eexists. split; [by rewrite Hr, lookup_insert_eq|by right].
  - destruct Hsq as [Hhand Hmain Hplace]. split; cbn in *; [done..|].
    destruct Hplace as [?|[Hq [(front & back & Heq & Hf)|?]]]; [congruence| |by auto].
    right. split; [done|]. left. rewrite Heq. destruct high.
    + exists (g :: front), back. split; [done|]. constructor; [by apply Hmain|done].
    + exists front, (back ++ [g]). by rewrite <- app_assoc.
  - destruct Hsq as [Hhand Hmain Hplace]. split; cbn in *; [done..|]. by left.
  - destruct Hsq as [Hhand Hmain Hplace]. cbn in Hev.
    destruct Hplace as [?|[Hq [(front & back & Heq & Hf)|Hin]]]; [congruence| |].
    + rewrite Hcq in Heq. destruct front as [|g' front]; cbn in Heq; injection Heq as -> ->.
      * destruct Hq as (qf & Hqf & Hst & Hstop). split; cbn; [|done|].
        -- constructor; [|done]. exists qf. auto.
        -- right. split; [by exists qf|right]. set_solver.
      * apply Forall_cons in Hf as [Hg Hf]. split; cbn; [by constructor|done|].
        right. split; [done|]. left. by exists front, back.
    + rewrite Hpc in Hin. cbn in Hin. set_solver.
  - destruct Hsq as [Hhand Hmain Hplace]. split; cbn in *; [constructor|done|].
    destruct Hplace as [?|[(q & Hq & Hst' & Hstop) [Hin|Hin]]]; [by left|right; eauto 10|].
    rewrite Hpc in Hin. apply list_elem_of_singleton in Hin as <-.
    rewrite should_transmit_spec, Hq in Hst. cbn in Hst. unfold transmittable in Hst.
    by rewrite Hst' in Hst.
  - exfalso. apply (f_equal length) in Hwire. cbn in Hwire. rewrite length_app in Hwire.
    simpl in Hwire. lia.
  - destruct (stop_worker_ n) eqn:Hsw; [by apply Hkeep; cbn; auto|].
    destruct Hsq as [Hhand Hmain Hplace]. split; cbn in *; [done..|].
    destruct Hplace as [?|[Hq [(front & back & Heq & Hf)|?]]]; [congruence| |by auto].
    right. split; [done|]. left. exists front, (back ++ [g]). by rewrite Heq, <- app_assoc.
Qed.

Lemma wire_grows n n' : rtc nstep n n' -> exists more, wire n' = wire n ++ more.
Proof.
  induction 1 as [n|n1 n2 n3 [e He] _ [more ->]]; [by exists []; rewrite app_nil_r|].
  apply step_trans in He. destruct (wire_step e n1 n2 He) as [->|(f & sent & out & -> & _)].
  - by exists more.
  - exists (mkTransmission f out sent :: more). by rewrite <- app_assoc.
Qed.

Lemma wire_writer e n n' f sent out :
  trans e n n' -> wire n' = wire n ++ [mkTransmission f out sent] -> tx_pc n = TxHolding f.
Proof.
  intros Ht Hw. destruct Ht; cbn in Hw;
    try (apply (f_equal length) in Hw; rewrite length_app in Hw; simpl in Hw; lia).
  - destruct (command_callback_other cmd n) as (_&_&_&_&_&_&_&_&Heq&_). rewrite Heq in Hw.
    apply (f_equal length) in Hw; rewrite length_app in Hw; simpl in Hw; lia.
  - apply app_inv_head in Hw. injection Hw as -> _ _. done.
  - destruct (stop_worker_ n);
      apply (f_equal length) in Hw; rewrite length_app in Hw; simpl in Hw; lia.
Qed.

Lemma stop_queued_start n f :
  main_pc n = Enqueueing f true -> stop_waiting f n -> frames_inv n ->
  stop_queued f (with_main Notifying (with_queue (f :: command_queue_ n) n)).
Proof.
  intros Hpc (Hq & _ & Hset) [_ Hp _]. split; cbn.
  - rewrite Forall_forall in Hp. apply Forall_forall. intros g Hg.
    destruct (Hp g) as (q & Hqg & _). { unfold pending. set_solver. }
    exists q. split; [done|]. destruct (is_stop q) eqn:Hs; [by right|left]. eauto.
  - done.
  - right. split; [done|]. left. by exists [], (command_queue_ n).
Qed.

(** The first write after the phase began is a stop. *)
Lemma stop_queued_first f n n' t rest :
  rtc nstep n n' -> flags_inv n -> frames_inv n -> stop_queued f n ->
  wire n' = wire n ++ t :: rest ->
  exists q, requests_ n' !! frame_seq (tx_frame t) = Some q /\ is_stop q = true.
Proof.
  induction 1 as [n|n1 n2 n3 [e He] Hrest IH]; intros Hfl Hfr Hsq Hw.
  { apply (f_equal length) in Hw. rewrite length_app in Hw. simpl in Hw. lia. }
  apply step_trans in He.
  destruct (wire_step e n1 n2 He) as [Hsame|(g & sent & out & Hw2 & _ & Hsend & _)].
  - apply IH; [by eapply flags_inv_step|by eapply frames_inv_step| |by rewrite Hsame].
    by eapply stop_queued_step.
  - destruct (wire_grows _ _ Hrest) as [more Hmore].
    rewrite Hw2, <- app_assoc in Hmore. rewrite Hmore in Hw.
    apply app_inv_head in Hw. injection Hw as <- _. cbn.
    assert (harmless (requests_ n1) g) as (q & Hq & Hh).
    { destruct Hsq as [Hhand _ _]. rewrite Forall_forall in Hhand. apply Hhand.
      rewrite (wire_writer e n1 n2 g sent out He Hw2). cbn. set_solver. }
    rewrite should_transmit_spec, Hq in Hsend. cbn in Hsend.
    destruct Hh as [Hset|Hstop]; [unfold settled in Hset; by rewrite Hsend in Hset|].
    assert (evolves (requests_ n1) (requests_ n3)) as Hev.
    { etrans; [by eapply trans_evolves|by apply nsteps_evolve]. }
    destruct (evolves_lookup _ _ _ _ Hev Hq) as (q' & Hq' & Hst).
    exists q'. split; [done|]. apply lc_steps_identity in Hst as (_ & _ & Heq). by rewrite Heq.
Qed.

(** C3: a stop goes first: once a STOP is in the queue, the next frame that is written to the
    port, even in part, is a stop's, whatever was queued or being retried before it and
    whatever frame the transmitting thread already had in its hands. *)
Theorem stop_goes_first r n f n1 n2 t rest :
  reachable r n -> main_pc n = Enqueueing f true ->
  step EvEnqueue n = Some n1 -> rtc nstep n1 n2 ->
  wire n2 = wire n ++ t :: rest ->
  exists q, requests_ n2 !! frame_seq (tx_frame t) = Some q /\ is_stop q = true.
Proof.
  intros Hn Hpc Hstep Hsteps Hw.
  pose proof (reachable_flags_inv r n Hn) as Hfl.
  pose proof (reachable_frames_inv r n Hn) as Hfr.
  pose proof (reachable_stop_waiting r n Hn f Hpc) as Hsw.
  apply step_trans in Hstep as Ht.
  assert (n1 = with_main Notifying (with_queue (f :: command_queue_ n) n)) as ->.
  { cbn in Hstep. rewrite Hpc in Hstep. unfold enqueue_uart_command in Hstep.
    destruct Hfl as [_ _ Hq _ _]. rewrite Hpc in Hq. cbn in Hq. rewrite Hq in Hstep.
    by injection Hstep as <-. }
  eapply (stop_queued_first f _ n2 t rest Hsteps); [by eapply flags_inv_step
    |by eapply frames_inv_step|by apply stop_queued_start|done].
Qed.

Lemma stop_goes_first_witness :
  let n2 := after (stop_trace ++ EvEnqueue :: stop_wire_trace) in
  exists q, requests_ n2 !! 3 = Some q /\ is_stop q = true.
Proof.
  intros n2.
  apply (stop_goes_first (true, 3) (after stop_trace)
           (mkFrame 3 (crlf (txt "SEQ:3 CMD:HAND_STOP"))) (after (stop_trace ++ [EvEnqueue])) n2
           (mkTransmission (mkFrame 3 (crlf (txt "SEQ:3 CMD:HAND_STOP")))
                           (crlf (txt "SEQ:3 CMD:HAND_STOP")) true) []).
  - run_trace.
  - vm_compute. reflexivity.
  - vm_compute. reflexivity.
  - apply (exec_rtc stop_wire_trace). vm_compute. reflexivity.
  - vm_compute. reflexivity.
Defined.

(** ** The shutdown *)

Lemma write_uart_error uart_fd data : is_Some (write_uart uart_fd data [mkRet (-1) 5]).
Proof. unfold write_uart. case_match; [done|]. simpl. by case_decide. Qed.

(** How many sections each thread can still run once all stop flags are set. *)
Definition tx_left (pc : TxPc) : nat :=
  match pc with TxStopped => 0 | TxWaiting => 1 | TxAsleep | TxHolding _ => 2 end.
Definition rx_left (pc : RxPc) : nat :=
  match pc with
  | RxStopped => 0
  | RxTop _ => 1
  | RxBytes _ bytes => length bytes + 2
  | RxReading _ => 131
  end.
Definition retry_left (pc : RetryPc) : nat :=
  match pc with
  | RetryStopped => 0
  | RetryTop => 1
  | RetryFrames _ => 2
  | RetryPolling | RetryEnqueue _ _ | RetryNotify _ => 3
  end.
Definition main_left (pc : MainPc) : nat :=
  match pc with Destroyed => 0 | DtorJoining => 1 | _ => 2 end.

Definition sections_left (n : Node) : nat :=
  (main_left (main_pc n) + tx_left (tx_pc n) + rx_left (rx_pc n) + retry_left (retry_pc n))%nat.

Lemma tx_left_woken pc : (tx_left (woken pc) <= tx_left pc)%nat.
Proof. destruct pc; cbn; lia. Qed.

Lemma sections_left_step e n n' :
  trans e n n' -> flags_inv n -> queue_closed (main_pc n) = true ->
  (sections_left n' < sections_left n)%nat /\ queue_closed (main_pc n') = true.
Proof.
  intros Ht [Hr Hx Hq _ _] Hc. rewrite Hc in Hq.
  assert (rx_stop_ n = true /\ retry_stop_ n = true) as [Hx' Hr'].
  { rewrite Hr, Hx. by destruct (main_pc n). }
  unfold sections_left. pose proof (tx_left_woken (tx_pc n)) as Hw.
  destruct Ht; cbn -[take poll] in *; simplify_eq;
    repeat match goal with
    | H : main_pc _ = _ |- _ => rewrite H in *
    | H : tx_pc _ = _ |- _ => rewrite H
    | H : rx_pc _ = _ |- _ => rewrite H
    | H : retry_pc _ = _ |- _ => rewrite H
    | H : rx_stop_ _ = true |- _ => rewrite H
    | H : retry_stop_ _ = true |- _ => rewrite H
    | H : stop_worker_ _ = true |- _ => rewrite H
    end; cbn -[take poll] in *; try discriminate; try (split; [lia|done]).
  all: try congruence. rewrite List.length_firstn. split; [lia|done].
Qed.

(** What [Destroyed] means. *)
Definition shut_down (n : Node) : Prop :=
  main_pc n = Destroyed -> joined n = true /\ uart_fd_ n < 0.

(** Nothing moves in a destroyed node. *)
Lemma destroyed_stuck e n n' :
  trans e n n' -> main_pc n = Destroyed -> joined n = true -> False.
Proof.
  unfold joined. destruct 1; intros Hd Hj; try congruence;
    repeat match goal with
    | H : tx_pc _ = _ |- _ => rewrite H in Hj
    | H : rx_pc _ = _ |- _ => rewrite H in Hj
    | H : retry_pc _ = _ |- _ => rewrite H in Hj
    end; by destruct (tx_pc n), (rx_pc n).
Qed.

Lemma trans_destroyed e n n' :
  trans e n n' -> main_pc n' = Destroyed ->
  main_pc n = Destroyed \/ e = EvDtorClose.
Proof.
  destruct 1; cbn; auto; try congruence.
  - intros Hd. destruct (command_callback_main cmd n) as [(? & _)|(stop & ? & _)]; congruence.
  - destruct (stop_worker_ n); auto.
Qed.

Lemma reachable_shut_down r n : reachable r n -> shut_down n.
Proof.
  apply reachable_ind_trans; [by destruct r as [[] fd]|].
  intros e n1 n2 Hsd Ht Hd.
  destruct (trans_destroyed _ _ _ Ht Hd) as [Hd1| ->].
  - exfalso. destruct (Hsd Hd1) as [Hj _]. by eapply destroyed_stuck.
  - inversion Ht as [ | | | | | | |? Hpc Hj| | | | | | | | | | | | | | | | | | | | | |]; subst.
    split; [done|]. cbn. destruct (Z.leb_spec 0 (uart_fd_ n1)); lia.
Qed.

(** Some thread can run its next section, without any spurious wake-up. *)
Definition enabled (n : Node) : Prop := exists e n', e <> EvTxSpurious /\ step e n = Some n'.

Lemma enables e n : e <> EvTxSpurious -> is_Some (step e n) -> enabled n.
Proof. intros He [n' Hn]. by exists e, n'. Qed.

(** A thread that has not stopped can run its next section; the transmitting one,
    if it sleeps, once the destructor has notified it. *)
Lemma tx_enabled n :
  stop_worker_ n = true -> sleep_inv n -> tx_pc n <> TxStopped -> enabled n.
Proof.
  intros Hq Hsl Hpc. destruct (tx_pc n) as [| |f|] eqn:E; [| | |done].
  - apply (enables EvTxTake); [done|]. cbn. unfold tx_take. by rewrite E, Hq.
  - apply (enables EvNotify); [done|]. cbn. by rewrite (sl_stop _ Hsl E Hq).
  - apply (enables (EvTxSend 0 [mkRet (-1) 5])); [done|]. cbn. unfold tx_send. rewrite E.
    destruct (negb _); [done|].
    by destruct (write_uart_error (uart_fd_ n) (frame_text f)) as [[ok out] ->].
Qed.

Lemma rx_enabled n : rx_pc n <> RxStopped -> enabled n.
Proof.
  intros Hpc. destruct (rx_pc n) as [st|st|st [|ch bytes]|] eqn:E; [..|done].
  - apply (enables EvRxTop); [done|]. cbn. unfold rx_top. by rewrite E.
  - apply (enables (EvRxRead (mkRet 0 0) [])); [done|]. cbn. unfold rx_read. by rewrite E.
  - apply (enables (EvRxByte 0)); [done|]. cbn. unfold rx_byte. by rewrite E.
  - apply (enables (EvRxByte 0)); [done|]. cbn. unfold rx_byte. rewrite E. by repeat case_match.
Qed.

Lemma retry_enabled n : retry_pc n <> RetryStopped -> enabled n.
Proof.
  intros Hpc. destruct (retry_pc n) as [| |[|f frames]|f frames|frames|] eqn:E; [..|done].
  - apply (enables EvRetryTop); [done|]. cbn. unfold retry_top. by rewrite E.
  - apply (enables (EvRetryPoll 0)); [done|]. cbn. unfold retry_poll. rewrite E. by case_match.
  - apply (enables EvRetryNext); [done|]. cbn. unfold retry_next. by rewrite E.
  - apply (enables EvRetryNext); [done|]. cbn. unfold retry_next. rewrite E. by case_match.
  - apply (enables EvRetryEnqueue); [done|]. cbn. unfold retry_enqueue. rewrite E. by case_match.
  - apply (enables EvRetryNotify); [done|]. cbn. unfold retry_notify. by rewrite E.
Qed.

(** C17: the destructor terminates: once it has set the stop flags, every section any thread
    still runs decreases a natural number, so only finitely many are left; as long as the
    destructor has not finished some thread can run one that is no spurious wake-up, so the
    notifications suffice and none sleeps or waits for ever; and when it has finished, the
    three workers are joined and the port is closed. *)
Theorem shutdown_completes r n :
  reachable r n -> queue_closed (main_pc n) = true ->
  (forall e n', step e n = Some n' ->
     (sections_left n' < sections_left n)%nat /\ queue_closed (main_pc n') = true)
  /\ (main_pc n <> Destroyed -> exists e n', e <> EvTxSpurious /\ step e n = Some n')
  /\ (main_pc n = Destroyed -> joined n = true /\ uart_fd_ n < 0).
Proof.
  intros Hn Hc. pose proof (reachable_flags_inv r n Hn) as Hfl. split_and!.
  - intros e n' He. apply (sections_left_step e); [by apply step_trans|done..].
  - intros Hd. destruct Hfl as [_ _ Hq _ _]. rewrite Hc in Hq.
    destruct (decide (tx_pc n = TxStopped)) as [Ht|];
      [|apply tx_enabled; [done|by apply (reachable_sleep_inv r)|done]].
    destruct (decide (rx_pc n = RxStopped)) as [Hx|]; [|by apply rx_enabled].
    destruct (decide (retry_pc n = RetryStopped)) as [Hr|]; [|by apply retry_enabled].
    destruct (main_pc n) eqn:Hm; try done.
    + apply (enables EvNotify); [done|]. cbn. by rewrite Hm.
    + apply (enables EvDtorClose); [done|]. cbn. unfold joined. by rewrite Hm, Ht, Hx, Hr.
  - by apply (reachable_shut_down r).
Qed.

(** The transmitting thread is asleep when the destructor begins. *)
Lemma shutdown_completes_witness :
  let n := after [EvTxTake; EvDestroy; EvDtorRx; EvDtorQueue] in
  tx_pc n = TxAsleep /\ exists e n', e <> EvTxSpurious /\ step e n = Some n'.
Proof.
  intros n. split; [vm_compute; reflexivity|]. apply (shutdown_completes (true, 3) n).
  - run_trace.
  - vm_compute. reflexivity.
  - vm_compute. discriminate.
Defined.

(** ** Two behaviours the notes do not describe *)

(** *** A stop that is retried *)

(** The frames the transmitting thread takes from the queue in an execution. *)
Definition taken_by (e : Event) (n' : Node) : list RetryFrame :=
  match e with EvTxTake => tx_frames (tx_pc n') | _ => [] end.

Fixpoint taken (es : list Event) (n : Node) : list RetryFrame :=
  match es with
  | [] => []
  | e :: es' => match step e n with Some n' => taken_by e n' ++ taken es' n' | None => [] end
  end.

(** What a section does to the queue of a node that is not being destroyed. *)
Lemma queue_step e n n' :
  trans e n n' ->
  stop_worker_ n' = true
  \/ (command_queue_ n' = command_queue_ n /\ taken_by e n' = [])
  \/ (exists g, command_queue_ n = g :: command_queue_ n' /\ taken_by e n' = [g])
  \/ (exists g, command_queue_ n' = command_queue_ n ++ [g] /\ taken_by e n' = [])
  \/ (exists g, command_queue_ n' = g :: command_queue_ n /\ taken_by e n' = []
                /\ main_pc n = Enqueueing g true /\ requests_ n' = requests_ n).
Proof.
  destruct 1; try (by right; left); try (by left).
  - destruct (command_callback_other cmd n) as (_&->&_). by right; left.
  - destruct high; [by right; right; right; right; eauto|]. right; right; right; left. by exists f.
  - right; right; left. by exists f.
  - destruct (stop_worker_ n) eqn:Hs; [by left|]. right; right; right; left. by exists f.
Qed.

Definition stop_frame (m : Requests) (g : RetryFrame) : Prop :=
  exists q, m !! frame_seq g = Some q /\ is_stop q = true.

Lemma stop_frame_evolves m m' g : evolves m m' -> stop_frame m g -> stop_frame m' g.
Proof.
  intros Hev (q & Hq & Hs). destruct (evolves_lookup _ _ _ _ Hev Hq) as (q' & Hq' & Hst).
  exists q'. split; [done|]. by apply lc_steps_identity in Hst as (_ & _ & ->).
Qed.

(** [f] is queued behind what is left of [ahead], of which the rest is among the
    frames [past]; only frames of stops are in front. *)
Definition behind (ahead : list RetryFrame) (f : RetryFrame) (n : Node) (past : list RetryFrame) : Prop :=
  exists gone waiting urgent later,
    ahead = gone ++ waiting /\ command_queue_ n = urgent ++ waiting ++ f :: later
    /\ sublist gone past /\ Forall (stop_frame (requests_ n)) urgent.

(** The three ways a frame that was queued behind [ahead] can stand. *)
Definition kept_behind ahead f n past : Prop :=
  stop_worker_ n = true \/ behind ahead f n past \/ sublist (ahead ++ [f]) past.

Lemma stop_worker_kept e n n' : trans e n n' -> stop_worker_ n = true -> stop_worker_ n' = true.
Proof.
  destruct 1; cbn; try done.
  - by destruct (command_callback_other cmd n) as (_&_&->&_).
  - by destruct (stop_worker_ n) eqn:E.
Qed.

Lemma behind_step r e n n' ahead f past :
  reachable r n -> trans e n n' -> kept_behind ahead f n past ->
  kept_behind ahead f n' (past ++ taken_by e n').
Proof.
  intros Hn Ht [Hs|[(gone & waiting & urgent & later & Ha & Hq & Hg & Hu)|Hd]];
    [left; by eapply stop_worker_kept| |right; right; by apply sublist_inserts_r].
  pose proof (trans_evolves _ _ _ Ht) as Hev.
  assert (Forall (stop_frame (requests_ n')) urgent) as Hu'.
  { eapply Forall_impl; [done|]. intros g. by apply stop_frame_evolves. }
  destruct (queue_step e n n' Ht) as [?|[[Hq' ->]|[(g & Hq' & ->)|[(g & Hq' & ->)|(g & Hq' & -> & Hpc & _)]]]];
    [by left|right..].
  - left. exists gone, waiting, urgent, later. by rewrite app_nil_r, Hq'.
  - rewrite Hq in Hq'. destruct urgent as [|u urgent].
    + destruct waiting as [|w waiting]; cbn in Hq'; injection Hq' as -> Hq'.
      * right. rewrite Ha, app_nil_r. by apply sublist_app.
      * left. exists (gone ++ [g]), waiting, [], later.
        split_and!; [by rewrite <- app_assoc|done|by apply sublist_app|done].
    + injection Hq' as -> Hq'. apply Forall_cons in Hu' as [_ Hu']. left.
      exists gone, waiting, urgent, later. split_and!; [done..|by apply sublist_inserts_r|done].
  - left. exists gone, waiting, urgent, (later ++ [g]).
    rewrite app_nil_r, Hq', Hq, <- !app_assoc. cbn. done.
  - left. exists gone, waiting, (g :: urgent), later. rewrite app_nil_r, Hq', Hq.
    split_and!; [done..|]. constructor; [|done].
    destruct (reachable_stop_waiting r n Hn g Hpc) as ((q & Hqg & _ & Hs) & _).
    apply (stop_frame_evolves (requests_ n)); [done|by exists q].
Qed.

Lemma behind_exec r es n n' ahead f past :
  reachable r n -> exec es n = Some n' -> kept_behind ahead f n past ->
  kept_behind ahead f n' (past ++ taken es n).
Proof.
  revert n past. induction es as [|e es IH]; intros n past Hn; cbn [exec taken].
  { intros [= <-]. by rewrite app_nil_r. }
  destruct (step e n) as [n1|] eqn:He; [|done]. intros Hes Hb. rewrite app_assoc.
  apply IH; [by eapply rtc_r; [|exists e]|done|].
  eapply behind_step; [done|by apply step_trans|done].
Qed.

(** C32: the front of the queue is for the first transmission only: the retransmission of a frame,
    a STOP's included, is queued behind everything that waits at that moment, and until the node is
    being destroyed the transmitting thread takes it only after all of that, in whatever
    interleaving; what may come in front later are frames of newly submitted STOPs and nothing
    else. *)
Theorem retried_stop_waits_behind_commands r n f frames n1 es n2 :
  reachable r n -> retry_pc n = RetryEnqueue f frames -> step EvRetryEnqueue n = Some n1 ->
  exec es n1 = Some n2 ->
  stop_worker_ n2 = true
  \/ (exists gone waiting urgent later,
        command_queue_ n = gone ++ waiting
        /\ command_queue_ n2 = urgent ++ waiting ++ f :: later
        /\ sublist gone (taken es n1) /\ Forall (stop_frame (requests_ n2)) urgent)
  \/ sublist (command_queue_ n ++ [f]) (taken es n1).
Proof.
  intros Hn Hpc Hstep Hes. apply (behind_exec r es n1 n2 (command_queue_ n) f []); [|done|].
  - by eapply rtc_r; [|exists EvRetryEnqueue].
  - cbn in Hstep. unfold retry_enqueue, enqueue_uart_command in Hstep. rewrite Hpc in Hstep.
    destruct (stop_worker_ n) eqn:Hs; injection Hstep as <-; [by left|]. right; left.
    exists [], (command_queue_ n), [], []. cbn. split_and!; [done..|by constructor].
Qed.

(** A stop goes out and is not acknowledged; a grab is submitted; the retry thread
    is about to queue the stop again. *)
Definition stop_retry_trace : list Event :=
  submit (txt "STOP") ++ transmit 0 21 ++ submit (txt "GRAB")
  ++ [EvRetryTop; EvRetryPoll (milliseconds 1500); EvRetryNext].

Lemma retried_stop_waits_behind_commands_witness :
  let stop := mkFrame 1 (crlf (txt "SEQ:1 CMD:HAND_STOP")) in
  let n := after stop_retry_trace in
  let n2 := after (stop_retry_trace ++ EvRetryEnqueue :: transmit 0 21 ++ transmit 0 21) in
  (exists q, requests_ n !! 1 = Some q /\ is_stop q = true /\ state q = RETRY_QUEUED)
  /\ (fun t => frame_seq (tx_frame t)) <$> wire n2 = [1; 2; 1]
  /\ sublist (command_queue_ n ++ [stop])
       (taken (transmit 0 21 ++ transmit 0 21) (after (stop_retry_trace ++ [EvRetryEnqueue]))).
Proof.
  intros stop n n2. split; [eexists; vm_compute; repeat split; reflexivity|].
  split; [vm_compute; reflexivity|].
  destruct (retried_stop_waits_behind_commands (true, 3) n stop []
              (after (stop_retry_trace ++ [EvRetryEnqueue])) (transmit 0 21 ++ transmit 0 21) n2)
    as [Hs|[(gone & waiting & urgent & later & _ & Hq & _)|Hs]]; [run_trace|vm_compute; reflexivity..| | |exact Hs].
  - exfalso. vm_compute in Hs. discriminate Hs.
  - exfalso. assert (command_queue_ n2 = []) as Hn by (vm_compute; reflexivity). rewrite Hn in Hq.
    by destruct urgent, waiting.
Defined.

(** C33: the counter of the commands wraps to 0 after [UINT32_MAX] and then starts again at 1: a
    STOP that draws 0 is dropped before anything is cancelled, and one that draws a number of
    the table cancels every other command and is then neither registered nor queued. *)
Theorem stop_at_wrap_around n :
  main_pc n = Spinning -> 0 <= uart_fd_ n ->
  (next_seq_ n = 0 ->
     command_callback (txt "STOP") n = with_seqs 1 (latest_requested_seq_ n) n)
  /\ (next_seq_ n <> 0 -> is_Some (requests_ n !! next_seq_ n) ->
       command_callback (txt "STOP") n
       = with_requests (cancel_non_stop (requests_ n))
           (with_seqs (u32 (next_seq_ n + 1)) (latest_requested_seq_ n) n)).
Proof.
  intros Hpc Hfd. unfold command_callback.
  replace (valid_command (txt "STOP")) with true by (vm_compute; reflexivity).
  rewrite (proj2 (Z.ltb_ge _ _) Hfd). cbn [negb].
  destruct (Z.eqb_spec (next_seq_ n) 0) as [Hz|Hnz]; split; intros H; try congruence.
  - by rewrite H.
  - intros [q Hq]. rewrite (bool_decide_eq_true_2 _ eq_refl), bool_decide_eq_false_2.
    2:{ unfold map_to_uart_command. by rewrite !decide_False by done. }
    cbn [requests_ with_seqs]. rewrite start_equation, decide_False; [done|].
    rewrite cancel_non_stop_spec, lookup_fmap, Hq. by intros (_ & _ & ?).
Qed.

Lemma stop_at_wrap_around_witness :
  let n := with_seqs 1 1 (after grab) in
  command_callback (txt "STOP") n
  = with_requests (cancel_non_stop (requests_ n)) (with_seqs 2 1 n).
Proof.
  intros n. apply (stop_at_wrap_around n).
  - vm_compute. reflexivity.
  - vm_compute. discriminate.
  - vm_compute. discriminate.
  - vm_compute. by eexists.
Defined.
