(* ===== verification/ProtocolParser.v ===== *)
(** * The text command parser

    Models [cpp_modules/protocol_parser] (the class [ProtocolParser]) and its
    rewrite [cpp_modules/interview_practice/day28_protocol_parser.cpp] ([Module
    Day28]).  A command is typed with any surrounding blanks and in any case;
    the parser trims it, folds it to upper case and looks it up. *)

From Stdlib Require Import Ascii String.
From S2P Require Import Prelude HandBridgeNode.

Inductive Command := Open | Grab | Release | Stop | Unknown.

#[export] Instance Command_eq_dec : EqDecision Command.
Proof. solve_decision. Defined.

(** ** The library functions used *)

(** The position of the first character outside [set]; [None] is [npos]. *)
Definition find_first_not_of (set : list ascii) (t : text) : option nat :=
  fst <$> list_find (fun c => c ∉ set) t.

(** The position of the last one, searched from the end. *)
Definition find_last_not_of (set : list ascii) (t : text) : option nat :=
  (fun p => (length t - 1 - p)%nat) <$> find_first_not_of set (reverse t).

Definition substr (t : text) (pos count : nat) : text := take count (drop pos t).

(** [std::toupper] in the "C" locale. *)
Definition toupper (c : ascii) : ascii :=
  if (97 <=? code c) && (code c <=? 122) then ascii_of_N (Z.to_N (code c - 32)) else c.

(** ** [ProtocolParser] *)

(** [" \t\r\n"] *)
Definition blanks : list ascii := [SP; "009"%char; CR; LF].

Definition normalizeInput (rawInput : text) : text :=
  match find_first_not_of blanks rawInput with
  | None => []
  | Some first =>
      match find_last_not_of blanks rawInput with
      | None => []
      | Some last => toupper <$> substr rawInput first (last - first + 1)
      end
  end.

Definition commandMap_ : list (text * Command) :=
  [(txt "OPEN", Open); (txt "GRAB", Grab); (txt "RELEASE", Release); (txt "STOP", Stop)].

(** [std::map::find]; [None] is [end()]. *)
Definition map_find (m : list (text * Command)) (key : text) : option Command :=
  (fun e => e.2.2) <$> list_find (fun e => e.1 = key) m.

Definition parse (rawInput : text) : Command :=
  let normalizedInput := normalizeInput rawInput in
  if bool_decide (normalizedInput = []) then Unknown
  else
    match map_find commandMap_ normalizedInput with
    | None => Unknown
    | Some command => command
    end.

Definition isValid (command : Command) : bool := negb (bool_decide (command = Unknown)).

Definition commandToString (command : Command) : text :=
  match command with
  | Open => txt "OPEN"
  | Grab => txt "GRAB"
  | Release => txt "RELEASE"
  | Stop => txt "STOP"
  | Unknown => txt "UNKNOWN"
  end.

Definition toExecutorCommand (command : Command) : text :=
  match command with
  | Open => txt "HAND_OPEN"
  | Grab => txt "HAND_GRAB"
  | Release => txt "HAND_RELEASE"
  | Stop => txt "HAND_STOP"
  | Unknown => txt "HAND_NONE"
  end.

#[export] Instance Command_named : Named Command := commandToString.
#[export] Instance Command_named_inj : NamedInj Command.
Proof. intros [] []; done. Qed.

(** ** The rewrite of day 28 *)

Module Day28.
Definition whitespace : list ascii := [SP; "009"%char; CR; LF].

Definition normalizeInput (rawInput : text) : text :=
  match find_first_not_of whitespace rawInput with
  | None => []
  | Some first =>
      match find_last_not_of whitespace rawInput with
      | None => []
      | Some last => toupper <$> substr rawInput first (last - first + 1)
      end
  end.

Definition commandMap : list (text * Command) :=
  [(txt "OPEN", Open); (txt "GRAB", Grab); (txt "RELEASE", Release); (txt "STOP", Stop)].

Definition parseCommand (rawInput : text) : Command :=
  match map_find commandMap (normalizeInput rawInput) with
  | None => Unknown
  | Some command => command
  end.

Definition commandToString (command : Command) : text :=
  match command with
  | Open => txt "OPEN"
  | Grab => txt "GRAB"
  | Release => txt "RELEASE"
  | Stop => txt "STOP"
  | Unknown => txt "UNKNOWN"
  end.

Definition toExecutorCommand (command : Command) : text :=
  match command with
  | Open => txt "HAND_OPEN"
  | Grab => txt "HAND_GRAB"
  | Release => txt "HAND_RELEASE"
  | Stop => txt "HAND_STOP"
  | Unknown => txt "HAND_NONE"
  end.
End Day28.

Example parse_stop : parse ("009"%char :: txt "Stop" ++ [CR; LF]) = Stop.
Proof. vm_compute. reflexivity. Qed.
Example parse_jump : parse (txt "JUMP") = Unknown.
Proof. vm_compute. reflexivity. Qed.
Example parse_inner_blank : parse (txt "ST OP") = Unknown.
Proof. vm_compute. reflexivity. Qed.

(** ** Trimming *)

Abbreviation blank t := (Forall (fun c => c ∈ blanks) t).

(** Text that neither begins nor ends with a blank. *)
Definition trimmed (t : text) : Prop :=
  match t with [] => False | c :: _ => c ∉ blanks /\ List.last t SP ∉ blanks end.

Lemma find_first_not_of_none t : find_first_not_of blanks t = None <-> blank t.
Proof.
  unfold find_first_not_of. rewrite fmap_None, list_find_None. split; intros H.
  - eapply Forall_impl; [exact H|]. intros c Hc. by apply dec_stable in Hc.
  - eapply Forall_impl; [exact H|]. intros c Hc Hn. by apply Hn.
Qed.

Lemma find_first_not_of_app pre c rest :
  blank pre -> c ∉ blanks -> find_first_not_of blanks (pre ++ c :: rest) = Some (length pre).
Proof.
  intros Hpre Hc. unfold find_first_not_of.
  rewrite (proj2 (list_find_Some _ _ (length pre) c)); [done|].
  split_and!; [by rewrite lookup_app_r, Nat.sub_diag by lia|done|].
  intros j y Hj Hlt. rewrite lookup_app_l in Hj by done.
  rewrite Forall_lookup in Hpre. intros Hn. by apply Hn, (Hpre j).
Qed.

Lemma find_first_not_of_split t p :
  find_first_not_of blanks t = Some p ->
  exists pre c rest, t = pre ++ c :: rest /\ blank pre /\ c ∉ blanks /\ p = length pre.
Proof.
  unfold find_first_not_of. intros ([i c] & Hf & ->)%fmap_Some.
  apply list_find_Some in Hf as (Hi & Hc & Hpre). cbn.
  exists (take i t), c, (drop (S i) t). split_and!.
  - by rewrite take_drop_middle.
  - apply Forall_lookup. intros j y Hj. apply lookup_take_Some in Hj as [Hj Hlt].
    destruct (decide (y ∈ blanks)); [done|]. by destruct (Hpre j y Hj Hlt).
  - done.
  - apply lookup_lt_Some in Hi. rewrite length_take. lia.
Qed.

(** The decomposition every input has. *)
Lemma trim_split t :
  blank t \/ exists pre body post, t = pre ++ body ++ post /\ blank pre /\ blank post /\ trimmed body.
Proof.
  destruct (find_first_not_of blanks t) as [p|] eqn:E; [right|left; by apply find_first_not_of_none].
  apply find_first_not_of_split in E as (pre & c & rest & -> & Hpre & Hc & _).
  destruct (find_first_not_of blanks (reverse (c :: rest))) as [q|] eqn:E.
  - apply find_first_not_of_split in E as (post & d & front & Heq & Hpost & Hd & _).
    apply (f_equal reverse) in Heq. rewrite reverse_involutive, reverse_app, reverse_cons in Heq.
    exists pre, (reverse front ++ [d]), (reverse post). split_and!.
    + by rewrite Heq.
    + done.
    + by apply Forall_reverse.
    + unfold trimmed. destruct (reverse front ++ [d]) as [|x l] eqn:El.
      { by destruct (reverse front). }
      split; [by cbn in Heq; injection Heq as <-|]. rewrite <- El. by rewrite List.last_last.
  - exfalso. apply find_first_not_of_none in E. rewrite Forall_forall in E. apply Hc, E.
    rewrite elem_of_reverse. set_solver.
Qed.

Lemma trimmed_ends body :
  trimmed body ->
  (exists c rest, body = c :: rest /\ c ∉ blanks) /\ (exists front d, body = front ++ [d] /\ d ∉ blanks).
Proof.
  destruct body as [|c rest]; [done|]. intros [Hc Hd]. split; [by exists c, rest|].
  exists (removelast (c :: rest)), (List.last (c :: rest) SP). split; [|done].
  by apply app_removelast_last.
Qed.

(** What [normalizeInput] makes of it. *)
Lemma normalizeInput_trimmed pre body post :
  blank pre -> blank post -> trimmed body ->
  normalizeInput (pre ++ body ++ post) = toupper <$> body.
Proof.
  intros Hpre Hpost Hbody.
  destruct (trimmed_ends body Hbody) as [(c & rest & Hc1 & Hc) (front & d & Hd1 & Hd)].
  unfold normalizeInput, find_last_not_of.
  assert (find_first_not_of blanks (pre ++ body ++ post) = Some (length pre)) as ->.
  { rewrite Hc1. by apply find_first_not_of_app. }
  assert (find_first_not_of blanks (reverse (pre ++ body ++ post)) = Some (length post)) as ->.
  { rewrite Hd1, !reverse_app, reverse_singleton, <- app_assoc. cbn.
    rewrite find_first_not_of_app; [by rewrite length_reverse|by apply Forall_reverse|done]. }
  cbn. f_equal. unfold substr. rewrite drop_app_length.
  rewrite !length_app.
  assert (0 < length body)%nat by (rewrite Hc1; simpl; lia).
  replace (length pre + (length body + length post) - 1 - length post - length pre + 1)%nat
    with (length body) by lia.
  by rewrite take_app_length.
Qed.

Lemma normalizeInput_blank t : blank t -> normalizeInput t = [].
Proof. intros H. unfold normalizeInput. by rewrite (proj2 (find_first_not_of_none t) H). Qed.

(** ** Looking the command up *)

Lemma map_find_spec key command :
  map_find commandMap_ key = Some command <-> command <> Unknown /\ key = commandToString command.
Proof.
  split.
  - unfold map_find, commandMap_. cbn -[txt].
    repeat (case_decide; [cbn -[txt]; intros [= <-]; by subst|cbn -[txt]]). done.
  - intros [Hc ->]. destruct command; [vm_compute; reflexivity..|done].
Qed.

(** The names are upper-case letters, which no blank folds to. *)
Lemma toupper_name body command :
  toupper <$> body = commandToString command -> trimmed body.
Proof.
  intros Heq.
  assert (Forall (fun c => c ∉ blanks) body) as Hb.
  { assert (Forall (fun c => c ∉ blanks) (toupper <$> body)) as Hu.
    { rewrite Heq. apply (bool_decide_unpack _). by destruct command; vm_compute. }
    rewrite Forall_forall in Hu. apply Forall_forall. intros c Hc Hin.
    apply (Hu (toupper c)); [by apply list_elem_of_fmap_2|]. clear -Hin.
    unfold blanks in *. rewrite !elem_of_cons in Hin.
    destruct Hin as [->|[->|[->|[->|Hin]]]]; [..|by apply not_elem_of_nil in Hin];
      apply (bool_decide_unpack _); by vm_compute. }
  destruct body as [|c body]; [by destruct command|]. split.
  - by apply Forall_cons in Hb as [? _].
  - rewrite Forall_forall in Hb. apply Hb.
    assert (c :: body = removelast (c :: body) ++ [List.last (c :: body) SP]) as E
      by by apply app_removelast_last.
    rewrite E at 2. apply elem_of_app. right. apply list_elem_of_here.
Qed.

Lemma parse_spec raw :
  parse raw = default Unknown (map_find commandMap_ (normalizeInput raw)).
Proof.
  unfold parse. case_bool_decide as E; [by rewrite E|].
  by destruct (map_find _ _).
Qed.

(** ** Properties *)

(** C34: [parse] recognises exactly the four commands, each in any mixture of cases and with any
    blanks, tabs and line ends around it (and none inside); everything else, the empty text
    included, is [Unknown]. *)
Theorem parse_accepts raw command :
  command <> Unknown ->
  parse raw = command <->
  exists pre body post,
    raw = pre ++ body ++ post /\ Forall (fun c => c ∈ blanks) pre /\ Forall (fun c => c ∈ blanks) post
    /\ toupper <$> body = commandToString command.
Proof.
  intros Hc. rewrite parse_spec. split.
  - intros Hp. destruct (map_find _ _) as [c|] eqn:E; [|by subst]. cbn in Hp. subst c.
    apply map_find_spec in E as [_ E].
    destruct (trim_split raw) as [Hb|(pre & body & post & -> & Hpre & Hpost & Hbody)].
    + rewrite normalizeInput_blank in E by done. by destruct command.
    + rewrite normalizeInput_trimmed in E by done. by exists pre, body, post.
  - intros (pre & body & post & -> & Hpre & Hpost & Heq).
    rewrite normalizeInput_trimmed by (done || by eapply toupper_name).
    by rewrite (proj2 (map_find_spec _ command)).
Qed.

Lemma parse_accepts_witness : parse ("009"%char :: txt "Stop" ++ [CR; LF]) = Stop.
Proof.
  apply (parse_accepts _ Stop); [discriminate|].
  exists ["009"%char], (txt "Stop"), [CR; LF].
  split; [reflexivity|]. split_and!; apply (bool_decide_unpack _); vm_compute; exact I.
Defined.

(** The three places of the repository that name commands agree: the rewrite of day 28
    parses and prints like the class on every input; a text the hand bridge accepts as a command is
    parsed as the command of that name; and the frame the hand bridge builds for it carries
    exactly the executor command of the parser. *)
Lemma command_names_agree raw seq :
  Day28.parseCommand raw = parse raw
  /\ Day28.commandToString (Day28.parseCommand raw) = commandToString (parse raw)
  /\ Day28.toExecutorCommand (Day28.parseCommand raw) = toExecutorCommand (parse raw)
  /\ (valid_command raw = true ->
      isValid (parse raw) = true /\ commandToString (parse raw) = raw
      /\ map_to_uart_command raw seq
         = txt "SEQ:" ++ to_string seq ++ txt " CMD:" ++ toExecutorCommand (parse raw) ++ [CR; LF]).
Proof.
  assert (Day28.parseCommand raw = parse raw) as ->.
  { rewrite parse_spec. change (Day28.parseCommand raw)
      with (match map_find commandMap_ (normalizeInput raw) with
            | None => Unknown | Some command => command end).
    by destruct (map_find _ _). }
  do 3 (split; [done|]).
  unfold valid_command. rewrite !orb_true_iff, !bool_decide_eq_true.
  intros [[[-> | ->] | ->] | ->]; split_and!; by vm_compute.
Qed.
