(* ===== verification/SerialFrame.v ===== *)
(** * The binary frame codec

    Models the class [FrameCodec] of [cpp_modules/serial_frame_demo]: a frame is
    [AA 55 | length | seq hi | seq lo | command | checksum | 0D 0A], the checksum
    being the XOR of everything from the length byte to the command.

    The theorems say that [decode] is exactly the inverse of [encode] on byte
    strings and that one corrupted byte is always detected. *)

From Stdlib Require Import Ascii String.
From S2P Require Import Prelude Bytes.

Definition kHeader1 : Z := 0xAA.
Definition kHeader2 : Z := 0x55.
Definition kTail1 : Z := 0x0D.
Definition kTail2 : Z := 0x0A.
Definition kPayloadLength : Z := 3.

Module WireCommand.
Inductive WireCommand := Open | Grab | Release | Stop.
End WireCommand.
Abbreviation WireCommand := WireCommand.WireCommand.

#[export] Instance WireCommand_eq_dec : EqDecision WireCommand.
Proof. solve_decision. Defined.

(** [static_cast<uint8_t>]. *)
Definition command_code (command : WireCommand) : Z :=
  match command with
  | WireCommand.Open => 1
  | WireCommand.Grab => 2
  | WireCommand.Release => 3
  | WireCommand.Stop => 4
  end.

Record Frame := mkFrame {
  sequence : Z;
  command : WireCommand;
}.

#[export] Instance Frame_eq_dec : EqDecision Frame.
Proof. solve_decision. Defined.

Module DecodeError.
Inductive DecodeError :=
  | NoError
  | InvalidHeader
  | InvalidLength
  | InvalidTail
  | ChecksumMismatch
  | UnknownCommand.
End DecodeError.
Abbreviation DecodeError := DecodeError.DecodeError.
Import DecodeError.

#[export] Instance DecodeError_eq_dec : EqDecision DecodeError.
Proof. solve_decision. Defined.

(** ** Operations *)

Definition isKnownCommand (c : Z) : bool :=
  (c =? command_code WireCommand.Open) || (c =? command_code WireCommand.Grab)
  || (c =? command_code WireCommand.Release) || (c =? command_code WireCommand.Stop).

Definition encode (frame : Frame) : list Z :=
  let bytes := [kHeader1; kHeader2] in
  let bytes := bytes ++ [kPayloadLength] in
  let bytes := bytes ++ [high_byte (sequence frame)] in
  let bytes := bytes ++ [low_byte (sequence frame)] in
  let bytes := bytes ++ [command_code (command frame)] in
  let checksum := calculateChecksum bytes 2 (length bytes) in
  bytes ++ [checksum] ++ [kTail1] ++ [kTail2].

(** [static_cast<WireCommand>] of a known command byte. *)
Definition to_command (c : Z) : WireCommand :=
  if c =? 1 then WireCommand.Open
  else if c =? 2 then WireCommand.Grab
  else if c =? 3 then WireCommand.Release
  else WireCommand.Stop.

(** The returned flag and [outFrame] as an option, and [error] ([NoError] is
    [DecodeError::None]). *)
Definition decode (bytes : list Z) : option Frame * DecodeError :=
  if (length bytes <? 3)%nat then (None, InvalidLength)
  else if negb (bytes !!! 0%nat =? kHeader1) || negb (bytes !!! 1%nat =? kHeader2)
  then (None, InvalidHeader)
  else
    let payloadLength := bytes !!! 2%nat in
    if negb (payloadLength =? kPayloadLength) then (None, InvalidLength)
    else
      let expectedSize := (Z.to_nat payloadLength + 6)%nat in
      if negb (length bytes =? expectedSize)%nat then (None, InvalidLength)
      else if negb (bytes !!! (expectedSize - 2)%nat =? kTail1)
              || negb (bytes !!! (expectedSize - 1)%nat =? kTail2)
      then (None, InvalidTail)
      else
        let checksumIndex := (3 + Z.to_nat payloadLength)%nat in
        let calculatedChecksum := calculateChecksum bytes 2 checksumIndex in
        if negb (bytes !!! checksumIndex =? calculatedChecksum)
        then (None, ChecksumMismatch)
        else
          let commandByte := bytes !!! 5%nat in
          if negb (isKnownCommand commandByte) then (None, UnknownCommand)
          else (Some (mkFrame (be16 (bytes !!! 3%nat) (bytes !!! 4%nat))
                              (to_command commandByte)), NoError).

(** One upper-case hexadecimal digit, 0..15. *)
Definition hex_digit (d : Z) : ascii :=
  ascii_of_N (Z.to_N (if d <? 10 then 48 + d else 55 + d)).

(** [std::hex << std::uppercase << std::setfill('0') << std::setw(2)] of a byte. *)
Definition hex_byte (b : Z) : text := [hex_digit (b / 16); hex_digit (b mod 16)].

(** The loop prints a blank after every byte but the last. *)
Fixpoint toHex (bytes : list Z) : text :=
  match bytes with
  | [] => []
  | b :: bytes' =>
      hex_byte b ++ (match bytes' with [] => [] | _ => [SP] end) ++ toHex bytes'
  end.

Definition commandToString (command : WireCommand) : text :=
  match command with
  | WireCommand.Open => txt "OPEN"
  | WireCommand.Grab => txt "GRAB"
  | WireCommand.Release => txt "RELEASE"
  | WireCommand.Stop => txt "STOP"
  end.

Definition errorToString (error : DecodeError) : text :=
  match error with
  | NoError => txt "NONE"
  | InvalidHeader => txt "INVALID_HEADER"
  | InvalidLength => txt "INVALID_LENGTH"
  | InvalidTail => txt "INVALID_TAIL"
  | ChecksumMismatch => txt "CHECKSUM_MISMATCH"
  | UnknownCommand => txt "UNKNOWN_COMMAND"
  end.

#[export] Instance WireCommand_named : Named WireCommand := commandToString.
#[export] Instance WireCommand_named_inj : NamedInj WireCommand.
Proof. intros [] []; done. Qed.
#[export] Instance DecodeError_named : Named DecodeError := errorToString.
#[export] Instance DecodeError_named_inj : NamedInj DecodeError.
Proof. intros [] []; done. Qed.

Example encode_hex :
  toHex (encode (mkFrame 0x0102 WireCommand.Grab)) = txt "AA 55 03 01 02 02 02 0D 0A".
Proof. vm_compute. reflexivity. Qed.

(** ** The shape of a frame *)

Definition frame_ok (f : Frame) : Prop := u16_ok (sequence f).

(** The checksum of a payload. *)
Definition frame_checksum (hi lo c : Z) : Z := Z.lxor (Z.lxor (Z.lxor kPayloadLength hi) lo) c.

Definition frame_bytes (hi lo c : Z) : list Z :=
  [kHeader1; kHeader2; kPayloadLength; hi; lo; c; frame_checksum hi lo c; kTail1; kTail2].

Lemma encode_bytes f :
  encode f = frame_bytes (high_byte (sequence f)) (low_byte (sequence f)) (command_code (command f)).
Proof. reflexivity. Qed.

Lemma length_encode f : length (encode f) = 9%nat.
Proof. done. Qed.

Lemma command_code_inj c d : command_code c = command_code d -> c = d.
Proof. by destruct c, d. Qed.

Lemma command_code_ok c : byte_ok (command_code c).
Proof. apply (bool_decide_unpack _). by destruct c; vm_compute. Qed.

Lemma known_command_code c : isKnownCommand (command_code c) = true.
Proof. by destruct c. Qed.

Lemma to_command_code c : to_command (command_code c) = c.
Proof. by destruct c. Qed.

Lemma code_to_command c : isKnownCommand c = true -> command_code (to_command c) = c.
Proof.
  unfold isKnownCommand. rewrite !orb_true_iff, !Z.eqb_eq.
  intros [[[-> | ->] | ->] | ->]; done.
Qed.

Lemma encode_ok f : bytes_ok (encode f).
Proof.
  rewrite encode_bytes. unfold frame_bytes, frame_checksum.
  assert (forall b, bool_decide (byte_ok b) = true -> byte_ok b) as Hd.
  { intros b. apply bool_decide_eq_true. }
  pose proof (command_code_ok (command f)). pose proof (Hd kPayloadLength eq_refl).
  repeat (apply Forall_cons_2; [first [by apply Hd|by auto 10 with gateway]|]). constructor.
Qed.

(** The checks of [decode], as the equality they establish. *)
Lemma decode_shape bytes f e :
  decode bytes = (Some f, e) ->
  exists hi lo c, bytes = frame_bytes hi lo c /\ isKnownCommand c = true
                  /\ f = mkFrame (be16 hi lo) (to_command c) /\ e = NoError.
Proof.
  unfold decode. destruct (_ <? _)%nat eqn:E0; [done|]. destruct (negb (_ =? kHeader1) || _) eqn:E1; [done|].
  destruct (Z.eqb_spec (bytes !!! 2%nat) kPayloadLength) as [E2|]; [|done]. cbn [negb]. rewrite E2.
  change (Z.to_nat kPayloadLength) with 3%nat. cbn [Nat.add Nat.sub].
  destruct (negb (_ =? _)%nat) eqn:E3; [done|]. destruct (negb (_ =? kTail1) || _) eqn:E4; [done|].
  destruct (negb (_ =? calculateChecksum _ _ _)) eqn:E5; [done|].
  destruct (negb (isKnownCommand _)) eqn:E6; [done|].
  intros [= <- <-]. reflect_bools. apply Nat.eqb_eq in E3.
  do 10 (destruct bytes as [|? bytes]; try discriminate E3). clear E3 E0.
  cbn in *. subst. by exists z2, z3, z4.
Qed.

Lemma decode_frame_bytes hi lo c :
  isKnownCommand c = true ->
  decode (frame_bytes hi lo c) = (Some (mkFrame (be16 hi lo) (to_command c)), NoError).
Proof.
  intros Hc.
  transitivity (if negb (frame_checksum hi lo c =? frame_checksum hi lo c)
                then (@None Frame, ChecksumMismatch)
                else if negb (isKnownCommand c) then (None, UnknownCommand)
                else (Some (mkFrame (be16 hi lo) (to_command c)), NoError)); [reflexivity|].
  by rewrite Z.eqb_refl, Hc.
Qed.

(** The two directions of the round trip. *)
Lemma decode_encode f : frame_ok f -> decode (encode f) = (Some f, NoError).
Proof.
  intros Hf. rewrite encode_bytes, decode_frame_bytes by apply known_command_code.
  rewrite be16_split, to_command_code by done. by destruct f.
Qed.

Lemma frame_bytes_encode hi lo c :
  bytes_ok (frame_bytes hi lo c) -> isKnownCommand c = true ->
  let f := mkFrame (be16 hi lo) (to_command c) in
  frame_ok f /\ frame_bytes hi lo c = encode f.
Proof.
  intros Hb Hc. unfold frame_bytes in Hb. rewrite !Forall_cons in Hb.
  destruct Hb as (_ & _ & _ & Hhi & Hlo & _). destruct (split_be16 hi lo Hhi Hlo) as [H1 H2].
  split; [apply be16_ok|]. rewrite encode_bytes. cbn. by rewrite H1, H2, code_to_command.
Qed.

(** ** Properties *)

(** C16: the codec is exact: [decode] accepts a byte string precisely when it is the encoding of
    a frame with a 16-bit sequence number, and then it returns that very frame without an
    error; every other string is refused with an error. *)
Theorem decode_exact bytes :
  bytes_ok bytes ->
  (forall f, (decode bytes).1 = Some f <-> frame_ok f /\ bytes = encode f)
  /\ ((decode bytes).2 = NoError <-> is_Some (decode bytes).1).
Proof.
  intros Hb. split; [intros f; split|].
  - destruct (decode bytes) as [o e] eqn:E. cbn [fst]. intros ->.
    apply decode_shape in E as (hi & lo & c & -> & Hc & -> & _). by apply frame_bytes_encode.
  - intros [Hf ->]. by rewrite decode_encode.
  - unfold decode. repeat case_match; cbn; split; try done; by intros [? ?].
Qed.

Lemma decode_exact_witness :
  (decode [0xAA; 0x55; 3; 1; 2; 4; 4; 0x0D; 0x0A]).1 = Some (mkFrame 0x0102 WireCommand.Stop).
Proof.
  apply decode_exact.
  - apply (bool_decide_unpack _). vm_compute. exact I.
  - split; [apply (bool_decide_unpack _); vm_compute; exact I|vm_compute; reflexivity].
Defined.

(** Two encodings that differ are at least two bytes apart. *)
Lemma frame_bytes_distance i b hi lo c hi' lo' c' :
  (i < 9)%nat -> <[i := b]> (frame_bytes hi lo c) = frame_bytes hi' lo' c' ->
  frame_bytes hi lo c = frame_bytes hi' lo' c'.
Proof.
  intros Hi. unfold frame_bytes, frame_checksum.
  destruct i as [|[|[|[|[|[|[|[|[|i]]]]]]]]]; [..|lia]; cbn -[Z.lxor];
    intros H; injection H; clear H; intros; subst;
    repeat match goal with
    | H : Z.lxor ?a _ = Z.lxor ?a _ |- _ => apply lxor_cancel_l in H; subst
    | H : Z.lxor _ ?a = Z.lxor _ ?a |- _ => apply lxor_cancel_r in H; subst
    end; done.
Qed.

(** C24: a single corrupted byte never goes unnoticed: replacing any one of the nine bytes of an
    encoded frame by another byte makes [decode] refuse it, so a frame is never taken for a
    different one. *)
Theorem corruption_detected f i b :
  (i < 9)%nat -> b <> encode f !!! i ->
  (decode (<[i := b]> (encode f))).1 = None
  /\ (decode (<[i := b]> (encode f))).2 <> NoError.
Proof.
  intros Hi Hne.
  destruct (decode (<[i := b]> (encode f))) as [[g|] e] eqn:E; cbn [fst snd].
  - exfalso. apply decode_shape in E as (hi & lo & c & Hbytes & _).
    rewrite encode_bytes in Hbytes. pose proof Hbytes as Heq.
    apply frame_bytes_distance in Heq; [|done]. rewrite <- Heq, <- encode_bytes in Hbytes.
    apply Hne. pose proof (f_equal (fun l => l !!! i) Hbytes) as Hl. cbv beta in Hl.
    rewrite list_lookup_total_insert_eq in Hl by (rewrite length_encode; lia). done.
  - split; [done|]. intros ->. revert E. unfold decode. by repeat case_match.
Qed.

Lemma corruption_detected_witness :
  (decode (<[5%nat := 3]> (encode (mkFrame 7 WireCommand.Stop)))).1 = None.
Proof.
  apply (corruption_detected (mkFrame 7 WireCommand.Stop) 5 3).
  - lia.
  - vm_compute. discriminate.
Defined.
