(* ===== verification/SerialStream.v ===== *)
(** * Frames out of a byte stream

    Models the class [StreamParser] of [cpp_modules/serial_frame_demo]:
    [append] and the loop of [extractFrames].  One turn of the [while (true)]
    loop is [turn]; [extractFrames] runs turns with a fuel of one more than the
    size of the buffer, which is always enough because every turn that does not
    end the loop erases a byte ([extractFrames_total]).

    The specification is [scans], which decides one byte at a time: the head of
    the buffer is dropped, or starts a frame, or has to wait for more input.
    The buffer of the code may keep one more useless byte than the
    specification, so buffers are compared up to [buffer_equiv]. *)

From S2P Require Import Prelude Bytes SerialFrame.

(** ** Operations *)

Definition append (buffer_ bytes : list Z) : list Z := buffer_ ++ bytes.

(** The [for] loop: the first index of [AA 55], or [buffer_.size()]. *)
Fixpoint headerPosition (buffer_ : list Z) : nat :=
  match buffer_ with
  | [] => 0
  | a :: rest =>
      match rest with
      | [] => 1
      | b :: _ => if (a =? kHeader1) && (b =? kHeader2) then 0 else S (headerPosition rest)
      end
  end.

Inductive Turn :=
  | Break (buffer_ : list Z)
  | Continue (buffer_ : list Z)
  | Push (frame : Frame) (buffer_ : list Z).

Definition turn (buffer_ : list Z) : Turn :=
  if (length buffer_ <? 2)%nat then Break buffer_
  else
    let p := headerPosition buffer_ in
    if (p =? length buffer_)%nat then
      let lastByte := buffer_ !!! (length buffer_ - 1)%nat in
      if lastByte =? kHeader1 then Break [lastByte] else Break []
    else
      let buffer_ := if (0 <? p)%nat then drop p buffer_ else buffer_ in
      if (length buffer_ <? 3)%nat then Break buffer_
      else
        let payloadLength := buffer_ !!! 2%nat in
        if negb (payloadLength =? kPayloadLength) then Continue (drop 1 buffer_)
        else
          let expectedSize := (Z.to_nat payloadLength + 6)%nat in
          if (length buffer_ <? expectedSize)%nat then Break buffer_
          else
            match (decode (take expectedSize buffer_)).1 with
            | Some frame => Push frame (drop expectedSize buffer_)
            | None => Continue (drop 1 buffer_)
            end.

Fixpoint turns (fuel : nat) (buffer_ : list Z) (frames : list Frame)
    : option (list Frame * list Z) :=
  match fuel with
  | O => None
  | S fuel' =>
      match turn buffer_ with
      | Break buffer_ => Some (frames, buffer_)
      | Continue buffer_ => turns fuel' buffer_ frames
      | Push frame buffer_ => turns fuel' buffer_ (frames ++ [frame])
      end
  end.

Definition extractFrames (buffer_ : list Z) : option (list Frame * list Z) :=
  turns (S (length buffer_)) buffer_ [].

(** A client: appends the chunks one after the other and extracts after each. *)
Fixpoint feed (chunks : list (list Z)) (buffer_ : list Z) : option (list Frame * list Z) :=
  match chunks with
  | [] => Some ([], buffer_)
  | chunk :: chunks' =>
      match extractFrames (append buffer_ chunk) with
      | None => None
      | Some (frames, buffer_) =>
          match feed chunks' buffer_ with
          | None => None
          | Some (frames', buffer_) => Some (frames ++ frames', buffer_)
          end
      end
  end.

(** ** The specification *)

Inductive Head := Wait | Drop | Take (f : Frame).

(** What every frame begins with. *)
Definition preamble : list Z := [kHeader1; kHeader2; kPayloadLength].

(** What the bytes received so far say about the first one. *)
Definition head (b : list Z) : Head :=
  if decide (take 3 b `prefix_of` preamble) then
    if (length b <? 9)%nat then Wait
    else match (decode (take 9 b)).1 with Some f => Take f | None => Drop end
  else Drop.

Inductive scans : list Z -> list Frame -> list Z -> Prop :=
  | scans_wait b : head b = Wait -> scans b [] b
  | scans_drop x b fs r : head (x :: b) = Drop -> scans b fs r -> scans (x :: b) fs r
  | scans_take b f fs r :
      head b = Take f -> scans (drop 9 b) fs r -> scans b (f :: fs) r.

Lemma take_3_app (b c : list Z) : take 3 b `prefix_of` take 3 (b ++ c).
Proof. rewrite take_app. by apply prefix_app_r. Qed.

(** Once the head is decided, more input does not change it. *)
Lemma head_app b c : head b <> Wait -> head (b ++ c) = head b.
Proof.
  unfold head. destruct (decide (take 3 b `prefix_of` preamble)) as [Hp|Hp].
  - destruct (Nat.ltb_spec (length b) 9) as [|Hlen]; [done|]. intros _.
    rewrite !take_app_le by lia. rewrite decide_True by done.
    rewrite (proj2 (Nat.ltb_ge _ _)); [done|]. rewrite length_app. lia.
  - intros _. rewrite decide_False; [done|]. intros Hn. apply Hp.
    etrans; [apply take_3_app|exact Hn].
Qed.

Lemma head_drop_cons b : head b = Drop -> exists x b', b = x :: b'.
Proof. destruct b as [|x b]; [done|eauto]. Qed.

Lemma head_take_length b f : head b = Take f -> (9 <= length b)%nat.
Proof. unfold head. case_decide; [|done]. by destruct (Nat.ltb_spec (length b) 9). Qed.

(** *** The specification is a function *)

Lemma scans_total b : exists fs r, scans b fs r.
Proof.
  induction b as [b IH] using (induction_ltof1 _ length). unfold ltof in IH.
  destruct (head b) as [| |f] eqn:Hh.
  - exists [], b. by constructor.
  - destruct (head_drop_cons b Hh) as (x & b' & ->).
    destruct (IH b') as (fs & r & Hs); [simpl; lia|]. exists fs, r. by constructor.
  - pose proof (head_take_length b f Hh).
    destruct (IH (drop 9 b)) as (fs & r & Hs); [rewrite length_drop; lia|].
    exists (f :: fs), r. by constructor.
Qed.

Lemma scans_functional b fs r fs' r' : scans b fs r -> scans b fs' r' -> fs = fs' /\ r = r'.
Proof.
  intros Hs. revert fs' r'. induction Hs as [b Hh|x b fs r Hh Hs IH|b f fs r Hh Hs IH];
    intros fs' r' Hs'; inversion Hs'; subst; try congruence.
  - done.
  - by apply IH.
  - assert (f = f0) as -> by congruence. by destruct (IH _ _ H0) as [-> ->].
Qed.

(** Scanning in two instalments. *)
Lemma scans_app b fs r c fs' r' :
  scans b fs r -> scans (r ++ c) fs' r' -> scans (b ++ c) (fs ++ fs') r'.
Proof.
  intros Hs Hs'. induction Hs as [b Hh|x b fs r Hh Hs IH|b f fs r Hh Hs IH]; [done|..].
  - cbn. apply scans_drop; [|by apply IH].
    change (x :: b ++ c) with ((x :: b) ++ c). rewrite head_app; congruence.
  - cbn. pose proof (head_take_length b f Hh). apply scans_take.
    + rewrite head_app; congruence.
    + rewrite drop_app_le by lia. by apply IH.
Qed.

Lemma scans_rest_head b fs r : scans b fs r -> head r = Wait.
Proof. by induction 1. Qed.

Lemma wait_short b : head b = Wait -> (length b < 9)%nat.
Proof.
  unfold head. case_decide; [|done]. destruct (Nat.ltb_spec (length b) 9); [done|].
  by destruct (decode _).1.
Qed.

(** ** Buffers that behave alike *)

Definition buffer_equiv (b1 b2 : list Z) : Prop :=
  forall c fs r, scans (b1 ++ c) fs r <-> scans (b2 ++ c) fs r.

#[export] Instance buffer_equivalence : Equivalence buffer_equiv.
Proof.
  split; unfold buffer_equiv.
  - done.
  - intros b1 b2 H c fs r. by rewrite H.
  - intros b1 b2 b3 H1 H2 c fs r. by rewrite H1, H2.
Qed.

#[export] Instance append_proper : Proper (buffer_equiv ==> (=) ==> buffer_equiv) append.
Proof.
  intros b1 b2 H c ? <- d fs r. unfold append. rewrite <- !app_assoc. apply H.
Qed.

#[export] Instance scans_proper : Proper (buffer_equiv ==> (=) ==> (=) ==> iff) scans.
Proof.
  intros b1 b2 H fs ? <- r ? <-. specialize (H [] fs r). by rewrite !app_nil_r in H.
Qed.

Lemma drop_equiv x b : head (x :: b) = Drop -> buffer_equiv (x :: b) b.
Proof.
  intros Hh c fs r. assert (head ((x :: b) ++ c) = Drop) as Hc.
  { rewrite head_app; congruence. }
  split.
  - intros Hs. inversion Hs; subst; (done || congruence).
  - intros Hs. by apply scans_drop.
Qed.

(** ** The code refines the specification *)

(** A byte that cannot begin the preamble. *)
Lemma head_not_header b :
  match b with
  | [] => False
  | x :: [] => x <> kHeader1
  | x :: y :: _ => x <> kHeader1 \/ y <> kHeader2
  end -> head b = Drop.
Proof.
  intros H. unfold head. rewrite decide_False; [done|]. intros [k Hk]. unfold preamble in Hk.
  destruct b as [|x [|y [|z b]]]; cbn in Hk; [done|injection Hk as ? ?|injection Hk as ? ? ?
    |injection Hk as ? ? ? ?]; intuition congruence.
Qed.

(** Skipping to the first header is dropping byte by byte. *)
Lemma headerPosition_equiv b :
  (headerPosition b < length b)%nat -> buffer_equiv b (drop (headerPosition b) b).
Proof.
  induction b as [|x b IH]; [cbn; lia|]. destruct b as [|y b]; [cbn; lia|].
  change (headerPosition (x :: y :: b))
    with (if (x =? kHeader1) && (y =? kHeader2) then 0%nat else S (headerPosition (y :: b))).
  destruct ((x =? kHeader1) && (y =? kHeader2)) eqn:E; [done|]. intros Hlt.
  cbn [drop]. etrans; [|apply IH; cbn in *; lia].
  apply drop_equiv, head_not_header.
  apply andb_false_iff in E as [E|E]; reflect_bools; auto.
Qed.

Lemma headerPosition_none b :
  headerPosition b = length b ->
  buffer_equiv b (if List.last b 0 =? kHeader1 then [kHeader1] else []).
Proof.
  induction b as [|x b IH]; [done|]. destruct b as [|y b]; intros Hp.
  - cbn. destruct (Z.eqb_spec x kHeader1) as [->|]; [done|].
    by apply drop_equiv, head_not_header.
  - change (headerPosition (x :: y :: b))
      with (if (x =? kHeader1) && (y =? kHeader2) then 0%nat else S (headerPosition (y :: b))) in Hp.
    destruct ((x =? kHeader1) && (y =? kHeader2)) eqn:E; [done|].
    etrans; [|apply IH; by injection Hp].
    apply drop_equiv, head_not_header.
    apply andb_false_iff in E as [E|E]; reflect_bools; auto.
Qed.

Lemma headerPosition_found b :
  (headerPosition b < length b)%nat ->
  exists rest, drop (headerPosition b) b = kHeader1 :: kHeader2 :: rest.
Proof.
  induction b as [|x b IH]; [cbn; lia|]. destruct b as [|y b]; [cbn; lia|].
  change (headerPosition (x :: y :: b))
    with (if (x =? kHeader1) && (y =? kHeader2) then 0%nat else S (headerPosition (y :: b))).
  destruct ((x =? kHeader1) && (y =? kHeader2)) eqn:E; intros Hlt.
  - reflect_bools. subst. by exists b.
  - cbn [drop]. apply IH. cbn in *. lia.
Qed.

Lemma headerPosition_le b : (headerPosition b <= length b)%nat.
Proof.
  induction b as [|x b IH]; [done|]. destruct b as [|y b]; [done|].
  change (headerPosition (x :: y :: b))
    with (if (x =? kHeader1) && (y =? kHeader2) then 0%nat else S (headerPosition (y :: b))).
  destruct (_ && _); cbn in *; lia.
Qed.

Lemma last_byte x b : (x :: b) !!! (length (x :: b) - 1)%nat = List.last (x :: b) 0.
Proof.
  replace (length (x :: b) - 1)%nat with (length b) by (simpl; lia).
  revert x. induction b as [|y b IH]; intros x; [done|]. apply (IH y).
Qed.

(** What one turn does, seen from the specification. *)
Definition turn_ok (b : list Z) (t : Turn) : Prop :=
  match t with
  | Break b' =>
      buffer_equiv b b' /\ (length b' < 9)%nat
      /\ exists r, head r = Wait /\ buffer_equiv b' r
  | Continue b' => buffer_equiv b b' /\ (length b' < length b)%nat
  | Push f b' =>
      (length b' < length b)%nat
      /\ exists d, buffer_equiv b d /\ head d = Take f /\ b' = drop 9 d
  end.

Lemma turn_after_header b d :
  buffer_equiv b d -> (length d <= length b)%nat ->
  (exists rest, d = kHeader1 :: kHeader2 :: rest) ->
  turn_ok b
    (if (length d <? 3)%nat then Break d
     else if negb (d !!! 2%nat =? kPayloadLength) then Continue (drop 1 d)
     else if (length d <? Z.to_nat (d !!! 2%nat) + 6)%nat then Break d
     else match (decode (take (Z.to_nat (d !!! 2%nat) + 6) d)).1 with
          | Some f => Push f (drop (Z.to_nat (d !!! 2%nat) + 6) d)
          | None => Continue (drop 1 d)
          end).
Proof.
  intros Heq Hle [rest ->]. destruct rest as [|z rest].
  { cbn -[head]. split_and!; [done|lia|]. by exists [kHeader1; kHeader2]. }
  rewrite (proj2 (Nat.ltb_ge _ 3)) by (simpl; lia).
  change ((kHeader1 :: kHeader2 :: z :: rest) !!! 2%nat) with z.
  destruct (Z.eqb_spec z kPayloadLength) as [->|Hz]; cbn [negb].
  - change (Z.to_nat kPayloadLength + 6)%nat with 9%nat.
    set (d := kHeader1 :: kHeader2 :: kPayloadLength :: rest) in *.
    assert (take 3 d `prefix_of` preamble) as Hp by done.
    destruct (Nat.ltb_spec (length d) 9) as [Hlt|Hge].
    + cbn [turn_ok]. split_and!; [done|lia|]. exists d. split; [|done].
      unfold head. by rewrite decide_True, (proj2 (Nat.ltb_lt _ _)).
    + assert (head d = match (decode (take 9 d)).1 with Some f => Take f | None => Drop end) as Hh.
      { unfold head. by rewrite decide_True, (proj2 (Nat.ltb_ge _ _)). }
      destruct (decode (take 9 d)).1 as [f|].
      * cbn [turn_ok]. split; [rewrite length_drop; lia|]. by exists d.
      * cbn [turn_ok]. split; [|rewrite length_drop; lia]. etrans; [done|]. by apply drop_equiv.
  - split; [|simpl in *; lia]. etrans; [done|]. apply drop_equiv.
    unfold head. rewrite decide_False; [done|].
    intros [k Hk]. by injection Hk.
Qed.

Lemma turn_spec b : turn_ok b (turn b).
Proof.
  unfold turn. destruct (Nat.ltb_spec (length b) 2) as [Hshort|Hlong].
  { split_and!; [done|lia|]. destruct b as [|x [|? ?]]; [by exists []| |cbn in *; lia].
    destruct (decide (x = kHeader1)) as [->|]; [by exists [kHeader1]|]. exists [].
    split; [done|]. by apply drop_equiv, head_not_header. }
  destruct (Nat.eqb_spec (headerPosition b) (length b)) as [Hnone|Hsome].
  { destruct b as [|x b]; [cbn in *; lia|]. rewrite last_byte.
    pose proof (headerPosition_none (x :: b) Hnone) as Heq.
    destruct (Z.eqb_spec (List.last (x :: b) 0) kHeader1) as [->|].
    - split_and!; [done|cbn; lia|]. by exists [kHeader1].
    - split_and!; [done|cbn; lia|]. by exists []. }
  pose proof (headerPosition_le b).
  replace (if (0 <? headerPosition b)%nat then drop (headerPosition b) b else b)
    with (drop (headerPosition b) b)
    by (destruct (Nat.ltb_spec 0 (headerPosition b)); [done|];
        by replace (headerPosition b) with 0%nat by lia).
  apply turn_after_header.
  - apply headerPosition_equiv. lia.
  - rewrite length_drop. lia.
  - apply headerPosition_found. lia.
Qed.

(** The loop ends within its fuel and computes the scan. *)
Lemma turns_spec fuel b frames :
  (length b < fuel)%nat ->
  exists fs r b', turns fuel b frames = Some (frames ++ fs, b') /\ scans b fs r
                  /\ buffer_equiv b' r /\ (length b' < 9)%nat.
Proof.
  revert b frames. induction fuel as [|fuel IH]; intros b frames Hf; [lia|].
  cbn [turns]. pose proof (turn_spec b) as Ht.
  destruct (turn b) as [b'|b'|f b']; cbn in Ht.
  - destruct Ht as (Heq & Hlen & r & Hr & Heq').
    exists [], r, b'. rewrite app_nil_r. split_and!; try done.
    rewrite Heq, Heq'. by constructor.
  - destruct Ht as (Heq & Hlen). destruct (IH b' frames) as (fs & r & b2 & -> & Hs & ?); [lia|].
    exists fs, r, b2. by rewrite Heq.
  - destruct Ht as (Hlen & d & Heq & Hh & ->).
    destruct (IH (drop 9 d) (frames ++ [f])) as (fs & r & b2 & -> & Hs & ?); [lia|].
    exists (f :: fs), r, b2. rewrite <- app_assoc. split; [done|]. split; [|done].
    rewrite Heq. by apply scans_take.
Qed.

Lemma extractFrames_spec b :
  exists fs r b', extractFrames b = Some (fs, b') /\ scans b fs r
                  /\ buffer_equiv b' r /\ (length b' < 9)%nat.
Proof. apply (turns_spec (S (length b)) b []). lia. Qed.

Lemma feed_spec chunks b r0 :
  head r0 = Wait -> buffer_equiv b r0 ->
  exists fs r b', feed chunks b = Some (fs, b')
    /\ buffer_equiv b' r /\ scans (b ++ concat chunks) fs r
    /\ ((length b < 9)%nat -> (length b' < 9)%nat).
Proof.
  revert b r0. induction chunks as [|c chunks IH]; intros b r0 Hr0 Hb.
  { exists [], r0, b. cbn. rewrite app_nil_r. split_and!; [done|done| |done].
    rewrite Hb. by constructor. }
  cbn [feed concat]. unfold append.
  destruct (extractFrames_spec (b ++ c)) as (fs & r & b' & -> & Hs & Heq & Hlen).
  destruct (IH b' r) as (fs' & r' & b2 & -> & Heq2 & Hscan & Hlen2); [by eapply scans_rest_head|done|].
  exists (fs ++ fs'), r', b2. split_and!; [done|done| |auto].
  rewrite app_assoc. eapply scans_app; [done|]. by apply Heq.
Qed.

(** ** Properties *)

(** [extractFrames] always ends, within one more turn than there are bytes, and never keeps
    more than eight bytes, so the buffer cannot grow on noise. *)
Lemma extractFrames_total b :
  exists fs b', extractFrames b = Some (fs, b') /\ (length b' < 9)%nat.
Proof. destruct (extractFrames_spec b) as (fs & r & b' & ? & _ & _ & ?). eauto. Qed.

(** C10: the frames do not depend on how the stream is cut: appending the chunks one by one and
    extracting after each gives, in the same order, the frames of extracting once from the
    whole stream; every extraction ends, never keeps more than eight bytes, so noise cannot
    fill the buffer, and leaves a buffer that behaves the same on whatever follows. *)
Theorem feed_any_chunking chunks :
  exists fs b1 b2,
    feed chunks [] = Some (fs, b1) /\ extractFrames (concat chunks) = Some (fs, b2)
    /\ buffer_equiv b1 b2 /\ (length b1 < 9)%nat /\ (length b2 < 9)%nat.
Proof.
  destruct (feed_spec chunks [] []) as (fs & r & b1 & Hf & Heq & Hs & Hb1); [done..|].
  destruct (extractFrames_spec (concat chunks)) as (fs' & r' & b2 & He & Hs' & Heq' & Hb2).
  cbn in Hs. destruct (scans_functional _ _ _ _ _ Hs Hs') as [<- <-].
  exists fs, b1, b2. split_and!; [done|done| |apply Hb1; cbn; lia|done]. by rewrite Heq, Heq'.
Qed.

(** A stream that carries the frames in this order, without overlap. *)
Inductive carries : list Z -> list Frame -> Prop :=
  | carries_nil rest : carries rest []
  | carries_frame skipped f rest fs :
      frame_ok f -> carries rest fs -> carries (skipped ++ encode f ++ rest) (f :: fs).

Lemma carries_cons x b fs : carries b fs -> carries (x :: b) fs.
Proof.
  destruct 1 as [|skipped f rest fs Hf Hc]; [constructor|].
  by apply (carries_frame (x :: skipped)).
Qed.

Lemma scans_carries b fs r : bytes_ok b -> scans b fs r -> carries b fs.
Proof.
  intros Hb Hs. induction Hs as [b Hh|x b fs r Hh Hs IH|b f fs r Hh Hs IH]; [constructor|..].
  - apply carries_cons, IH. by apply Forall_cons in Hb as [_ ?].
  - assert (frame_ok f /\ take 9 b = encode f) as [Hf He].
    { unfold head in Hh. case_decide; [|done]. destruct (_ <? _)%nat; [done|].
      destruct (decode (take 9 b)) as [[g|] e] eqn:E; [|done]. injection Hh as ->.
      apply decode_shape in E as (hi & lo & c & Ht & Hc & -> & _).
      apply (Forall_take _ 9) in Hb. rewrite Ht in Hb |- *.
      by apply frame_bytes_encode. }
    rewrite <- (take_drop 9 b), He. apply (carries_frame [] f); [done|].
    apply IH. by apply Forall_drop.
Qed.

(** Nothing is invented: the frames that come out of a stream of bytes occur in it as
    complete, valid encodings, in that order and without overlapping. *)
Lemma feed_sound chunks fs b' :
  bytes_ok (concat chunks) -> feed chunks [] = Some (fs, b') -> carries (concat chunks) fs.
Proof.
  intros Hb Hf. destruct (feed_spec chunks [] []) as (fs' & r & b2 & Hf' & _ & Hs & _); [done..|].
  rewrite Hf in Hf'. injection Hf' as <- <-. by eapply scans_carries.
Qed.

(** Bytes without a frame header in them. *)
Definition quiet (noise : list Z) : Prop := headerPosition noise = length noise.

(** Frames with noise before each and after the last. *)
Definition weave (items : list (list Z * Frame)) (tail : list Z) : list Z :=
  (items ≫= fun it => it.1 ++ encode it.2) ++ tail.

Lemma quiet_cons x y b :
  quiet (x :: y :: b) -> (x <> kHeader1 \/ y <> kHeader2) /\ quiet (y :: b).
Proof.
  unfold quiet. change (headerPosition (x :: y :: b))
    with (if (x =? kHeader1) && (y =? kHeader2) then 0%nat else S (headerPosition (y :: b))).
  destruct (_ && _) eqn:E; [done|]. intros Hq. split; [|by injection Hq].
  apply andb_false_iff in E as [E|E]; reflect_bools; auto.
Qed.

Lemma scans_noise noise f rest fs r :
  quiet noise -> frame_ok f -> scans rest fs r -> scans (noise ++ encode f ++ rest) (f :: fs) r.
Proof.
  intros Hq Hf Hs. induction noise as [|x noise IH].
  - cbn [app]. apply scans_take; [|done].
    unfold head. rewrite decide_True by by exists [].
    rewrite (proj2 (Nat.ltb_ge _ _)) by (rewrite length_app, length_encode; lia).
    rewrite take_app_length' by done. by rewrite decode_encode.
  - destruct noise as [|y noise].
    + apply scans_drop; [|by apply IH]. apply head_not_header. cbn. by right.
    + apply quiet_cons in Hq as [Hxy Hq]. apply scans_drop; [|by apply IH].
      by apply head_not_header.
Qed.

Lemma scans_quiet tail : quiet tail -> exists r, scans tail [] r.
Proof.
  intros Hq. pose proof (headerPosition_none tail Hq) as Heq.
  destruct (List.last tail 0 =? kHeader1);
    eexists; rewrite Heq; by apply scans_wait.
Qed.

Lemma feed_woven chunks items tail :
  Forall (fun it => quiet it.1 /\ frame_ok it.2) items -> quiet tail ->
  concat chunks = weave items tail ->
  exists b', feed chunks [] = Some (items.*2, b').
Proof.
  intros Hitems Htail Heq.
  destruct (feed_spec chunks [] []) as (fs & r & b' & Hf & _ & Hs & _); [done..|].
  exists b'. rewrite Hf. do 2 f_equal. cbn in Hs. rewrite Heq in Hs.
  assert (exists r', scans (weave items tail) items.*2 r') as [r' Hs'].
  { clear -Hitems Htail. unfold weave. induction Hitems as [|[n f] items [Hn Hfr] _ IH].
    - by apply scans_quiet.
    - destruct IH as [r IH]. exists r. cbn -[encode]. rewrite <- !app_assoc. by apply scans_noise. }
  by destruct (scans_functional _ _ _ _ _ Hs Hs') as [-> _].
Qed.

(** Nothing is lost: when frames are sent with noise before, between and after them that
    contains no header, then however the stream is cut into chunks, exactly those frames come
    out, in order. *)
Lemma feed_weave chunks items tail :
  Forall (fun it => quiet it.1 /\ frame_ok it.2) items -> quiet tail ->
  concat chunks = weave items tail ->
  exists b', feed chunks [] = Some (items.*2, b').
Proof. apply feed_woven. Qed.

(** The two frames of the demonstration, with noise and a header split over two chunks. *)
Definition demo_items : list (list Z * Frame) :=
  [([1; 0xAA], mkFrame 0x0102 WireCommand.Grab); ([], mkFrame 3 WireCommand.Stop)].
Definition demo_chunks : list (list Z) :=
  let stream := weave demo_items [7; 0xAA] in [take 3 stream; take 9 (drop 3 stream); drop 12 stream].

Lemma feed_weave_witness :
  exists b', feed demo_chunks [] = Some (demo_items.*2, b').
Proof.
  apply (feed_weave demo_chunks demo_items [7; 0xAA]).
  - repeat constructor; apply (bool_decide_unpack _); vm_compute; exact I.
  - reflexivity.
  - reflexivity.
Defined.

Lemma feed_sound_witness : carries (concat demo_chunks) demo_items.*2.
Proof.
  apply (feed_sound demo_chunks demo_items.*2 [0xAA]).
  - apply (bool_decide_unpack _). vm_compute. exact I.
  - vm_compute. reflexivity.
Defined.
