(* ===== verification/SerialLink.v ===== *)
(** * From typed commands to frames on the line

    Models the program of [cpp_modules/serial_frame_demo/demo/main.cpp], which
    puts the parser, the codec and the stream parser together: typed commands
    are numbered, encoded and printed, one frame is corrupted on purpose, and
    two frames are sent through a [StreamParser] with noise and a split in the
    middle of a frame.  A list of lines is what the program prints. *)

From Stdlib Require Import Ascii String.
From S2P Require Import Prelude Bytes ProtocolParser SerialFrame SerialStream.

Definition toWireCommand (command : Command) : option WireCommand :=
  match command with
  | Open => Some WireCommand.Open
  | Grab => Some WireCommand.Grab
  | Release => Some WireCommand.Release
  | Stop => Some WireCommand.Stop
  | Unknown => None
  end.

Definition encode_line (sequence : Z) (input : text) (bytes : list Z) : text :=
  txt "[ENCODE] seq=" ++ to_string sequence ++ txt " command=" ++ input
  ++ txt " bytes=" ++ toHex bytes.

(** What is printed about a decoded frame, if there is one. *)
Definition frame_line (label : text) (frame : Frame) : text :=
  label ++ txt " seq=" ++ to_string (sequence frame)
  ++ txt " command=" ++ SerialFrame.commandToString (command frame).

Definition decode_lines (bytes : list Z) : list text :=
  match (decode bytes).1 with
  | Some decodedFrame => [frame_line (txt "[DECODE]") decodedFrame]
  | None => []
  end.

(** The loop over the inputs: [encodedFrames] and the lines.  The counter is a
    [uint16_t] and counts refused inputs too. *)
Fixpoint encode_inputs (sequence : Z) (inputs : list text) : list (list Z) * list text :=
  match inputs with
  | [] => ([], [])
  | input :: inputs' =>
      let sequence := u16 (sequence + 1) in
      match toWireCommand (parse input) with
      | None => encode_inputs sequence inputs'
      | Some wireCommand =>
          let bytes := encode (mkFrame sequence wireCommand) in
          let '(encodedFrames, out) := encode_inputs sequence inputs' in
          (bytes :: encodedFrames, [encode_line sequence input bytes] ++ decode_lines bytes ++ out)
      end
  end.

(** [corrupted[5] ^= 0x01] on the first frame. *)
Definition checksum_test (encodedFrames : list (list Z)) : list text :=
  match encodedFrames with
  | [] => []
  | front :: _ =>
      let corrupted := <[5%nat := Z.lxor (front !!! 5%nat) 1]> front in
      let '(result, error) := decode corrupted in
      [txt "[CHECKSUM_TEST] success="
       ++ (match result with Some _ => txt "true" | None => txt "false" end)
       ++ txt " error=" ++ errorToString error]
  end.

(** Noise, a frame cut in two and a frame glued to it. *)
Definition stream_test (encodedFrames : list (list Z)) : option (list text) :=
  match encodedFrames with
  | frame0 :: frame1 :: _ =>
      let stream := [0x00; 0x7E] ++ frame0 ++ frame1 in
      let chunk1 := take 6 stream in
      let chunk2 := drop 6 stream in
      match extractFrames (append [] chunk1) with
      | None => None
      | Some (firstBatch, buffer_) =>
          match extractFrames (append buffer_ chunk2) with
          | None => None
          | Some (secondBatch, _) =>
              Some ([txt "[STREAM] first_chunk_frames=" ++ to_string (Z.of_nat (length firstBatch));
                     txt "[STREAM] second_chunk_frames=" ++ to_string (Z.of_nat (length secondBatch))]
                    ++ (frame_line (txt "[STREAM_FRAME]") <$> secondBatch))
          end
      end
  | _ => Some []
  end.

Definition serial_main (inputs : list text) : option (list text) :=
  let '(encodedFrames, out) := encode_inputs 0 inputs in
  (fun streamed => out ++ checksum_test encodedFrames ++ streamed) <$> stream_test encodedFrames.

Definition inputs : list text := [txt "OPEN"; txt "GRAB"; txt "STOP"; txt "RELEASE"].

Example serial_main_output :
  serial_main inputs
  = Some
      [txt "[ENCODE] seq=1 command=OPEN bytes=AA 55 03 00 01 01 03 0D 0A";
       txt "[DECODE] seq=1 command=OPEN";
       txt "[ENCODE] seq=2 command=GRAB bytes=AA 55 03 00 02 02 03 0D 0A";
       txt "[DECODE] seq=2 command=GRAB";
       txt "[ENCODE] seq=3 command=STOP bytes=AA 55 03 00 03 04 04 0D 0A";
       txt "[DECODE] seq=3 command=STOP";
       txt "[ENCODE] seq=4 command=RELEASE bytes=AA 55 03 00 04 03 04 0D 0A";
       txt "[DECODE] seq=4 command=RELEASE";
       txt "[CHECKSUM_TEST] success=false error=CHECKSUM_MISMATCH";
       txt "[STREAM] first_chunk_frames=0";
       txt "[STREAM] second_chunk_frames=2";
       txt "[STREAM_FRAME] seq=1 command=OPEN";
       txt "[STREAM_FRAME] seq=2 command=GRAB"].
Proof. vm_compute. reflexivity. Qed.

(** ** The frames of the inputs *)

(** The frame of the input with index [i], counted from [n]. *)
Definition input_frame (n : Z) (i : nat) (input : text) : option Frame :=
  mkFrame (u16 (n + Z.of_nat i + 1)) <$> toWireCommand (parse input).

Definition input_frames (n : Z) (inputs : list text) : list Frame :=
  imap (input_frame n) inputs ≫= option_list.

Lemma toWireCommand_name command :
  match toWireCommand command with
  | Some wire => isValid command = true
                 /\ SerialFrame.commandToString wire = ProtocolParser.commandToString command
  | None => isValid command = false
  end.
Proof. by destruct command. Qed.

Lemma input_frames_cons n input inputs :
  input_frames n (input :: inputs) = option_list (input_frame n 0 input) ++ input_frames (n + 1) inputs.
Proof.
  unfold input_frames. cbn. f_equal. f_equal. apply imap_ext. intros i x _. cbn.
  unfold input_frame. by replace (n + Z.of_nat (S i)) with (n + 1 + Z.of_nat i) by lia.
Qed.

Lemma input_frame_mod n m i input :
  u16 n = u16 m -> input_frame n i input = input_frame m i input.
Proof.
  intros H. unfold input_frame, u16 in *. f_equal. f_equal.
  rewrite <- Z.add_assoc, <- (Z.add_assoc m), (Zplus_mod n), H, <- Zplus_mod. done.
Qed.

Lemma input_frames_mod n m inputs : u16 n = u16 m -> input_frames n inputs = input_frames m inputs.
Proof.
  intros H. unfold input_frames. f_equal. apply imap_ext. intros. by apply input_frame_mod.
Qed.

Lemma encode_inputs_spec n inputs :
  (encode_inputs n inputs).1 = encode <$> input_frames n inputs.
Proof.
  revert n. induction inputs as [|input inputs IH]; intros n; [done|].
  rewrite input_frames_cons, fmap_app. cbn [encode_inputs].
  rewrite <- (input_frames_mod (u16 (n + 1)) (n + 1)), <- IH
    by (unfold u16; by rewrite Z.mod_mod).
  unfold input_frame. replace (n + Z.of_nat 0 + 1) with (n + 1) by lia.
  destruct (toWireCommand (parse input)); [|done]. by destruct (encode_inputs _ inputs).
Qed.

Lemma input_frames_ok n inputs : Forall frame_ok (input_frames n inputs).
Proof.
  apply Forall_forall. intros f ([f'|] & Hf & Hin)%list_elem_of_bind;
    [|by apply not_elem_of_nil in Hf].
  apply list_elem_of_singleton in Hf as ->.
  apply elem_of_lookup_imap in Hin as (i & x & Hx & _). unfold input_frame in Hx.
  destruct (toWireCommand _); [|done]. injection Hx as ->. apply u16_range.
Qed.

Lemma input_frames_names n inputs :
  (fun f => SerialFrame.commandToString (command f)) <$> input_frames n inputs
  = (fun input => ProtocolParser.commandToString (parse input))
      <$> filter (fun input => isValid (parse input) = true) inputs.
Proof.
  revert n. induction inputs as [|input inputs IH]; intros n; [done|].
  rewrite input_frames_cons, fmap_app, IH, filter_cons. unfold input_frame.
  pose proof (toWireCommand_name (parse input)) as Hn.
  destruct (toWireCommand (parse input)) as [wire|].
  - destruct Hn as [Hv Hn]. rewrite decide_True by done. cbn. by rewrite Hn.
  - rewrite decide_False by congruence. done.
Qed.

(** A printed frame can be read back. *)
Lemma frame_line_inj label f g :
  frame_ok f -> frame_ok g -> frame_line label f = frame_line label g -> f = g.
Proof.
  intros [Hf _] [Hg _]. unfold frame_line. intros Heq%app_inv_head%app_inv_head.
  apply (numbered_name_inj _ _ (txt " command=")) in Heq as [Hs Hc]; [|done..].
  destruct f, g; cbn in *; congruence.
Qed.

(** ** Property *)

(** C4: from typed text to received frames: the program's encoder emits one frame for each input
    that names a command, numbered by the position of the input modulo 2^16, and no other;
    and when those frames travel with header-free noise around them and arrive in chunks of
    any sizes, the stream parser hands out exactly them, in order, carrying the names of the
    commands that were typed. *)
Theorem typed_commands_arrive inputs noises tail chunks :
  let encodedFrames := (encode_inputs 0 inputs).1 in
  let frames := imap (fun i input => mkFrame (u16 (Z.of_nat i + 1)) <$> toWireCommand (parse input))
                  inputs ≫= option_list in
  length noises = length encodedFrames -> Forall quiet noises -> quiet tail ->
  concat chunks = concat (zip_with app noises encodedFrames) ++ tail ->
  exists b', feed chunks [] = Some (frames, b')
    /\ (fun f => SerialFrame.commandToString (command f)) <$> frames
       = (fun input => ProtocolParser.commandToString (parse input))
           <$> filter (fun input => isValid (parse input) = true) inputs.
Proof.
  intros encodedFrames frames Hlen Hn Ht Hc.
  assert (frames = input_frames 0 inputs) as Hfr by done. rewrite Hfr.
  subst encodedFrames. rewrite encode_inputs_spec in Hlen, Hc. rewrite length_fmap in Hlen.
  destruct (feed_woven chunks (zip noises (input_frames 0 inputs)) tail) as [b' Hf].
  - apply Forall_forall. intros [x f] Hin. split.
    + rewrite Forall_forall in Hn. eapply Hn, elem_of_zip_l, Hin.
    + pose proof (input_frames_ok 0 inputs) as Hok. rewrite Forall_forall in Hok.
      eapply Hok, elem_of_zip_r, Hin.
  - done.
  - rewrite Hc. unfold weave. f_equal.
    clear -Hlen. revert Hlen. generalize (input_frames 0 inputs).
    induction noises as [|x noises IH]; intros [|f fs] Hlen; try done.
    cbn -[encode]. rewrite IH by (cbn in Hlen; lia). by rewrite <- app_assoc.
  - exists b'. rewrite snd_zip in Hf by lia. split; [done|]. apply input_frames_names.
Qed.

(** Two commands with a refused one between them, noise, and a cut inside a frame. *)
Lemma typed_commands_arrive_witness :
  let stream := [0; 0x7E] ++ encode (mkFrame 1 WireCommand.Open) ++ [0xAA]
                ++ encode (mkFrame 3 WireCommand.Stop) ++ [9] in
  exists b', feed [take 6 stream; drop 6 stream] []
             = Some ([mkFrame 1 WireCommand.Open; mkFrame 3 WireCommand.Stop], b').
Proof.
  intros stream.
  destruct (typed_commands_arrive [txt "OPEN"; txt "JUMP"; txt " stop" ++ [LF]] [[0; 0x7E]; [0xAA]] [9]
              [take 6 stream; drop 6 stream]) as (b' & Hf & _).
  - vm_compute. reflexivity.
  - repeat constructor.
  - reflexivity.
  - vm_compute. reflexivity.
  - exists b'. rewrite Hf. vm_compute. reflexivity.
Defined.
