(* ===== verification/ReliableProtocol.v ===== *)
(** * Requests, acknowledgements and the deduplicating device

    Models [cpp_modules/reliable_serial_demo]: the class [ProtocolCodec] and the
    [SimulatedDevice] of its demonstration, which executes a sequence number once
    and answers its repetitions from a cache.

    The enumerations of the code have a fixed underlying type and are filled by
    [static_cast] from any byte, so a command and a result are bytes here, with
    the enumerators as constants.  The counters of the device are [int]s that
    cannot overflow before 2^31 requests; they are unbounded here. *)

From Stdlib Require Import Ascii String.
From S2P Require Import Prelude Bytes.

Module Reliable.
Definition kHeader1 : Z := 0xAA.
Definition kHeader2 : Z := 0x55.
Definition kTail1 : Z := 0x0D.
Definition kTail2 : Z := 0x0A.
End Reliable.
Import Reliable.

Module FrameType.
Definition Request : Z := 1.
Definition Ack : Z := 2.
End FrameType.

Module CommandCode.
Definition Open : Z := 1.
Definition Grab : Z := 2.
Definition Release : Z := 3.
Definition Stop : Z := 4.
End CommandCode.

Module ResultCode.
Definition Ok : Z := 0.
Definition InvalidCommand : Z := 1.
Definition ExecutionFailed : Z := 2.
End ResultCode.

Record RequestFrame := mkRequestFrame { req_sequence : Z; req_command : Z }.
Record AckFrame := mkAckFrame { ack_sequence : Z; ack_result : Z }.

#[export] Instance RequestFrame_eq_dec : EqDecision RequestFrame.
Proof. solve_decision. Defined.
#[export] Instance AckFrame_eq_dec : EqDecision AckFrame.
Proof. solve_decision. Defined.

(** ** [ProtocolCodec] *)

Definition encodeRequest (frame : RequestFrame) : list Z :=
  let bytes := [kHeader1; kHeader2; 4; high_byte (req_sequence frame);
                low_byte (req_sequence frame); FrameType.Request; req_command frame] in
  let checksum := calculateChecksum bytes 2 (length bytes) in
  bytes ++ [checksum] ++ [kTail1] ++ [kTail2].

Definition encodeAck (frame : AckFrame) : list Z :=
  let bytes := [kHeader1; kHeader2; 4; high_byte (ack_sequence frame);
                low_byte (ack_sequence frame); FrameType.Ack; ack_result frame] in
  let checksum := calculateChecksum bytes 2 (length bytes) in
  bytes ++ [checksum] ++ [kTail1] ++ [kTail2].

(** [Some frame] is [return true] with the output parameter written. *)
Definition decodeRequest (bytes : list Z) : option RequestFrame :=
  if negb (length bytes =? 10)%nat then None
  else if negb (bytes !!! 0%nat =? kHeader1) || negb (bytes !!! 1%nat =? kHeader2) then None
  else if negb (bytes !!! 8%nat =? kTail1) || negb (bytes !!! 9%nat =? kTail2) then None
  else if negb (bytes !!! 5%nat =? FrameType.Request) then None
  else
    let checksum := calculateChecksum bytes 2 7 in
    if negb (checksum =? bytes !!! 7%nat) then None
    else Some (mkRequestFrame (be16 (bytes !!! 3%nat) (bytes !!! 4%nat)) (bytes !!! 6%nat)).

Definition decodeAck (bytes : list Z) : option AckFrame :=
  if negb (length bytes =? 10)%nat then None
  else if negb (bytes !!! 0%nat =? kHeader1) || negb (bytes !!! 1%nat =? kHeader2) then None
  else if negb (bytes !!! 8%nat =? kTail1) || negb (bytes !!! 9%nat =? kTail2) then None
  else if negb (bytes !!! 5%nat =? FrameType.Ack) then None
  else
    let checksum := calculateChecksum bytes 2 7 in
    if negb (checksum =? bytes !!! 7%nat) then None
    else Some (mkAckFrame (be16 (bytes !!! 3%nat) (bytes !!! 4%nat)) (bytes !!! 6%nat)).

Definition code_to_string (command : Z) : text :=
  if command =? CommandCode.Open then txt "OPEN"
  else if command =? CommandCode.Grab then txt "GRAB"
  else if command =? CommandCode.Release then txt "RELEASE"
  else if command =? CommandCode.Stop then txt "STOP"
  else txt "UNKNOWN".

(** ** [SimulatedDevice] *)

Record DeviceStats := mkDeviceStats { received : Z; executed : Z; duplicates : Z }.

Record Device := mkDevice {
  ackCache_ : gmap Z AckFrame;
  stats_ : DeviceStats;
  execution_log : list RequestFrame; (* the requests executed, oldest first *)
  out : list text;                   (* the lines printed *)
}.

Definition new_device : Device := mkDevice ∅ (mkDeviceStats 0 0 0) [] [].

Definition duplicate_line (request : RequestFrame) : text :=
  txt "[DUPLICATE] seq=" ++ to_string (req_sequence request) ++ txt " skip execution".
Definition execute_line (request : RequestFrame) : text :=
  txt "[EXECUTE] seq=" ++ to_string (req_sequence request)
  ++ txt " command=" ++ code_to_string (req_command request).

Definition handleRequest (bytes : list Z) (d : Device) : list Z * Device :=
  match decodeRequest bytes with
  | None => ([], d)
  | Some request =>
      let s := stats_ d in
      let s := mkDeviceStats (i32 (received s + 1)) (executed s) (duplicates s) in
      match ackCache_ d !! req_sequence request with
      | Some ack =>
          let s := mkDeviceStats (received s) (executed s) (i32 (duplicates s + 1)) in
          (encodeAck ack,
           mkDevice (ackCache_ d) s (execution_log d) (out d ++ [duplicate_line request]))
      | None =>
          let s := mkDeviceStats (received s) (i32 (executed s + 1)) (duplicates s) in
          let ack := mkAckFrame (req_sequence request) ResultCode.Ok in
          (encodeAck ack,
           mkDevice (<[req_sequence request := ack]> (ackCache_ d)) s
             (execution_log d ++ [request]) (out d ++ [execute_line request]))
      end
  end.

(** A run: the answers in order, and the device at the end. *)
Fixpoint device_run (inputs : list (list Z)) (d : Device) : list (list Z) * Device :=
  match inputs with
  | [] => ([], d)
  | bytes :: inputs' =>
      let '(answer, d) := handleRequest bytes d in
      let '(answers, d) := device_run inputs' d in
      (answer :: answers, d)
  end.

(** [main]: the same grab twice, the first acknowledgement being lost; the lines
    of [main] and of the device in the order they are printed. *)
Definition print (lines : list text) (d : Device) : Device :=
  mkDevice (ackCache_ d) (stats_ d) (execution_log d) (out d ++ lines).

Definition reliable_main : list text :=
  let device := new_device in
  let request := mkRequestFrame 3 CommandCode.Grab in
  let requestBytes := encodeRequest request in
  let device := print [txt "[GATEWAY] send seq=3 attempt=1"] device in
  let '(_, device) := handleRequest requestBytes device in
  let device := print [txt "[GATEWAY] ACK timeout seq=3";
                       txt "[GATEWAY] retry seq=3 attempt=2"] device in
  let '(secondAck, device) := handleRequest requestBytes device in
  let device :=
    match decodeAck secondAck with
    | Some decodedAck =>
        print [txt "[GATEWAY] ACK received seq=" ++ to_string (ack_sequence decodedAck)] device
    | None => device
    end in
  let stats := stats_ device in
  out (print [txt "[RESULT] received=" ++ to_string (received stats);
              txt "[RESULT] executed=" ++ to_string (executed stats);
              txt "[RESULT] duplicates=" ++ to_string (duplicates stats)] device).

Example reliable_main_output :
  reliable_main
  = [txt "[GATEWAY] send seq=3 attempt=1"; txt "[EXECUTE] seq=3 command=GRAB";
     txt "[GATEWAY] ACK timeout seq=3"; txt "[GATEWAY] retry seq=3 attempt=2";
     txt "[DUPLICATE] seq=3 skip execution"; txt "[GATEWAY] ACK received seq=3";
     txt "[RESULT] received=2"; txt "[RESULT] executed=1"; txt "[RESULT] duplicates=1"].
Proof. vm_compute. reflexivity. Qed.

(** ** The common layout *)

Definition wire_checksum (len hi lo ty c : Z) : Z :=
  Z.lxor (Z.lxor (Z.lxor (Z.lxor len hi) lo) ty) c.

Definition wire_bytes (len hi lo ty c : Z) : list Z :=
  [kHeader1; kHeader2; len; hi; lo; ty; c; wire_checksum len hi lo ty c; kTail1; kTail2].

Lemma encodeRequest_bytes f :
  encodeRequest f
  = wire_bytes 4 (high_byte (req_sequence f)) (low_byte (req_sequence f)) FrameType.Request
      (req_command f).
Proof. reflexivity. Qed.

Lemma encodeAck_bytes f :
  encodeAck f
  = wire_bytes 4 (high_byte (ack_sequence f)) (low_byte (ack_sequence f)) FrameType.Ack
      (ack_result f).
Proof. reflexivity. Qed.

(** What the tests of the two decoders establish. *)
Definition accepted (ty : Z) (bytes : list Z) : bool :=
  (length bytes =? 10)%nat
  && ((bytes !!! 0%nat =? kHeader1) && (bytes !!! 1%nat =? kHeader2))
  && ((bytes !!! 8%nat =? kTail1) && (bytes !!! 9%nat =? kTail2))
  && (bytes !!! 5%nat =? ty) && (calculateChecksum bytes 2 7 =? bytes !!! 7%nat).

Lemma decodeRequest_accepted bytes :
  decodeRequest bytes
  = if accepted FrameType.Request bytes
    then Some (mkRequestFrame (be16 (bytes !!! 3%nat) (bytes !!! 4%nat)) (bytes !!! 6%nat))
    else None.
Proof.
  unfold decodeRequest, accepted.
  destruct (length bytes =? 10)%nat, (bytes !!! 0%nat =? kHeader1), (bytes !!! 1%nat =? kHeader2),
    (bytes !!! 8%nat =? kTail1), (bytes !!! 9%nat =? kTail2),
    (bytes !!! 5%nat =? FrameType.Request); try done.
  by destruct (_ =? bytes !!! 7%nat).
Qed.

Lemma decodeAck_accepted bytes :
  decodeAck bytes
  = if accepted FrameType.Ack bytes
    then Some (mkAckFrame (be16 (bytes !!! 3%nat) (bytes !!! 4%nat)) (bytes !!! 6%nat))
    else None.
Proof.
  unfold decodeAck, accepted.
  destruct (length bytes =? 10)%nat, (bytes !!! 0%nat =? kHeader1), (bytes !!! 1%nat =? kHeader2),
    (bytes !!! 8%nat =? kTail1), (bytes !!! 9%nat =? kTail2),
    (bytes !!! 5%nat =? FrameType.Ack); try done.
  by destruct (_ =? bytes !!! 7%nat).
Qed.

Lemma accepted_shape ty bytes :
  accepted ty bytes = true <-> exists len hi lo c, bytes = wire_bytes len hi lo ty c.
Proof.
  unfold accepted. split.
  - intros H. rewrite !andb_true_iff, !Z.eqb_eq, Nat.eqb_eq in H.
    destruct H as ((((Hlen & H0 & H1) & H8 & H9) & H5) & H7).
    do 11 (destruct bytes as [|? bytes]; try discriminate Hlen). clear Hlen.
    cbn in *. subst. by exists z1, z2, z3, z5.
  - intros (len & hi & lo & c & ->).
    change (calculateChecksum _ 2 7) with (wire_checksum len hi lo ty c).
    change (wire_bytes len hi lo ty c !!! 7%nat) with (wire_checksum len hi lo ty c).
    change (wire_bytes len hi lo ty c !!! 5%nat) with ty.
    by rewrite !Z.eqb_refl.
Qed.

Lemma decodeRequest_wire len hi lo c :
  decodeRequest (wire_bytes len hi lo FrameType.Request c) = Some (mkRequestFrame (be16 hi lo) c).
Proof. rewrite decodeRequest_accepted, (proj2 (accepted_shape _ _)); eauto. Qed.

Lemma decodeAck_wire len hi lo c :
  decodeAck (wire_bytes len hi lo FrameType.Ack c) = Some (mkAckFrame (be16 hi lo) c).
Proof. rewrite decodeAck_accepted, (proj2 (accepted_shape _ _)); eauto. Qed.

(** *** Round trips *)

Lemma decodeRequest_encode f :
  u16_ok (req_sequence f) -> decodeRequest (encodeRequest f) = Some f.
Proof.
  intros Hf. rewrite encodeRequest_bytes, decodeRequest_wire, be16_split by done. by destruct f.
Qed.

Lemma decodeAck_encode f : u16_ok (ack_sequence f) -> decodeAck (encodeAck f) = Some f.
Proof.
  intros Hf. rewrite encodeAck_bytes, decodeAck_wire, be16_split by done. by destruct f.
Qed.

(** A checked string with one byte replaced is not a checked string of either kind. *)
Lemma wire_bytes_distance i b len hi lo ty c len' hi' lo' ty' c' :
  (i < 10)%nat ->
  <[i := b]> (wire_bytes len hi lo ty c) = wire_bytes len' hi' lo' ty' c' ->
  wire_bytes len hi lo ty c = wire_bytes len' hi' lo' ty' c'.
Proof.
  intros Hi. unfold wire_bytes, wire_checksum.
  destruct i as [|[|[|[|[|[|[|[|[|[|i]]]]]]]]]]; [..|lia]; cbn -[Z.lxor];
    intros H; injection H; clear H; intros; subst;
    repeat match goal with
    | H : Z.lxor ?a _ = Z.lxor ?a _ |- _ => apply lxor_cancel_l in H; subst
    | H : Z.lxor _ ?a = Z.lxor _ ?a |- _ => apply lxor_cancel_r in H; subst
    end; done.
Qed.

Lemma corrupted_refused i b len hi lo ty c ty' :
  (i < 10)%nat -> b <> wire_bytes len hi lo ty c !!! i ->
  accepted ty' (<[i := b]> (wire_bytes len hi lo ty c)) = false.
Proof.
  intros Hi Hne. apply not_true_is_false.
  intros (len' & hi' & lo' & c' & Heq)%accepted_shape.
  pose proof (wire_bytes_distance _ _ _ _ _ _ _ _ _ _ _ _ Hi Heq) as Hsame. rewrite Hsame in Hne.
  apply Hne. rewrite <- Heq. by rewrite list_lookup_total_insert_eq by (cbn; lia).
Qed.

(** ** Properties of the codec *)

(** Requests and acknowledgements with 16-bit sequence numbers survive the wire, neither is
    ever taken for the other, and one corrupted byte makes the receiver refuse them. *)
Lemma reliable_codec_safe r a i b :
  u16_ok (req_sequence r) -> u16_ok (ack_sequence a) -> (i < 10)%nat ->
  (decodeRequest (encodeRequest r) = Some r /\ decodeAck (encodeAck a) = Some a)
  /\ (decodeAck (encodeRequest r) = None /\ decodeRequest (encodeAck a) = None)
  /\ (b <> encodeRequest r !!! i -> decodeRequest (<[i := b]> (encodeRequest r)) = None)
  /\ (b <> encodeAck a !!! i -> decodeAck (<[i := b]> (encodeAck a)) = None).
Proof.
  intros Hr Ha Hi. split_and!.
  - by apply decodeRequest_encode.
  - by apply decodeAck_encode.
  - rewrite decodeAck_accepted. destruct (accepted _ _) eqn:E; [|done].
    apply accepted_shape in E as (? & ? & ? & ? & E). discriminate E.
  - rewrite decodeRequest_accepted. destruct (accepted _ _) eqn:E; [|done].
    apply accepted_shape in E as (? & ? & ? & ? & E). discriminate E.
  - intros Hne. rewrite decodeRequest_accepted, encodeRequest_bytes, corrupted_refused; done.
  - intros Hne. rewrite decodeAck_accepted, encodeAck_bytes, corrupted_refused; done.
Qed.

Lemma reliable_codec_safe_witness :
  decodeRequest (<[2%nat := 5]> (encodeRequest (mkRequestFrame 3 CommandCode.Grab))) = None.
Proof.
  apply (reliable_codec_safe (mkRequestFrame 3 CommandCode.Grab) (mkAckFrame 3 ResultCode.Ok) 2 5).
  - apply (bool_decide_unpack _). vm_compute. exact I.
  - apply (bool_decide_unpack _). vm_compute. exact I.
  - lia.
  - vm_compute. discriminate.
Defined.

(** ** The device *)

(** Reference: the first request with each sequence number, in order of arrival; [seen] are
    the numbers already known. *)
Fixpoint first_of_each (seen : gset Z) (rs : list RequestFrame) : list RequestFrame :=
  match rs with
  | [] => []
  | r :: rs' =>
      if decide (req_sequence r ∈ seen) then first_of_each seen rs'
      else r :: first_of_each ({[req_sequence r]} ∪ seen) rs'
  end.

(** The cache answers each executed number with its own successful acknowledgement, and the
    counters count, [total] being the number of valid requests so far. *)
Record device_ok (total : Z) (d : Device) : Prop := {
  dv_cache : forall k a, ackCache_ d !! k = Some a -> a = mkAckFrame k ResultCode.Ok;
  dv_log : forall k, k ∈ dom (ackCache_ d) <-> k ∈ req_sequence <$> execution_log d;
  dv_once : NoDup (req_sequence <$> execution_log d);
  dv_executed : executed (stats_ d) = i32 (Z.of_nat (length (execution_log d)));
  dv_received : received (stats_ d) = i32 total;
  dv_duplicates : duplicates (stats_ d) = i32 (total - Z.of_nat (length (execution_log d)));
}.

Lemma new_device_ok : device_ok 0 new_device.
Proof. split; try done; [|constructor]. intros k. cbn. rewrite dom_empty_L. set_solver. Qed.

(** The answer to one input. *)
Definition answer_to (bytes : list Z) : list Z :=
  match decodeRequest bytes with
  | Some r => encodeAck (mkAckFrame (req_sequence r) ResultCode.Ok)
  | None => []
  end.

Lemma handleRequest_step bytes total d :
  device_ok total d ->
  let '(answer, d') := handleRequest bytes d in
  device_ok (total + Z.of_nat (length (option_list (decodeRequest bytes)))) d' /\ answer = answer_to bytes
  /\ dom (ackCache_ d')
     = list_to_set (req_sequence <$> option_list (decodeRequest bytes)) ∪ dom (ackCache_ d)
  /\ execution_log d'
     = execution_log d ++ first_of_each (dom (ackCache_ d)) (option_list (decodeRequest bytes)).
Proof.
  intros [Hc Hl Ho He Hr Hd]. unfold handleRequest, answer_to.
  destruct (decodeRequest bytes) as [r|]; cbn [option_list].
  2:{ rewrite app_nil_r. rewrite Z.add_0_r. split_and!; [by split|done|cbn; set_solver|done]. }
  destruct (ackCache_ d !! req_sequence r) as [a|] eqn:Ha; cbn.
  - assert (req_sequence r ∈ dom (ackCache_ d)) by by apply elem_of_dom_2 in Ha.
    rewrite decide_True by done. rewrite app_nil_r, (Hc _ _ Ha).
    split_and!; [|done|set_solver|done].
    split; cbn; [done..|by rewrite Hr, i32_add|rewrite Hd, i32_add; f_equal; lia].
  - assert (req_sequence r ∉ dom (ackCache_ d)) as Hn by by apply not_elem_of_dom.
    rewrite decide_False by done. split_and!; [|done|set_solver|done].
    split; cbn.
    + intros k a'. destruct (decide (k = req_sequence r)) as [->|].
      * rewrite lookup_insert_eq. by intros [= <-].
      * rewrite lookup_insert_ne by done. apply Hc.
    + intros k. rewrite dom_insert, fmap_app, elem_of_app, <- Hl. set_solver.
    + rewrite fmap_app. apply NoDup_app. split_and!; [done| |apply NoDup_singleton].
      intros k Hk ->%list_elem_of_singleton. by apply Hn, Hl.
    + rewrite length_app, He, i32_add. f_equal. cbn. lia.
    + by rewrite Hr, i32_add.
    + rewrite Hd, length_app. f_equal. cbn. lia.
Qed.

Lemma first_of_each_app seen rs1 rs2 :
  first_of_each seen (rs1 ++ rs2)
  = first_of_each seen rs1 ++ first_of_each (list_to_set (req_sequence <$> rs1) ∪ seen) rs2.
Proof.
  revert seen. induction rs1 as [|r rs1 IH]; intros seen; cbn.
  { by rewrite union_empty_l_L. }
  rewrite <- !union_assoc_L. destruct (decide (req_sequence r ∈ seen)) as [Hin|].
  - rewrite IH. do 2 f_equal. set_solver.
  - cbn. rewrite IH. do 3 f_equal. set_solver.
Qed.

Lemma first_of_each_length seen rs : (length (first_of_each seen rs) <= length rs)%nat.
Proof.
  revert seen. induction rs as [|r rs IH]; intros seen; cbn; [done|].
  case_decide; cbn; [specialize (IH seen)|specialize (IH ({[req_sequence r]} ∪ seen))]; lia.
Qed.

Lemma device_run_spec inputs total d :
  device_ok total d ->
  let '(answers, d') := device_run inputs d in
  let requests := inputs ≫= fun bytes => option_list (decodeRequest bytes) in
  device_ok (total + Z.of_nat (length requests)) d' /\ answers = answer_to <$> inputs
  /\ execution_log d' = execution_log d ++ first_of_each (dom (ackCache_ d)) requests.
Proof.
  revert total d. induction inputs as [|bytes inputs IH]; intros total d Hd; cbn.
  { by rewrite Z.add_0_r, app_nil_r. }
  pose proof (handleRequest_step bytes total d Hd) as Hs.
  destruct (handleRequest bytes d) as [answer d1]. destruct Hs as (Hd1 & -> & Hdom & Hlog).
  specialize (IH _ d1 Hd1). destruct (device_run inputs d1) as [answers d2].
  destruct IH as (Hd2 & -> & Hlog2). split_and!; [|done|].
  - by rewrite length_app, Nat2Z.inj_add, Z.add_assoc.
  - by rewrite Hlog2, Hlog, <- app_assoc, Hdom, <- first_of_each_app.
Qed.

(** C15: at-most-once execution: whatever byte strings arrive, retransmissions and garbage
    included, the device executes exactly the first request of each sequence number, in order
    of arrival; it answers every valid request with the acknowledgement of its own number and
    nothing else with anything; and its three [int] counters hold the true totals modulo 2^32,
    the totals themselves up to 2^31 requests. *)
Theorem device_at_most_once inputs :
  let '(answers, d) := device_run inputs new_device in
  let requests := inputs ≫= fun bytes => option_list (decodeRequest bytes) in
  execution_log d = first_of_each ∅ requests
  /\ NoDup (req_sequence <$> execution_log d)
  /\ answers = (fun bytes =>
       match decodeRequest bytes with
       | Some r => encodeAck (mkAckFrame (req_sequence r) ResultCode.Ok)
       | None => []
       end) <$> inputs
  /\ (let total := Z.of_nat (length requests) in
      let once := Z.of_nat (length (execution_log d)) in
      stats_ d = mkDeviceStats (i32 total) (i32 once) (i32 (total - once))
      /\ (total < 2 ^ 31 -> stats_ d = mkDeviceStats total once (total - once))).
Proof.
  pose proof (device_run_spec inputs 0 new_device new_device_ok) as H.
  destruct (device_run inputs new_device) as [answers d].
  destruct H as ([_ _ Ho He Hr Hd] & -> & Hlog). split_and!; [done..|].
  intros total once. assert (once <= total) as Hle.
  { subst total once. rewrite Hlog. cbn. apply inj_le, first_of_each_length. }
  assert (stats_ d = mkDeviceStats (i32 total) (i32 once) (i32 (total - once))) as Heq
    by (by destruct (stats_ d); cbn in *; subst).
  split; [done|]. intros Hlt. rewrite Heq. f_equal; apply i32_id; lia.
Qed.

(** The device cannot say no: whatever the length byte and the command byte of a request
    with a correct checksum are, it is accepted and answered with [Ok], never with
    [InvalidCommand]; and once a number was used, a different command with the same number,
    as after the 16-bit counter wraps, is answered [Ok] without being executed. *)
Lemma device_never_refuses len hi lo c total d :
  byte_ok hi -> byte_ok lo -> device_ok total d ->
  let bytes := wire_bytes len hi lo FrameType.Request c in
  let '(answer, d') := handleRequest bytes d in
  answer = encodeAck (mkAckFrame (hi * 256 + lo) ResultCode.Ok)
  /\ (hi * 256 + lo ∈ req_sequence <$> execution_log d ->
      execution_log d' = execution_log d)
  /\ (hi * 256 + lo ∉ req_sequence <$> execution_log d ->
      execution_log d' = execution_log d ++ [mkRequestFrame (hi * 256 + lo) c]).
Proof.
  intros Hhi Hlo Hd bytes. pose proof (handleRequest_step bytes total d Hd) as Hs.
  destruct (handleRequest bytes d) as [answer d']. destruct Hs as (_ & -> & _ & Hlog).
  unfold answer_to. subst bytes. rewrite decodeRequest_wire, be16_value in * by done. cbn in Hlog.
  destruct Hd as [_ Hl _ _ _ _]. split_and!; [done| |]; intros Hin; rewrite <- Hl in Hin.
  - rewrite decide_True in Hlog by done. by rewrite app_nil_r in Hlog.
  - by rewrite decide_False in Hlog.
Qed.

Lemma device_never_refuses_witness :
  let '(answer, d') := handleRequest (wire_bytes 9 0 3 FrameType.Request 0x7F) new_device in
  answer = encodeAck (mkAckFrame 3 ResultCode.Ok).
Proof.
  pose proof (device_never_refuses 9 0 3 0x7F 0 new_device) as H.
  apply H; [apply (bool_decide_unpack _); vm_compute; exact I..|apply new_device_ok].
Defined.
