(* ===== verification/LogManager.v ===== *)
(** * The log manager

    Models the class [LogManager] of [cpp_modules/log_manager] and its use by
    [cpp_modules/thread_safe_log_demo] and [cpp_modules/integration_demo].  Every
    member function holds [mutex_] from its first access to its last, so a call
    is one step and concurrent use is an interleaving of calls.

    The file and the console are part of the state, as the text written to
    them; the file also has the length that was flushed. *)

From Stdlib Require Import Ascii String.
From S2P Require Import Prelude ProtocolParser.

Module LogLevel.
Inductive LogLevel := Info | Warning | Error.
End LogLevel.
Abbreviation LogLevel := LogLevel.LogLevel.

#[export] Instance LogLevel_eq_dec : EqDecision LogLevel.
Proof. solve_decision. Defined.

(** The order of the keys of [std::map<LogLevel, ...>]. *)
Definition level_index (level : LogLevel) : nat :=
  match level with LogLevel.Info => 0 | LogLevel.Warning => 1 | LogLevel.Error => 2 end.

#[export] Instance LogLevel_countable : Countable LogLevel.
Proof.
  refine (inj_countable' level_index
    (fun n => match n with O => LogLevel.Info | S O => LogLevel.Warning | _ => LogLevel.Error end) _).
  by intros [].
Defined.

Definition levelToString (level : LogLevel) : text :=
  match level with
  | LogLevel.Info => txt "INFO"
  | LogLevel.Warning => txt "WARNING"
  | LogLevel.Error => txt "ERROR"
  end.

#[export] Instance LogLevel_named : Named LogLevel := levelToString.
#[export] Instance LogLevel_named_inj : NamedInj LogLevel.
Proof. intros [] []; done. Qed.

(** [std::ofstream]: whether it is open, what was written, how much of it was
    flushed. *)
Record LogFile := mkLogFile { is_open : bool; content : text; flushed : nat }.

Record Logger := mkLogger {
  filePath_ : text;
  logFile_ : LogFile;
  consoleEnabled_ : bool;
  autoFlush_ : bool;
  maxCachedLogs_ : nat;
  recentLogs_ : list text;
  logCounts_ : gmap LogLevel Z;
  console : text;
}.

Definition with_cache (max : nat) (logs : list text) (l : Logger) : Logger :=
  mkLogger (filePath_ l) (logFile_ l) (consoleEnabled_ l) (autoFlush_ l) max logs
    (logCounts_ l) (console l).
Definition with_counts (counts : gmap LogLevel Z) (l : Logger) : Logger :=
  mkLogger (filePath_ l) (logFile_ l) (consoleEnabled_ l) (autoFlush_ l) (maxCachedLogs_ l)
    (recentLogs_ l) counts (console l).
Definition with_sinks (file : LogFile) (out : text) (l : Logger) : Logger :=
  mkLogger (filePath_ l) file (consoleEnabled_ l) (autoFlush_ l) (maxCachedLogs_ l)
    (recentLogs_ l) (logCounts_ l) out.
Definition with_options (consoleOn flushOn : bool) (l : Logger) : Logger :=
  mkLogger (filePath_ l) (logFile_ l) consoleOn flushOn (maxCachedLogs_ l)
    (recentLogs_ l) (logCounts_ l) (console l).

(** ** Operations *)

(** The constructor; [opened] is whether the file could be opened.  The
    message about a failure goes to [std::cerr]. *)
Definition construct_logger (filePath : text) (opened : bool) : Logger :=
  mkLogger filePath (mkLogFile opened [] 0) true true 10 []
    (<[LogLevel.Info := 0]> (<[LogLevel.Warning := 0]> (<[LogLevel.Error := 0]> ∅)))
    (if opened then txt "[INFO] Log file opened: " ++ filePath ++ [LF] else []).

Definition setConsoleEnabled (enabled : bool) (l : Logger) : Logger :=
  with_options enabled (autoFlush_ l) l.

Definition setAutoFlush (enabled : bool) (l : Logger) : Logger :=
  with_options (consoleEnabled_ l) enabled l.

(** [while (recentLogs_.size() > maxCachedLogs_) recentLogs_.erase(begin());] *)
Fixpoint erase_oldest (max : nat) (logs : list text) : list text :=
  match logs with
  | [] => []
  | _ :: logs' => if (max <? length logs)%nat then erase_oldest max logs' else logs
  end.

Definition setMaxCachedLogs (maxCount : nat) (l : Logger) : Logger :=
  if (maxCount =? 0)%nat then with_cache maxCount [] l
  else with_cache maxCount (erase_oldest maxCount (recentLogs_ l)) l.

Definition cacheLogLine (line : text) (l : Logger) : Logger :=
  if (maxCachedLogs_ l =? 0)%nat then l
  else with_cache (maxCachedLogs_ l) (erase_oldest (maxCachedLogs_ l) (recentLogs_ l ++ [line])) l.

Definition log_line (level : LogLevel) (message : text) : text :=
  txt "[" ++ levelToString level ++ txt "] " ++ message.

Definition log (level : LogLevel) (message : text) (l : Logger) : Logger :=
  let line := log_line level message in
  let out := if consoleEnabled_ l then console l ++ line ++ [LF] else console l in
  let file :=
    if is_open (logFile_ l) then
      let content := content (logFile_ l) ++ line ++ [LF] in
      mkLogFile true content
        (if autoFlush_ l then length content else flushed (logFile_ l))
    else logFile_ l in
  let l := with_sinks file out l in
  let l := cacheLogLine line l in
  (* [++logCounts_[level]] inserts 0 for a missing key *)
  with_counts (<[level := u64 (default 0 (logCounts_ l !! level) + 1)]> (logCounts_ l)) l.

Definition isFileOpen (l : Logger) : bool := is_open (logFile_ l).
Definition getFilePath (l : Logger) : text := filePath_ l.
Definition getRecentLogs (l : Logger) : list text := recentLogs_ l.
Definition clearRecentLogs (l : Logger) : Logger := with_cache (maxCachedLogs_ l) [] l.

Definition getLogCount (level : LogLevel) (l : Logger) : Z :=
  match logCounts_ l !! level with None => 0 | Some count => count end.

Definition getAllLogCounts (l : Logger) : gmap LogLevel Z := logCounts_ l.

Definition resetLogCounts (l : Logger) : Logger := with_counts ((fun _ => 0) <$> logCounts_ l) l.

(** The destructor. *)
Definition destroy_logger (l : Logger) : Logger :=
  let l :=
    if is_open (logFile_ l) then
      with_sinks
        (mkLogFile false (content (logFile_ l))
           (* [close] writes out what [flush] did not *)
           (length (content (logFile_ l)))) (console l) l
    else l in
  if consoleEnabled_ l
  then with_sinks (logFile_ l) (console l ++ txt "[INFO] Log file closed: " ++ filePath_ l ++ [LF]) l
  else l.

(** ** Calls as data *)

Inductive LogCall :=
  | SetConsoleEnabled (enabled : bool)
  | SetAutoFlush (enabled : bool)
  | SetMaxCachedLogs (maxCount : nat)
  | Log (level : LogLevel) (message : text)
  | ClearRecentLogs
  | ResetLogCounts.

Definition call (c : LogCall) (l : Logger) : Logger :=
  match c with
  | SetConsoleEnabled enabled => setConsoleEnabled enabled l
  | SetAutoFlush enabled => setAutoFlush enabled l
  | SetMaxCachedLogs maxCount => setMaxCachedLogs maxCount l
  | Log level message => log level message l
  | ClearRecentLogs => clearRecentLogs l
  | ResetLogCounts => resetLogCounts l
  end.

Definition calls (cs : list LogCall) (l : Logger) : Logger := foldl (fun l c => call c l) l cs.

(** [writeLogs] of the demonstration with two threads: the calls one worker
    makes, [thread_id] being what [std::this_thread::get_id()] prints. *)
Definition kLogsPerWorker : nat := 5.

Definition writeLogs (level : LogLevel) (workerName thread_id : text) : list LogCall :=
  (fun index =>
     Log level (txt "worker=" ++ workerName ++ txt "thread" ++ thread_id ++ txt "sequence="
                ++ to_string (Z.of_nat index)))
  <$> seq 1 kLogsPerWorker.

(** [main] of the integration demonstration up to the statistics. *)
Definition gateway_log (rawInput : text) : LogCall :=
  let command := parse rawInput in
  if negb (isValid command) then Log LogLevel.Warning (txt "Rejected invalid command")
  else Log LogLevel.Info (txt "Accepted command " ++ commandToString command ++ txt "->"
                          ++ toExecutorCommand command).

Definition integration_main (opened : bool) : option Logger :=
  let logger := construct_logger (txt "gateway_cpp_demo.log") opened in
  let logger := setMaxCachedLogs 5 (setAutoFlush true (setConsoleEnabled true logger)) in
  if negb (isFileOpen logger) then None
  else
    Some (calls (gateway_log <$>
            [txt "OPEN"; txt "grab" ++ [CR; LF]; txt "JUMP"; "009"%char :: txt "STOP" ++ ["009"%char]])
            logger).

(** What the program then prints: the statistics and the cache. *)
Definition integration_statistics (l : Logger) : list text :=
  [txt "[INFO]Log statistics:";
   txt "INFO:" ++ to_string (getLogCount LogLevel.Info l);
   txt "WARNING:" ++ to_string (getLogCount LogLevel.Warning l);
   txt "ERROR:" ++ to_string (getLogCount LogLevel.Error l);
   txt "[INFO]Recent cached logs:"]
  ++ ((fun line => txt " " ++ line) <$> getRecentLogs l).

Example integration_result :
  integration_statistics <$> integration_main true
  = Some
      [txt "[INFO]Log statistics:"; txt "INFO:3"; txt "WARNING:1"; txt "ERROR:0";
       txt "[INFO]Recent cached logs:";
       txt " [INFO] Accepted command OPEN->HAND_OPEN"; txt " [INFO] Accepted command GRAB->HAND_GRAB";
       txt " [WARNING] Rejected invalid command"; txt " [INFO] Accepted command STOP->HAND_STOP"].
Proof. vm_compute. reflexivity. Qed.

(** The demonstration of the class: its calls, the counts it prints in the order
    of the keys of the map, and the counts after the reset. *)
Definition log_manager_main (opened : bool) : option Logger :=
  let logger := construct_logger (txt "log_manager_demo.log") opened in
  let logger := setMaxCachedLogs 3 (setAutoFlush true (setConsoleEnabled true logger)) in
  if negb (isFileOpen logger) then None
  else
    let logger := log LogLevel.Info (txt "Linux IoT Gateway started") logger in
    let logger := log LogLevel.Info (txt "Sensor data received") logger in
    let logger := log LogLevel.Warning (txt "MQTT Broker is not connected") logger in
    let logger := log LogLevel.Error (txt "Failed to parse sensor data") logger in
    Some (log LogLevel.Info (txt "Gateway is retrying") logger).

Definition level_counts (l : Logger) : list (text * Z) :=
  (fun level => (levelToString level, getLogCount level l))
    <$> [LogLevel.Info; LogLevel.Warning; LogLevel.Error].

Example log_manager_result :
  (fun l => (level_counts l, level_counts (resetLogCounts l), getRecentLogs l))
    <$> log_manager_main true
  = Some
      ([(txt "INFO", 3); (txt "WARNING", 1); (txt "ERROR", 1)],
       [(txt "INFO", 0); (txt "WARNING", 0); (txt "ERROR", 0)],
       [txt "[WARNING] MQTT Broker is not connected"; txt "[ERROR] Failed to parse sensor data";
        txt "[INFO] Gateway is retrying"]).
Proof. vm_compute. reflexivity. Qed.

(** ** The cache *)

(** The last [n] elements. *)
Definition lastn {A} (n : nat) (l : list A) : list A := drop (length l - n) l.

Lemma erase_oldest_lastn max logs : erase_oldest max logs = lastn max logs.
Proof.
  unfold lastn. induction logs as [|x logs IH]; [by rewrite drop_nil|].
  cbn [erase_oldest length]. destruct (Nat.ltb_spec max (S (length logs))) as [Hlt|Hge].
  - rewrite IH. by replace (S (length logs) - max)%nat with (S (length logs - max)) by lia.
  - by replace (S (length logs) - max)%nat with 0%nat by lia.
Qed.

Lemma lastn_lastn {A} n (l1 l2 : list A) : lastn n (lastn n l1 ++ l2) = lastn n (l1 ++ l2).
Proof.
  unfold lastn. rewrite !length_app, length_drop.
  destruct (decide (length l1 <= n)%nat) as [Hle|Hgt].
  { replace (length l1 - n)%nat with 0%nat by lia. by rewrite Nat.sub_0_r. }
  replace (length l1 - (length l1 - n))%nat with n by lia.
  replace (n + length l2 - n)%nat with (length l2) by lia.
  destruct (decide (length l2 <= n)%nat).
  - replace (length l1 + length l2 - n)%nat with ((length l1 - n) + length l2)%nat by lia.
    rewrite <- drop_drop. f_equal. by rewrite drop_app_le by lia.
  - rewrite (drop_app_ge _ _ (length l2)) by (rewrite length_drop; lia).
    rewrite (drop_app_ge _ _ (length l1 + length l2 - n)) by lia.
    f_equal. rewrite length_drop. lia.
Qed.

Lemma length_lastn {A} n (l : list A) : (length (lastn n l) <= n)%nat.
Proof. unfold lastn. rewrite length_drop. lia. Qed.

Lemma lastn_all {A} n (l : list A) : (length l <= n)%nat -> lastn n l = l.
Proof. intros H. unfold lastn. by replace (length l - n)%nat with 0%nat by lia. Qed.

Lemma lastn_0 {A} (l : list A) : lastn 0 l = [].
Proof. unfold lastn. by rewrite Nat.sub_0_r, drop_all. Qed.

Lemma cacheLogLine_spec line l :
  (length (recentLogs_ l) <= maxCachedLogs_ l)%nat ->
  cacheLogLine line l = with_cache (maxCachedLogs_ l) (lastn (maxCachedLogs_ l) (recentLogs_ l ++ [line])) l.
Proof.
  intros Hlen. unfold cacheLogLine. destruct (Nat.eqb_spec (maxCachedLogs_ l) 0) as [Hz|].
  - rewrite Hz, lastn_0 in *. destruct l as [? ? ? ? max [|]]; cbn in *; [by subst|lia].
  - by rewrite erase_oldest_lastn.
Qed.

(** The cache is never larger than its bound. *)
Definition cache_ok (l : Logger) : Prop := (length (recentLogs_ l) <= maxCachedLogs_ l)%nat.

Lemma call_cache_ok c l : cache_ok l -> cache_ok (call c l).
Proof.
  unfold cache_ok. intros H. destruct c as [| |max|level message| |]; cbn; try done.
  - unfold setMaxCachedLogs. destruct (Nat.eqb_spec max 0); cbn; [lia|].
    rewrite erase_oldest_lastn. apply length_lastn.
  - rewrite cacheLogLine_spec by done. apply length_lastn.
  - lia.
Qed.

Lemma calls_cache_ok cs l : cache_ok l -> cache_ok (calls cs l).
Proof. revert l. induction cs as [|c cs IH]; intros l H; [done|]. by apply IH, call_cache_ok. Qed.

(** The lines of a sequence of calls. *)
Definition lines (cs : list LogCall) : list text :=
  cs ≫= fun c => match c with Log level message => [log_line level message] | _ => [] end.

(** Calls that leave the cache alone, logging apart. *)
Definition keeps_cache (c : LogCall) : bool :=
  match c with SetMaxCachedLogs _ | ClearRecentLogs => false | _ => true end.

Lemma log_cache level message l :
  cache_ok l ->
  maxCachedLogs_ (log level message l) = maxCachedLogs_ l
  /\ recentLogs_ (log level message l)
     = lastn (maxCachedLogs_ l) (recentLogs_ l ++ [log_line level message]).
Proof.
  intros Hl. unfold log. rewrite cacheLogLine_spec by done. done.
Qed.

Lemma calls_cache cs l :
  cache_ok l -> forallb keeps_cache cs = true ->
  maxCachedLogs_ (calls cs l) = maxCachedLogs_ l
  /\ recentLogs_ (calls cs l) = lastn (maxCachedLogs_ l) (recentLogs_ l ++ lines cs).
Proof.
  revert l. induction cs as [|c cs IH]; intros l Hl Hk.
  { split; [done|]. cbn. by rewrite app_nil_r, lastn_all. }
  cbn in Hk. apply andb_prop in Hk as [Hc Hk].
  destruct (IH (call c l) (call_cache_ok c l Hl) Hk) as [Hmax Hrec].
  change (calls (c :: cs) l) with (calls cs (call c l)). rewrite Hmax, Hrec.
  destruct c as [| | |level message| |]; try done.
  destruct (log_cache level message l Hl) as [Hm Hr]. cbn [call]. rewrite Hm, Hr.
  split; [done|]. by rewrite lastn_lastn, <- app_assoc.
Qed.

(** The cache is a sliding window: from any moment on, as long as its bound is not changed
    and it is not cleared, it holds exactly the most recent lines, at most as many as the
    bound, in the order they were logged; and the bound is respected after any calls. *)
Lemma cache_is_window path opened cs1 cs2 :
  let l := calls cs1 (construct_logger path opened) in
  forallb keeps_cache cs2 = true ->
  (length (recentLogs_ l) <= maxCachedLogs_ l)%nat
  /\ getRecentLogs (calls cs2 l) = lastn (maxCachedLogs_ l) (getRecentLogs l ++ lines cs2).
Proof.
  intros l Hk. assert (cache_ok l) as Hl by (apply calls_cache_ok; unfold cache_ok; cbn; lia).
  split; [done|]. by apply calls_cache.
Qed.

Lemma cache_is_window_witness :
  let l := calls [SetMaxCachedLogs 2] (construct_logger (txt "a.log") true) in
  getRecentLogs (calls [Log LogLevel.Info (txt "a"); Log LogLevel.Error (txt "b");
                        Log LogLevel.Info (txt "c")] l)
  = [txt "[ERROR] b"; txt "[INFO] c"].
Proof.
  intros l.
  destruct (cache_is_window (txt "a.log") true [SetMaxCachedLogs 2]
              [Log LogLevel.Info (txt "a"); Log LogLevel.Error (txt "b");
               Log LogLevel.Info (txt "c")]) as [_ H].
  - reflexivity.
  - subst l. rewrite H. vm_compute. reflexivity.
Defined.

(** ** Counters and sinks *)

Definition is_log_at (level : LogLevel) (c : LogCall) : bool :=
  match c with Log lv _ => bool_decide (lv = level) | _ => false end.

Definition logs_at (level : LogLevel) (cs : list LogCall) : list LogCall :=
  filter (fun c => is_log_at level c = true) cs.

Definition resets (c : LogCall) : bool := match c with ResetLogCounts => true | _ => false end.

Lemma log_count level message lv l :
  getLogCount lv (log level message l)
  = if decide (level = lv) then u64 (getLogCount lv l + 1) else getLogCount lv l.
Proof.
  unfold log, getLogCount, cacheLogLine. cbn [maxCachedLogs_ with_sinks].
  assert (forall (m : gmap LogLevel Z) (d : Z), match (<[level := u64 (default 0 (m !! level) + 1)]> m) !! lv with
            | Some count => count | None => d end
          = if decide (level = lv) then u64 (default 0 (m !! level) + 1)
            else match m !! lv with Some count => count | None => d end) as Hins.
  { intros m d. case_decide as Heq; [by subst; rewrite lookup_insert_eq|].
    by rewrite lookup_insert_ne. }
  destruct (_ =? 0)%nat; cbn; rewrite Hins; case_decide; subst; try done;
    by destruct (logCounts_ l !! lv).
Qed.

Lemma calls_count lv cs l :
  existsb resets cs = false ->
  0 <= getLogCount lv l < 2 ^ 64 ->
  getLogCount lv (calls cs l) = u64 (getLogCount lv l + Z.of_nat (length (logs_at lv cs))).
Proof.
  revert l. induction cs as [|c cs IH]; intros l Hr Hb.
  { cbn. rewrite Z.add_0_r. unfold u64. by rewrite Z.mod_small by lia. }
  cbn [existsb] in Hr. apply orb_false_elim in Hr as [Hc Hr].
  change (calls (c :: cs) l) with (calls cs (call c l)).
  assert (getLogCount lv (call c l)
          = u64 (getLogCount lv l + Z.of_nat (length (logs_at lv [c])))) as Hcall.
  { destruct c as [| |max|level message| |]; try discriminate Hc;
      try (cbn; rewrite Z.add_0_r; unfold u64; by rewrite Z.mod_small by lia).
    - unfold call, setMaxCachedLogs. destruct (max =? 0)%nat; cbn;
        rewrite Z.add_0_r; unfold u64; by rewrite Z.mod_small by lia.
    - cbn [call]. rewrite log_count. unfold logs_at. rewrite filter_cons, filter_nil.
      cbn [is_log_at]. destruct (decide (level = lv)).
      + by rewrite decide_True by by rewrite bool_decide_eq_true_2.
      + rewrite decide_False by by rewrite bool_decide_eq_false_2.
        cbn. rewrite Z.add_0_r. unfold u64. by rewrite Z.mod_small by lia. }
  rewrite IH; [|done|].
  - rewrite Hcall. replace (logs_at lv (c :: cs)) with (logs_at lv [c] ++ logs_at lv cs).
    + rewrite length_app. unfold u64. rewrite Zplus_mod_idemp_l. f_equal. lia.
    + unfold logs_at. by rewrite <- filter_app.
  - rewrite Hcall. apply Z.mod_pos_bound. lia.
Qed.

(** The text of lines, each ended by a line feed. *)
Definition printed (ls : list text) : text := ls ≫= fun line => line ++ [LF].

Definition keeps_sinks (c : LogCall) : bool :=
  match c with SetConsoleEnabled _ | SetAutoFlush _ => false | _ => true end.

Definition all_flushed (l : Logger) : Prop :=
  autoFlush_ l = true -> flushed (logFile_ l) = length (content (logFile_ l)).

Lemma call_sinks c l :
  keeps_sinks c = true ->
  consoleEnabled_ (call c l) = consoleEnabled_ l /\ autoFlush_ (call c l) = autoFlush_ l
  /\ is_open (logFile_ (call c l)) = is_open (logFile_ l)
  /\ console (call c l)
     = console l ++ (if consoleEnabled_ l then printed (lines [c]) else [])
  /\ content (logFile_ (call c l))
     = content (logFile_ l) ++ (if is_open (logFile_ l) then printed (lines [c]) else [])
  /\ (all_flushed l -> all_flushed (call c l)).
Proof.
  intros Hk. unfold all_flushed.
  destruct c as [| |max|level message| |]; try discriminate Hk; cbn [call].
  - unfold setMaxCachedLogs. destruct (max =? 0)%nat; cbn;
      destruct (consoleEnabled_ l), (is_open _); by rewrite ?app_nil_r.
  - unfold log, cacheLogLine, lines, printed. cbn [mbind list_bind app].
    destruct (maxCachedLogs_ _ =? 0)%nat; cbn;
      destruct (consoleEnabled_ l), (is_open (logFile_ l)) eqn:Ho; cbn;
      rewrite ?app_nil_r, ?Ho; split_and!; try done; by intros H ->.
  - cbn. destruct (consoleEnabled_ l), (is_open _); by rewrite ?app_nil_r.
  - cbn. destruct (consoleEnabled_ l), (is_open _); by rewrite ?app_nil_r.
Qed.

Lemma calls_sinks cs l :
  forallb keeps_sinks cs = true ->
  console (calls cs l) = console l ++ (if consoleEnabled_ l then printed (lines cs) else [])
  /\ content (logFile_ (calls cs l))
     = content (logFile_ l) ++ (if is_open (logFile_ l) then printed (lines cs) else [])
  /\ (all_flushed l -> all_flushed (calls cs l)).
Proof.
  revert l. induction cs as [|c cs IH]; intros l Hk.
  { cbn. destruct (consoleEnabled_ l), (is_open _); by rewrite !app_nil_r. }
  cbn [forallb] in Hk. apply andb_prop in Hk as [Hc Hk].
  destruct (call_sinks c l Hc) as (H1 & H2 & H3 & H4 & H5 & H6).
  destruct (IH (call c l) Hk) as (I1 & I2 & I3).
  change (calls (c :: cs) l) with (calls cs (call c l)). rewrite I1, I2, H1, H3, H4, H5.
  assert (printed (lines (c :: cs)) = printed (lines [c]) ++ printed (lines cs)) as ->.
  { unfold printed, lines. by rewrite <- bind_app, <- bind_app. }
  rewrite <- !app_assoc.
  split_and!; [by destruct (consoleEnabled_ l)|by destruct (is_open (logFile_ l))|auto].
Qed.

(** ** Two threads *)

Definition only_logs (cs : list LogCall) : Prop :=
  Forall (fun c => match c with Log _ _ => True | _ => False end) cs.

Lemma only_logs_plain cs :
  only_logs cs -> forallb keeps_sinks cs = true /\ existsb resets cs = false.
Proof. induction 1 as [|[] cs Hc _ [IH1 IH2]]; by cbn. Qed.

Lemma interleave_logs_at lv a b c :
  interleave a b c ->
  length (logs_at lv c) = (length (logs_at lv a) + length (logs_at lv b))%nat.
Proof.
  intros Hc. unfold logs_at. by rewrite (interleave_perm _ _ _ Hc), filter_app, length_app.
Qed.

(** C23: concurrent logging loses nothing: however the calls of two threads that log are
    interleaved, the file holds every line of both, whole and each thread's in its own order,
    it is flushed to its end, the console shows the same lines, and each counter has counted
    the calls of its level, modulo the width of [size_t]. *)
Theorem concurrent_logging path a b c :
  only_logs a -> only_logs b -> interleave a b c ->
  let l := calls c (construct_logger path true) in
  content (logFile_ l) = printed (lines c)
  /\ interleave (lines a) (lines b) (lines c)
  /\ flushed (logFile_ l) = length (content (logFile_ l))
  /\ console l = console (construct_logger path true) ++ printed (lines c)
  /\ forall lv, getLogCount lv l
                = u64 (Z.of_nat (length (logs_at lv a)) + Z.of_nat (length (logs_at lv b))).
Proof.
  intros Ha Hb Hc l. assert (only_logs c) as Hlogs.
  { unfold only_logs. rewrite (interleave_perm _ _ _ Hc). by apply Forall_app. }
  destruct (only_logs_plain c Hlogs) as [Hs Hr].
  destruct (calls_sinks c (construct_logger path true) Hs) as (H1 & H2 & H3).
  assert (autoFlush_ l = true) as Hflush.
  { subst l. clear -Hlogs. assert (autoFlush_ (construct_logger path true) = true) as H0 by done.
    revert H0. generalize (construct_logger path true).
    induction Hlogs as [|[] cs Hc _ IH]; intros l0 H0; try done.
    apply IH. cbn. unfold cacheLogLine. by destruct (_ =? 0)%nat. }
  split_and!.
  - apply H2.
  - by apply interleave_bind.
  - by apply H3.
  - apply H1.
  - intros lv. subst l. rewrite calls_count; [|done|by destruct lv].
    rewrite (interleave_logs_at lv _ _ _ Hc), Nat2Z.inj_add. by destruct lv.
Qed.

(** The two workers of the demonstration. *)
Lemma concurrent_logging_witness :
  let collector := writeLogs LogLevel.Info (txt "collector") (txt "1") in
  let processor := writeLogs LogLevel.Warning (txt "processor") (txt "2") in
  let l := calls (collector ++ processor) (construct_logger (txt "thread_safe_log_demo.log") true) in
  getLogCount LogLevel.Info l = 5.
Proof.
  intros collector processor l.
  transitivity (u64 (Z.of_nat (length (logs_at LogLevel.Info collector))
                     + Z.of_nat (length (logs_at LogLevel.Info processor)))).
  - apply (concurrent_logging (txt "thread_safe_log_demo.log") collector processor).
    + repeat constructor.
    + repeat constructor.
    + apply interleave_seq.
  - vm_compute. reflexivity.
Defined.
