(* ===== verification/WorkQueue.v ===== *)
(** * The producer/consumer monitor

    The pattern five programs of the repository share: a queue and an end flag
    behind a mutex, a condition variable, one thread that produces, one that
    consumes ([practice/day01/thread_safe_queue.cpp] as the class
    [ThreadSafeQueue], and, with global variables, [gateway_ack_demo],
    [gateway_pipeline_demo], [producer_consumer_demo] and
    [interview_practice/day28_producer_consumer.cpp]).

    The monitor is stated against an interface: [Worker] says what the consumer
    does with an item and when it leaves its loop.  The producer is a program of
    [ProdOp]s.  The condition variable is modelled: a consumer that finds the
    queue empty goes to sleep and runs again only when it is notified, or
    spuriously, so the theorems exclude lost wake-ups. *)

From S2P Require Import Prelude.

(** What a client of the queue does, as sequences of atomic effects. *)
Class Worker (A E : Type) := {
  on_item : A -> list E;   (* the loop body after [pop] *)
  on_exit : list E;        (* what follows the loop *)
}.

(** One atomic action of the producing thread. *)
Inductive ProdOp (A E : Type) :=
  | Push (x : A) (es : list E)   (* lock; push; effects under the lock; unlock *)
  | Emit (e : E)                 (* an effect outside the lock *)
  | Finish                       (* lock; set the end flag; unlock *)
  | Notify.                      (* [notify_one] or [notify_all]: one waiter *)
Arguments Push {A E} x es.
Arguments Emit {A E} e.
Arguments Finish {A E}.
Arguments Notify {A E}.

(** Where the consumer is. *)
Inductive ConsPc (E : Type) :=
  | Checking                     (* about to lock and test the predicate *)
  | Sleeping                     (* in [wait], the mutex released *)
  | Working (es : list E)        (* after [pop], effects left to do *)
  | Leaving (es : list E)        (* after [break] *)
  | Gone.
Arguments Checking {E}.
Arguments Sleeping {E}.
Arguments Working {E} es.
Arguments Leaving {E} es.
Arguments Gone {E}.

Record Pipe (A E : Type) := mkPipe {
  program : list (ProdOp A E);   (* what the producer still has to do *)
  items : list A;                (* the queue *)
  finished : bool;
  consumer : ConsPc E;
  trace : list E;                (* the effects so far, in order *)
}.
Arguments mkPipe {A E} program items finished consumer trace.
Arguments program {A E} p.
Arguments items {A E} p.
Arguments finished {A E} p.
Arguments consumer {A E} p.
Arguments trace {A E} p.

Definition initial_pipe {A E} (prog : list (ProdOp A E)) : Pipe A E :=
  mkPipe prog [] false Checking [].

Inductive PipeEvent := EvProduce | EvConsume | EvSpuriousWake.

#[export] Instance PipeEvent_eq_dec : EqDecision PipeEvent.
Proof. solve_decision. Defined.

Section monitor.
Context {A E : Type} `{W : Worker A E}.
Implicit Types (p : Pipe A E) (prog : list (ProdOp A E)).

Definition wake (c : ConsPc E) : ConsPc E :=
  match c with Sleeping => Checking | _ => c end.

Definition produce p : option (Pipe A E) :=
  match program p with
  | [] => None
  | op :: prog =>
      Some
        match op with
        | Push x es => mkPipe prog (items p ++ [x]) (finished p) (consumer p) (trace p ++ es)
        | Emit e => mkPipe prog (items p) (finished p) (consumer p) (trace p ++ [e])
        | Finish => mkPipe prog (items p) true (consumer p) (trace p)
        | Notify => mkPipe prog (items p) (finished p) (wake (consumer p)) (trace p)
        end
  end.

(** [wait] with its predicate, the test of the loop and [front]/[pop]. *)
Definition consume p : option (Pipe A E) :=
  match consumer p with
  | Checking =>
      Some
        match items p with
        | x :: queue => mkPipe (program p) queue (finished p) (Working (on_item x)) (trace p)
        | [] =>
            if finished p
            then mkPipe (program p) [] (finished p) (Leaving on_exit) (trace p)
            else mkPipe (program p) [] (finished p) Sleeping (trace p)
        end
  | Working (e :: es) =>
      Some (mkPipe (program p) (items p) (finished p) (Working es) (trace p ++ [e]))
  | Working [] => Some (mkPipe (program p) (items p) (finished p) Checking (trace p))
  | Leaving (e :: es) =>
      Some (mkPipe (program p) (items p) (finished p) (Leaving es) (trace p ++ [e]))
  | Leaving [] => Some (mkPipe (program p) (items p) (finished p) Gone (trace p))
  | Sleeping | Gone => None
  end.

Definition pipe_step (ev : PipeEvent) p : option (Pipe A E) :=
  match ev with
  | EvProduce => produce p
  | EvConsume => consume p
  | EvSpuriousWake =>
      match consumer p with
      | Sleeping => Some (mkPipe (program p) (items p) (finished p) Checking (trace p))
      | _ => None
      end
  end.

Fixpoint pipe_run (evs : list PipeEvent) p : option (Pipe A E) :=
  match evs with
  | [] => Some p
  | ev :: evs' => match pipe_step ev p with Some p' => pipe_run evs' p' | None => None end
  end.

(** Both threads have returned. *)
Definition pipe_done p : Prop := program p = [] /\ consumer p = Gone.

(** ** Programs a producer may run *)

Definition has_notify prog : bool :=
  existsb (fun op => match op with Notify => true | _ => false end) prog.

(** Every push and the end flag are notified later, the flag is set, and
    nothing is pushed after it. *)
Fixpoint wf_program (fin : bool) prog : bool :=
  match prog with
  | [] => fin
  | Push _ _ :: prog' => negb fin && has_notify prog' && wf_program fin prog'
  | Finish :: prog' => negb fin && has_notify prog' && wf_program true prog'
  | _ :: prog' => wf_program fin prog'
  end.

Definition pushed prog : list A :=
  prog ≫= fun op => match op with Push x _ => [x] | _ => [] end.

Definition produced prog : list E :=
  prog ≫= fun op => match op with Push _ es => es | Emit e => [e] | _ => [] end.

(** ** The invariant *)

(** The effects the consumer still owes for what it took out. *)
Definition owed (c : ConsPc E) : list E :=
  match c with Working es | Leaving es => es | _ => [] end.

Definition left_loop (c : ConsPc E) : bool :=
  match c with Leaving _ | Gone => true | _ => false end.

Record pipe_inv (prog0 : list (ProdOp A E)) p : Prop := {
  pi_wf : wf_program (finished p) (program p) = true;
  pi_awake : consumer p = Sleeping ->
             (items p = [] /\ finished p = false) \/ has_notify (program p) = true;
  pi_left : left_loop (consumer p) = true -> items p = [] /\ finished p = true;
  pi_trace : exists past taken ctrace,
    prog0 = past ++ program p
    /\ pushed past = taken ++ items p
    /\ interleave (produced past) ctrace (trace p)
    /\ ctrace ++ owed (consumer p)
       = (taken ≫= on_item) ++ (if left_loop (consumer p) then on_exit else []);
}.

Lemma initial_pipe_inv prog : wf_program false prog = true -> pipe_inv prog (initial_pipe prog).
Proof.
  intros H. split; try done. exists [], [], []. split_and!; try done. constructor.
Qed.

Lemma pushed_app prog1 prog2 : pushed (prog1 ++ prog2) = pushed prog1 ++ pushed prog2.
Proof. apply bind_app. Qed.

Lemma produced_app prog1 prog2 : produced (prog1 ++ prog2) = produced prog1 ++ produced prog2.
Proof. apply bind_app. Qed.

Lemma owed_wake c : owed (wake c) = owed c.
Proof. by destruct c. Qed.

Lemma left_loop_wake c : left_loop (wake c) = left_loop c.
Proof. by destruct c. Qed.

Lemma produce_inv prog0 p p' : pipe_inv prog0 p -> produce p = Some p' -> pipe_inv prog0 p'.
Proof.
  intros [Hwf Hawake Hleft (past & taken & ctrace & Hprog & Hpush & Htr & Howed)] Hs.
  unfold produce in Hs. destruct (program p) as [|op prog] eqn:Hp; [done|].
  injection Hs as <-.
  assert (Hpast : prog0 = (past ++ [op]) ++ prog) by by rewrite <- app_assoc.
  destruct op as [x es|e| |]; cbn in Hwf; split; cbn.
  - by apply andb_prop in Hwf as [_ ?].
  - intros _. right. by apply andb_prop in Hwf as [[_ ?]%andb_prop _].
  - intros Hl. destruct (Hleft Hl) as [_ Hf]. by rewrite Hf in Hwf.
  - exists (past ++ [Push x es]), taken, ctrace. split_and!; [done| | |done].
    + by rewrite pushed_app, Hpush, <- app_assoc.
    + rewrite produced_app. cbn. rewrite app_nil_r. by apply interleave_snocs_l.
  - done.
  - done.
  - done.
  - exists (past ++ [Emit e]), taken, ctrace. split_and!; [done| | |done].
    + by rewrite pushed_app, app_nil_r.
    + rewrite produced_app. cbn. by apply interleave_snoc_l.
  - by apply andb_prop in Hwf as [_ ?].
  - intros _. right. by apply andb_prop in Hwf as [[_ ?]%andb_prop _].
  - intros Hl. destruct (Hleft Hl) as [_ Hf]. by rewrite Hf in Hwf.
  - exists (past ++ [Finish]), taken, ctrace. split_and!; [done| | |done].
    + by rewrite pushed_app, app_nil_r.
    + by rewrite produced_app, app_nil_r.
  - done.
  - by destruct (consumer p).
  - by rewrite left_loop_wake.
  - exists (past ++ [Notify]), taken, ctrace. rewrite owed_wake, left_loop_wake.
    split_and!; [done| | |done].
    + by rewrite pushed_app, app_nil_r.
    + by rewrite produced_app, app_nil_r.
Qed.

Lemma consume_inv prog0 p p' : pipe_inv prog0 p -> consume p = Some p' -> pipe_inv prog0 p'.
Proof.
  intros [Hwf Hawake Hleft (past & taken & ctrace & Hprog & Hpush & Htr & Howed)] Hs.
  unfold consume in Hs. destruct (consumer p) as [| |[|e es]|[|e es]|]; try done; injection Hs as <-.
  - destruct (items p) as [|x queue] eqn:Hq; [destruct (finished p) eqn:Hf|];
      split; try done; cbn in *.
    + exists past, taken, ctrace. split_and!; [done..|]. by rewrite !app_nil_r in *; rewrite Howed.
    + by left.
    + by exists past, taken, ctrace.
    + exists past, (taken ++ [x]), ctrace. split_and!; [done| |done|].
      * by rewrite Hpush, <- app_assoc.
      * rewrite !app_nil_r in *. by rewrite Howed, bind_app, bind_singleton.
  - split; try done; cbn in *. by exists past, taken, ctrace.
  - split; try done; cbn in *. exists past, taken, (ctrace ++ [e]).
    split_and!; [done|done|by apply interleave_snoc_r|]. by rewrite <- app_assoc.
  - split; try done; cbn in *. by exists past, taken, ctrace.
  - split; try done; cbn in *. exists past, taken, (ctrace ++ [e]).
    split_and!; [done|done|by apply interleave_snoc_r|]. by rewrite <- app_assoc.
Qed.

Lemma pipe_step_inv prog0 ev p p' :
  pipe_inv prog0 p -> pipe_step ev p = Some p' -> pipe_inv prog0 p'.
Proof.
  destruct ev; [apply produce_inv|apply consume_inv|]. cbn.
  intros [Hwf Hawake Hleft Htr]. destruct (consumer p) eqn:Hc; try done. intros [= <-].
  by split; try done; cbn in *.
Qed.

Lemma pipe_run_inv prog0 evs p p' :
  pipe_inv prog0 p -> pipe_run evs p = Some p' -> pipe_inv prog0 p'.
Proof.
  revert p. induction evs as [|ev evs IH]; cbn; intros p Hp Hr; [by simplify_eq|].
  destruct (pipe_step ev p) as [p1|] eqn:Hev; [|done].
  eapply IH; [|done]. by eapply pipe_step_inv.
Qed.

(** ** Progress and termination *)

Lemma pipe_progress prog0 p :
  pipe_inv prog0 p -> pipe_done p \/ is_Some (produce p) \/ is_Some (consume p).
Proof.
  intros [Hwf Hawake _ _]. unfold produce, consume, pipe_done.
  destruct (program p) as [|op prog]; [|by eauto].
  destruct (consumer p) as [| |[|e es]|[|e es]|]; eauto.
  destruct (Hawake eq_refl) as [[_ Hf]|Hn]; [|done]. cbn in Hwf. congruence.
Qed.

(** What is left to do, in steps. *)
Definition item_weight (x : A) : nat := length (on_item x) + 2.

Definition op_weight (op : ProdOp A E) : nat :=
  match op with Push x _ => S (item_weight x) | Notify => 2 | _ => 1 end.

Definition consumer_weight (c : ConsPc E) : nat :=
  let exit := S (length (@on_exit A E W)) in
  match c with
  | Checking => S exit
  | Sleeping => exit
  | Working es => length es + 2 + exit
  | Leaving es => S (length es)
  | Gone => 0
  end.

Definition steps_left p : nat :=
  sum_list_with op_weight (program p) + sum_list_with item_weight (items p)
  + consumer_weight (consumer p).

Lemma steps_left_step ev p p' :
  pipe_step ev p = Some p' ->
  (steps_left p' < steps_left p
   \/ ev = EvSpuriousWake /\ steps_left p' = S (steps_left p))%nat.
Proof.
  unfold steps_left. destruct ev; cbn -[item_weight].
  - unfold produce. destruct (program p) as [|op prog]; [done|]. intros [= <-]. left.
    destruct op; cbn -[item_weight]; rewrite ?sum_list_with_app; cbn -[item_weight]; try lia.
    destruct (consumer p); cbn; lia.
  - unfold consume. destruct (consumer p) as [| |[|e es]|[|e es]|]; try done; intros [= <-]; left;
      [|cbn; lia..].
    destruct (items p); [destruct (finished p)|]; cbn; unfold item_weight; lia.
  - destruct (consumer p); try done. intros [= <-]. right. split; [done|]. cbn. lia.
Qed.

Lemma steps_left_run evs p p' :
  pipe_run evs p = Some p' ->
  (length evs + steps_left p'
   <= steps_left p + 2 * length (filter (fun ev => ev = EvSpuriousWake) evs))%nat.
Proof.
  revert p. induction evs as [|ev evs IH]; cbn [pipe_run length]; intros p Hr; [simplify_eq; cbn; lia|].
  destruct (pipe_step ev p) as [p1|] eqn:Hev; [|done]. specialize (IH _ Hr).
  rewrite filter_cons. destruct (steps_left_step _ _ _ Hev) as [Hlt|[-> Heq]].
  - case_decide; cbn; lia.
  - rewrite decide_True by done. cbn. lia.
Qed.

Lemma pipe_run_result prog evs p :
  wf_program false prog = true -> pipe_run evs (initial_pipe prog) = Some p -> pipe_done p ->
  interleave (produced prog) ((pushed prog ≫= on_item) ++ on_exit) (trace p) /\ items p = [].
Proof.
  intros Hwf Hr [Hp Hc].
  destruct (pipe_run_inv prog evs _ _ (initial_pipe_inv prog Hwf) Hr)
    as [_ _ Hleft (past & taken & ctrace & Hprog & Hpush & Htr & Howed)].
  rewrite Hp, app_nil_r in Hprog. subst past. rewrite Hc in *.
  destruct (Hleft eq_refl) as [Hq _]. rewrite Hq, app_nil_r in Hpush. cbn in Howed.
  rewrite app_nil_r in Howed. by rewrite Hpush, <- Howed.
Qed.

(** ** Properties *)

(** C14: the monitor neither deadlocks nor runs for ever: in every state that any schedule of
    the two threads can reach, either both have returned or one of them can go on without
    being woken spuriously, so no wake-up is ever lost; and a schedule is no longer than the
    work there was plus two steps for each spurious wake-up. *)
Theorem pipe_terminates prog evs p :
  wf_program false prog = true -> pipe_run evs (initial_pipe prog) = Some p ->
  (pipe_done p \/ is_Some (produce p) \/ is_Some (consume p))
  /\ (length evs <= steps_left (initial_pipe prog)
                    + 2 * length (filter (fun ev => ev = EvSpuriousWake) evs))%nat.
Proof.
  intros Hwf Hr. split.
  - eapply pipe_progress, pipe_run_inv; [by apply initial_pipe_inv|done].
  - pose proof (steps_left_run _ _ _ Hr). lia.
Qed.

(** C13: every item is consumed exactly once and in the order of production: when both threads
    have returned the queue is empty, and the effects that happened are those of the producer,
    in its order, interleaved with those of the consumer on exactly the pushed items, in the
    order they were pushed, followed by its exit. *)
Theorem pipe_exactly_once prog evs p :
  wf_program false prog = true -> pipe_run evs (initial_pipe prog) = Some p -> pipe_done p ->
  interleave (produced prog) ((pushed prog ≫= on_item) ++ on_exit) (trace p) /\ items p = [].
Proof. apply pipe_run_result. Qed.
End monitor.
