(* ===== verification/QueueClients.v ===== *)
(** * Small clients of the producer/consumer monitor

    [practice/day01/thread_safe_queue.cpp] (the class [ThreadSafeQueue] and its
    [main]), [cpp_modules/producer_consumer_demo] and
    [cpp_modules/interview_practice/day28_producer_consumer.cpp], as instances
    of [WorkQueue].  A printed line is one effect; sleeping has none. *)

From Stdlib Require Import Ascii String.
From S2P Require Import Prelude WorkQueue.

(** ** [ThreadSafeQueue] *)

Module ThreadSafeQueue.
Record ThreadSafeQueue (T : Type) := mkQueue { queue_ : list T; stopped_ : bool }.
Arguments mkQueue {T} queue_ stopped_.
Arguments queue_ {T} t.
Arguments stopped_ {T} t.

Section operations.
Context {T : Type}.

Definition new : ThreadSafeQueue T := mkQueue [] false.

(** The sections under [mutex_]; [push] and [stop] then notify. *)
Definition push (value : T) (q : ThreadSafeQueue T) : ThreadSafeQueue T :=
  mkQueue (queue_ q ++ [value]) (stopped_ q).

Definition stop (q : ThreadSafeQueue T) : ThreadSafeQueue T := mkQueue (queue_ q) true.

(** [None] is the wait; otherwise the returned flag with the value. *)
Definition wait_and_pop (q : ThreadSafeQueue T) : option (option T * ThreadSafeQueue T) :=
  if negb (negb (bool_decide (queue_ q = [])) || stopped_ q) then None
  else if stopped_ q && bool_decide (queue_ q = []) then Some (None, q)
  else
    match queue_ q with
    | [] => None
    | value :: rest => Some (Some value, mkQueue rest (stopped_ q))
    end.
End operations.

(** [main]: the lambdas of the two threads. *)
Definition producer : list (ProdOp Z text) :=
  (seq 1 5 ≫= fun i =>
     [Push (Z.of_nat i) []; Notify; Emit (txt "produce: " ++ to_string (Z.of_nat i))])
  ++ [Finish; Notify].

#[global] Instance main_worker : Worker Z text := {
  on_item := fun value => [txt "consume: " ++ to_string value];
  on_exit := [txt "consumer exit"];
}.
End ThreadSafeQueue.

(** ** The sensor samples of [producer_consumer_demo] *)

Module Sensor.
Record SensorSample := mkSample { sequence : Z; temperature : Z; humidity : Z }.

Definition kTotalSamples : nat := 5.

Definition collectTask : list (ProdOp SensorSample SensorSample) :=
  (seq 1 kTotalSamples ≫= fun index =>
     let index := Z.of_nat index in [Push (mkSample index (20 + index) (50 + index)) []; Notify])
  ++ [Finish; Notify].

(** The one effect of the consumer on a sample: [++processCount] and the line
    with the new count. *)
#[global] Instance processTask : Worker SensorSample SensorSample := {
  on_item := fun sample => [sample];
  on_exit := [];
}.

Definition process_line (sample : SensorSample) (processCount : Z) : text :=
  txt "[PROCESS]sequence=" ++ to_string (sequence sample)
  ++ txt "temperature=" ++ to_string (temperature sample)
  ++ txt "humidity=" ++ to_string (humidity sample)
  ++ txt "processed_count=" ++ to_string processCount.

(** [processCount] and the lines printed, after the effects. *)
Definition processed (effects : list SensorSample) : Z * list text :=
  foldl (fun '(processCount, out) sample =>
           (processCount + 1, out ++ [process_line sample (processCount + 1)])) (0, []) effects.
End Sensor.

(** ** The commands of [day28_producer_consumer] *)

Module Day28Queue.
Definition commands : list text :=
  [txt "OPEN"; txt "GRAB"; txt "RELEASE"; txt "STOP"; txt "OPEN"].

(** The producer prints while it holds the lock. *)
Definition commandProducer : list (ProdOp text text) :=
  (commands ≫= fun command => [Push command [txt "[PRODUCER] push: " ++ command]; Notify])
  ++ [Finish; Notify; Emit (txt "[PRODUCER] finished")].

#[global] Instance commandConsumer : Worker text text := {
  on_item := fun command => [txt "[CONSUMER] process: " ++ command];
  on_exit := [txt "[CONSUMER] exit"];
}.
End Day28Queue.

(** ** The class is the monitor *)

(** [p] holds the queue [q]. *)
Definition holds {T E} (q : ThreadSafeQueue.ThreadSafeQueue T) (p : Pipe T E) : Prop :=
  items p = ThreadSafeQueue.queue_ q /\ finished p = ThreadSafeQueue.stopped_ q.

(** A step of the monitor is a call of the class: a push, a stop, or a
    [wait_and_pop] that returns a value, returns false, or blocks. *)
Lemma monitor_refines_class {T E} `{Worker T E} (p p' : Pipe T E) q ev :
  holds q p -> pipe_step ev p = Some p' ->
  holds q p'
  \/ (exists value, holds (ThreadSafeQueue.push value q) p')
  \/ holds (ThreadSafeQueue.stop q) p'
  \/ (exists value q', ThreadSafeQueue.wait_and_pop q = Some (Some value, q') /\ holds q' p'
                       /\ consumer p' = Working (on_item value)).
Proof.
  unfold holds. intros [Hi Hf] Hs. destruct ev; cbn in Hs.
  - unfold produce in Hs. destruct (program p) as [|[x es|e| |] prog]; [done|..];
      injection Hs as <-; cbn; [right; left; exists x; by rewrite Hi|by left|by right; right; left
      |by left].
  - unfold consume in Hs. destruct (consumer p) as [| |[|e es]|[|e es]|]; try done;
      injection Hs as <-; try by left.
    rewrite Hi, Hf. destruct q as [[|x queue] []]; cbn.
    + by left.
    + by left.
    + right; right; right. by exists x, (ThreadSafeQueue.mkQueue queue true).
    + right; right; right. by exists x, (ThreadSafeQueue.mkQueue queue false).
  - destruct (consumer p); try done. injection Hs as <-. by left.
Qed.

(** [wait_and_pop] answers false exactly when the queue is stopped and empty,
    and blocks exactly when it is empty and not stopped. *)
Lemma wait_and_pop_cases {T} (q : ThreadSafeQueue.ThreadSafeQueue T) :
  match ThreadSafeQueue.wait_and_pop q with
  | None => ThreadSafeQueue.queue_ q = [] /\ ThreadSafeQueue.stopped_ q = false
  | Some (None, q') =>
      ThreadSafeQueue.queue_ q = [] /\ ThreadSafeQueue.stopped_ q = true /\ q' = q
  | Some (Some value, q') =>
      ThreadSafeQueue.queue_ q = value :: ThreadSafeQueue.queue_ q'
      /\ ThreadSafeQueue.stopped_ q' = ThreadSafeQueue.stopped_ q
  end.
Proof. by destruct q as [[|x queue] []]. Qed.

(** ** Complete schedules *)

(** The consumer runs whenever it can; the producer otherwise. *)
Fixpoint greedy {A E} `{Worker A E} (fuel : nat) (p : Pipe A E) : list PipeEvent :=
  match fuel with
  | O => []
  | S fuel' =>
      match consume p with
      | Some p' => EvConsume :: greedy fuel' p'
      | None =>
          match produce p with
          | Some p' => EvProduce :: greedy fuel' p'
          | None => []
          end
      end
  end.

Definition demo_schedule : list PipeEvent :=
  EvConsume :: EvSpuriousWake
  :: greedy 100 (initial_pipe (A := Z) (E := text) ThreadSafeQueue.producer).

Definition demo_end : Pipe Z text :=
  default (initial_pipe []) (pipe_run demo_schedule (initial_pipe ThreadSafeQueue.producer)).

Lemma pipe_terminates_witness :
  pipe_done demo_end \/ is_Some (produce demo_end) \/ is_Some (consume demo_end).
Proof.
  apply (pipe_terminates ThreadSafeQueue.producer demo_schedule); vm_compute; reflexivity.
Defined.

Lemma pipe_exactly_once_witness :
  interleave (produced ThreadSafeQueue.producer)
    ((pushed ThreadSafeQueue.producer ≫= on_item) ++ on_exit (A := Z)) (trace demo_end)
  /\ items demo_end = [].
Proof.
  apply (pipe_exactly_once ThreadSafeQueue.producer demo_schedule).
  - vm_compute. reflexivity.
  - vm_compute. reflexivity.
  - split; vm_compute; reflexivity.
Defined.

(** ** What the demonstrations print *)

(** Whatever the schedule, the sensor demonstration processes the five samples
    in order and counts to five. *)
Lemma sensor_result evs p :
  pipe_run evs (initial_pipe Sensor.collectTask) = Some p -> pipe_done p ->
  Sensor.processed (trace p)
  = (5, (fun i => Sensor.process_line (Sensor.mkSample i (20 + i) (50 + i)) i) <$> [1; 2; 3; 4; 5]).
Proof.
  intros Hr Hd. destruct (pipe_run_result Sensor.collectTask evs p) as [Hi _]; try done.
  apply interleave_nil_l in Hi. rewrite <- Hi. vm_compute. reflexivity.
Qed.

(** Whatever the schedule, the consumer of day 28 prints the commands in the
    order the producer printed them. *)
Lemma day28_result evs p :
  pipe_run evs (initial_pipe Day28Queue.commandProducer) = Some p -> pipe_done p ->
  interleave
    (((fun c => txt "[PRODUCER] push: " ++ c) <$> Day28Queue.commands) ++ [txt "[PRODUCER] finished"])
    (((fun c => txt "[CONSUMER] process: " ++ c) <$> Day28Queue.commands) ++ [txt "[CONSUMER] exit"])
    (trace p).
Proof.
  intros Hr Hd. by destruct (pipe_run_result Day28Queue.commandProducer evs p) as [Hi _].
Qed.
