(* ===== verification/GatewayPipeline.v ===== *)
(** * The command gateways

    [cpp_modules/gateway_ack_demo] and [cpp_modules/gateway_pipeline_demo]: text
    commands go through the producer/consumer monitor of [WorkQueue], are parsed
    by [ProtocolParser], counted, logged through [LogManager] and, in the first
    program, answered.

    The effects of the two threads are increments of the counters, calls of the
    logger and printed lines, each atomic; the counters the threads share the
    structure of are disjoint. *)

From Stdlib Require Import Ascii String.
From S2P Require Import Prelude ProtocolParser LogManager WorkQueue QueueClients.

(** ** Effects *)

Inductive Counter := Received | Accepted | Rejected | AckCount.

#[export] Instance Counter_eq_dec : EqDecision Counter.
Proof. solve_decision. Defined.

Inductive Effect :=
  | Increment (c : Counter)
  | LogEffect (level : LogLevel) (message : text)
  | Print (line : text).

(** How often a counter is incremented by an effect, and a level logged. *)
Definition increments (c : Counter) (e : Effect) : nat :=
  match c, e with
  | Received, Increment Received | Accepted, Increment Accepted
  | Rejected, Increment Rejected | AckCount, Increment AckCount => 1
  | _, _ => 0
  end.
Definition logs_level (level : LogLevel) (e : Effect) : nat :=
  match level, e with
  | LogLevel.Info, LogEffect LogLevel.Info _ | LogLevel.Warning, LogEffect LogLevel.Warning _
  | LogLevel.Error, LogEffect LogLevel.Error _ => 1
  | _, _ => 0
  end.

Definition log_calls (es : list Effect) : list LogCall :=
  es ≫= fun e => match e with LogEffect level message => [Log level message] | _ => [] end.
Definition printed_lines (es : list Effect) : list text :=
  es ≫= fun e => match e with Print line => [line] | _ => [] end.

(** ** [gateway_ack_demo] *)

Module AckDemo.
Record RawCommand := mkRawCommand { sequence : Z; source : text; payload : text }.

Inductive ResultCode := Ok | InvalidCommand | ExecutionFailed.

Record CommandResult := mkResult {
  result_sequence : Z;
  code : ResultCode;
  command : text;
  executorCommand : text;
  message : text;
}.

Record PipelineStats := mkStats { received : Z; accepted : Z; rejected : Z; ackCount : Z }.

Definition resultCodeToInt (c : ResultCode) : Z :=
  match c with Ok => 0 | InvalidCommand => 1001 | ExecutionFailed => 1002 end.

Definition resultCodeToString (c : ResultCode) : text :=
  match c with
  | Ok => txt "OK"
  | InvalidCommand => txt "INVALID_COMMAND"
  | ExecutionFailed => txt "EXECUTION_FAILED"
  end.

(** The line [printResult] prints. *)
Definition printResult (result : CommandResult) : text :=
  match code result with
  | Ok =>
      txt "[ACK] seq=" ++ to_string (result_sequence result)
      ++ txt " code=" ++ to_string (resultCodeToInt (code result))
      ++ txt " result=" ++ resultCodeToString (code result)
      ++ txt " command=" ++ command result ++ txt " executor=" ++ executorCommand result
  | _ =>
      txt "[ERROR] seq=" ++ to_string (result_sequence result)
      ++ txt " code=" ++ to_string (resultCodeToInt (code result))
      ++ txt " result=" ++ resultCodeToString (code result)
      ++ txt " message=" ++ message result
  end.

(** The loop of [inputProducer]; [sequence] is a [uint32_t]. *)
Fixpoint queue_inputs (sequence : Z) (inputs : list text) : list (ProdOp RawCommand Effect) :=
  match inputs with
  | [] => []
  | payload :: inputs' =>
      let sequence := u32 (sequence + 1) in
      [Push (mkRawCommand sequence (txt "SIMULATED_UART") payload) [Increment Received];
       Emit (LogEffect LogLevel.Info (txt "Queued command seq=" ++ to_string sequence));
       Notify]
      ++ queue_inputs sequence inputs'
  end.

Definition inputProducer (inputs : list text) : list (ProdOp RawCommand Effect) :=
  queue_inputs 0 inputs
  ++ [Finish; Emit (LogEffect LogLevel.Info (txt "Input producer finished")); Notify].

Definition testInputs : list text :=
  [txt "OPEN"; txt " grab" ++ [CR; LF]; txt "JUMP";
   "009"%char :: txt "STOP" ++ ["009"%char]; txt "release" ++ [LF]].

(** The loop body of [commandConsumer]. *)
Definition handle (rawCommand : RawCommand) : list Effect :=
  let cmd := parse (payload rawCommand) in
  if negb (isValid cmd) then
    [Increment Rejected; Increment AckCount;
     LogEffect LogLevel.Warning (txt "Rejected command seq=" ++ to_string (sequence rawCommand));
     Print (printResult (mkResult (sequence rawCommand) InvalidCommand (txt "UNKNOWN")
                           (txt "HAND_NONE") (txt "invalid gateway command")))]
  else
    let commandName := commandToString cmd in
    let executor := toExecutorCommand cmd in
    [Increment Accepted; Increment AckCount;
     LogEffect LogLevel.Info
       (txt "Command seq=" ++ to_string (sequence rawCommand) ++ txt " " ++ commandName
        ++ txt " -> " ++ executor);
     Print (printResult (mkResult (sequence rawCommand) Ok commandName executor
                           (txt "command accepted")))].

#[global] Instance commandConsumer : Worker RawCommand Effect := {
  on_item := handle;
  on_exit := [LogEffect LogLevel.Info (txt "Command consumer finished")];
}.

(** [stats] after the effects. *)
Definition apply_stat (s : PipelineStats) (e : Effect) : PipelineStats :=
  match e with
  | Increment Received => mkStats (received s + 1) (accepted s) (rejected s) (ackCount s)
  | Increment Accepted => mkStats (received s) (accepted s + 1) (rejected s) (ackCount s)
  | Increment Rejected => mkStats (received s) (accepted s) (rejected s + 1) (ackCount s)
  | Increment AckCount => mkStats (received s) (accepted s) (rejected s) (ackCount s + 1)
  | _ => s
  end.

Definition stats (es : list Effect) : PipelineStats := foldl apply_stat (mkStats 0 0 0 0) es.
End AckDemo.

(** ** [gateway_pipeline_demo] *)

Module PipelineDemo.
Record PipelineStats := mkStats { accepted : Z; rejected : Z }.

(** [sequence] is an [int] that only labels the log. *)
Fixpoint queue_inputs (sequence : Z) (inputs : list text) : list (ProdOp text Effect) :=
  match inputs with
  | [] => []
  | rawInput :: inputs' =>
      let sequence := sequence + 1 in
      [Push rawInput [];
       Emit (LogEffect LogLevel.Info (txt "Input producer queued command #" ++ to_string sequence));
       Notify]
      ++ queue_inputs sequence inputs'
  end.

Definition inputProducer (inputs : list text) : list (ProdOp text Effect) :=
  queue_inputs 0 inputs
  ++ [Finish; Emit (LogEffect LogLevel.Info (txt "Input producer finished ")); Notify].

Definition testInputs : list text :=
  [txt "OPEN"; txt "grab" ++ [CR; LF]; txt "JUMP";
   "009"%char :: txt "STOP" ++ ["009"%char]; txt "release" ++ [LF]].

Definition handle (rawInput : text) : list Effect :=
  let cmd := parse rawInput in
  if negb (isValid cmd) then
    [Increment Rejected; LogEffect LogLevel.Warning (txt "Rejected invalid gateway command")]
  else
    [Increment Accepted;
     LogEffect LogLevel.Info
       (txt "Gateway command: " ++ commandToString cmd ++ txt " -> " ++ toExecutorCommand cmd)].

#[global] Instance commandConsumer : Worker text Effect := {
  on_item := handle;
  on_exit := [LogEffect LogLevel.Info (txt "Command consumer finished")];
}.

Definition apply_stat (s : PipelineStats) (e : Effect) : PipelineStats :=
  match e with
  | Increment Accepted => mkStats (accepted s + 1) (rejected s)
  | Increment Rejected => mkStats (accepted s) (rejected s + 1)
  | _ => s
  end.

Definition stats (es : list Effect) : PipelineStats := foldl apply_stat (mkStats 0 0) es.
End PipelineDemo.

(** Both programs set up their logger like this. *)
Definition gateway_logger (path : text) : Logger :=
  setMaxCachedLogs 50 (setAutoFlush true (setConsoleEnabled true (construct_logger path true))).

(** ** Counting effects *)

Lemma interleave_sum {E} (f : E -> nat) (a b c : list E) :
  interleave a b c -> sum_list_with f c = (sum_list_with f a + sum_list_with f b)%nat.
Proof. induction 1; cbn; lia. Qed.

Lemma sum_bind {A E} (f : E -> nat) (h : A -> list E) (l : list A) :
  sum_list_with f (l ≫= h) = sum_list_with (fun x => sum_list_with f (h x)) l.
Proof.
  induction l as [|x l IH]; [done|]. rewrite bind_cons, sum_list_with_app, IH. done.
Qed.

Lemma ack_stats es :
  AckDemo.stats es
  = AckDemo.mkStats (Z.of_nat (sum_list_with (increments Received) es))
      (Z.of_nat (sum_list_with (increments Accepted) es))
      (Z.of_nat (sum_list_with (increments Rejected) es))
      (Z.of_nat (sum_list_with (increments AckCount) es)).
Proof.
  unfold AckDemo.stats.
  assert (forall s, foldl AckDemo.apply_stat s es
    = AckDemo.mkStats (AckDemo.received s + Z.of_nat (sum_list_with (increments Received) es))
        (AckDemo.accepted s + Z.of_nat (sum_list_with (increments Accepted) es))
        (AckDemo.rejected s + Z.of_nat (sum_list_with (increments Rejected) es))
        (AckDemo.ackCount s + Z.of_nat (sum_list_with (increments AckCount) es))) as Hgen;
    [|apply Hgen].
  induction es as [|e es IH]; intros [r a j k]; cbn [foldl]; [cbn; f_equal; lia|].
  rewrite IH. destruct e as [[]| |]; cbn; f_equal; lia.
Qed.

Lemma pipeline_stats es :
  PipelineDemo.stats es
  = PipelineDemo.mkStats (Z.of_nat (sum_list_with (increments Accepted) es))
      (Z.of_nat (sum_list_with (increments Rejected) es)).
Proof.
  unfold PipelineDemo.stats.
  assert (forall s, foldl PipelineDemo.apply_stat s es
    = PipelineDemo.mkStats
        (PipelineDemo.accepted s + Z.of_nat (sum_list_with (increments Accepted) es))
        (PipelineDemo.rejected s + Z.of_nat (sum_list_with (increments Rejected) es))) as Hgen;
    [|apply Hgen].
  induction es as [|e es IH]; intros [a j]; cbn [foldl]; [cbn; f_equal; lia|].
  rewrite IH. destruct e as [[]| |]; cbn; f_equal; lia.
Qed.

(** How often the logger counts a level. *)
Lemma gateway_log_count path level es :
  getLogCount level (calls (log_calls es) (gateway_logger path))
  = u64 (Z.of_nat (sum_list_with (logs_level level) es)).
Proof.
  assert (getLogCount level (gateway_logger path) = 0) as H0 by by destruct level.
  assert (existsb resets (log_calls es) = false) as Hr.
  { clear. induction es as [|e es IH]; [done|]. unfold log_calls. rewrite bind_cons, existsb_app.
    fold (log_calls es). rewrite IH. by destruct e. }
  rewrite calls_count by (done || rewrite H0; done). rewrite H0, Z.add_0_l. do 2 f_equal.
  clear. induction es as [|e es IH]; [done|].
  unfold log_calls. rewrite bind_cons. fold (log_calls es). unfold logs_at. rewrite filter_app.
  rewrite length_app. fold (logs_at level (log_calls es)). rewrite IH. cbn [sum_list_with].
  f_equal. destruct e as [|level' message|]; [by destruct level| |by destruct level].
  rewrite filter_cons, filter_nil. by destruct level, level'.
Qed.

(** ** The acknowledged gateway *)

Definition valid_inputs (inputs : list text) : list text :=
  filter (fun i => isValid (parse i) = true) inputs.

(** Reference: the one response to the input with this number. *)
Definition response (sequence : Z) (payload : text) : text :=
  match parse payload with
  | Unknown =>
      txt "[ERROR] seq=" ++ to_string sequence
      ++ txt " code=1001 result=INVALID_COMMAND message=invalid gateway command"
  | c =>
      txt "[ACK] seq=" ++ to_string sequence
      ++ txt " code=0 result=OK command=" ++ commandToString c
      ++ txt " executor=" ++ toExecutorCommand c
  end.

(** The raw commands the producer queues. *)
Fixpoint numbered (sequence : Z) (inputs : list text) : list AckDemo.RawCommand :=
  match inputs with
  | [] => []
  | payload :: inputs' =>
      AckDemo.mkRawCommand (u32 (sequence + 1)) (txt "SIMULATED_UART") payload
      :: numbered (u32 (sequence + 1)) inputs'
  end.

Lemma ack_pushed inputs : pushed (AckDemo.inputProducer inputs) = numbered 0 inputs.
Proof.
  unfold AckDemo.inputProducer. rewrite pushed_app, app_nil_r. generalize 0.
  induction inputs as [|i inputs IH]; intros s; [done|].
  cbn [AckDemo.queue_inputs numbered]. rewrite pushed_app, IH. done.
Qed.

Lemma ack_produced (f : Effect -> nat) (lg : LogLevel -> nat) inputs :
  (forall level m, f (LogEffect level m) = lg level) ->
  sum_list_with f (produced (AckDemo.inputProducer inputs))
  = (length inputs * (f (Increment Received) + lg LogLevel.Info) + lg LogLevel.Info)%nat.
Proof.
  intros Hf. unfold AckDemo.inputProducer. rewrite produced_app, sum_list_with_app.
  assert (forall s, sum_list_with f (produced (AckDemo.queue_inputs s inputs))
    = (length inputs * (f (Increment Received) + lg LogLevel.Info))%nat) as ->.
  { induction inputs as [|i inputs IH]; intros s; [done|].
    cbn [AckDemo.queue_inputs]. rewrite produced_app, sum_list_with_app, IH. cbn.
    rewrite Hf. lia. }
  cbn. rewrite Hf. lia.
Qed.

Lemma ack_consumed (f : Effect -> nat) s inputs (v i : nat) :
  (forall r, sum_list_with f (AckDemo.handle r)
             = if isValid (parse (AckDemo.payload r)) then v else i) ->
  sum_list_with f (numbered s inputs ≫= AckDemo.handle)
  = (length (valid_inputs inputs) * v
     + (length inputs - length (valid_inputs inputs)) * i)%nat.
Proof.
  intros Hf. rewrite sum_bind. revert s. induction inputs as [|x inputs IH]; intros s; [done|].
  cbn [numbered sum_list_with]. rewrite IH, Hf. unfold valid_inputs. rewrite filter_cons.
  pose proof (length_filter (fun i => isValid (parse i) = true) inputs). cbn [AckDemo.payload].
  fold (valid_inputs inputs) in *.
  destruct (isValid (parse x)); [rewrite decide_True by done|rewrite decide_False by done];
    cbn [length]; [lia|]. rewrite Nat.sub_succ_l by done. cbn. lia.
Qed.

Lemma ack_wf inputs : wf_program false (AckDemo.inputProducer inputs) = true.
Proof.
  unfold AckDemo.inputProducer. generalize 0.
  induction inputs as [|i inputs IH]; intros s; [done|]. apply (IH (u32 (s + 1))).
Qed.

Lemma handle_sum f lg (r : AckDemo.RawCommand) :
  (forall level m, f (LogEffect level m) = lg level) -> (forall line, f (Print line) = 0%nat) ->
  sum_list_with f (AckDemo.handle r)
  = (if isValid (parse (AckDemo.payload r))
     then f (Increment Accepted) + f (Increment AckCount) + lg LogLevel.Info
     else f (Increment Rejected) + f (Increment AckCount) + lg LogLevel.Warning)%nat.
Proof.
  intros Hlg Hp. unfold AckDemo.handle. destruct (isValid _); cbn; rewrite Hlg, Hp; lia.
Qed.

(** The total of an additive observation of a complete run. *)
Lemma ack_observed (f : Effect -> nat) lg inputs evs p :
  pipe_run evs (initial_pipe (AckDemo.inputProducer inputs)) = Some p -> pipe_done p ->
  (forall level m, f (LogEffect level m) = lg level) -> (forall line, f (Print line) = 0%nat) ->
  sum_list_with f (trace p)
  = (length inputs * (f (Increment Received) + lg LogLevel.Info) + 2 * lg LogLevel.Info
     + length (valid_inputs inputs)
       * (f (Increment Accepted) + f (Increment AckCount) + lg LogLevel.Info)
     + (length inputs - length (valid_inputs inputs))
       * (f (Increment Rejected) + f (Increment AckCount) + lg LogLevel.Warning))%nat.
Proof.
  intros Hr Hd Hlg Hp. destruct (pipe_run_result _ evs p (ack_wf inputs) Hr Hd) as [Hi _].
  rewrite (interleave_sum f _ _ _ Hi), (ack_produced f lg) by done.
  rewrite ack_pushed, sum_list_with_app. cbn [on_item on_exit AckDemo.commandConsumer].
  rewrite (ack_consumed f 0 inputs _ _ (fun r => handle_sum f lg r Hlg Hp)).
  cbn. rewrite Hlg. lia.
Qed.

Lemma handle_print s payload :
  printed_lines (AckDemo.handle (AckDemo.mkRawCommand s (txt "SIMULATED_UART") payload))
  = [response s payload].
Proof.
  unfold AckDemo.handle, response. cbn [AckDemo.payload].
  by destruct (parse payload) eqn:Hp.
Qed.

Lemma length_valid_inputs inputs : (length (valid_inputs inputs) <= length inputs)%nat.
Proof. apply length_filter. Qed.

Lemma numbered_responses inputs :
  Z.of_nat (length inputs) < 2 ^ 31 ->
  printed_lines (numbered 0 inputs ≫= AckDemo.handle)
  = imap (fun i payload => response (Z.of_nat i + 1) payload) inputs.
Proof.
  intros Hlen.
  assert (forall n, Z.of_nat n + Z.of_nat (length inputs) < 2 ^ 31 ->
    printed_lines (numbered (Z.of_nat n) inputs ≫= AckDemo.handle)
    = imap (fun i payload => response (Z.of_nat (n + i) + 1) payload) inputs) as Hgen.
  { clear. induction inputs as [|x inputs IH]; intros n Hn; [done|]. cbn [length] in Hn.
    cbn [numbered]. rewrite u32_id by (unfold UINT32_MAX; lia).
    rewrite bind_cons. unfold printed_lines. rewrite bind_app.
    fold (printed_lines (AckDemo.handle (AckDemo.mkRawCommand (Z.of_nat n + 1)
            (txt "SIMULATED_UART") x))). rewrite handle_print.
    replace (Z.of_nat n + 1) with (Z.of_nat (S n)) by lia.
    fold (printed_lines (numbered (Z.of_nat (S n)) inputs ≫= AckDemo.handle)).
    rewrite IH by lia. cbn [imap app]. f_equal.
    - f_equal. lia.
    - apply imap_ext. intros i y _. cbn. f_equal. lia. }
  apply (Hgen 0%nat). lia.
Qed.

(** The producer prints nothing itself. *)
Lemma ack_silent inputs :
  (produced (AckDemo.inputProducer inputs)
   ≫= fun e => match e with Print line => [line] | _ => [] end) = [].
Proof.
  unfold AckDemo.inputProducer. rewrite produced_app, bind_app, app_nil_r. generalize 0.
  induction inputs as [|i inputs IH]; intros s; [done|]. apply (IH (u32 (s + 1))).
Qed.

(** What a line of some level adds to the count of [level]. *)
Definition logs_level_of (level level' : LogLevel) : nat :=
  logs_level level (LogEffect level' []).

(** C6: the acknowledged gateway accounts for every command: whatever the schedule of the two
    threads, when both have returned every input was received and answered with exactly one
    response, the responses came out in the order of the inputs with their own numbers, ACK
    for the valid ones and ERROR 1001 for the others, the counters are the true totals, and
    the logger has counted two lines for the threads, one for each input queued and one for
    each outcome. *)
Theorem gateway_accounts path inputs evs p :
  Z.of_nat (length inputs) < 2 ^ 31 ->
  pipe_run evs (initial_pipe (AckDemo.inputProducer inputs)) = Some p -> pipe_done p ->
  let n := Z.of_nat (length inputs) in
  let valid := Z.of_nat (length (valid_inputs inputs)) in
  let logger := calls (log_calls (trace p)) (gateway_logger path) in
  AckDemo.stats (trace p) = AckDemo.mkStats n valid (n - valid) n
  /\ printed_lines (trace p) = imap (fun i payload => response (Z.of_nat i + 1) payload) inputs
  /\ getLogCount LogLevel.Info logger = n + valid + 2
  /\ getLogCount LogLevel.Warning logger = n - valid.
Proof.
  intros Hlen Hr Hd n valid logger. pose proof (length_valid_inputs inputs) as Hv. split_and!.
  - rewrite ack_stats.
    rewrite !(ack_observed _ (fun _ => 0%nat) inputs evs p Hr Hd) by done. cbn. f_equal; lia.
  - destruct (pipe_run_result _ evs p (ack_wf inputs) Hr Hd) as [Hi _].
    apply (interleave_bind (fun e => match e with Print line => [line] | _ => [] end)) in Hi.
    fold (printed_lines (trace p)) in Hi. rewrite ack_silent in Hi.
    apply interleave_nil_l in Hi. rewrite <- Hi, bind_app, app_nil_r, ack_pushed.
    by apply numbered_responses.
  - unfold logger. rewrite gateway_log_count.
    rewrite (ack_observed _ (logs_level_of LogLevel.Info) inputs evs p Hr Hd) by done.
    cbn. unfold u64. rewrite Z.mod_small; lia.
  - unfold logger. rewrite gateway_log_count.
    rewrite (ack_observed _ (logs_level_of LogLevel.Warning) inputs evs p Hr Hd) by done.
    cbn. unfold u64. rewrite Z.mod_small; lia.
Qed.

(** The demonstration, on the schedule in which the consumer runs whenever it can. *)
Definition ack_schedule : list PipeEvent :=
  greedy 200 (initial_pipe (AckDemo.inputProducer AckDemo.testInputs)).

Definition ack_end : Pipe AckDemo.RawCommand Effect :=
  default (initial_pipe [])
    (pipe_run ack_schedule (initial_pipe (AckDemo.inputProducer AckDemo.testInputs))).

Lemma gateway_accounts_witness :
  AckDemo.stats (trace ack_end) = AckDemo.mkStats 5 4 1 5.
Proof.
  apply (gateway_accounts (txt "gateway_ack_demo.log") AckDemo.testInputs ack_schedule ack_end).
  - vm_compute. reflexivity.
  - vm_compute. reflexivity.
  - split; vm_compute; reflexivity.
Defined.

(** ** The plain pipeline *)

Lemma pipeline_wf inputs : wf_program false (PipelineDemo.inputProducer inputs) = true.
Proof.
  unfold PipelineDemo.inputProducer. generalize 0.
  induction inputs as [|i inputs IH]; intros s; [done|]. apply (IH (s + 1)).
Qed.

Lemma pipeline_pushed inputs : pushed (PipelineDemo.inputProducer inputs) = inputs.
Proof.
  unfold PipelineDemo.inputProducer. rewrite pushed_app, app_nil_r. generalize 0.
  induction inputs as [|i inputs IH]; intros s; [done|].
  cbn [PipelineDemo.queue_inputs]. by rewrite pushed_app, IH.
Qed.

Lemma pipeline_observed (f : Effect -> nat) lg inputs evs p :
  pipe_run evs (initial_pipe (PipelineDemo.inputProducer inputs)) = Some p -> pipe_done p ->
  (forall level m, f (LogEffect level m) = lg level) ->
  sum_list_with f (trace p)
  = (length inputs * lg LogLevel.Info + 2 * lg LogLevel.Info
     + length (valid_inputs inputs) * (f (Increment Accepted) + lg LogLevel.Info)
     + (length inputs - length (valid_inputs inputs))
       * (f (Increment Rejected) + lg LogLevel.Warning))%nat.
Proof.
  intros Hr Hd Hlg. destruct (pipe_run_result _ evs p (pipeline_wf inputs) Hr Hd) as [Hi _].
  rewrite (interleave_sum f _ _ _ Hi), pipeline_pushed, sum_list_with_app, sum_bind.
  cbn [on_item on_exit PipelineDemo.commandConsumer sum_list_with]. rewrite Hlg.
  assert (sum_list_with f (produced (PipelineDemo.inputProducer inputs))
          = (length inputs * lg LogLevel.Info + lg LogLevel.Info)%nat) as ->.
  { unfold PipelineDemo.inputProducer. rewrite produced_app, sum_list_with_app. cbn. rewrite Hlg.
    f_equal; [|lia]. generalize 0. clear Hi Hr.
    induction inputs as [|i inputs IH]; intros s; [done|]. cbn. rewrite Hlg. f_equal. apply IH. }
  assert (forall l, sum_list_with (fun x => sum_list_with f (PipelineDemo.handle x)) l
    = (length (valid_inputs l) * (f (Increment Accepted) + lg LogLevel.Info)
       + (length l - length (valid_inputs l))
         * (f (Increment Rejected) + lg LogLevel.Warning))%nat) as ->; [|lia].
  clear -Hlg. induction l as [|x l IH]; [done|]. cbn [sum_list_with]. rewrite IH.
  unfold valid_inputs. rewrite filter_cons. fold (valid_inputs l).
  pose proof (length_valid_inputs l). unfold PipelineDemo.handle.
  destruct (isValid (parse x)); cbn [negb sum_list_with]; rewrite Hlg.
  - rewrite decide_True by done. cbn [length]. lia.
  - rewrite decide_False by done. cbn [length]. rewrite Nat.sub_succ_l by done. lia.
Qed.

(** The plain pipeline counts truly: whatever the schedule, when both threads have returned
    the accepted inputs are exactly the ones the parser recognises, the others are rejected,
    and the logger's statistics, which the program prints, are [n + accepted + 2] information
    lines and one warning for each rejected input. *)
Lemma pipeline_counts path inputs evs p :
  Z.of_nat (length inputs) < 2 ^ 31 ->
  pipe_run evs (initial_pipe (PipelineDemo.inputProducer inputs)) = Some p -> pipe_done p ->
  let n := Z.of_nat (length inputs) in
  let valid := Z.of_nat (length (valid_inputs inputs)) in
  let logger := calls (log_calls (trace p)) (gateway_logger path) in
  PipelineDemo.stats (trace p) = PipelineDemo.mkStats valid (n - valid)
  /\ getLogCount LogLevel.Info logger = n + valid + 2
  /\ getLogCount LogLevel.Warning logger = n - valid.
Proof.
  intros Hlen Hr Hd n valid logger. pose proof (length_valid_inputs inputs) as Hv. split_and!.
  - rewrite pipeline_stats.
    rewrite !(pipeline_observed _ (fun _ => 0%nat) inputs evs p Hr Hd) by done. cbn. f_equal; lia.
  - unfold logger. rewrite gateway_log_count.
    rewrite (pipeline_observed _ (logs_level_of LogLevel.Info) inputs evs p Hr Hd) by done.
    cbn. unfold u64. rewrite Z.mod_small; lia.
  - unfold logger. rewrite gateway_log_count.
    rewrite (pipeline_observed _ (logs_level_of LogLevel.Warning) inputs evs p Hr Hd) by done.
    cbn. unfold u64. rewrite Z.mod_small; lia.
Qed.

Definition pipeline_schedule : list PipeEvent :=
  greedy 200 (initial_pipe (PipelineDemo.inputProducer PipelineDemo.testInputs)).

Definition pipeline_end : Pipe text Effect :=
  default (initial_pipe [])
    (pipe_run pipeline_schedule (initial_pipe (PipelineDemo.inputProducer PipelineDemo.testInputs))).

Lemma pipeline_counts_witness :
  getLogCount LogLevel.Info
    (calls (log_calls (trace pipeline_end)) (gateway_logger (txt "gateway_pipeline_demo.log")))
  = 5 + 4 + 2.
Proof.
  apply (pipeline_counts (txt "gateway_pipeline_demo.log") PipelineDemo.testInputs
           pipeline_schedule pipeline_end).
  - vm_compute. reflexivity.
  - vm_compute. reflexivity.
  - split; vm_compute; reflexivity.
Defined.
