(* ===== verification/GatewayTimeout.v ===== *)
(** * The gateway with time-outs

    Models [cpp_modules/gateway_timeout_demo]: [commandSender] sends each valid
    command up to [kMaxRetries + 1] times and waits for its acknowledgement with
    a time-out; [simulatedDevice] takes requests from the queue and, unless the
    acknowledgement is lost, stores it in [ackMap].

    A transition is one critical section with the statements of its thread that
    touch only local data, or one call of the logger, or one printed line, or one
    notification: what a section leaves to log, print and notify is kept in source
    order in [sender_todo] and [device_todo] and performed one by one, so the two
    threads' output and notifications interleave as they can in the program.  A
    [wait] tests its predicate under the mutex and, when it does not hold, falls
    asleep; a sleeping thread moves only when it is notified, when it wakes up
    spuriously, both of which make it test again, or, in [wait_for], when the time
    is up: [EvTimeout], after which the value of the predicate decides.
    [outcomes] and [handled] record what was decided. *)

From Stdlib Require Import Ascii String.
From S2P Require Import Prelude ProtocolParser LogManager GatewayPipeline.

Definition kMaxRetries : Z := 1.

Record PendingRequest := mkPending { sequence : Z; payload : text; attempt : Z }.
Record AckFrame := mkAck { ack_sequence : Z; success : bool; message : text }.
Record RetryStats := mkRetryStats {
  sentFrames : Z; acked : Z; timeouts : Z; retries : Z; failed : Z;
}.

(** Where [commandSender] is: at the head of the loop over the commands, at the
    head of the loop over the attempts, before the test of the predicate of
    [wait_for], asleep in it, after the loops. *)
Inductive SenderPc :=
  | SNext (sequence : Z) (rest : list text)
  | SSend (request : PendingRequest) (rest : list text)
  | SWait (request : PendingRequest) (rest : list text)
  | SAsleep (request : PendingRequest) (rest : list text)
  | SDone.

(** Where [simulatedDevice] is: before the test of the predicate of [wait], asleep
    in it, after [unlock], after the loop. *)
Inductive DevicePc :=
  | DWait
  | DAsleep
  | DReceived (request : PendingRequest)
  | DDone.

(** What a thread still has to do between two of its sections: a line to log or
    print, [txCondition.notify_one] or [notify_all], [ackCondition.notify_all]. *)
Inductive Item := Out (e : Effect) | NotifyTx | NotifyAck.

Record System := mkSystem {
  txQueue : list PendingRequest;
  transmissionFinished : bool;
  ackMap : gmap Z AckFrame;
  stats : RetryStats;
  sender : SenderPc;
  device : DevicePc;
  outcomes : list (Z * bool);         (* sequence, acknowledged; oldest first *)
  handled : list PendingRequest;      (* what the device acknowledged *)
  sender_todo : list Item;            (* what each thread still has to do, in order *)
  device_todo : list Item;
  trace : list Effect;                (* what was logged and printed *)
}.

Definition commands : list text := [txt "OPEN"; txt "GRAB"; txt "STOP"; txt "RELEASE"].

Definition start_system (commands : list text) : System :=
  mkSystem [] false ∅ (mkRetryStats 0 0 0 0 0) (SNext 0 commands) DWait [] [] [] [] [].

(** The simulated loss. *)
Definition ack_lost (request : PendingRequest) : bool :=
  (sequence request =? 3) && (attempt request =? 1).

(** ** The two threads *)

Definition with_sender (pc : SenderPc) (st : RetryStats) (todo : list Item) (s : System) : System :=
  mkSystem (txQueue s) (transmissionFinished s) (ackMap s) st pc (device s)
    (outcomes s) (handled s) todo (device_todo s) (trace s).
Definition with_device (pc : DevicePc) (todo : list Item) (s : System) : System :=
  mkSystem (txQueue s) (transmissionFinished s) (ackMap s) (stats s) (sender s) pc
    (outcomes s) (handled s) (sender_todo s) todo (trace s).
Definition with_queue (q : list PendingRequest) (fin : bool) (s : System) : System :=
  mkSystem q fin (ackMap s) (stats s) (sender s) (device s) (outcomes s) (handled s)
    (sender_todo s) (device_todo s) (trace s).
Definition with_acks (m : gmap Z AckFrame) (s : System) : System :=
  mkSystem (txQueue s) (transmissionFinished s) m (stats s) (sender s) (device s)
    (outcomes s) (handled s) (sender_todo s) (device_todo s) (trace s).
Definition with_outcome (o : Z * bool) (s : System) : System :=
  mkSystem (txQueue s) (transmissionFinished s) (ackMap s) (stats s) (sender s) (device s)
    (outcomes s ++ [o]) (handled s) (sender_todo s) (device_todo s) (trace s).
Definition with_handled (r : PendingRequest) (s : System) : System :=
  mkSystem (txQueue s) (transmissionFinished s) (ackMap s) (stats s) (sender s) (device s)
    (outcomes s) (handled s ++ [r]) (sender_todo s) (device_todo s) (trace s).
Definition with_line (e : Effect) (s : System) : System :=
  mkSystem (txQueue s) (transmissionFinished s) (ackMap s) (stats s) (sender s) (device s)
    (outcomes s) (handled s) (sender_todo s) (device_todo s) (trace s ++ [e]).

(** A notification wakes the one thread that may sleep on the variable, and is
    lost when it does not. *)
Definition woken_device (pc : DevicePc) : DevicePc :=
  match pc with DAsleep => DWait | pc => pc end.
Definition woken_sender (pc : SenderPc) : SenderPc :=
  match pc with SAsleep request rest => SWait request rest | pc => pc end.

Definition perform (i : Item) (s : System) : System :=
  match i with
  | Out e => with_line e s
  | NotifyTx => with_device (woken_device (device s)) (device_todo s) s
  | NotifyAck => with_sender (woken_sender (sender s)) (stats s) (sender_todo s) s
  end.

(** What the threads log and print. *)
Definition sent_effects (request : PendingRequest) : list Effect :=
  [LogEffect LogLevel.Info (txt "Send seq=" ++ to_string (sequence request)
                            ++ txt " attempt=" ++ to_string (attempt request))].
Definition acked_effects (ack : AckFrame) : list Effect :=
  [LogEffect LogLevel.Info (txt "ACK received seq=" ++ to_string (ack_sequence ack));
   Print (txt "[ACK] seq=" ++ to_string (ack_sequence ack) ++ txt " message=" ++ message ack)].
Definition timeout_line (request : PendingRequest) : Effect :=
  Print (txt "[TIMEOUT] seq=" ++ to_string (sequence request)
         ++ txt " attempt=" ++ to_string (attempt request)).
Definition retry_effects (request : PendingRequest) : list Effect :=
  [timeout_line request; Print (txt "[RETRY] seq=" ++ to_string (sequence request))].
Definition failed_effects (request : PendingRequest) : list Effect :=
  [timeout_line request;
   LogEffect LogLevel.Error (txt "Request failed seq=" ++ to_string (sequence request));
   Print (txt "[FAILED] seq=" ++ to_string (sequence request))].
Definition received_effects (request : PendingRequest) : list Effect :=
  [LogEffect LogLevel.Info (txt "Device received seq=" ++ to_string (sequence request)
                            ++ txt "attempt=" ++ to_string (attempt request))].

(** [wait_for] returned true. *)
Definition acknowledged (request : PendingRequest) (rest : list text) (ack : AckFrame) (s : System)
    : System :=
  (* ackMap.erase(sequence); ++stats.acked; break *)
  let st := stats s in
  with_outcome (sequence request, true)
    (with_sender (SNext (sequence request) rest)
       (mkRetryStats (sentFrames st) (i32 (acked st + 1)) (timeouts st) (retries st) (failed st))
       (Out <$> acked_effects ack)
       (with_acks (delete (sequence request) (ackMap s)) s)).

(** [wait_for] returned false. *)
Definition timed_out (request : PendingRequest) (rest : list text) (s : System) : System :=
  let st := stats s in
  let timeouts := i32 (timeouts st + 1) in
  if attempt request <=? kMaxRetries then
    with_sender (SSend (mkPending (sequence request) (payload request) (attempt request + 1)) rest)
      (mkRetryStats (sentFrames st) (acked st) timeouts (i32 (retries st + 1)) (failed st))
      (Out <$> retry_effects request) s
  else
    with_outcome (sequence request, false)
      (with_sender (SNext (sequence request) rest)
         (mkRetryStats (sentFrames st) (acked st) timeouts (retries st) (i32 (failed st + 1)))
         (Out <$> failed_effects request) s).

(** The next section of [commandSender]; [None] while it sleeps in [wait_for]. *)
Definition sender_section (s : System) : option System :=
  let st := stats s in
  match sender s with
  | SNext seq [] =>
      (* transmissionFinished = true *)
      Some (with_sender SDone st
              [NotifyTx; Out (LogEffect LogLevel.Info (txt "Command sender finished"))]
              (with_queue (txQueue s) true s))
  | SNext seq (payload :: rest) =>
      let seq := u32 (seq + 1) in
      let command := parse payload in
      if negb (isValid command) then Some (with_sender (SNext seq rest) st [] s)
      else Some (with_sender (SSend (mkPending seq payload 1) rest) st [] s)
  | SSend request rest =>
      (* txQueue.push(request); ++stats.sentFrames *)
      Some (with_sender (SWait request rest)
              (mkRetryStats (i32 (sentFrames st + 1)) (acked st) (timeouts st) (retries st) (failed st))
              ((Out <$> sent_effects request) ++ [NotifyTx])
              (with_queue (txQueue s ++ [request]) (transmissionFinished s) s))
  | SWait request rest =>
      match ackMap s !! sequence request with
      | Some ack => Some (acknowledged request rest ack s)
      | None => Some (with_sender (SAsleep request rest) st [] s)
      end
  | SAsleep _ _ | SDone => None
  end.

Definition sender_step (s : System) : option System :=
  match sender_todo s with
  | i :: todo => Some (perform i (with_sender (sender s) (stats s) todo s))
  | [] => sender_section s
  end.

(** The time of [wait_for] is up. *)
Definition timeout_step (s : System) : option System :=
  match sender_todo s, sender s with
  | [], SAsleep request rest =>
      match ackMap s !! sequence request with
      | Some ack => Some (acknowledged request rest ack s)
      | None => Some (timed_out request rest s)
      end
  | _, _ => None
  end.

(** Wake-ups without a notification. *)
Definition sender_spurious (s : System) : option System :=
  match sender s with
  | SAsleep request rest => Some (with_sender (SWait request rest) (stats s) (sender_todo s) s)
  | _ => None
  end.
Definition device_spurious (s : System) : option System :=
  match device s with
  | DAsleep => Some (with_device DWait (device_todo s) s)
  | _ => None
  end.

(** The next section of [simulatedDevice]; [None] while it sleeps in [wait]. *)
Definition device_section (s : System) : option System :=
  match device s with
  | DWait =>
      match txQueue s with
      | [] =>
          if transmissionFinished s
          then Some (with_device DDone
                       [Out (LogEffect LogLevel.Info (txt "Simulated device finished"))] s)
          else Some (with_device DAsleep [] s)
      | request :: queue =>
          Some (with_device (DReceived request) (Out <$> received_effects request)
                  (with_queue queue (transmissionFinished s) s))
      end
  | DReceived request =>
      if ack_lost request then
        Some (with_device DWait
                [Out (LogEffect LogLevel.Warning (txt "Simulated ACK loss for seq=3"))] s)
      else
        let ack := mkAck (sequence request) true (txt "OK") in
        Some (with_device DWait [NotifyAck]
                (with_handled request (with_acks (<[ack_sequence ack := ack]> (ackMap s)) s)))
  | DAsleep | DDone => None
  end.

Definition device_step (s : System) : option System :=
  match device_todo s with
  | i :: todo => Some (perform i (with_device (device s) todo s))
  | [] => device_section s
  end.

(** What [main] prints at the end. *)
Definition result_lines (st : RetryStats) : list text :=
  [txt "[RESULT] sent_frames=" ++ to_string (sentFrames st);
   txt "[RESULT] acked=" ++ to_string (acked st);
   txt "[RESULT] timeouts=" ++ to_string (timeouts st);
   txt "[RESULT] retries=" ++ to_string (retries st);
   txt "[RESULT] failed=" ++ to_string (failed st)].

Inductive SysEvent := EvSender | EvTimeout | EvDevice | EvSenderSpurious | EvDeviceSpurious.

Definition spurious (e : SysEvent) : bool :=
  match e with EvSenderSpurious | EvDeviceSpurious => true | _ => false end.

Definition sys_step (e : SysEvent) (s : System) : option System :=
  match e with
  | EvSender => sender_step s
  | EvTimeout => timeout_step s
  | EvDevice => device_step s
  | EvSenderSpurious => sender_spurious s
  | EvDeviceSpurious => device_spurious s
  end.

Fixpoint sys_run (es : list SysEvent) (s : System) : option System :=
  match es with
  | [] => Some s
  | e :: es' => match sys_step e s with Some s' => sys_run es' s' | None => None end
  end.

Definition sys_done (s : System) : Prop :=
  sender s = SDone /\ device s = DDone /\ sender_todo s = [] /\ device_todo s = [].

(** The intended run: both threads sleep whenever they wait, and the device answers
    each frame in time, except the lost one. *)
Definition prompt : list SysEvent :=
  EvDevice :: replicate 5 EvSender ++ replicate 4 EvDevice ++ replicate 3 EvSender.
Definition intended : list SysEvent :=
  prompt ++ prompt
  ++ EvDevice :: replicate 5 EvSender ++ replicate 5 EvDevice
  ++ [EvTimeout] ++ replicate 6 EvSender ++ replicate 4 EvDevice ++ replicate 3 EvSender
  ++ prompt ++ EvDevice :: replicate 3 EvSender ++ replicate 2 EvDevice.

Example intended_result :
  result_lines <$> (stats <$> sys_run intended (start_system commands))
  = Some [txt "[RESULT] sent_frames=5"; txt "[RESULT] acked=4"; txt "[RESULT] timeouts=1";
          txt "[RESULT] retries=1"; txt "[RESULT] failed=0"].
Proof. vm_compute. reflexivity. Qed.

(** ** The invariant *)

(** The numbers the valid commands of a list get. *)
Fixpoint valid_seqs (seq : Z) (rest : list text) : list Z :=
  match rest with
  | [] => []
  | payload :: rest' =>
      let seq := u32 (seq + 1) in
      if isValid (parse payload) then seq :: valid_seqs seq rest' else valid_seqs seq rest'
  end.

(** The commands that have no outcome yet. *)
Definition open_seqs (pc : SenderPc) : list Z :=
  match pc with
  | SNext seq rest => valid_seqs seq rest
  | SSend request rest | SWait request rest | SAsleep request rest =>
      sequence request :: valid_seqs (sequence request) rest
  | SDone => []
  end.

(** How many attempts the current command has behind it, and frames in flight. *)
Definition retried (pc : SenderPc) : Z :=
  match pc with SSend request _ | SWait request _ | SAsleep request _ => attempt request - 1 | _ => 0 end.
Definition in_flight (pc : SenderPc) : Z := match pc with SWait _ _ | SAsleep _ _ => 1 | _ => 0 end.

Definition count_outcome (b : bool) (os : list (Z * bool)) : Z :=
  Z.of_nat (length (filter (fun o => o.2 = b) os)).

Lemma count_outcome_snoc b os o :
  count_outcome b (os ++ [o]) = count_outcome b os + (if Bool.eqb o.2 b then 1 else 0).
Proof.
  unfold count_outcome. rewrite filter_app, length_app, filter_cons, filter_nil.
  destruct o as [k []], b; cbn [snd]; case_decide; try done; simpl; lia.
Qed.

Lemma count_outcome_total os :
  count_outcome true os + count_outcome false os = Z.of_nat (length os).
Proof.
  unfold count_outcome. induction os as [|[k []] os IH]; [done|..];
    rewrite !filter_cons; cbn [snd]; repeat case_decide; try done; cbn [length]; lia.
Qed.

(** The lines of a level the threads have logged or owe. *)
Definition lines_of (level : LogLevel) (es : list Effect) : Z :=
  Z.of_nat (sum_list_with (logs_level level) es).
Definition outs (todo : list Item) : list Effect :=
  omap (fun i => match i with Out e => Some e | _ => None end) todo.
Definition logged (level : LogLevel) (s : System) : Z :=
  lines_of level (trace s) + lines_of level (outs (sender_todo s)) + lines_of level (outs (device_todo s)).

Lemma lines_of_cons level e es :
  lines_of level (e :: es) = Z.of_nat (logs_level level e) + lines_of level es.
Proof. unfold lines_of. cbn. lia. Qed.

Lemma lines_of_snoc level es e :
  lines_of level (es ++ [e]) = lines_of level es + Z.of_nat (logs_level level e).
Proof. unfold lines_of. rewrite sum_list_with_app. cbn. lia. Qed.

Record sys_inv (cmds : list text) (s : System) : Prop := {
  sy_seqs : (outcomes s).*1 ++ open_seqs (sender s) = valid_seqs 0 cmds;
  sy_acked : acked (stats s) = count_outcome true (outcomes s);
  sy_failed : failed (stats s) = count_outcome false (outcomes s);
  sy_sent : sentFrames (stats s)
            = acked (stats s) + failed (stats s) + retries (stats s) + in_flight (sender s);
  sy_timeouts : timeouts (stats s) = retries (stats s) + failed (stats s);
  sy_retries : failed (stats s) + retried (sender s) <= retries (stats s)
               <= acked (stats s) + failed (stats s) + retried (sender s);
  sy_attempt : 0 <= retried (sender s) <= kMaxRetries;
  sy_map : forall k a, ackMap s !! k = Some a -> k ∈ sequence <$> handled s;
  sy_sound : forall k, (k, true) ∈ outcomes s -> k ∈ sequence <$> handled s;
  sy_finished : transmissionFinished s = true <-> sender s = SDone;
  sy_device : device s = DDone -> sender s = SDone /\ txQueue s = [];
  sy_info : logged LogLevel.Info s
            = 2 * sentFrames (stats s) - Z.of_nat (length (txQueue s)) + acked (stats s)
              + (match sender s with SDone => 1 | _ => 0 end)
              + (match device s with DDone => 1 | _ => 0 end);
  sy_warning : logged LogLevel.Warning s
               = sentFrames (stats s) - Z.of_nat (length (txQueue s))
                 - Z.of_nat (length (handled s))
                 - (match device s with DReceived _ => 1 | _ => 0 end);
  sy_error : logged LogLevel.Error s = failed (stats s);
  sy_device_asleep : device s = DAsleep ->
    (txQueue s = [] /\ transmissionFinished s = false) \/ NotifyTx ∈ sender_todo s;
  sy_sender_asleep : forall request rest, sender s = SAsleep request rest ->
    ackMap s !! sequence request = None \/ NotifyAck ∈ device_todo s;
}.

Lemma start_inv cmds : sys_inv cmds (start_system cmds).
Proof. by split; cbn; try (unfold kMaxRetries; lia); try set_solver. Qed.

Lemma valid_seqs_length seq rest : (length (valid_seqs seq rest) <= length rest)%nat.
Proof.
  revert seq. induction rest as [|payload rest IH]; intros seq; cbn; [done|].
  specialize (IH (u32 (seq + 1))). destruct (isValid _); cbn; lia.
Qed.

(** The counters do not overflow. *)
Lemma stats_small cmds s :
  sys_inv cmds s -> Z.of_nat (length cmds) < 536870912 ->
  let st := stats s in
  0 <= sentFrames st < 2147483647 /\ 0 <= acked st < 2147483647 /\ 0 <= timeouts st < 2147483647
  /\ 0 <= retries st < 2147483647 /\ 0 <= failed st < 2147483647.
Proof.
  intros [Hseqs Ha Hf Hs Ht Hr Hat _ _ _ _ _ _ _ _ _] Hn st. subst st.
  pose proof (valid_seqs_length 0 cmds) as Hl.
  apply (f_equal length) in Hseqs. rewrite length_app, length_fmap in Hseqs.
  pose proof (count_outcome_total (outcomes s)) as Htot.
  assert (0 <= count_outcome true (outcomes s)) by (unfold count_outcome; lia).
  assert (0 <= count_outcome false (outcomes s)) by (unfold count_outcome; lia).
  assert (0 <= in_flight (sender s) <= 1) by (unfold in_flight; destruct (sender s); lia).
  unfold kMaxRetries in Hat. lia.
Qed.

(** *** An item changes nothing but who has it, and who sleeps *)

Lemma lines_of_outs level e todo :
  lines_of level (outs (Out e :: todo)) = Z.of_nat (logs_level level e) + lines_of level (outs todo).
Proof. apply lines_of_cons. Qed.

Lemma sender_item_inv cmds s i todo :
  sys_inv cmds s -> sender_todo s = i :: todo ->
  sys_inv cmds (perform i (with_sender (sender s) (stats s) todo s)).
Proof.
  intros [Hseqs Ha Hf Hs Ht Hr Hat Hm Hsd Hfin Hd Hi Hw He Hda Hsa] Htodo.
  unfold logged in *. rewrite Htodo in *.
  destruct i as [e| |]; [|destruct (device s) eqn:Hpc|destruct (sender s) eqn:Hpc];
    split; try done; unfold logged; cbn -[outs lines_of Z.mul]; rewrite ?Hpc;
    rewrite ?lines_of_snoc, ?lines_of_outs in *; try lia; try done;
    first [ intros Hx; destruct (Hda Hx) as [|[|]%elem_of_cons]; by auto
          | by split; [intros Hx%Hfin|]
          | intros Hx; by destruct (Hd Hx) ].
Qed.

Lemma device_item_inv cmds s i todo :
  sys_inv cmds s -> device_todo s = i :: todo ->
  sys_inv cmds (perform i (with_device (device s) todo s)).
Proof.
  intros [Hseqs Ha Hf Hs Ht Hr Hat Hm Hsd Hfin Hd Hi Hw He Hda Hsa] Htodo.
  unfold logged in *. rewrite Htodo in *.
  destruct i as [e| |]; [|destruct (device s) eqn:Hpc|destruct (sender s) eqn:Hpc];
    split; try done; unfold logged; cbn -[outs lines_of Z.mul]; rewrite ?Hpc;
    rewrite ?lines_of_snoc, ?lines_of_outs in *; try lia; try done;
    first [ intros rq rest Hx; destruct (Hsa rq rest Hx) as [|[|]%elem_of_cons]; by auto
          | by split; [intros Hx%Hfin|]
          | intros Hx; by destruct (Hd Hx) ].
Qed.

(** *** The sections *)

(** Closes the parts of the invariant a transition of a running sender keeps. *)
Ltac keep_inv Hfin Hd Hda :=
  unfold logged, outs, lines_of in *; cbn -[Z.mul i32] in *;
  rewrite ?i32_id by lia;
  rewrite ?count_outcome_snoc, ?length_app; cbn -[Z.mul];
  unfold kMaxRetries in *;
  try done; try lia;
  try (by split; [intros Hx%Hfin|]);
  try (intros Hx; by destruct (Hd Hx));
  try (intros Hx; destruct (Hda Hx) as [|[]%elem_of_nil]; by left).

Lemma acknowledged_inv cmds s request rest ack :
  sys_inv cmds s -> Z.of_nat (length cmds) < 536870912 -> sender_todo s = [] ->
  sender s = SWait request rest \/ sender s = SAsleep request rest ->
  ackMap s !! sequence request = Some ack -> sys_inv cmds (acknowledged request rest ack s).
Proof.
  intros Hinv Hn Htodo Hpc Hack. pose proof (stats_small cmds s Hinv Hn) as (? & ? & ? & ? & ?).
  destruct Hinv as [Hseqs Ha Hf Hs Ht Hr Hat Hm Hsd Hfin Hd Hi Hw He Hda Hsa].
  unfold logged, acknowledged in *. rewrite Htodo in *.
  destruct Hpc as [Hpc|Hpc]; rewrite Hpc in *;
    (split; keep_inv Hfin Hd Hda;
     [ by rewrite fmap_app, <- app_assoc
     | intros k a [_ Hk]%lookup_delete_Some; by eapply Hm
     | intros k [Hk|Hk]%elem_of_app;
       [by apply Hsd|apply list_elem_of_singleton in Hk as [= ->]; by eapply Hm] ]).
Qed.

Lemma timed_out_inv cmds s request rest :
  sys_inv cmds s -> Z.of_nat (length cmds) < 536870912 -> sender_todo s = [] ->
  sender s = SAsleep request rest -> sys_inv cmds (timed_out request rest s).
Proof.
  intros Hinv Hn Htodo Hpc. pose proof (stats_small cmds s Hinv Hn) as (? & ? & ? & ? & ?).
  destruct Hinv as [Hseqs Ha Hf Hs Ht Hr Hat Hm Hsd Hfin Hd Hi Hw He Hda Hsa].
  unfold logged, timed_out in *. rewrite Htodo, Hpc in *.
  destruct (Z.leb_spec (attempt request) kMaxRetries); split; keep_inv Hfin Hd Hda.
  - by rewrite fmap_app, <- app_assoc.
  - intros k [Hk|Hk]%elem_of_app; [by apply Hsd|]. by apply list_elem_of_singleton in Hk.
Qed.

Lemma sender_section_inv cmds s s' :
  sys_inv cmds s -> Z.of_nat (length cmds) < 536870912 -> sender_todo s = [] ->
  sender_section s = Some s' -> sys_inv cmds s'.
Proof.
  intros Hinv Hn Htodo Hstep. pose proof (stats_small cmds s Hinv Hn) as (? & ? & ? & ? & ?).
  pose proof Hinv as [Hseqs Ha Hf Hs Ht Hr Hat Hm Hsd Hfin Hd Hi Hw He Hda Hsa].
  unfold logged, sender_section in *. rewrite Htodo in *.
  destruct (sender s) as [seq [|payload rest]|request rest|request rest|request rest|] eqn:Hpc; try done.
  - injection Hstep as <-. split; keep_inv Hfin Hd Hda. intros _. right. apply list_elem_of_here.
  - cbn [open_seqs valid_seqs] in Hseqs.
    destruct (isValid (parse payload)) eqn:Hv; cbn [negb] in Hstep; injection Hstep as <-;
      split; keep_inv Hfin Hd Hda.
  - injection Hstep as <-. split; keep_inv Hfin Hd Hda. intros _. right. right. apply list_elem_of_here.
  - destruct (ackMap s !! sequence request) as [ack|] eqn:Hack; injection Hstep as <-.
    + apply acknowledged_inv; auto.
    + split; keep_inv Hfin Hd Hda. intros ? ? [= <- <-]. by left.
Qed.

Lemma device_section_inv cmds s s' :
  sys_inv cmds s -> device_todo s = [] -> device_section s = Some s' -> sys_inv cmds s'.
Proof.
  intros [Hseqs Ha Hf Hs Ht Hr Hat Hm Hsd Hfin Hd Hi Hw He Hda Hsa] Htodo Hstep.
  unfold logged, device_section in *. rewrite Htodo in *.
  assert (forall (todo : list Item) request rest, sender s = SAsleep request rest ->
            ackMap s !! sequence request = None \/ NotifyAck ∈ todo) as Hsa'.
  { intros todo request rest Hx. destruct (Hsa request rest Hx) as [|[]%elem_of_nil]. by left. }
  destruct (device s) as [| |request|] eqn:Hpc; try done.
  - destruct (txQueue s) as [|request queue] eqn:Hq.
    + destruct (transmissionFinished s) eqn:Hx; injection Hstep as <-;
        (split; unfold logged, outs, lines_of in *; cbn -[Z.mul] in *; rewrite ?Hq, ?Hx in *; cbn -[Z.mul] in *;
         try done; try lia; auto).
      * intros _. split; [by apply Hfin|done].
      * by apply Hsa'.
    + injection Hstep as <-. split; unfold logged, outs, lines_of in *; cbn -[Z.mul] in *; try done; try lia.
      by apply Hsa'.
  - destruct (ack_lost request); injection Hstep as <-;
      (split; unfold logged, outs, lines_of in *; cbn -[Z.mul] in *; rewrite ?length_app; cbn -[Z.mul];
       try done; try lia).
    + by apply Hsa'.
    + intros k a. rewrite fmap_app, elem_of_app.
      destruct (decide (k = sequence request)) as [->|Hne].
      * intros _. right. apply list_elem_of_here.
      * rewrite lookup_insert_ne by done. left. by eapply Hm.
    + intros k Hk. rewrite fmap_app, elem_of_app. left. by apply Hsd.
    + intros. right. apply list_elem_of_here.
Qed.

Lemma spurious_inv cmds s s' :
  sys_inv cmds s -> sender_spurious s = Some s' \/ device_spurious s = Some s' -> sys_inv cmds s'.
Proof.
  intros [Hseqs Ha Hf Hs Ht Hr Hat Hm Hsd Hfin Hd Hi Hw He Hda Hsa] [Hstep|Hstep].
  - unfold sender_spurious in Hstep. destruct (sender s) eqn:Hpc; try done. injection Hstep as <-.
    unfold logged in *. split; cbn -[Z.mul] in *; try done.
    + by split; [intros Hx%Hfin|].
    + intros Hx. by destruct (Hd Hx).
  - unfold device_spurious in Hstep. destruct (device s) eqn:Hpc; try done. injection Hstep as <-.
    unfold logged in *. by split; cbn -[Z.mul] in *.
Qed.

Lemma sys_step_inv cmds e s s' :
  sys_inv cmds s -> Z.of_nat (length cmds) < 536870912 -> sys_step e s = Some s' -> sys_inv cmds s'.
Proof.
  intros Hinv Hn Hstep. destruct e; cbn in Hstep.
  - unfold sender_step in Hstep. destruct (sender_todo s) eqn:Htodo; [by eapply sender_section_inv|].
    injection Hstep as <-. by apply sender_item_inv.
  - unfold timeout_step in Hstep. destruct (sender_todo s) eqn:Htodo; [|done].
    destruct (sender s) as [| | |request rest|] eqn:Hpc; try done.
    destruct (ackMap s !! sequence request) eqn:Hack; injection Hstep as <-;
      [by apply acknowledged_inv; auto|by apply timed_out_inv].
  - unfold device_step in Hstep. destruct (device_todo s) eqn:Htodo; [by eapply device_section_inv|].
    injection Hstep as <-. by apply device_item_inv.
  - apply (spurious_inv cmds s); auto.
  - apply (spurious_inv cmds s); auto.
Qed.

Lemma sys_run_inv cmds es s s' :
  sys_inv cmds s -> Z.of_nat (length cmds) < 536870912 -> sys_run es s = Some s' -> sys_inv cmds s'.
Proof.
  intros Hs Hn. revert s Hs. induction es as [|e es IH]; cbn; intros s Hs Hr; [by simplify_eq|].
  destruct (sys_step e s) as [s1|] eqn:He; [|done]. eapply IH; [|done]. by eapply sys_step_inv.
Qed.

(** ** Termination *)

Definition sender_left (pc : SenderPc) : Z :=
  match pc with
  | SNext _ rest => 5 + 32 * Z.of_nat (length rest)
  | SSend request rest =>
      (if attempt request <=? kMaxRetries then 36 else 21) + 32 * Z.of_nat (length rest)
  | SWait request rest =>
      (if attempt request <=? kMaxRetries then 25 else 10) + 32 * Z.of_nat (length rest)
  | SAsleep request rest =>
      (if attempt request <=? kMaxRetries then 24 else 9) + 32 * Z.of_nat (length rest)
  | SDone => 0
  end.

Definition device_left (pc : DevicePc) : Z :=
  match pc with DWait => 2 | DAsleep => 1 | DReceived _ => 6 | DDone => 0 end.

(** A notification may make a thread test its predicate again. *)
Definition item_left (i : Item) : Z := match i with Out _ => 1 | NotifyTx | NotifyAck => 3 end.
Fixpoint items_left (todo : list Item) : Z :=
  match todo with [] => 0 | i :: todo' => item_left i + items_left todo' end.

Definition steps_left (s : System) : Z :=
  sender_left (sender s) + 6 * Z.of_nat (length (txQueue s)) + device_left (device s)
  + items_left (sender_todo s) + items_left (device_todo s).

Lemma items_left_nonneg todo : 0 <= items_left todo.
Proof. induction todo as [|[]]; cbn; lia. Qed.

Lemma steps_left_nonneg s : 0 <= steps_left s.
Proof.
  unfold steps_left. pose proof (items_left_nonneg (sender_todo s)).
  pose proof (items_left_nonneg (device_todo s)).
  destruct (sender s) as [| | | |], (device s); cbn -[Z.mul]; repeat case_match; lia.
Qed.

Lemma perform_left i s : steps_left (perform i s) < steps_left s + item_left i.
Proof.
  unfold steps_left. destruct i as [e| |]; cbn -[Z.mul]; [lia|destruct (device s)|destruct (sender s)];
    cbn -[Z.mul]; repeat case_match; lia.
Qed.

Lemma acknowledged_left request rest ack s :
  sender_todo s = [] -> sender s = SWait request rest \/ sender s = SAsleep request rest ->
  steps_left (acknowledged request rest ack s) < steps_left s.
Proof.
  unfold steps_left. intros -> [-> | ->]; cbn -[Z.mul]; destruct (_ <=? _); lia.
Qed.

Lemma sender_section_left s s' :
  sender_todo s = [] -> sender_section s = Some s' -> steps_left s' < steps_left s.
Proof.
  intros Htodo Hstep. unfold sender_section in Hstep.
  destruct (sender s) as [seq [|payload rest]|request rest|request rest|request rest|] eqn:Hpc; try done.
  - injection Hstep as <-. unfold steps_left. rewrite Htodo, Hpc. cbn -[Z.mul]. lia.
  - destruct (negb _); injection Hstep as <-; unfold steps_left; rewrite Htodo, Hpc;
      cbn [with_sender sender txQueue device sender_todo device_todo items_left];
      unfold sender_left; cbn [attempt length];
      rewrite ?(proj2 (Z.leb_le 1 kMaxRetries)) by (unfold kMaxRetries; lia); lia.
  - injection Hstep as <-. unfold steps_left. rewrite Htodo, Hpc. cbn -[Z.mul].
    rewrite length_app. cbn -[Z.mul]. destruct (_ <=? _); lia.
  - destruct (ackMap s !! sequence request); injection Hstep as <-.
    + apply acknowledged_left; auto.
    + unfold steps_left. rewrite Htodo, Hpc. cbn -[Z.mul]. destruct (_ <=? _); lia.
Qed.

Lemma timeout_left s s' :
  0 <= retried (sender s) <= kMaxRetries -> timeout_step s = Some s' -> steps_left s' < steps_left s.
Proof.
  unfold timeout_step. intros Hat Hstep. destruct (sender_todo s) eqn:Htodo; [|done].
  destruct (sender s) as [| | |request rest|] eqn:Hpc; try done.
  destruct (ackMap s !! sequence request); injection Hstep as <-; [apply acknowledged_left; auto|].
  unfold steps_left, timed_out. rewrite Htodo, Hpc.
  destruct (Z.leb_spec (attempt request) kMaxRetries) as [Hle|]; cbn -[Z.mul i32]; cbn in Hat.
  - rewrite (proj2 (Z.leb_gt (attempt request + 1) kMaxRetries)) by (unfold kMaxRetries in *; lia).
    rewrite (proj2 (Z.leb_le (attempt request) kMaxRetries)) by done. lia.
  - destruct (_ <=? _); lia.
Qed.

Lemma device_section_left s s' :
  device_todo s = [] -> device_section s = Some s' -> steps_left s' < steps_left s.
Proof.
  unfold steps_left, device_section. intros -> Hstep. destruct (device s) as [| |request|]; try done.
  - destruct (txQueue s) as [|request queue] eqn:Hq.
    + destruct (transmissionFinished s); injection Hstep as <-; cbn -[Z.mul];
        rewrite Hq; cbn -[Z.mul]; lia.
    + injection Hstep as <-. cbn -[Z.mul]. lia.
  - destruct (ack_lost request); injection Hstep as <-; cbn -[Z.mul]; lia.
Qed.

(** A step that is no spurious wake-up brings the end nearer; a spurious one puts
    it off by one test. *)
Lemma sys_steps_left_step cmds e s s' :
  sys_inv cmds s -> sys_step e s = Some s' ->
  steps_left s' <= steps_left s + (if spurious e then 1 else -1).
Proof.
  intros Hinv Hstep. destruct e; cbn [sys_step] in Hstep; cbn [spurious].
  - unfold sender_step in Hstep. destruct (sender_todo s) as [|i todo] eqn:Ht;
      [apply sender_section_left in Hstep; [lia|done]|]. injection Hstep as <-.
    pose proof (perform_left i (with_sender (sender s) (stats s) todo s)) as Hp.
    assert (steps_left s = steps_left (with_sender (sender s) (stats s) todo s) + item_left i) as Heq
      by (unfold steps_left; rewrite Ht; cbn -[Z.mul]; lia).
    lia.
  - apply timeout_left in Hstep; [lia|apply Hinv].
  - unfold device_step in Hstep. destruct (device_todo s) as [|i todo] eqn:Ht;
      [apply device_section_left in Hstep; [lia|done]|]. injection Hstep as <-.
    pose proof (perform_left i (with_device (device s) todo s)) as Hp.
    assert (steps_left s = steps_left (with_device (device s) todo s) + item_left i) as Heq
      by (unfold steps_left; rewrite Ht; cbn -[Z.mul]; lia).
    lia.
  - unfold sender_spurious in Hstep. destruct (sender s) eqn:Hs; try done. injection Hstep as <-.
    unfold steps_left. rewrite Hs. cbn -[Z.mul]. destruct (_ <=? _); lia.
  - unfold device_spurious in Hstep. destruct (device s) eqn:Hs; try done. injection Hstep as <-.
    unfold steps_left. rewrite Hs. cbn -[Z.mul]. lia.
Qed.

Definition spurious_wakes (es : list SysEvent) : nat := length (filter (fun e => spurious e = true) es).

Lemma sys_steps_left_run cmds es s s' :
  sys_inv cmds s -> Z.of_nat (length cmds) < 536870912 -> sys_run es s = Some s' ->
  Z.of_nat (length es) <= steps_left s - steps_left s' + 2 * Z.of_nat (spurious_wakes es).
Proof.
  intros Hs Hn. revert s Hs. induction es as [|e es IH]; cbn [sys_run length]; intros s Hs Hr;
    [simplify_eq; unfold spurious_wakes; cbn; lia|].
  destruct (sys_step e s) as [s1|] eqn:He; [|done].
  pose proof (sys_steps_left_step cmds e s s1 Hs He) as Hle.
  specialize (IH s1 (sys_step_inv cmds e s s1 Hs Hn He) Hr).
  unfold spurious_wakes in *. rewrite filter_cons. destruct (spurious e); case_decide; try done; cbn [length]; lia.
Qed.

(** Some thread can always go on without a spurious wake-up until both have
    returned. *)
Lemma sys_progress cmds s :
  sys_inv cmds s -> sys_done s \/ exists e, spurious e = false /\ is_Some (sys_step e s).
Proof.
  intros Hinv. pose proof (sy_finished _ _ Hinv) as Hfin. pose proof (sy_device_asleep _ _ Hinv) as Hda.
  unfold sys_done.
  destruct (sender_todo s) as [|i todo] eqn:Hst;
    [|right; exists EvSender; split; [done|]; cbn; unfold sender_step; rewrite Hst; eauto].
  destruct (device_todo s) as [|i todo] eqn:Hdt;
    [|right; exists EvDevice; split; [done|]; cbn; unfold device_step; rewrite Hdt; eauto].
  destruct (sender s) as [seq [|payload rest]|request rest|request rest|request rest|] eqn:Hs.
  1-4: right; exists EvSender; split; [done|]; cbn; unfold sender_step, sender_section; rewrite Hst, Hs;
       repeat case_match; eauto.
  - right. exists EvTimeout. split; [done|]. cbn. unfold timeout_step. rewrite Hst, Hs. case_match; eauto.
  - assert (transmissionFinished s = true) as Hf by by apply Hfin.
    destruct (device s) as [| |request|] eqn:Hd.
    + right. exists EvDevice. split; [done|]. cbn. unfold device_step, device_section. rewrite Hdt, Hd, Hf.
      case_match; eauto.
    + destruct (Hda eq_refl) as [[_ Hf']|[]%elem_of_nil]. congruence.
    + right. exists EvDevice. split; [done|]. cbn. unfold device_step, device_section. rewrite Hdt, Hd.
      case_match; eauto.
    + by left.
Qed.

(** What the logger has counted. *)
Lemma done_log_count cmds s path level :
  sys_inv cmds s -> sys_done s ->
  getLogCount level (calls (log_calls (trace s)) (gateway_logger path)) = u64 (logged level s).
Proof.
  intros _ (_ & _ & Hst & Hdt). rewrite gateway_log_count. unfold logged, lines_of.
  rewrite Hst, Hdt. cbn. by rewrite !Z.add_0_r.
Qed.

(** ** Property *)

(** C8: the time-out gateway decides every command and accounts for every frame, if there are fewer
    than [2^29] commands, so that its [int] counters do not overflow: whatever the schedule and the
    time-outs, a run has at most [32 n + 7] steps, and two more for each spurious wake-up; no
    wake-up is lost: a thread sleeps although its predicate holds only while the notification for
    it is still to come, so the run never gets stuck and needs no spurious wake-up; and when both
    threads have returned each valid command was decided exactly once, in order, acknowledged or
    failed; every acknowledged one was really handled by the device; each took one frame and at
    most one retry, every time-out led to a retry or a failure, and no command failed without
    having been retried; and the logger has counted an information line for each frame sent, each
    frame received and each acknowledgement, besides the two closing lines, a warning for each
    frame the device left unacknowledged and an error for each failure. *)
Theorem timeout_gateway_accounts cmds es s path :
  Z.of_nat (length cmds) < 536870912 ->
  sys_run es (start_system cmds) = Some s ->
  let st := stats s in
  let logger := calls (log_calls (trace s)) (gateway_logger path) in
  Z.of_nat (length es) <= 32 * Z.of_nat (length cmds) + 7 + 2 * Z.of_nat (spurious_wakes es)
  /\ (device s = DAsleep ->
      (txQueue s = [] /\ transmissionFinished s = false) \/ NotifyTx ∈ sender_todo s)
  /\ (forall request rest, sender s = SAsleep request rest ->
      ackMap s !! sequence request = None \/ NotifyAck ∈ device_todo s)
  /\ (sys_done s \/ exists e, spurious e = false /\ is_Some (sys_step e s))
  /\ (sys_done s ->
      (outcomes s).*1 = valid_seqs 0 cmds
      /\ acked st + failed st = Z.of_nat (length (valid_seqs 0 cmds))
      /\ (forall k, (k, true) ∈ outcomes s -> k ∈ sequence <$> handled s)
      /\ sentFrames st = acked st + failed st + retries st
      /\ timeouts st = retries st + failed st
      /\ failed st <= retries st <= acked st + failed st
      /\ getLogCount LogLevel.Info logger = u64 (2 * sentFrames st + acked st + 2)
      /\ getLogCount LogLevel.Warning logger
         = u64 (sentFrames st - Z.of_nat (length (handled s)))
      /\ getLogCount LogLevel.Error logger = u64 (failed st)).
Proof.
  intros Hn Hr st logger. pose proof (sys_run_inv cmds es _ s (start_inv cmds) Hn Hr) as Hinv.
  pose proof (sys_steps_left_run cmds es _ s (start_inv cmds) Hn Hr) as Hlen.
  pose proof (steps_left_nonneg s). split; [|split; [|split; [|split]]].
  - unfold steps_left at 1 in Hlen. cbn -[Z.mul] in Hlen. lia.
  - by apply (sy_device_asleep _ _ Hinv).
  - by apply (sy_sender_asleep _ _ Hinv).
  - by eapply sys_progress.
  - intros Hdone. subst logger. rewrite !(done_log_count cmds s path) by done.
    destruct Hinv as [Hseqs Ha Hf Hsent Ht Hret _ _ Hsd _ Hdev Hi Hw He _ _].
    destruct Hdone as (Hs & Hd & _). destruct (Hdev Hd) as [_ Hq]. rewrite Hi, Hw, He.
    rewrite Hs, Hd, Hq in *. cbn -[Z.mul] in *. rewrite app_nil_r in Hseqs. subst st.
    split_and!; try done; try lia; try (f_equal; lia).
    by rewrite Ha, Hf, <- Hseqs, length_fmap, count_outcome_total.
Qed.

Lemma timeout_gateway_accounts_witness :
  exists s, sys_run intended (start_system commands) = Some s
            /\ acked (stats s) + failed (stats s) = 4.
Proof.
  destruct (sys_run intended (start_system commands)) as [s|] eqn:Hr; [|vm_compute in Hr; discriminate Hr].
  exists s. split; [reflexivity|].
  destruct (timeout_gateway_accounts commands intended s (txt "gateway_timeout_demo.log") eq_refl Hr)
    as (_ & _ & _ & _ & Hdone).
  apply Hdone. vm_compute in Hr. injection Hr as <-. repeat split; reflexivity.
Defined.
