(* ===== verification/AtomicHandoff.v ===== *)
(** * Handing samples over with atomics

    Models [cpp_modules/thread_demo]: a collecting thread publishes samples in
    [latestSample] and raises [sampleReady]; a processing thread takes the flag
    down with [exchange] and then loads the sample.  Every access to an atomic
    variable is one step (the accesses are sequentially consistent); sleeping
    and printing have no other effect than the list [printed]. *)

From S2P Require Import Prelude.

Definition kTotalSamples : Z := 5.

(** Where [collectTask] is. *)
Inductive CollectPc :=
  | CSpin (index : Z)       (* at [while (sampleReady.load())] *)
  | CStore (index : Z)      (* at [latestSample.store(20 + index)] *)
  | CRaise (index : Z)      (* at [sampleReady.store(true)] *)
  | CFinish                 (* at [collectionFinished.store(true)] *)
  | CDone.

(** Where [processTask] is. *)
Inductive ProcessPc :=
  | PTestFinished           (* at [collectionFinished.load()] *)
  | PTestReady              (* at [sampleReady.load()] *)
  | PExchange               (* at [sampleReady.exchange(false)] *)
  | PLoad                   (* at [latestSample.load()] *)
  | PDone.

Record Shared := mkShared {
  latestSample : Z;
  collectionFinished : bool;
  sampleReady : bool;
  collect : CollectPc;
  process : ProcessPc;
  printed : list Z;         (* the samples processed; [processedCount] is the length *)
}.

Definition start_handoff : Shared := mkShared 0 false false (CSpin 1) PTestFinished [].

(** The head of the [for] loop for the next index. *)
Definition next_index (index : Z) : CollectPc :=
  if index + 1 <=? kTotalSamples then CSpin (index + 1) else CFinish.

Definition collect_step (s : Shared) : option Shared :=
  let set pc :=
    mkShared (latestSample s) (collectionFinished s) (sampleReady s) pc (process s) (printed s) in
  match collect s with
  | CSpin index => Some (set (if sampleReady s then CSpin index else CStore index))
  | CStore index =>
      Some (mkShared (20 + index) (collectionFinished s) (sampleReady s) (CRaise index)
              (process s) (printed s))
  | CRaise index =>
      Some (mkShared (latestSample s) (collectionFinished s) true (next_index index)
              (process s) (printed s))
  | CFinish =>
      Some (mkShared (latestSample s) true (sampleReady s) CDone (process s) (printed s))
  | CDone => None
  end.

Definition process_step (s : Shared) : option Shared :=
  let set pc :=
    mkShared (latestSample s) (collectionFinished s) (sampleReady s) (collect s) pc (printed s) in
  match process s with
  | PTestFinished => Some (set (if collectionFinished s then PTestReady else PExchange))
  | PTestReady => Some (set (if sampleReady s then PExchange else PDone))
  | PExchange =>
      Some (mkShared (latestSample s) (collectionFinished s) false (collect s)
              (if sampleReady s then PLoad else PTestFinished) (printed s))
  | PLoad =>
      Some (mkShared (latestSample s) (collectionFinished s) (sampleReady s) (collect s)
              PTestFinished (printed s ++ [latestSample s]))
  | PDone => None
  end.

Inductive Thread := Collector | Processor.

Definition handoff_step (t : Thread) (s : Shared) : option Shared :=
  match t with Collector => collect_step s | Processor => process_step s end.

Fixpoint handoff_run (ts : list Thread) (s : Shared) : option Shared :=
  match ts with
  | [] => Some s
  | t :: ts' => match handoff_step t s with Some s' => handoff_run ts' s' | None => None end
  end.

(** ** The invariant *)

(** How many samples were announced by [sampleReady.store(true)], and how many
    announcements were taken. *)
Definition announced (pc : CollectPc) : Z :=
  match pc with CSpin i | CStore i | CRaise i => i - 1 | CFinish | CDone => kTotalSamples end.

Definition taken (s : Shared) : Z :=
  Z.of_nat (length (printed s)) + match process s with PLoad => 1 | _ => 0 end.

(** The value the sample variable must have. *)
Definition published (pc : CollectPc) : Z :=
  match pc with CSpin i | CStore i => i - 1 | CRaise i => i | CFinish | CDone => kTotalSamples end.

Definition index_ok (pc : CollectPc) : Prop :=
  match pc with CSpin i | CStore i | CRaise i => 1 <= i <= kTotalSamples | _ => True end.

Definition flag_down (pc : CollectPc) : Prop :=
  match pc with CStore _ | CRaise _ => True | _ => False end.

Record handoff_inv (s : Shared) : Prop := {
  ho_index : index_ok (collect s);
  ho_ready : announced (collect s) = taken s + (if sampleReady s then 1 else 0);
  ho_down : flag_down (collect s) -> sampleReady s = false;
  ho_latest : 1 <= published (collect s) -> latestSample s = 20 + published (collect s);
  ho_finished : collectionFinished s = true <-> collect s = CDone;
  ho_tested : process s = PTestReady \/ process s = PDone -> collectionFinished s = true;
  ho_over : process s = PDone -> sampleReady s = false;
  ho_printed : forall i x, printed s !! i = Some x ->
                 (x = 20 + (Z.of_nat i + 1) \/ x = 20 + (Z.of_nat i + 2))
                 /\ x <= 20 + kTotalSamples;
}.

Lemma start_handoff_inv : handoff_inv start_handoff.
Proof.
  split; cbn; unfold kTotalSamples; try done; try lia.
  - by intros [|].
Qed.

(** Closes what a step leaves as it was, or what arithmetic decides. *)
Ltac handoff_done :=
  cbn in *; unfold taken, kTotalSamples in *; cbn in *;
  try done; try lia; try (by auto); try (by intuition congruence); try (by intuition lia).

Lemma collect_inv s s' : handoff_inv s -> collect_step s = Some s' -> handoff_inv s'.
Proof.
  intros [Hi Hr Hd Hl Hf Ht Ho Hp] Hs. unfold collect_step in Hs.
  destruct (collect s) as [i|i|i| |] eqn:Hc; try done; injection Hs as <-.
  - destruct (sampleReady s) eqn:Hrd; split; rewrite ?Hrd; handoff_done.
  - split; handoff_done.
  - rewrite Hd in Hr by done. unfold next_index.
    destruct (Z.leb_spec (i + 1) kTotalSamples); split; handoff_done.
  - split; handoff_done.
Qed.

Lemma process_inv s s' : handoff_inv s -> process_step s = Some s' -> handoff_inv s'.
Proof.
  intros [Hi Hr Hd Hl Hf Ht Ho Hp] Hs. unfold process_step in Hs. unfold taken in Hr.
  destruct (process s) eqn:Hpc; try done; injection Hs as <-.
  - destruct (collectionFinished s) eqn:Hfin; split; handoff_done.
  - destruct (sampleReady s) eqn:Hrd; split; handoff_done.
  - destruct (sampleReady s) eqn:Hrd; split; handoff_done.
  - split; handoff_done.
    + rewrite length_app. cbn. lia.
    + intros j x [Hj|[Hj Hx]]%lookup_app_Some; [by apply Hp|].
      apply list_lookup_singleton_Some in Hx as [Hj0 <-].
      assert (j = length (printed s)) as -> by lia.
      unfold kTotalSamples in *.
      destruct (collect s), (sampleReady s); cbn in *;
        unfold kTotalSamples in *; try (by specialize (Hd I)); rewrite Hl; lia.
Qed.

Lemma handoff_run_inv ts s s' : handoff_inv s -> handoff_run ts s = Some s' -> handoff_inv s'.
Proof.
  revert s. induction ts as [|t ts IH]; cbn; intros s Hs Hr; [by simplify_eq|].
  destruct (handoff_step t s) as [s1|] eqn:Ht; [|done]. eapply IH; [|done].
  destruct t; [by eapply collect_inv|by eapply process_inv].
Qed.

(** The two threads in turn, [n] steps of the one and [m] of the other. *)
Definition turns_of (n m : nat) : list Thread := replicate n Collector ++ replicate m Processor.

(** The processing thread counts every announcement exactly once: in every interleaving in
    which it finishes, it has processed five samples, the i-th being the i-th collected one or
    its successor, and the last being the last one. *)
Lemma handoff_counts_all ts s :
  handoff_run ts start_handoff = Some s -> process s = PDone ->
  Z.of_nat (length (printed s)) = kTotalSamples
  /\ (forall i x, printed s !! i = Some x ->
        x = 20 + (Z.of_nat i + 1) \/ x = 20 + (Z.of_nat i + 2))
  /\ printed s !! 4%nat = Some 25.
Proof.
  intros Hr Hdone.
  destruct (handoff_run_inv ts _ s start_handoff_inv Hr) as [_ Hready _ _ Hf Ht Ho Hp].
  assert (collect s = CDone) as Hc by (apply Hf, Ht; auto).
  rewrite Hc, (Ho Hdone) in Hready. unfold taken in Hready. rewrite Hdone in Hready. cbn in Hready.
  split_and!.
  - lia.
  - intros i x [Hx _]%Hp. done.
  - unfold kTotalSamples in *. destruct (printed s !! 4%nat) as [x|] eqn:Hx.
    + apply Hp in Hx. f_equal. lia.
    + apply lookup_ge_None in Hx. lia.
Qed.

(** The collector overtakes the processor between [exchange] and [load] once. *)
Definition overtaking : list Thread :=
  turns_of 3 2 ++ turns_of 3 1
  ++ turns_of 0 3 ++ (turns_of 3 3 ++ turns_of 3 3 ++ turns_of 3 3) ++ turns_of 1 2.

(** The hand-over is not exact: there is an interleaving in which the first sample is never
    processed and the second one is processed twice, because the flag is lowered before the
    sample is loaded; the total is still five. *)
Lemma handoff_loses_sample :
  exists ts s, handoff_run ts start_handoff = Some s /\ process s = PDone
               /\ printed s = [22; 22; 23; 24; 25].
Proof.
  exists overtaking. eexists. split; [vm_compute; reflexivity|]. split; reflexivity.
Qed.

Lemma handoff_counts_all_witness :
  exists s, handoff_run overtaking start_handoff = Some s
            /\ Z.of_nat (length (printed s)) = kTotalSamples.
Proof.
  destruct (handoff_run overtaking start_handoff) as [s|] eqn:Hr;
    [|vm_compute in Hr; discriminate Hr].
  exists s. split; [reflexivity|].
  apply (handoff_counts_all overtaking s Hr). vm_compute in Hr. by injection Hr as <-.
Defined.
