(* ===== verification/RawResources.v ===== *)
(** * Owners of raw resources

    Models the two hand-written owners of the repository: [ScopedFd] of
    [practice/day02/scoped_fd.cpp], which owns a file descriptor and can be
    moved, and [Buffer] of [cpp_modules/move_semantics_demo], which owns a heap
    block and can be copied and moved.

    A program is a sequence of member calls on named objects.  [close] of a
    descriptor that is not open and [delete[]] or a read of memory that is not
    allocated have no result ([None]): the theorems say that this never happens
    and that nothing is leaked.  Both follow from one ownership discipline,
    [owned_exactly]: the live objects hold pairwise different resources, and
    those are all the resources there are. *)

From stdpp Require Import fin_map_dom.
From S2P Require Import Prelude.

(** ** The discipline *)

Abbreviation name := string (only parsing).

Section ownership.
Implicit Types (owner : gmap name (option Z)) (held : gset Z).

Definition owned_exactly owner held : Prop :=
  (forall x h, owner !! x = Some (Some h) -> h ∈ held)
  /\ (forall x y h, owner !! x = Some (Some h) -> owner !! y = Some (Some h) -> x = y)
  /\ (forall h, h ∈ held -> exists x, owner !! x = Some (Some h)).

(** [x] is not a live object, or one that holds nothing. *)
Definition vacant x owner : Prop := forall h, owner !! x <> Some (Some h).

Lemma own_empty : owned_exactly ∅ ∅.
Proof. split_and!; intros; (set_solver || by rewrite lookup_empty in *). Qed.

Lemma own_null x owner held :
  vacant x owner -> owned_exactly owner held -> owned_exactly (<[x := None]> owner) held.
Proof.
  intros Hx (H1 & H2 & H3). split_and!.
  - intros y h [[_ ?]|[_ Hy]]%lookup_insert_Some; [done|by eapply H1].
  - intros y z h [[_ ?]|[_ Hy]]%lookup_insert_Some [[_ ?]|[_ Hz]]%lookup_insert_Some; try done.
    by eapply H2.
  - intros h Hh. destruct (H3 h Hh) as [y Hy]. exists y. apply lookup_insert_Some. right.
    split; [|done]. intros ->. by destruct (Hx h).
Qed.

Lemma own_acquire x a owner held :
  vacant x owner -> a ∉ held -> owned_exactly owner held ->
  owned_exactly (<[x := Some a]> owner) ({[a]} ∪ held).
Proof.
  intros Hx Ha (H1 & H2 & H3). split_and!.
  - intros y h [[_ [= ->]]|[_ Hy]]%lookup_insert_Some; [set_solver|]. apply H1 in Hy. set_solver.
  - intros y z h [[<- Hya]|[Hny Hy]]%lookup_insert_Some [[<- Hza]|[Hnz Hz]]%lookup_insert_Some.
    + done.
    + injection Hya as <-. by apply H1 in Hz.
    + injection Hza as <-. by apply H1 in Hy.
    + by eapply H2.
  - intros h [->%elem_of_singleton|Hh]%elem_of_union.
    + exists x. apply lookup_insert_eq.
    + destruct (H3 h Hh) as [y Hy]. exists y. apply lookup_insert_Some. right.
      split; [|done]. intros ->. by destruct (Hx h).
Qed.

Lemma own_release x a owner held :
  owner !! x = Some (Some a) -> owned_exactly owner held ->
  a ∈ held /\ owned_exactly (<[x := None]> owner) (held ∖ {[a]}).
Proof.
  intros Hx (H1 & H2 & H3). split; [by eapply H1|]. split_and!.
  - intros y h [[_ ?]|[Hne Hy]]%lookup_insert_Some; [done|].
    apply elem_of_difference. split; [by eapply H1|]. intros ->%elem_of_singleton.
    apply Hne. by eapply H2.
  - intros y z h [[_ ?]|[_ Hy]]%lookup_insert_Some [[_ ?]|[_ Hz]]%lookup_insert_Some; try done.
    by eapply H2.
  - intros h [Hh Hne]%elem_of_difference. destruct (H3 h Hh) as [y Hy]. exists y.
    apply lookup_insert_Some. right. split; [|done]. intros ->. rewrite Hx in Hy.
    injection Hy as ->. set_solver.
Qed.

Lemma own_transfer x y a owner held :
  x <> y -> vacant x owner -> owner !! y = Some (Some a) -> owned_exactly owner held ->
  owned_exactly (<[y := None]> (<[x := Some a]> owner)) held.
Proof.
  intros Hxy Hx Hy Hown. destruct (own_release y a owner held Hy Hown) as [Ha Hrel].
  rewrite insert_insert_ne by done.
  replace held with ({[a]} ∪ held ∖ {[a]})
    by (rewrite <- union_difference_L by set_solver; done).
  apply own_acquire; [|set_solver|done].
  intros h [[_ ?]|[_ Hh]]%lookup_insert_Some; [done|]. by destruct (Hx h).
Qed.

(** [x], which holds nothing, takes over what [y] holds, if anything. *)
Lemma own_take x y p owner held :
  x <> y -> vacant x owner -> owner !! y = Some p -> owned_exactly owner held ->
  owned_exactly (<[y := None]> (<[x := p]> owner)) held.
Proof.
  intros Hxy Hx Hy Ho. destruct p as [a|].
  - by apply own_transfer.
  - apply own_null; [|by apply own_null]. intros h. rewrite lookup_insert_ne, Hy; congruence.
Qed.

Lemma own_drop x owner held :
  vacant x owner -> owned_exactly owner held -> owned_exactly (delete x owner) held.
Proof.
  intros Hx (H1 & H2 & H3). split_and!.
  - intros y h [_ Hy]%lookup_delete_Some. by eapply H1.
  - intros y z h [_ Hy]%lookup_delete_Some [_ Hz]%lookup_delete_Some. by eapply H2.
  - intros h Hh. destruct (H3 h Hh) as [y Hy]. exists y. apply lookup_delete_Some.
    split; [|done]. intros ->. by destruct (Hx h).
Qed.

Lemma own_nothing held : owned_exactly ∅ held -> held = ∅.
Proof.
  intros (_ & _ & H3). apply set_eq. intros h. split; [|set_solver]. intros Hh.
  destruct (H3 h Hh) as [x Hx]. by rewrite lookup_empty in Hx.
Qed.
End ownership.

(** ** [ScopedFd] *)

Module ScopedFd.
Record Fds := mkFds { open_fds : gset Z; fd_ : gmap name Z }.

(** [None]: the descriptor is not open, so the call would fail or, worse, close
    one that was reused. *)
Definition close (fd : Z) (s : gset Z) : option (gset Z) :=
  if decide (fd ∈ s) then Some (s ∖ {[fd]}) else None.

Inductive Call :=
  | Construct (x : name) (fd : Z)   (* [int fd = open(...); ScopedFd x(fd);] *)
  | Destroy (x : name)
  | MoveConstruct (x y : name)      (* [ScopedFd x(std::move(y));] *)
  | MoveAssign (x y : name).        (* [x = std::move(y);] *)

Definition get (x : name) (s : Fds) : Z := default (-1) (fd_ s !! x).

Definition step (c : Call) (s : Fds) : option Fds :=
  match c with
  | Construct x fd =>
      let opened := if 0 <=? fd then {[fd]} ∪ open_fds s else open_fds s in
      Some (mkFds opened (<[x := fd]> (fd_ s)))
  | Destroy x =>
      if 0 <=? get x s then
        match close (get x s) (open_fds s) with
        | None => None
        | Some opened => Some (mkFds opened (delete x (fd_ s)))
        end
      else Some (mkFds (open_fds s) (delete x (fd_ s)))
  | MoveConstruct x y =>
      Some (mkFds (open_fds s) (<[y := -1]> (<[x := get y s]> (fd_ s))))
  | MoveAssign x y =>
      if decide (x = y) then Some s
      else if 0 <=? get x s then
        match close (get x s) (open_fds s) with
        | None => None
        | Some opened => Some (mkFds opened (<[y := -1]> (<[x := get y s]> (fd_ s))))
        end
      else Some (mkFds (open_fds s) (<[y := -1]> (<[x := get y s]> (fd_ s))))
  end.

(** The program is well formed: a new object gets a new name, the others live,
    and [open] returns a descriptor that is not open. *)
Definition scoped (c : Call) (s : Fds) : Prop :=
  match c with
  | Construct x fd => fd_ s !! x = None /\ fd ∉ open_fds s
  | Destroy x => is_Some (fd_ s !! x)
  | MoveConstruct x y => fd_ s !! x = None /\ is_Some (fd_ s !! y)
  | MoveAssign x y => is_Some (fd_ s !! x) /\ is_Some (fd_ s !! y)
  end.

#[export] Instance scoped_dec c s : Decision (scoped c s).
Proof. destruct c; apply _. Defined.

(** The result of a program whose calls are all well formed when they run:
    [None] is a bad [close]. *)
Fixpoint run (cs : list Call) (s : Fds) : option Fds :=
  match cs with
  | [] => Some s
  | c :: cs' => match step c s with Some s' => run cs' s' | None => None end
  end.

Fixpoint well_scoped (cs : list Call) (s : Fds) : Prop :=
  match cs with
  | [] => True
  | c :: cs' =>
      scoped c s /\ match step c s with Some s' => well_scoped cs' s' | None => True end
  end.

(** What an object holds. *)
Definition handle (fd : Z) : option Z := if 0 <=? fd then Some fd else None.

Definition owner (s : Fds) : gmap name (option Z) := handle <$> fd_ s.

Definition ok (s : Fds) : Prop := owned_exactly (owner s) (open_fds s).

Lemma owner_get x s : owner s !! x = handle <$> fd_ s !! x.
Proof. apply lookup_fmap. Qed.

Lemma vacant_get x s : handle (get x s) = None -> vacant x (owner s).
Proof.
  unfold get, vacant. intros Hh h. rewrite owner_get. destruct (fd_ s !! x); cbn in *; congruence.
Qed.

Lemma get_owner x s : is_Some (fd_ s !! x) -> owner s !! x = Some (handle (get x s)).
Proof. intros [fd Hx]. unfold get. by rewrite owner_get, Hx. Qed.

Lemma close_ok x s :
  ok s -> is_Some (fd_ s !! x) -> 0 <= get x s ->
  close (get x s) (open_fds s) = Some (open_fds s ∖ {[get x s]})
  /\ owned_exactly (<[x := None]> (owner s)) (open_fds s ∖ {[get x s]}).
Proof.
  intros Hok Hx Hge. apply get_owner in Hx. unfold handle in Hx.
  rewrite (proj2 (Z.leb_le _ _) Hge) in Hx.
  destruct (own_release x _ _ _ Hx Hok) as [Hin Hrel]. split; [|done].
  unfold close. by rewrite decide_True.
Qed.

Lemma step_ok c s : ok s -> scoped c s -> exists s', step c s = Some s' /\ ok s'.
Proof.
  intros Hok Hsc. destruct c as [x fd|x|x y|x y]; cbn in *.
  - destruct Hsc as [Hx Hfd]. eexists. split; [done|]. unfold ok, owner. cbn.
    rewrite fmap_insert. unfold handle at 1.
    assert (vacant x (owner s)) by (intros h; rewrite owner_get, Hx; done).
    destruct (0 <=? fd); [by apply own_acquire|by apply own_null].
  - unfold ok, owner.
    destruct (Z.leb_spec 0 (get x s)) as [Hge|Hlt].
    + destruct (close_ok x s Hok Hsc Hge) as [-> Hrel]. eexists. split; [done|]. cbn.
      rewrite fmap_delete. rewrite <- (delete_insert_eq (handle <$> fd_ s) x None).
      apply own_drop; [|done]. intros h. by rewrite lookup_insert_eq.
    + eexists. split; [done|]. cbn. rewrite fmap_delete. apply own_drop; [|done].
      apply vacant_get. unfold handle. by rewrite (proj2 (Z.leb_gt _ _) Hlt).
  - destruct Hsc as [Hx Hy]. eexists. split; [done|]. unfold ok, owner. cbn.
    rewrite !fmap_insert. apply own_take; [| |by apply get_owner|done].
    + intros ->. rewrite Hx in Hy. by destruct Hy.
    + intros h. by rewrite lookup_fmap, Hx.
  - destruct Hsc as [Hx Hy]. destruct (decide (x = y)) as [|Hne]; [by exists s|].
    unfold ok, owner. destruct (Z.leb_spec 0 (get x s)) as [Hge|Hlt].
    + destruct (close_ok x s Hok Hx Hge) as [-> Hrel]. eexists. split; [done|]. cbn.
      rewrite !fmap_insert. rewrite <- (insert_insert_eq (handle <$> fd_ s) x _ None).
      apply own_take; [done| | |done].
      * intros h. by rewrite lookup_insert_eq.
      * rewrite lookup_insert_ne by done. by apply get_owner.
    + eexists. split; [done|]. cbn. rewrite !fmap_insert.
      apply own_take; [done| |by apply get_owner|done].
      apply vacant_get. unfold handle. by rewrite (proj2 (Z.leb_gt _ _) Hlt).
Qed.

Lemma run_ok cs s : ok s -> well_scoped cs s -> exists s', run cs s = Some s' /\ ok s'.
Proof.
  revert s. induction cs as [|c cs IH]; intros s Hok; cbn; [by exists s|].
  intros [Hsc Hrest]. destruct (step_ok c s Hok Hsc) as (s' & Hs & Hok').
  rewrite Hs in *. by apply IH.
Qed.

Lemma ok_empty : ok (mkFds ∅ ∅).
Proof. unfold ok, owner. cbn. rewrite fmap_empty. apply own_empty. Qed.

(** No descriptor is closed twice or by two owners, the descriptor [get] returns
    is open, and none stays open without an owner. *)
Lemma descriptors_safe cs :
  well_scoped cs (mkFds ∅ ∅) ->
  exists s, run cs (mkFds ∅ ∅) = Some s
    /\ (forall x, is_Some (fd_ s !! x) -> 0 <= get x s -> get x s ∈ open_fds s)
    /\ (fd_ s = ∅ -> open_fds s = ∅).
Proof.
  intros Hws. destruct (run_ok cs _ ok_empty Hws) as (s & Hrun & Hok). exists s. split_and!.
  - done.
  - intros x Hx Hge. destruct (close_ok x s Hok Hx Hge) as [Hcl _]. unfold close in Hcl.
    by destruct (decide (get x s ∈ open_fds s)).
  - intros He. unfold ok, owner in Hok. rewrite He, fmap_empty in Hok. by apply own_nothing.
Qed.
End ScopedFd.

(** ** [Buffer] *)

Module Buffer.
Record Object := mkObject { size_ : nat; data_ : option Z }.   (* [None] is [nullptr] *)

Record Memory := mkMemory { heap : gmap Z (list Z); objects : gmap name Object }.

Inductive Call :=
  | Construct (x : name) (size : nat) (a : Z) (junk : list Z)   (* [Buffer x(size);] *)
  | Destroy (x : name)
  | CopyConstruct (x y : name) (a : Z)                          (* [Buffer x = y;] *)
  | CopyAssign (x y : name) (a : Z)                             (* [x = y;] *)
  | MoveConstruct (x y : name)
  | MoveAssign (x y : name).

Definition object (x : name) (m : Memory) : Object := default (mkObject 0 None) (objects m !! x).

(** [delete[] p]: nothing for a null pointer, undefined for memory that is not
    allocated. *)
Definition delete_array (p : option Z) (h : gmap Z (list Z)) : option (gmap Z (list Z)) :=
  match p with
  | None => Some h
  | Some a => match h !! a with Some _ => Some (delete a h) | None => None end
  end.

(** [std::copy(p, p + n, ...)]: the [n] integers read, undefined outside the
    block. *)
Definition read_array (p : option Z) (n : nat) (h : gmap Z (list Z)) : option (list Z) :=
  match p with
  | None => None
  | Some a =>
      match h !! a with
      | Some block => if (n <=? length block)%nat then Some (take n block) else None
      | None => None
      end
  end.

(** [new int[n]] for [n > 0] at the address [a] of the allocator, filled with
    [contents]; [nullptr] for 0. *)
Definition new_array (n : nat) (a : Z) (contents : list Z) (h : gmap Z (list Z))
    : option Z * gmap Z (list Z) :=
  if (0 <? n)%nat then (Some a, <[a := contents]> h) else (None, h).

(** The contents of a copy: read only when there is something to read. *)
Definition copied (o : Object) (h : gmap Z (list Z)) : option (list Z) :=
  if (0 <? size_ o)%nat then read_array (data_ o) (size_ o) h else Some [].

Definition step (c : Call) (m : Memory) : option Memory :=
  match c with
  | Construct x size a junk =>
      let '(p, h) := new_array size a (take size junk) (heap m) in
      Some (mkMemory h (<[x := mkObject size p]> (objects m)))
  | Destroy x =>
      match delete_array (data_ (object x m)) (heap m) with
      | None => None
      | Some h => Some (mkMemory h (delete x (objects m)))
      end
  | CopyConstruct x y a =>
      let other := object y m in
      match copied other (heap m) with
      | None => None
      | Some contents =>
          let '(p, h) := new_array (size_ other) a contents (heap m) in
          Some (mkMemory h (<[x := mkObject (size_ other) p]> (objects m)))
      end
  | CopyAssign x y a =>
      if decide (x = y) then Some m
      else
        let other := object y m in
        match copied other (heap m) with
        | None => None
        | Some contents =>
            let '(p, h) := new_array (size_ other) a contents (heap m) in
            match delete_array (data_ (object x m)) h with
            | None => None
            | Some h => Some (mkMemory h (<[x := mkObject (size_ other) p]> (objects m)))
            end
        end
  | MoveConstruct x y =>
      let other := object y m in
      Some (mkMemory (heap m)
              (<[y := mkObject 0 None]> (<[x := mkObject (size_ other) (data_ other)]> (objects m))))
  | MoveAssign x y =>
      if decide (x = y) then Some m
      else
        let other := object y m in
        match delete_array (data_ (object x m)) (heap m) with
        | None => None
        | Some h =>
            Some (mkMemory h
                    (<[y := mkObject 0 None]>
                       (<[x := mkObject (size_ other) (data_ other)]> (objects m))))
        end
  end.

(** New objects get new names, the others live, and the allocator returns an
    address where nothing is allocated, with a block of the size asked for. *)
Definition scoped (c : Call) (m : Memory) : Prop :=
  match c with
  | Construct x size a junk =>
      objects m !! x = None /\ heap m !! a = None /\ (size <= length junk)%nat
  | Destroy x => is_Some (objects m !! x)
  | CopyConstruct x y a => objects m !! x = None /\ is_Some (objects m !! y) /\ heap m !! a = None
  | CopyAssign x y a =>
      is_Some (objects m !! x) /\ is_Some (objects m !! y) /\ heap m !! a = None
  | MoveConstruct x y => objects m !! x = None /\ is_Some (objects m !! y)
  | MoveAssign x y => is_Some (objects m !! x) /\ is_Some (objects m !! y)
  end.

#[export] Instance scoped_dec c m : Decision (scoped c m).
Proof. destruct c; apply _. Defined.

Fixpoint run (cs : list Call) (m : Memory) : option Memory :=
  match cs with
  | [] => Some m
  | c :: cs' => match step c m with Some m' => run cs' m' | None => None end
  end.

Fixpoint well_scoped (cs : list Call) (m : Memory) : Prop :=
  match cs with
  | [] => True
  | c :: cs' =>
      scoped c m /\ match step c m with Some m' => well_scoped cs' m' | None => True end
  end.

#[export] Instance well_scoped_dec cs m : Decision (well_scoped cs m).
Proof.
  revert m. induction cs as [|c cs IH]; intros m; cbn; [apply _|].
  apply and_dec; [apply _|]. destruct (step c m); apply _.
Defined.

Definition owner (m : Memory) : gmap name (option Z) := data_ <$> objects m.

(** The block of an object has its size, and only an empty object has none. *)
Definition sized (o : Object) (h : gmap Z (list Z)) : Prop :=
  match data_ o with
  | None => size_ o = 0%nat
  | Some a => exists block, h !! a = Some block /\ length block = size_ o /\ (0 < size_ o)%nat
  end.

Record ok (m : Memory) : Prop := {
  ok_owned : owned_exactly (owner m) (dom (heap m));
  ok_sized : map_Forall (fun _ o => sized o (heap m)) (objects m);
}.

(** The integers an object holds. *)
Definition contents (x : name) (m : Memory) : list Z :=
  match data_ (object x m) with Some a => default [] (heap m !! a) | None => [] end.

Lemma object_eq x o m : objects m !! x = Some o -> object x m = o.
Proof. intros H. unfold object. by rewrite H. Qed.

Lemma owner_object x m :
  is_Some (objects m !! x) -> owner m !! x = Some (data_ (object x m)).
Proof. intros [o Ho]. rewrite (object_eq x o m Ho). unfold owner. by rewrite lookup_fmap, Ho. Qed.

Lemma vacant_new x m : objects m !! x = None -> vacant x (owner m).
Proof. intros Hx h. unfold owner. by rewrite lookup_fmap, Hx. Qed.

Lemma copied_ok o h :
  sized o h -> exists c, copied o h = Some c /\ length c = size_ o.
Proof.
  unfold sized, copied. destruct (data_ o) as [a|]; [|intros ->; by exists []].
  intros (block & Hb & Hlen & Hpos). rewrite (proj2 (Nat.ltb_lt _ _) Hpos). cbn. rewrite Hb.
  rewrite (proj2 (Nat.leb_le _ _)) by lia. eexists. split; [done|]. rewrite length_take. lia.
Qed.

(** Allocating for [x]. *)
Lemma new_array_ok x n a c h o (objs : gmap name Object) :
  vacant x o -> h !! a = None -> length c = n ->
  owned_exactly o (dom h) -> map_Forall (fun _ ob => sized ob h) objs ->
  let '(p, h') := new_array n a c h in
  owned_exactly (<[x := p]> o) (dom h')
  /\ map_Forall (fun _ ob => sized ob h') (<[x := mkObject n p]> objs).
Proof.
  intros Hx Ha Hc Ho Hs. unfold new_array. destruct (Nat.ltb_spec 0 n) as [Hpos|Hz].
  - split.
    + rewrite dom_insert_L. apply own_acquire; [done|by apply not_elem_of_dom|done].
    + apply map_Forall_insert_2.
      * exists c. cbn. by rewrite lookup_insert_eq.
      * eapply map_Forall_impl; [exact Hs|]. intros ? ob. unfold sized.
        destruct (data_ ob) as [b|]; [|done]. intros (block & Hb & Hlen). exists block.
        rewrite lookup_insert_ne by congruence. done.
  - split; [by apply own_null|]. apply map_Forall_insert_2; [cbn; lia|done].
Qed.

(** Freeing what [x] holds. *)
Lemma delete_array_ok x m :
  ok m -> is_Some (objects m !! x) ->
  exists h, delete_array (data_ (object x m)) (heap m) = Some h
    /\ owned_exactly (<[x := None]> (owner m)) (dom h)
    /\ (forall a, heap m !! a = None -> h !! a = None)
    /\ map_Forall (fun _ ob => sized ob h) (delete x (objects m)).
Proof.
  intros [Ho Hs] Hx. apply owner_object in Hx as Hown. unfold delete_array.
  destruct (data_ (object x m)) as [a|].
  - destruct (own_release x a _ _ Hown Ho) as [Hin Hrel].
    apply elem_of_dom in Hin as [block Hb]. rewrite Hb. eexists. split; [done|]. split_and!.
    + by rewrite dom_delete_L.
    + intros b Hn. by rewrite lookup_delete_None; right.
    + intros y ob [Hne Hy]%lookup_delete_Some. pose proof (Hs y ob Hy) as Hsz. unfold sized in *.
      destruct (data_ ob) as [b|] eqn:Hd; [|done]. destruct Hsz as (blk & Hblk & Hlen).
      exists blk. rewrite lookup_delete_ne; [done|]. intros ->.
      destruct Ho as (_ & Hinj & _). apply Hne. eapply Hinj; [done|].
      unfold owner. by rewrite lookup_fmap, Hy; cbn; rewrite Hd.
  - eexists. split; [done|]. split_and!; [|done|by apply map_Forall_delete].
    apply own_null; [|done]. intros h. by rewrite Hown.
Qed.

Lemma insert_delete_objects (P : name -> Object -> Prop) x o (objs : gmap name Object) :
  P x o -> map_Forall P (delete x objs) -> map_Forall P (<[x := o]> objs).
Proof.
  intros Hx Hd. rewrite <- insert_delete_eq. by apply map_Forall_insert_2.
Qed.

(** [x] takes over the block of [y]. *)
Lemma take_block x y m o h :
  x <> y -> vacant x o -> o !! y = Some (data_ (object y m)) ->
  (forall z, z <> x -> z <> y -> o !! z = owner m !! z) ->
  owned_exactly o (dom h) -> map_Forall (fun _ ob => sized ob h) (delete x (objects m)) ->
  is_Some (objects m !! y) ->
  ok (mkMemory h (<[y := mkObject 0 None]>
                    (<[x := mkObject (size_ (object y m)) (data_ (object y m))]> (objects m)))).
Proof.
  intros Hxy Hx Hy Hz Ho Hs [oy Hoy]. split; cbn.
  - unfold owner. cbn. rewrite !fmap_insert. cbn.
    replace (<[y := None]> (<[x := data_ (object y m)]> (data_ <$> objects m)))
      with (<[y := None]> (<[x := data_ (object y m)]> o)); [by apply own_take|].
    apply map_eq. intros z. destruct (decide (z = y)) as [->|]; [by rewrite !lookup_insert_eq|].
    rewrite !(lookup_insert_ne _ y) by done.
    destruct (decide (z = x)) as [->|]; [by rewrite !lookup_insert_eq|].
    rewrite !lookup_insert_ne by done. by apply Hz.
  - apply map_Forall_insert_2; [done|]. apply insert_delete_objects; [|done].
    rewrite (object_eq y oy m Hoy). apply (Hs y). rewrite lookup_delete_ne by done.
    by destruct oy.
Qed.

Lemma sized_object y m : ok m -> is_Some (objects m !! y) -> sized (object y m) (heap m).
Proof. intros [_ Hs] [o Ho]. rewrite (object_eq y o m Ho). by apply (Hs y). Qed.

Lemma owner_insert x o h (objs : gmap name Object) :
  owner (mkMemory h (<[x := o]> objs)) = <[x := data_ o]> (data_ <$> objs).
Proof. unfold owner. cbn. by rewrite fmap_insert. Qed.

Lemma allocate_ok x n a c m :
  ok m -> objects m !! x = None -> heap m !! a = None -> length c = n ->
  exists m', (let '(p, h) := new_array n a c (heap m) in
              Some (mkMemory h (<[x := mkObject n p]> (objects m)))) = Some m' /\ ok m'.
Proof.
  intros [Ho Hs] Hx Ha Hc.
  pose proof (new_array_ok x n a c (heap m) (owner m) (objects m) (vacant_new x m Hx) Ha Hc Ho Hs) as Hn.
  destruct (new_array n a c (heap m)) as [p h]. destruct Hn as [Ho' Hs'].
  eexists. split; [done|]. split; [|done]. by rewrite owner_insert.
Qed.

(** The new block does not get in the way of freeing the old one. *)
Lemma free_after_new n a c q h h' :
  h !! a = None -> delete_array q h = Some h' ->
  delete_array q (new_array n a c h).2 = Some (new_array n a c h').2
  /\ (new_array n a c h).1 = (new_array n a c h').1.
Proof.
  intros Ha Hd. unfold new_array. destruct (0 <? n)%nat; [|done]. split; [|done]. cbn.
  destruct q as [b|]; cbn in *; [|by injection Hd as ->].
  destruct (h !! b) as [blk|] eqn:Hb; [|done]. injection Hd as <-.
  rewrite lookup_insert_ne, Hb by congruence. f_equal. rewrite delete_insert_ne by congruence. done.
Qed.

Lemma copy_assign_ok x y a m :
  ok m -> scoped (CopyAssign x y a) m ->
  exists m', step (CopyAssign x y a) m = Some m' /\ ok m'.
Proof.
  intros Hok (Hx & Hy & Ha). cbn. destruct (decide (x = y)) as [|Hne]; [by exists m|].
  destruct (copied_ok _ _ (sized_object y m Hok Hy)) as (c & -> & Hc).
  destruct (delete_array_ok x m Hok Hx) as (h & Hd & Ho & Hfresh & Hs).
  destruct (free_after_new (size_ (object y m)) a c _ _ _ Ha Hd) as [Hd' Hp].
  assert (vacant x (<[x := None]> (owner m))) as Hv by (intros b; by rewrite lookup_insert_eq).
  pose proof (new_array_ok x _ a c h _ _ Hv (Hfresh a Ha) Hc Ho Hs) as Hn.
  destruct (new_array _ a c (heap m)) as [p h1], (new_array _ a c h) as [p' h2]. cbn in *.
  subst p'. rewrite Hd'. destruct Hn as [Ho' Hs'].
  eexists. split; [done|]. rewrite insert_insert_eq in Ho'. split.
  - by rewrite owner_insert.
  - cbn. by rewrite insert_delete_eq in Hs'.
Qed.

Lemma memory_step_ok c m : ok m -> scoped c m -> exists m', step c m = Some m' /\ ok m'.
Proof.
  intros Hok Hsc. destruct c as [x n a junk|x|x y a|x y a|x y|x y].
  - destruct Hsc as (Hx & Ha & Hj). apply allocate_ok; [done..|]. rewrite length_take. lia.
  - cbn in *. destruct (delete_array_ok x m Hok Hsc) as (h & -> & Ho & _ & Hs).
    eexists. split; [done|]. split; [|done]. unfold owner. cbn. rewrite fmap_delete.
    rewrite <- (delete_insert_eq (data_ <$> objects m) x None).
    apply own_drop; [|done]. intros b. by rewrite lookup_insert_eq.
  - destruct Hsc as (Hx & Hy & Ha). cbn.
    destruct (copied_ok _ _ (sized_object y m Hok Hy)) as (c & -> & Hc). by apply allocate_ok.
  - by apply copy_assign_ok.
  - destruct Hsc as (Hx & Hy). eexists. split; [done|]. cbn.
    assert (x <> y) by (intros ->; rewrite Hx in Hy; by destruct Hy).
    eapply (take_block x y m (owner m) (heap m)); [done|by apply vacant_new|by apply owner_object|done| | |done].
    + apply Hok.
    + apply map_Forall_delete, Hok.
  - destruct Hsc as (Hx & Hy). cbn. destruct (decide (x = y)) as [|Hne]; [by exists m|].
    destruct (delete_array_ok x m Hok Hx) as (h & -> & Ho & _ & Hs). eexists. split; [done|].
    eapply (take_block x y m (<[x := None]> (owner m)) h); [done| | | |done..].
    + intros b. by rewrite lookup_insert_eq.
    + rewrite lookup_insert_ne by done. by apply owner_object.
    + intros z Hzx _. by rewrite lookup_insert_ne.
Qed.

Lemma memory_run_ok cs m : ok m -> well_scoped cs m -> exists m', run cs m = Some m' /\ ok m'.
Proof.
  revert m. induction cs as [|c cs IH]; intros m Hok; cbn; [by exists m|].
  intros [Hsc Hrest]. destruct (memory_step_ok c m Hok Hsc) as (m' & Hs & Hok').
  rewrite Hs in *. by apply IH.
Qed.

Lemma memory_ok_empty : ok (mkMemory ∅ ∅).
Proof.
  split; [|apply map_Forall_empty]. unfold owner. cbn. rewrite fmap_empty, dom_empty_L. apply own_empty.
Qed.

Lemma ok_no_leak m : ok m -> objects m = ∅ -> heap m = ∅.
Proof.
  intros [Ho _] He. unfold owner in Ho. rewrite He, fmap_empty in Ho.
  apply dom_empty_inv_L, own_nothing, Ho.
Qed.

(** ** The theorems *)

(** What a copy holds. *)
Lemma read_contents o h c :
  sized o h -> copied o h = Some c ->
  c = match data_ o with Some b => default [] (h !! b) | None => [] end.
Proof.
  unfold sized, copied, read_array. destruct (data_ o) as [b|].
  - intros (blk & Hb & Hlen & Hpos). rewrite (proj2 (Nat.ltb_lt _ _) Hpos), Hb.
    destruct (Nat.leb_spec (size_ o) (length blk)); [|done]. intros [= <-].
    by rewrite take_ge by lia.
  - intros ->. cbn. by intros [= <-].
Qed.

(** The integers of an object depend only on it and on its block. *)
Lemma contents_frame z m m' :
  objects m' !! z = objects m !! z ->
  (forall b, data_ (object z m) = Some b -> heap m' !! b = heap m !! b) ->
  contents z m' = contents z m.
Proof.
  intros Ho Hh. unfold contents, object in *. rewrite Ho.
  destruct (data_ _) as [b|]; [|done]. by rewrite Hh.
Qed.

Lemma contents_new x n a c h (objs : gmap name Object) :
  length c = n ->
  contents x (mkMemory (new_array n a c h).2 (<[x := mkObject n (new_array n a c h).1]> objs)) = c.
Proof.
  intros Hc. unfold new_array, contents, object. destruct (Nat.ltb_spec 0 n); cbn;
    rewrite lookup_insert_eq; cbn; [by rewrite lookup_insert_eq|].
  by destruct c; cbn in *; [|lia].
Qed.

Lemma delete_array_lookup q h h' b :
  delete_array q h = Some h' -> q <> Some b -> h' !! b = h !! b.
Proof.
  destruct q as [b'|]; cbn; [|by intros [= ->]].
  destruct (h !! b'); [|done]. intros [= <-] Hb. apply lookup_delete_ne. congruence.
Qed.

Lemma blocks_differ x y m b :
  ok m -> is_Some (objects m !! x) -> is_Some (objects m !! y) -> x <> y ->
  data_ (object y m) = Some b -> data_ (object x m) <> Some b.
Proof.
  intros [(_ & Hinj & _) _] Hx%owner_object Hy%owner_object Hne Hb Hb'. apply Hne.
  apply (Hinj x y b); congruence.
Qed.

(** The block of an object of a well-formed memory, when something is freed, or
    another block allocated at a free address. *)
Lemma contents_allocated z m b :
  sized (object z m) (heap m) -> data_ (object z m) = Some b -> is_Some (heap m !! b).
Proof. unfold sized. intros Hsz Hb. rewrite Hb in Hsz. destruct Hsz as (blk & ? & _). by exists blk. Qed.

Lemma new_array_lookup n a c h b : h !! a = None -> is_Some (h !! b) -> (new_array n a c h).2 !! b = h !! b.
Proof.
  unfold new_array. intros Ha [blk Hb]. destruct (0 <? n)%nat; [|done]. cbn.
  apply lookup_insert_ne. congruence.
Qed.

(** What a copy leaves: both hold the integers [y] held, in blocks of their own. *)
Lemma copy_construct_contents x y a m m' :
  ok m -> scoped (CopyConstruct x y a) m -> step (CopyConstruct x y a) m = Some m' ->
  contents x m' = contents y m /\ contents y m' = contents y m.
Proof.
  intros Hok (Hx & Hy & Ha). cbn. pose proof (sized_object y m Hok Hy) as Hsz.
  destruct (copied_ok _ _ Hsz) as (c & Hcp & Hc). rewrite Hcp. apply (read_contents _ _ _ Hsz) in Hcp.
  rewrite (surjective_pairing (new_array _ a c (heap m))). intros [= <-].
  split; [by rewrite contents_new|].
  assert (x <> y) by (intros ->; rewrite Hx in Hy; by destruct Hy).
  apply contents_frame; cbn; [by rewrite lookup_insert_ne|]. intros b Hb.
  by apply new_array_lookup, (contents_allocated y).
Qed.

Lemma copy_assign_contents x y a m m' :
  ok m -> scoped (CopyAssign x y a) m -> x <> y -> step (CopyAssign x y a) m = Some m' ->
  contents x m' = contents y m /\ contents y m' = contents y m.
Proof.
  intros Hok (Hx & Hy & Ha) Hne. cbn. rewrite decide_False by done.
  pose proof (sized_object y m Hok Hy) as Hsz.
  destruct (copied_ok _ _ Hsz) as (c & Hcp & Hc). rewrite Hcp.
  apply (read_contents _ _ _ Hsz) in Hcp.
  destruct (delete_array_ok x m Hok Hx) as (h & Hd & _).
  destruct (free_after_new (size_ (object y m)) a c _ _ _ Ha Hd) as [Hd' Hp].
  rewrite (surjective_pairing (new_array _ a c (heap m))), Hp, Hd'. intros [= <-]. split.
  - by rewrite contents_new.
  - apply contents_frame; cbn; [by rewrite lookup_insert_ne|]. intros b Hb.
    transitivity ((new_array (size_ (object y m)) a c (heap m)).2 !! b).
    + by eapply (delete_array_lookup _ _ _ _ Hd'), blocks_differ.
    + by apply new_array_lookup, (contents_allocated y).
Qed.

(** What a move leaves: [x] holds what [y] held, and [y] is empty. *)
Lemma moved_contents x y h m :
  x <> y -> (forall b, data_ (object y m) = Some b -> h !! b = heap m !! b) ->
  let other := object y m in
  let m' := mkMemory h (<[y := mkObject 0 None]> (<[x := mkObject (size_ other) (data_ other)]> (objects m))) in
  contents x m' = contents y m /\ size_ (object x m') = size_ (object y m)
  /\ contents y m' = [] /\ size_ (object y m') = 0%nat.
Proof.
  intros Hne Hh other m'. subst other m'. unfold contents.
  assert (forall p objs, object y (mkMemory h (<[y := p]> objs)) = p) as Hy
    by (intros; unfold object; cbn; by rewrite lookup_insert_eq).
  assert (forall p q objs, object x (mkMemory h (<[y := q]> (<[x := p]> objs))) = p) as Hx
    by (intros; unfold object; cbn; by rewrite lookup_insert_ne, lookup_insert_eq).
  rewrite Hx, Hy. cbn. split_and!; [|done..].
  destruct (data_ (object y m)) as [b|] eqn:E; [|done]. by rewrite Hh.
Qed.

Lemma move_contents x y m m' (c : Call) :
  ok m -> c = MoveConstruct x y \/ c = MoveAssign x y -> scoped c m -> x <> y -> step c m = Some m' ->
  contents x m' = contents y m /\ size_ (object x m') = size_ (object y m)
  /\ contents y m' = [] /\ size_ (object y m') = 0%nat.
Proof.
  intros Hok [->| ->] Hsc Hne; cbn.
  - intros [= <-]. by apply moved_contents.
  - destruct Hsc as [Hx Hy]. rewrite decide_False by done.
    destruct (delete_array _ _) as [h|] eqn:Hd; [|done]. intros [= <-].
    apply moved_contents; [done|]. intros b Hb. by eapply delete_array_lookup, blocks_differ.
Qed.

(** C35: whatever sequence of constructions, copies, moves and destructions a program makes, no
    member function of [Buffer] frees a block twice or reads outside a block (the run has a
    result); no two live objects share a block; when every object has been destroyed nothing is
    left allocated; after a copy, by constructor or assignment, both objects hold the integers of
    the source; and after a move the target holds them and the source is empty. *)
Theorem buffer_memory_safe (cs : list Call) :
  well_scoped cs (mkMemory ∅ ∅) ->
  exists m, run cs (mkMemory ∅ ∅) = Some m
    /\ (objects m = ∅ -> heap m = ∅)
    /\ (forall x y b, is_Some (objects m !! x) -> is_Some (objects m !! y) -> x <> y ->
          data_ (object y m) = Some b -> data_ (object x m) <> Some b)
    /\ (forall c x y a, c = CopyConstruct x y a \/ c = CopyAssign x y a -> scoped c m -> x <> y ->
          exists m', step c m = Some m'
            /\ contents x m' = contents y m /\ contents y m' = contents y m)
    /\ (forall c x y, c = MoveConstruct x y \/ c = MoveAssign x y -> scoped c m -> x <> y ->
          exists m', step c m = Some m'
            /\ contents x m' = contents y m /\ size_ (object x m') = size_ (object y m)
            /\ contents y m' = [] /\ size_ (object y m') = 0%nat).
Proof.
  intros Hws. destruct (memory_run_ok cs _ memory_ok_empty Hws) as (m & Hrun & Hok). exists m. split_and!.
  - done.
  - by apply ok_no_leak.
  - intros x y b Hx Hy Hne. by apply blocks_differ.
  - intros c x y a Hc Hsc Hne. destruct (memory_step_ok _ m Hok Hsc) as (m' & Hs & _). exists m'.
    split; [done|]. destruct Hc as [->| ->]; [by eapply copy_construct_contents|by eapply copy_assign_contents].
  - intros c x y Hc Hsc Hne. destruct (memory_step_ok _ m Hok Hsc) as (m' & Hs & _). exists m'.
    split; [done|]. by eapply move_contents.
Qed.

(** The calls of [main] up to its [return], with the blocks the allocator returns,
    and the destructors that then run, the last object first. *)
Definition main_calls : list Call :=
  [Construct "buffer1" 1024 100 (replicate 1024 7);
   CopyConstruct "buffer2" "buffer1" 101;
   MoveConstruct "buffer3" "buffer1";
   Construct "buffer4" 10 102 (replicate 10 0);
   MoveAssign "buffer4" "buffer2"].

Definition main_end : list Call :=
  [Destroy "buffer4"; Destroy "buffer3"; Destroy "buffer2"; Destroy "buffer1"].

Lemma buffer_memory_safe_witness :
  well_scoped (main_calls ++ main_end) (mkMemory ∅ ∅)
  /\ (exists m, run main_calls (mkMemory ∅ ∅) = Some m
        /\ size_ (object "buffer1" m) = 0%nat /\ size_ (object "buffer3" m) = 1024%nat
        /\ size_ (object "buffer2" m) = 0%nat /\ size_ (object "buffer4" m) = 1024%nat)
  /\ run (main_calls ++ main_end) (mkMemory ∅ ∅) = Some (mkMemory ∅ ∅).
Proof.
  assert (well_scoped (main_calls ++ main_end) (mkMemory ∅ ∅)) as Hws
    by (apply (bool_decide_unpack _); vm_compute; exact I).
  split; [exact Hws|]. split.
  - eexists. split; [vm_compute; reflexivity|]. repeat split.
  - destruct (buffer_memory_safe _ Hws) as (m & Hrun & Hleak & _). rewrite Hrun.
    assert (objects <$> run (main_calls ++ main_end) (mkMemory ∅ ∅) = Some ∅) as Hob
      by (vm_compute; reflexivity).
    rewrite Hrun in Hob. injection Hob as Hob.
    destruct m as [h o]. cbn in *. rewrite Hob in *. by rewrite (Hleak eq_refl).
Defined.
End Buffer.
