(* ===== verification/CText.v ===== *)
(** * Text in C

    The pieces of the C library the C sources of the gateway use on strings:
    [isspace], the conversions ["%d"] and ["%Ns"] of [sscanf], the printing of an
    [int], [snprintf] into a buffer of a given size.  A C string is the list of
    its characters before the terminating NUL. *)

From Stdlib Require Import Ascii.
From S2P Require Import Prelude.

Definition INT_MIN : Z := -2147483648.
Definition INT_MAX : Z := 2147483647.

Definition int_ok (z : Z) : Prop := INT_MIN <= z <= INT_MAX.

#[export] Instance int_ok_dec z : Decision (int_ok z).
Proof. unfold int_ok. apply _. Defined.

(** [isspace] in the "C" locale. *)
Definition isspace (c : ascii) : bool :=
  (code c =? 32) || ((9 <=? code c) && (code c <=? 13)).

Definition DQ : ascii := "034"%char.
Definition NUL : ascii := "000"%char.

(** ** Runs of characters *)

(** The longest prefix whose elements satisfy [p], and the rest. *)
Fixpoint span {A} (p : A -> bool) (t : list A) : list A * list A :=
  match t with
  | [] => ([], [])
  | c :: t' => if p c then let '(run, rest) := span p t' in (c :: run, rest) else ([], t)
  end.

(** [t] does not start with a character that satisfies [p]. *)
Definition stops {A} (p : A -> bool) (t : list A) : Prop :=
  match t with [] => True | c :: _ => p c = false end.

Abbreviation all p t := (Forall (fun c => p c = true) t).

Lemma span_app {A} (p : A -> bool) run rest : all p run -> stops p rest -> span p (run ++ rest) = (run, rest).
Proof.
  intros Hrun Hrest. induction Hrun as [|c run Hc _ IH]; cbn.
  - destruct rest as [|c rest]; [done|]. cbn in *. by rewrite Hrest.
  - by rewrite Hc, IH.
Qed.

Lemma span_spec {A} (p : A -> bool) t run rest :
  span p t = (run, rest) <-> t = run ++ rest /\ all p run /\ stops p rest.
Proof.
  split; [|intros (-> & ? & ?); by apply span_app].
  revert run. induction t as [|c t IH]; intros run; cbn.
  - intros [= <- <-]. by repeat constructor.
  - destruct (p c) eqn:Hc.
    + destruct (span p t) as [run' rest'] eqn:E. intros [= <- <-].
      destruct (IH run' eq_refl) as (-> & ? & ?). by repeat constructor.
    + intros [= <- <-]. by repeat constructor.
Qed.

Lemma span_split {A} (p : A -> bool) t : t = (span p t).1 ++ (span p t).2.
Proof. destruct (span p t) as [run rest] eqn:E. by apply span_spec in E as (-> & _). Qed.

Lemma isspace_digit c : is_digit c = true -> isspace c = false.
Proof.
  unfold is_digit, isspace. intros [H1%Z.leb_le H2%Z.leb_le]%andb_prop.
  apply orb_false_intro; [apply Z.eqb_neq; lia|]. apply andb_false_intro2, Z.leb_gt. lia.
Qed.

(** ** Character arrays *)

(** The C string in an array: its characters before the first NUL. *)
Definition c_string (buf : list ascii) : text := (span (fun c => negb (bool_decide (c = NUL))) buf).1.

Definition no_nul (t : text) : Prop := NUL ∉ t.

(** [buf[i] = c], and the copy of a string with its NUL to the start of the
    array; [None] when it would write outside the array. *)
Definition store {A} (buf : list A) (i : nat) (c : A) : option (list A) :=
  if decide (i < length buf)%nat then Some (<[i := c]> buf) else None.

Definition store_string (buf : list ascii) (t : text) : option (list ascii) :=
  if decide (length t < length buf)%nat then Some (t ++ NUL :: drop (S (length t)) buf) else None.

Lemma no_nul_all t : no_nul t <-> all (fun c => negb (bool_decide (c = NUL))) t.
Proof.
  unfold no_nul. rewrite Forall_forall. split.
  - intros Hn c Hc. apply negb_true_iff, bool_decide_eq_false. by intros ->.
  - intros Ha Hn. by apply Ha in Hn.
Qed.

Lemma c_string_app t rest : no_nul t -> c_string (t ++ NUL :: rest) = t.
Proof. intros Ht%no_nul_all. unfold c_string. by rewrite span_app. Qed.

Lemma c_string_no_nul buf : no_nul (c_string buf).
Proof.
  apply no_nul_all. unfold c_string. destruct (span _ buf) as [run rest] eqn:E.
  by apply span_spec in E as (_ & ? & _).
Qed.

Lemma c_string_length buf : NUL ∈ buf -> (length (c_string buf) < length buf)%nat.
Proof.
  pose proof (c_string_no_nul buf) as Hn. unfold c_string in *. intros Hin.
  destruct (span _ buf) as [run rest] eqn:E. apply span_spec in E as (-> & _). cbn [fst] in *.
  rewrite length_app. destruct rest; [|cbn; lia]. by rewrite app_nil_r in Hin.
Qed.

Lemma store_string_length buf t buf' : store_string buf t = Some buf' -> length buf' = length buf.
Proof.
  unfold store_string. case_decide; [|done]. intros [= <-].
  rewrite length_app. cbn [length]. rewrite length_drop. lia.
Qed.

(** ** ["%d"] *)

(** [printf]: the sign and the digits. *)
Definition print_int (z : Z) : text :=
  if z <? 0 then "-"%char :: to_string (- z) else to_string z.

(** The optional sign: whether it is a minus, and the rest. *)
Definition scan_sign (t : text) : bool * text :=
  match t with
  | c :: t' => if decide (c = "-"%char) then (true, t')
               else if decide (c = "+"%char) then (false, t') else (false, t)
  | [] => (false, [])
  end.

Section scan.
(** What is stored for a number that no [int] can hold: the C standard leaves it
    open. *)
Context (unrepresentable : Z -> Z).

Definition store_int (z : Z) : Z := if decide (int_ok z) then z else unrepresentable z.

(** [scanf]: blanks, a sign, digits. *)
Definition scan_int (t : text) : option (Z * text) :=
  let '(negative, t) := scan_sign (span isspace t).2 in
  match span is_digit t with
  | ([], _) => None
  | (digits, rest) =>
      Some (store_int (if negative then - dec_value digits else dec_value digits), rest)
  end.

(** ** [sscanf] *)

Inductive Directive :=
  | Literal (c : ascii)      (* a character that is no blank *)
  | IntD                     (* %d *)
  | WordD (width : nat).     (* %<width>s *)

Inductive Value := VInt (z : Z) | VText (t : text).

Inductive ScanEnd := Done | InputFailure | MatchFailure.

(** A ["%Ns"]: blanks, then at most [width] characters up to the next blank. *)
Definition scan_word (width : nat) (t : text) : text * text :=
  let t := (span isspace t).2 in
  let word := take width (span (fun c => negb (isspace c)) t).1 in
  (word, drop (length word) t).

Fixpoint scan (format : list Directive) (t : text) : list Value * ScanEnd :=
  match format with
  | [] => ([], Done)
  | Literal c :: format' =>
      match t with
      | [] => ([], InputFailure)
      | c' :: t' => if decide (c' = c) then scan format' t' else ([], MatchFailure)
      end
  | IntD :: format' =>
      match (span isspace t).2 with
      | [] => ([], InputFailure)
      | _ =>
          match scan_int t with
          | None => ([], MatchFailure)
          | Some (z, t') => let '(values, e) := scan format' t' in (VInt z :: values, e)
          end
      end
  | WordD width :: format' =>
      match (span isspace t).2 with
      | [] => ([], InputFailure)
      | _ =>
          let '(word, t') := scan_word width t in
          let '(values, e) := scan format' t' in (VText word :: values, e)
      end
  end.

(** The result of [sscanf]: the number of conversions, or [EOF]. *)
Definition scan_count (result : list Value * ScanEnd) : Z :=
  match result with
  | ([], InputFailure) => -1
  | (values, _) => Z.of_nat (length values)
  end.

(** ** What the conversions accept *)

(** An optional sign and at least one digit, of value [z]. *)
Definition int_text (t : text) (z : Z) : Prop :=
  exists sign digits,
    t = sign ++ digits /\ digits <> [] /\ all is_digit digits
    /\ ((sign = ["-"%char] /\ z = - dec_value digits)
        \/ ((sign = [] \/ sign = ["+"%char]) /\ z = dec_value digits)).

Lemma scan_sign_digits digits rest :
  digits <> [] -> all is_digit digits -> scan_sign (digits ++ rest) = (false, digits ++ rest).
Proof.
  destruct digits as [|c digits]; [done|]. intros _ Hc%Forall_cons. destruct Hc as [Hc _]. cbn.
  rewrite !decide_False; [done|intros ->; done..].
Qed.

Lemma int_text_start t z : int_text t z -> t <> [] /\ stops isspace t.
Proof.
  intros (sign & digits & -> & Hne & Hd & Hs). destruct digits as [|c digits]; [done|].
  apply Forall_cons in Hd as [Hc _]. apply isspace_digit in Hc.
  by destruct Hs as [[-> _]|[[-> | ->] _]].
Qed.

Lemma scan_int_complete blanks t z rest :
  all isspace blanks -> int_text t z -> stops is_digit rest ->
  scan_int (blanks ++ t ++ rest) = Some (store_int z, rest).
Proof.
  intros Hb Ht Hrest. destruct (int_text_start t z Ht) as [Hne Hst]. unfold scan_int.
  rewrite span_app; [|done|by destruct t].
  destruct Ht as (sign & digits & -> & Hd0 & Hd & Hs). cbn [snd].
  assert (exists neg, scan_sign ((sign ++ digits) ++ rest) = (neg, digits ++ rest)
                      /\ (if neg then - dec_value digits else dec_value digits) = z) as (neg & -> & Hz).
  { destruct Hs as [[-> ->]|[[-> | ->] ->]]; [by eexists|exists false|by eexists].
    by rewrite scan_sign_digits. }
  rewrite span_app by done. destruct digits; [done|]. by rewrite Hz.
Qed.

Lemma scan_int_sound t z rest :
  scan_int t = Some (z, rest) ->
  exists blanks it v, t = blanks ++ it ++ rest /\ all isspace blanks /\ int_text it v
                      /\ stops is_digit rest /\ z = store_int v.
Proof.
  unfold scan_int. destruct (span isspace t) as [blanks t1] eqn:E1.
  apply span_spec in E1 as (-> & Hb & _). cbn [snd].
  destruct (scan_sign t1) as [neg t2] eqn:E2.
  destruct (span is_digit t2) as [digits rest'] eqn:E3.
  apply span_spec in E3 as (-> & Hd & Hst). intros H.
  destruct digits as [|c digits]; [done|]. injection H as <- <-.
  assert (exists sign, t1 = sign ++ (c :: digits) ++ rest'
    /\ ((sign = ["-"%char] /\ neg = true) \/ ((sign = [] \/ sign = ["+"%char]) /\ neg = false)))
    as (sign & -> & Hs).
  { unfold scan_sign in E2. destruct t1 as [|a t1]; [done|].
    destruct (decide (a = "-"%char)) as [->|].
    { injection E2 as <- ->. exists ["-"%char]. auto. }
    destruct (decide (a = "+"%char)) as [->|]; injection E2 as <- E2; subst.
    - exists ["+"%char]. auto.
    - exists []. auto. }
  exists blanks, (sign ++ c :: digits),
    (if neg then - dec_value (c :: digits) else dec_value (c :: digits)).
  split_and!; [by rewrite <- (app_assoc sign)|done| |done|done].
  exists sign, (c :: digits). split_and!; [done..|].
  destruct Hs as [[-> ->]|[Hs ->]]; auto.
Qed.

(** A word as ["%Ns"] takes it out of [t ++ rest]. *)
Definition word_text (width : nat) (t rest : text) : Prop :=
  t <> [] /\ (length t <= width)%nat /\ all (fun c => negb (isspace c)) t
  /\ (length t = width \/ stops (fun c => negb (isspace c)) rest).

Lemma word_text_start width t rest : word_text width t rest -> stops isspace (t ++ rest).
Proof.
  intros (Hne & _ & Ha & _). destruct t as [|c t]; [done|].
  apply Forall_cons in Ha as [Hc _]. by apply negb_true_iff in Hc.
Qed.

Lemma scan_word_complete width blanks t rest :
  all isspace blanks -> word_text width t rest ->
  scan_word width (blanks ++ t ++ rest) = (t, rest).
Proof.
  intros Hb Hw. pose proof (word_text_start _ _ _ Hw) as Hst. unfold scan_word.
  rewrite span_app by done. cbn [snd]. destruct Hw as (_ & Hlen & Ha & Hend).
  assert (take width (span (fun c => negb (isspace c)) (t ++ rest)).1 = t) as ->.
  { destruct Hend as [Heq|Hstop]; [|rewrite span_app by done; cbn; by apply take_ge].
    destruct (span _ (t ++ rest)) as [run rest'] eqn:E. apply span_spec in E as (Heq' & Hr & Hs').
    cbn [fst]. assert (exists more, run = t ++ more) as [more ->].
    { clear -Heq' Ha Hs'. revert run Heq'. induction Ha as [|c t Hc _ IH]; intros run Heq; [by eexists|].
      destruct run as [|d run]; cbn in Heq.
      - subst rest'. cbn in Hs'. congruence.
      - injection Heq as <- Heq. destruct (IH run Heq) as [more ->]. by exists more. }
    by apply take_app_length'. }
  by rewrite drop_app_length.
Qed.

Lemma scan_word_sound width t word rest :
  (0 < width)%nat -> (span isspace t).2 <> [] -> scan_word width t = (word, rest) ->
  exists blanks, t = blanks ++ word ++ rest /\ all isspace blanks /\ word_text width word rest.
Proof.
  intros Hw Hne. unfold scan_word. destruct (span isspace t) as [blanks t1] eqn:E1.
  apply span_spec in E1 as (-> & Hb & Hst). cbn [snd] in *.
  destruct (span (fun c => negb (isspace c)) t1) as [run rest'] eqn:E2.
  apply span_spec in E2 as (-> & Hr & Hs). cbn [fst]. intros [= <- <-].
  assert (run <> []) as Hrun.
  { intros ->. destruct rest' as [|c rest']; [done|]. cbn in *. by rewrite Hst in Hs. }
  exists blanks. split; [|split; [done|]].
  - f_equal. rewrite length_take. rewrite <- (take_drop (Init.Nat.min width (length run)) (run ++ rest')) at 1.
    f_equal. destruct (decide (width <= length run)%nat).
    + rewrite Nat.min_l by done. by rewrite take_app_le.
    + rewrite Nat.min_r by lia. by rewrite take_app_length, take_ge by lia.
  - rewrite length_take. unfold word_text. rewrite length_take. split_and!.
    + destruct run; [done|]. destruct width; [lia|done].
    + lia.
    + by apply Forall_take.
    + destruct (decide (width <= length run)%nat); [left; lia|right].
      rewrite Nat.min_r by lia. by rewrite drop_app_length.
Qed.
End scan.

(** ** Printing *)

Lemma print_int_text z : int_text (print_int z) z.
Proof.
  unfold print_int, int_text. destruct (Z.ltb_spec z 0).
  - exists ["-"%char], (to_string (- z)). split_and!; auto with gateway.
    left. split; [done|]. rewrite dec_value_to_string; lia.
  - exists [], (to_string z). split_and!; auto with gateway.
    right. split; [auto|]. by rewrite dec_value_to_string.
Qed.

(** The digits of a number below [10^k] are at most [k]. *)
Lemma dec_loop_length fuel k n acc :
  (0 < k)%nat -> 0 <= n < 10 ^ Z.of_nat k ->
  (length (dec_loop fuel n acc) <= k + length acc)%nat.
Proof.
  revert k n acc. induction fuel as [|fuel IH]; intros k n acc Hk Hn; simpl; [lia|].
  destruct (Z.ltb_spec n 10); [simpl; lia|].
  destruct k as [|[|k]]; [lia| |].
  { change (10 ^ Z.of_nat 1) with 10 in Hn. lia. }
  rewrite Nat2Z.inj_succ, Z.pow_succ_r in Hn by lia.
  specialize (IH (S k) (n / 10) (digit_char (n mod 10) :: acc) ltac:(lia)). simpl in IH |- *.
  etrans; [apply IH|lia]. split; [apply Z.div_pos; lia|apply Z.div_lt_upper_bound; lia].
Qed.

Lemma to_string_length k n :
  (0 < k)%nat -> 0 <= n < 10 ^ Z.of_nat k -> (length (to_string n) <= k)%nat.
Proof. intros Hk Hn. unfold to_string. etrans; [by apply (dec_loop_length _ k)|simpl; lia]. Qed.

(** An [int] prints in at most 11 characters. *)
Lemma print_int_length z : int_ok z -> (length (print_int z) <= 11)%nat.
Proof.
  unfold int_ok, INT_MIN, INT_MAX, print_int. intros Hz. destruct (Z.ltb_spec z 0); simpl.
  - pose proof (to_string_length 10 (- z) ltac:(lia)). simpl in *. lia.
  - pose proof (to_string_length 10 z ltac:(lia)). simpl in *. lia.
Qed.

(** [snprintf(buf, size, ...)] of the text [t]: the result, and what the buffer
    holds, unchanged when its size is 0. *)
Definition snprintf (buf : text) (size : nat) (t : text) : Z * text :=
  (Z.of_nat (length t), if (size =? 0)%nat then buf else take (size - 1) t).
