(* ===== verification/SensorParser.v ===== *)
(** * Sensor lines and their JSON

    Models [sensor_parser.c]: [parse_sensor_data] reads a line such as
    ["temp=25,humi=60,device_id=stm32_01"] with [sscanf], [build_json] prints the
    reading as a JSON object with [snprintf].

    A pointer argument that may be [NULL] is an [option]. *)

From Stdlib Require Import Ascii String.
From S2P Require Import Prelude CText.

Record SensorData := mkSensor { temp : Z; humi : Z; device_id : text }.

#[export] Instance SensorData_eq_dec : EqDecision SensorData.
Proof. solve_decision. Defined.

(** [memset(data, 0, sizeof(SensorData))]. *)
Definition zero_data : SensorData := mkSensor 0 0 [].

(** ["temp=%d,humi=%d,device_id=%31s"] *)
Definition sensor_format : list Directive :=
  (Literal <$> txt "temp=") ++ IntD :: (Literal <$> txt ",humi=") ++ IntD
  :: (Literal <$> txt ",device_id=") ++ [WordD 31].

(** The fields assigned by the conversions that succeeded. *)
Definition assign (values : list Value) : SensorData :=
  match values with
  | [VInt t] => mkSensor t 0 []
  | [VInt t; VInt h] => mkSensor t h []
  | [VInt t; VInt h; VText id] => mkSensor t h id
  | _ => zero_data
  end.

Section parse.
Context (unrepresentable : Z -> Z).

Definition parse_sensor_data (raw : option text) (data : option SensorData)
    : Z * option SensorData :=
  match raw, data with
  | Some raw, Some _ =>
      let result := scan unrepresentable sensor_format raw in
      let data := assign result.1 in
      if negb (scan_count result =? 3) then (-1, Some data) else (0, Some data)
  | _, _ => (-1, data)
  end.
End parse.

Definition quoted (t : text) : text := DQ :: t ++ [DQ].

Definition json_text (data : SensorData) : text :=
  txt "{" ++ quoted (txt "temp") ++ txt ":" ++ print_int (temp data)
  ++ txt "," ++ quoted (txt "humi") ++ txt ":" ++ print_int (humi data)
  ++ txt "," ++ quoted (txt "device_id") ++ txt ":" ++ quoted (device_id data) ++ txt "}".

(** The returned code and the new contents of the buffer. *)
Definition build_json (data : option SensorData) (json_buf : option text) (buf_size : nat)
    : Z * option text :=
  match data, json_buf with
  | Some data, Some json_buf =>
      if (buf_size =? 0)%nat then (-1, Some json_buf)
      else
        let '(written, json_buf) := snprintf json_buf buf_size (json_text data) in
        if (written <? 0) || (Z.of_nat buf_size <=? written) then (-1, Some [])
        else (0, Some json_buf)
  | _, _ => (-1, json_buf)
  end.

Example parse_sample :
  parse_sensor_data (fun z => z) (Some (txt "temp=25,humi=60,device_id=stm32_01")) (Some zero_data)
  = (0, Some (mkSensor 25 60 (txt "stm32_01"))).
Proof. vm_compute. reflexivity. Qed.
Example parse_bad :
  parse_sensor_data (fun z => z) (Some (txt "bad data_from_stm32")) (Some zero_data)
  = (-1, Some zero_data).
Proof. vm_compute. reflexivity. Qed.
Example parse_partial :
  parse_sensor_data (fun z => z) (Some (txt "temp= -7,humi=x")) (Some zero_data)
  = (-1, Some (mkSensor (-7) 0 [])).
Proof. vm_compute. reflexivity. Qed.
Example json_small :
  (build_json (Some (mkSensor 25 60 (txt "s"))) (Some []) 37).1 = -1
  /\ (build_json (Some (mkSensor 25 60 (txt "s"))) (Some []) 38).1 = 0.
Proof. vm_compute. done. Qed.

(** ** What is accepted *)

Section accepted.
Context (unrepresentable : Z -> Z).

Lemma scan_literals l format t :
  scan unrepresentable ((Literal <$> l) ++ format) (l ++ t) = scan unrepresentable format t.
Proof. induction l as [|c l IH]; [done|]. cbn. by rewrite decide_True. Qed.

Lemma scan_literals_inv l format t values e :
  scan unrepresentable ((Literal <$> l) ++ format) t = (values, e) -> values <> [] ->
  exists t', t = l ++ t' /\ scan unrepresentable format t' = (values, e).
Proof.
  intros Hs Hne. revert t Hs. induction l as [|c l IH]; intros t Hs; [by exists t|].
  cbn in Hs. destruct t as [|c' t]; [by injection Hs as <- <-|].
  destruct (decide (c' = c)) as [->|]; [|by injection Hs as <- <-].
  destruct (IH t Hs) as (t' & -> & Ht'). by exists t'.
Qed.

Lemma scan_int_inv format t values e :
  scan unrepresentable (IntD :: format) t = (values, e) -> values <> [] ->
  exists z t' values', scan_int unrepresentable t = Some (z, t') /\ values = VInt z :: values'
                       /\ scan unrepresentable format t' = (values', e).
Proof.
  cbn. destruct (span isspace t).2; [by intros [= <- <-]|].
  destruct (scan_int unrepresentable t) as [[z t']|]; [|by intros [= <- <-]].
  destruct (scan unrepresentable format t') as [values' e'] eqn:E. intros [= <- <-] _. eauto 10.
Qed.

Lemma scan_int_step format blanks it v rest :
  all isspace blanks -> int_text it v -> stops is_digit rest ->
  scan unrepresentable (IntD :: format) (blanks ++ it ++ rest)
  = (VInt (store_int unrepresentable v) :: (scan unrepresentable format rest).1,
     (scan unrepresentable format rest).2).
Proof.
  intros Hb Hit Hr. cbn [scan]. rewrite (scan_int_complete _ blanks it v) by done.
  destruct (int_text_start it v Hit) as [Hne Hst].
  rewrite span_app by (done || by destruct it). cbn [snd].
  destruct (it ++ rest) eqn:E; [by destruct it|]. by destruct (scan _ _ rest).
Qed.

(** The lines ["temp=<int>,humi=<int>,device_id=<word><anything>"], where blanks
    may come before the numbers and the word. *)
Definition sensor_line (raw : text) (data : SensorData) : Prop :=
  exists b1 i1 v1 b2 i2 v2 b3 id rest,
    raw = txt "temp=" ++ b1 ++ i1 ++ txt ",humi=" ++ b2 ++ i2 ++ txt ",device_id=" ++ b3 ++ id ++ rest
    /\ all isspace b1 /\ int_text i1 v1 /\ all isspace b2 /\ int_text i2 v2
    /\ all isspace b3 /\ word_text 31 id rest
    /\ data = mkSensor (store_int unrepresentable v1) (store_int unrepresentable v2) id.

Lemma scan_sensor_complete raw data :
  sensor_line raw data ->
  scan unrepresentable sensor_format raw
  = ([VInt (temp data); VInt (humi data); VText (device_id data)], Done).
Proof.
  intros (b1 & i1 & v1 & b2 & i2 & v2 & b3 & id & rest & -> & H1 & H2 & H3 & H4 & H5 & H6 & ->).
  unfold sensor_format. rewrite scan_literals, (scan_int_step _ b1 i1 v1) by done.
  rewrite scan_literals, (scan_int_step _ b2 i2 v2) by done. rewrite scan_literals. cbn [scan].
  pose proof (word_text_start _ _ _ H6) as Hst.
  rewrite (scan_word_complete 31 b3 id rest) by done. rewrite span_app by done. cbn [snd].
  destruct H6 as (Hne & _). destruct (id ++ rest) eqn:E; [by destruct id|]. done.
Qed.

Lemma scan_sensor_sound raw values e :
  scan unrepresentable sensor_format raw = (values, e) -> length values = 3%nat ->
  exists data, sensor_line raw data
               /\ values = [VInt (temp data); VInt (humi data); VText (device_id data)].
Proof.
  unfold sensor_format. intros Hs Hlen.
  apply scan_literals_inv in Hs as (t1 & -> & Hs); [|intros ->; discriminate Hlen].
  apply scan_int_inv in Hs as (z1 & t2 & values1 & Hi1 & -> & Hs); [|intros ->; discriminate Hlen].
  apply scan_literals_inv in Hs as (t3 & -> & Hs); [|intros ->; discriminate Hlen].
  apply scan_int_inv in Hs as (z2 & t4 & values2 & Hi2 & -> & Hs); [|intros ->; discriminate Hlen].
  apply scan_literals_inv in Hs as (t5 & -> & Hs); [|intros ->; discriminate Hlen].
  cbn [scan] in Hs. destruct (span isspace t5).2 eqn:E5; [by injection Hs as <- <-|].
  destruct (scan_word 31 t5) as [id rest] eqn:Ew. injection Hs as <- <-.
  apply scan_word_sound in Ew as (b3 & -> & Hb3 & Hw); [|lia|by rewrite E5].
  apply scan_int_sound in Hi1 as (b1 & i1 & v1 & -> & Hb1 & Hit1 & _ & ->).
  apply scan_int_sound in Hi2 as (b2 & i2 & v2 & -> & Hb2 & Hit2 & _ & ->).
  exists (mkSensor (store_int unrepresentable v1) (store_int unrepresentable v2) id).
  split; [|done]. exists b1, i1, v1, b2, i2, v2, b3, id, rest. by split_and!.
Qed.

Lemma parse_line raw data0 data :
  parse_sensor_data unrepresentable (Some raw) (Some data0) = (0, Some data)
  <-> sensor_line raw data.
Proof.
  unfold parse_sensor_data. split.
  - destruct (scan unrepresentable sensor_format raw) as [values e] eqn:E.
    destruct (Z.eqb_spec (scan_count (values, e)) 3) as [Hc|]; [|done]. cbn [negb fst].
    intros [= <-]. assert (length values = 3%nat) as Hlen.
    { unfold scan_count in Hc. destruct values; [by destruct e|]. lia. }
    destruct (scan_sensor_sound raw values e E Hlen) as (data & Hl & ->). by destruct data.
  - intros Hl. rewrite (scan_sensor_complete raw data Hl). cbn. by destruct data.
Qed.

Lemma parse_code raw data0 :
  let '(code, data) := parse_sensor_data unrepresentable (Some raw) (Some data0) in
  is_Some data /\ (code = 0 \/ code = -1).
Proof. unfold parse_sensor_data. destruct (negb _); eauto. Qed.

(** What the parser leaves in the structure. *)
Definition sensor_ok (data : SensorData) : Prop :=
  int_ok (temp data) /\ int_ok (humi data) /\ device_id data <> []
  /\ (length (device_id data) <= 31)%nat /\ all (fun c => negb (isspace c)) (device_id data).

Lemma sensor_line_ok raw data :
  (forall z, int_ok (unrepresentable z)) -> sensor_line raw data -> sensor_ok data.
Proof.
  intros Hu (b1 & i1 & v1 & b2 & i2 & v2 & b3 & id & rest & _ & _ & _ & _ & _ & _ & Hw & ->).
  destruct Hw as (? & ? & ? & _). unfold sensor_ok, store_int. cbn.
  split_and!; try done; case_decide; auto.
Qed.
End accepted.

(** ** The JSON text *)

(** The character stands for itself in a JSON string. *)
Definition json_plain (c : ascii) : bool :=
  negb (bool_decide (c = DQ)) && negb (bool_decide (c = "\"%char)) && (32 <=? code c).

(** Reference: a reader of the object with these three members, in this order,
    without blanks. *)
Definition expect (p t : text) : option text :=
  if decide (take (length p) t = p) then Some (drop (length p) t) else None.

Definition json_int (t : text) : option (Z * text) :=
  let '(negative, t) :=
    match t with
    | c :: t' => if decide (c = "-"%char) then (true, t') else (false, t)
    | [] => (false, [])
    end in
  match span is_digit t with
  | ([], _) => None
  | (digits, rest) => Some (if negative then - dec_value digits else dec_value digits, rest)
  end.

Definition read_json (t : text) : option SensorData :=
  t ← expect (txt "{" ++ quoted (txt "temp") ++ txt ":") t;
  '(temp, t) ← json_int t;
  t ← expect (txt "," ++ quoted (txt "humi") ++ txt ":") t;
  '(humi, t) ← json_int t;
  t ← expect (txt "," ++ quoted (txt "device_id") ++ txt ":" ++ [DQ]) t;
  let '(device_id, t) := span json_plain t in
  if decide (t = DQ :: txt "}") then Some (mkSensor temp humi device_id) else None.

Lemma expect_app p t : expect p (p ++ t) = Some t.
Proof. unfold expect. by rewrite take_app_length, decide_True, drop_app_length. Qed.

Lemma json_int_print z rest :
  stops is_digit rest -> json_int (print_int z ++ rest) = Some (z, rest).
Proof.
  intros Hr. unfold json_int, print_int. destruct (Z.ltb_spec z 0).
  - cbn [app]. rewrite decide_True by done. rewrite span_app by auto with gateway.
    destruct (to_string (- z)) eqn:E; [by apply to_string_cons in E|]. rewrite <- E.
    do 2 f_equal. rewrite dec_value_to_string; lia.
  - destruct (to_string z) as [|c ds] eqn:E; [by apply to_string_cons in E|].
    pose proof (to_string_digits z) as Hd. rewrite E in Hd.
    assert (c <> "-"%char) as Hc by (apply Forall_cons in Hd as [Hd _]; by intros ->).
    cbn [app]. rewrite decide_False by done.
    rewrite (app_comm_cons ds rest c), span_app, <- E by done. by rewrite dec_value_to_string.
Qed.

Lemma json_text_split data :
  json_text data
  = (txt "{" ++ quoted (txt "temp") ++ txt ":") ++ print_int (temp data)
    ++ (txt "," ++ quoted (txt "humi") ++ txt ":") ++ print_int (humi data)
    ++ (txt "," ++ quoted (txt "device_id") ++ txt ":" ++ [DQ]) ++ device_id data ++ DQ :: txt "}".
Proof. unfold json_text, quoted. cbn. by rewrite <- !app_assoc. Qed.

Lemma read_json_text data :
  read_json (json_text data)
  = let '(id, rest) := span json_plain (device_id data ++ DQ :: txt "}") in
    if decide (rest = DQ :: txt "}") then Some (mkSensor (temp data) (humi data) id) else None.
Proof.
  rewrite json_text_split. unfold read_json.
  rewrite expect_app. cbn [mbind option_bind]. rewrite json_int_print by done. cbn [mbind option_bind].
  rewrite expect_app. cbn [mbind option_bind]. rewrite json_int_print by done. cbn [mbind option_bind].
  by rewrite expect_app.
Qed.

(** The reader gets the reading back precisely when the identifier needs no
    escapes. *)
Lemma read_json_exact data :
  read_json (json_text data) = Some data <-> all json_plain (device_id data).
Proof.
  rewrite read_json_text. split.
  - destruct (span json_plain _) as [id rest] eqn:E. apply span_spec in E as (_ & Hid & _).
    case_decide; [|done]. intros [= <-]. done.
  - intros Hid. rewrite span_app by done. rewrite decide_True by done. by destruct data.
Qed.

Lemma json_text_length data :
  sensor_ok data -> (length (json_text data) <= 86)%nat.
Proof.
  intros (Ht & Hh & _ & Hid & _). apply print_int_length in Ht, Hh.
  unfold json_text, quoted. rewrite !length_app. cbn. rewrite !length_app. cbn. lia.
Qed.

Lemma build_json_fits data buf size :
  (length (json_text data) < size)%nat ->
  build_json (Some data) (Some buf) size = (0, Some (json_text data)).
Proof.
  intros Hlen. unfold build_json, snprintf. set (t := json_text data) in *.
  rewrite (proj2 (Nat.eqb_neq size 0)) by lia.
  rewrite (proj2 (Z.ltb_ge (Z.of_nat (length t)) 0)) by lia.
  rewrite (proj2 (Z.leb_gt (Z.of_nat size) (Z.of_nat (length t)))) by lia.
  cbn [orb]. by rewrite take_ge by lia.
Qed.

(** ** The properties *)

(** C21: [parse_sensor_data] accepts exactly the lines
    temp=<int>,humi=<int>,device_id=<word> with blanks allowed before each value and anything
    after the word, which is cut at 31 characters; it returns the numbers and the word. *)
Theorem parse_sensor_data_exact unrepresentable raw data0 data :
  parse_sensor_data unrepresentable (Some raw) (Some data0) = (0, Some data)
  <-> sensor_line unrepresentable raw data.
Proof. apply parse_line. Qed.

(** C20: whatever line was accepted, its JSON text fits the 128 characters the gateway has for it,
    so [build_json] succeeds; a reader of the object gets the reading back if and only if the
    identifier has no quote, backslash or control character, because it is not escaped. *)
Theorem accepted_json_round_trip unrepresentable raw data0 data buf :
  (forall z, int_ok (unrepresentable z)) ->
  parse_sensor_data unrepresentable (Some raw) (Some data0) = (0, Some data) ->
  build_json (Some data) (Some buf) 128 = (0, Some (json_text data))
  /\ (read_json (json_text data) = Some data <-> all json_plain (device_id data)).
Proof.
  intros Hu Hp. apply parse_line in Hp. apply (sensor_line_ok _ raw data Hu) in Hp.
  apply json_text_length in Hp. split; [|apply read_json_exact]. apply build_json_fits. lia.
Qed.

Lemma accepted_json_round_trip_witness :
  read_json (json_text (mkSensor 25 60 (txt "stm32_01"))) = Some (mkSensor 25 60 (txt "stm32_01")).
Proof.
  apply (accepted_json_round_trip (fun _ => 0) (txt "temp=25,humi=60,device_id=stm32_01") zero_data _ []).
  - intros z. unfold int_ok, INT_MIN, INT_MAX. lia.
  - vm_compute. reflexivity.
  - repeat constructor.
Defined.

(** An identifier with quotes puts members of its own into the object: this line
    is accepted, and its JSON text has a second member "temp". *)
Lemma identifier_injects_members :
  let id := txt "x" ++ DQ :: txt "," ++ quoted (txt "temp") ++ txt ":99," ++ quoted (txt "y")
            ++ txt ":" ++ DQ :: txt "z" in
  parse_sensor_data (fun _ => 0) (Some (txt "temp=1,humi=2,device_id=" ++ id)) (Some zero_data)
    = (0, Some (mkSensor 1 2 id))
  /\ json_text (mkSensor 1 2 id)
     = txt "{" ++ quoted (txt "temp") ++ txt ":1," ++ quoted (txt "humi") ++ txt ":2,"
       ++ quoted (txt "device_id") ++ txt ":" ++ quoted (txt "x") ++ txt ","
       ++ quoted (txt "temp") ++ txt ":99," ++ quoted (txt "y") ++ txt ":" ++ quoted (txt "z") ++ txt "}"
  /\ read_json (json_text (mkSensor 1 2 id)) = None.
Proof. vm_compute. done. Qed.
