(* ===== verification/CEffects.v ===== *)
(** * What the C programs ask of the system

    The C sources of the gateway act on the outside world through the C library,
    POSIX calls and [libmosquitto].  [CEffect] names those actions, in the order
    in which a program performs them; what a call returned is an argument of the
    definition that makes the call. *)

From Stdlib Require Import Ascii.
From S2P Require Import Prelude.

(** The fields of [struct termios] that the sources assign. *)
Record Termios := mkTermios {
  c_iflag : Z; c_oflag : Z; c_cflag : Z; c_lflag : Z; vmin : Z; vtime : Z
}.

(** The calls of [libmosquitto], with their client and, where a program branches
    on it, what they returned. *)
Inductive MqttCall :=
  | LibInit
  | New (id : text) (result : option Z)
  | Connect (mosq : Z) (host : text) (port keepalive : Z) (result : Z)
  | Publish (mosq : Z) (topic : text) (payloadlen : Z) (payload : text) (qos : Z) (retain : bool)
  | LoopOnce (mosq : Z) (timeout max_packets : Z)
  | Disconnect (mosq : Z)
  | Destroy (mosq : Z)
  | LibCleanup.

(** A format is kept as the source spells it, its arguments as they print. *)
Inductive CEffect :=
  | Printf (format : text) (args : list text)
  | Perror (msg : text)
  | Sleep (seconds : Z)
  | Open (path : text) (result : Z)
  | Close (fd : Z)
  | Tcflush (fd : Z)
  | Tcsetattr (fd : Z) (options : Termios)
  | Fopen (path : text) (result : bool)    (* in mode a; whether a stream was returned *)
  | Fprintf (path line : text)             (* to the stream opened on [path] *)
  | Fclose (path : text)
  | Mqtt (call : MqttCall).

(** The descriptors opened and closed, the lines written to a file, the calls of
    [libmosquitto]. *)
Definition opened_fds (out : list CEffect) : list Z :=
  omap (fun e => match e with Open _ fd => if fd <? 0 then None else Some fd | _ => None end) out.

Definition closed_fds (out : list CEffect) : list Z :=
  omap (fun e => match e with Close fd => Some fd | _ => None end) out.

Definition lines_of (path : text) (out : list CEffect) : list text :=
  omap (fun e => match e with Fprintf p l => if decide (p = path) then Some l else None | _ => None end) out.

Definition mqtt_calls (out : list CEffect) : list MqttCall :=
  omap (fun e => match e with Mqtt c => Some c | _ => None end) out.

Lemma opened_fds_app a b : opened_fds (a ++ b) = opened_fds a ++ opened_fds b.
Proof. apply omap_app. Qed.
Lemma closed_fds_app a b : closed_fds (a ++ b) = closed_fds a ++ closed_fds b.
Proof. apply omap_app. Qed.
Lemma lines_of_app path a b : lines_of path (a ++ b) = lines_of path a ++ lines_of path b.
Proof. apply omap_app. Qed.
Lemma mqtt_calls_app a b : mqtt_calls (a ++ b) = mqtt_calls a ++ mqtt_calls b.
Proof. apply omap_app. Qed.

(** ** Streams *)

(** The sources hold one [FILE] at a time.  The stream that is open after an
    effect, or [None] when the effect is wrong: a second stream while one is
    open, a line for a stream that is not open, a stream closed twice. *)
Definition stream_next (open : option text) (e : CEffect) : option (option text) :=
  match e, open with
  | Fopen path true, None => Some (Some path)
  | Fopen _ true, Some _ => None
  | Fprintf path _, Some p => if decide (p = path) then Some open else None
  | Fclose path, Some p => if decide (p = path) then Some None else None
  | (Fprintf _ _ | Fclose _), None => None
  | _, _ => Some open
  end.

Fixpoint stream_run (open : option text) (out : list CEffect) : option (option text) :=
  match out with
  | [] => Some open
  | e :: out' =>
      match stream_next open e with
      | Some open' => stream_run open' out'
      | None => None
      end
  end.

Lemma stream_run_app open a b :
  stream_run open (a ++ b)
  = match stream_run open a with Some open' => stream_run open' b | None => None end.
Proof. revert open. induction a as [|e a IH]; intros open; cbn; [done|]. by destruct (stream_next _ _). Qed.

(** From no open stream to no open stream: every stream that was opened has been
    closed, once, and all that was written went to the stream that was open. *)
Definition tidy (out : list CEffect) : Prop := stream_run None out = Some None.

Lemma tidy_app a b : tidy a -> tidy b -> tidy (a ++ b).
Proof. unfold tidy. by rewrite stream_run_app; intros ->. Qed.

Lemma tidy_cons e out : stream_next None e = Some None -> tidy out -> tidy (e :: out).
Proof. unfold tidy. cbn. by intros ->. Qed.
