(* ===== verification/DataSource.v ===== *)
(** * The data source of the C gateway

    Models [data_source.c], which the preprocessor compiles in one of two
    versions: [Mock] hands out five canned lines in turn, [Serial] reads the
    characters of a serial port up to an end of line or a time-out.  Both
    implement the interface [DataSource], against which the gateway is proved. *)

From Stdlib Require Import Ascii.
From S2P Require Import Prelude.
From S2P Require Import CText.
From S2P Require Import HandUart.
From S2P Require Import CEffects.

(** What the system returned to the calls of the module; [reads] are the
    successive one-character [read]s. *)
Record SourceInput := mkInput {
  open_ret : Z; getattr : Z * Termios; tcflush_ret : Z; tcsetattr_ret : Z; close_ret : Z;
  reads : list (SysRet * ascii)
}.

(** The end of a [data_source_read]: it has not returned with the reads at hand;
    it wrote outside the buffer; it returned a code, with the new contents of
    the buffer, the module's state and the reads it left. *)
Inductive ReadEnd (S : Type) :=
  | Blocked
  | OutOfBounds
  | Returned (code : Z) (buf : option (list ascii)) (state : S) (out : list CEffect)
      (rest : list (SysRet * ascii)).
Arguments Blocked {S}.
Arguments OutOfBounds {S}.
Arguments Returned {S}.

(** The interface of [data_source.h]. *)
Class DataSource (S : Type) := {
  data_source_init : SourceInput -> S -> Z * S * list CEffect;
  data_source_read : SourceInput -> S -> option (list ascii) -> Z -> ReadEnd S;
  data_source_cleanup : SourceInput -> S -> S * list CEffect;
}.

(** The effects a data source may have: it writes no file and sends no message,
    what it prints starts with "data source", and it opens no stream. *)
Definition source_effect (e : CEffect) : bool :=
  match e with
  | Fopen _ _ | Fprintf _ _ | Fclose _ | Mqtt _ => false
  | Printf format _ => bool_decide (take 11 format = txt "data source")
  | Perror msg => negb (bool_decide (take 5 msg = txt "fopen"))
  | _ => true
  end.

(** A descriptor that was opened is either held or has been closed. *)
Definition balanced (out : list CEffect) (held : list Z) : Prop :=
  opened_fds out = closed_fds out ++ held.

(** What the gateway relies on: [held] are the descriptors the module has open. *)
Class DataSourceLaws (S : Type) `{DataSource S} := {
  fresh : S -> Prop;
  ready : S -> Prop;
  held : S -> list Z;
  fresh_law s : fresh s -> held s = [];
  init_law inp s : fresh s ->
    let '(code, s', out) := data_source_init inp s in
    balanced out (held s') /\ Forall (fun e => source_effect e = true) out
    /\ (if decide (code = 0) then ready s' else held s' = []);
  read_law inp s buf size : ready s -> 1 < size -> length buf = Z.to_nat size ->
    match data_source_read inp s (Some buf) size with
    | Blocked => True
    | OutOfBounds => False
    | Returned code buf' s' out _ =>
        ready s' /\ held s' = held s /\ opened_fds out = [] /\ closed_fds out = []
        /\ Forall (fun e => source_effect e = true) out /\ (code = 0 \/ code = -1)
        /\ exists b, buf' = Some b /\ length b = length buf
                    /\ (code = 0 -> (length (c_string b) < length b)%nat)
    end;
  cleanup_law inp s : ready s ->
    let '(s', out) := data_source_cleanup inp s in
    opened_fds out = [] /\ closed_fds out = held s /\ held s' = []
    /\ Forall (fun e => source_effect e = true) out;
}.

(** ** The canned lines *)

Module Mock.

Definition mock_data_list : list text :=
  [txt "temp=25,humi=60,device_id=stm32_01";
   txt "temp=26,humi=61,device_id=stm32_01";
   txt "bad data_from_stm32";
   txt "temp=28,humi=63,device_id=stm32_01";
   txt "temp=29,humi=64,device_id=stm32_01"].

Record State := mkState { mock_index : Z }.

Definition init_state : State := mkState 0.

Definition data_source_init (st : State) : Z * State * list CEffect :=
  (0, st, [Printf (txt "data source:mock mode\n") []]).

Definition data_source_read (inp : SourceInput) (st : State) (buf : option (list ascii))
    (buf_size : Z) : ReadEnd State :=
  match buf with
  | Some buf =>
      if buf_size <=? 0 then Returned (-1) (Some buf) st [] (reads inp)
      else
        let count := Z.of_nat (length mock_data_list) in
        match mock_data_list !! Z.to_nat (mock_index st) with
        | Some line =>
            match store_string buf (take (Z.to_nat buf_size - 1) line) with
            | Some buf =>
                let st := mkState (mock_index st + 1) in
                let st := if count <=? mock_index st then mkState 0 else st in
                Returned 0 (Some buf) st [Sleep 2] (reads inp)
            | None => OutOfBounds
            end
        | None => OutOfBounds
        end
  | None => Returned (-1) None st [] (reads inp)
  end.

Definition data_source_cleanup (st : State) : State * list CEffect :=
  (st, [Printf (txt "data source cleanup\n") []]).

Definition index_ok (st : State) : Prop := 0 <= mock_index st < Z.of_nat (length mock_data_list).

(** With a valid index, a read stores the canned line, cut to the buffer, and
    steps to the next line, the first after the last. *)
Lemma read_line inp st buf buf_size :
  index_ok st -> 0 < buf_size -> (Z.to_nat buf_size <= length buf)%nat ->
  exists line buf',
    mock_data_list !! Z.to_nat (mock_index st) = Some line
    /\ data_source_read inp st (Some buf) buf_size
       = Returned 0 (Some buf') (mkState ((mock_index st + 1) mod Z.of_nat (length mock_data_list)))
           [Sleep 2] (reads inp)
    /\ c_string buf' = take (Z.to_nat buf_size - 1) line /\ length buf' = length buf
    /\ index_ok (mkState ((mock_index st + 1) mod Z.of_nat (length mock_data_list))).
Proof.
  intros Hi Hs Hb. unfold data_source_read. rewrite (proj2 (Z.leb_gt _ _)) by lia.
  destruct (mock_data_list !! Z.to_nat (mock_index st)) as [line|] eqn:El;
    [|apply lookup_ge_None in El; unfold index_ok in Hi; lia].
  assert (no_nul line) as Hn.
  { assert (Forall no_nul mock_data_list) as Ha by (apply (bool_decide_unpack _); vm_compute; exact I).
    by eapply Forall_lookup_1. }
  unfold store_string. rewrite decide_True by (rewrite length_take; lia).
  eexists line, _. split; [done|]. cbn [mock_index]. split; [|split_and!].
  - f_equal. unfold index_ok in Hi. change (Z.of_nat (length mock_data_list)) with 5 in *.
    destruct (Z.leb_spec 5 (mock_index st + 1)).
    + by replace (mock_index st) with 4 by lia.
    + by rewrite Z.mod_small by lia.
  - apply c_string_app. intros Hin%subseteq_take. by apply Hn.
  - rewrite length_app. cbn [length]. rewrite length_drop, length_take. lia.
  - unfold index_ok. apply Z.mod_pos_bound. done.
Qed.
End Mock.

#[export] Instance Mock_source : DataSource Mock.State := {
  data_source_init _ := Mock.data_source_init;
  data_source_read := Mock.data_source_read;
  data_source_cleanup _ := Mock.data_source_cleanup;
}.

#[export] Program Instance Mock_laws : DataSourceLaws Mock.State := {
  fresh := Mock.index_ok;
  ready := Mock.index_ok;
  held _ := [];
}.
Next Obligation. done. Qed.
Next Obligation. intros inp s Hi. cbn. split_and!; [done|by repeat constructor|done]. Qed.
Next Obligation.
  intros inp s buf size Hi Hs Hb. change (data_source_read inp s) with (Mock.data_source_read inp s).
  destruct (Mock.read_line inp s buf size Hi) as (line & buf' & _ & -> & Hc & Hl & Hi'); [lia..|].
  split_and!; try done; [by repeat constructor|by left|].
  exists buf'. split_and!; try done. intros _. rewrite Hc, Hl, length_take. lia.
Qed.
Next Obligation. intros inp s _. cbn. split_and!; [done..|by repeat constructor]. Qed.
