(* ===== verification/SerialSource.v ===== *)
(** * The serial data source of the C gateway

    Models the version of [data_source.c] that reads a serial port: the set-up of
    the port, [data_source_read], which collects the characters of one line, and
    the closing of the descriptor.  The constants and functions of [termios.h]
    are the fields of a record. *)

From Stdlib Require Import Ascii.
From S2P Require Import Prelude.
From S2P Require Import CText.
From S2P Require Import HandUart.
From S2P Require Import CEffects.
From S2P Require Import DataSource.

(** ** What [termios.h] provides *)

Record TermiosLib := mkLib {
  PARENB : Z; CSTOPB : Z; CSIZE : Z; CS8 : Z; CREAD : Z; CLOCAL : Z; CRTSCTS : Z;
  IXON : Z; IXOFF : Z; IXANY : Z; IGNBRK : Z; BRKINT : Z; PARMRK : Z; ISTRIP : Z;
  INLCR : Z; IGNCR : Z; ICRNL : Z; ICANON : Z; ECHO : Z; ECHOE : Z; ISIG : Z; OPOST : Z;
  B115200 : Z;
  cfsetispeed : Termios -> Z -> Z * Termios;
  cfsetospeed : Termios -> Z -> Z * Termios
}.

(** ["/dev/ttyUSB0"] *)
Definition SERIAL_DEV : text := txt "/dev/ttyUSB0".

(** [x &= ~mask] *)
Definition clear (x mask : Z) : Z := Z.land x (Z.lnot mask).

Definition any (masks : list Z) : Z := foldr Z.lor 0 masks.

Module Serial.

Record State := mkState { serial_fd : Z }.

Definition init_state : State := mkState (-1).

(** ** Opening *)

Section lib.
Context (lib : TermiosLib).

(** The assignments to the fields of [options]. *)
Definition raw_8n1 (options : Termios) : Termios :=
  let c_cflag := clear (c_cflag options) (any [PARENB lib; CSTOPB lib; CSIZE lib]) in
  let c_cflag := Z.lor c_cflag (CS8 lib) in
  let c_cflag := Z.lor c_cflag (any [CREAD lib; CLOCAL lib]) in
  let c_cflag := clear c_cflag (CRTSCTS lib) in
  let c_iflag := clear (c_iflag options) (any [IXON lib; IXOFF lib; IXANY lib]) in
  let c_iflag := clear c_iflag (any [IGNBRK lib; BRKINT lib; PARMRK lib; ISTRIP lib; INLCR lib;
                                     IGNCR lib; ICRNL lib]) in
  let c_lflag := clear (c_lflag options) (any [ICANON lib; ECHO lib; ECHOE lib; ISIG lib]) in
  let c_oflag := clear (c_oflag options) (OPOST lib) in
  mkTermios c_iflag c_oflag c_cflag c_lflag 0 10.

Definition serial_configure (inp : SourceInput) (fd : Z) : Z * list CEffect :=
  let '(getattr_ret, options) := getattr inp in
  if negb (getattr_ret =? 0) then (-1, [Perror (txt "tcgetattr failed")])
  else
    let '(iret, options) := cfsetispeed lib options (B115200 lib) in
    if negb (iret =? 0) then (-1, [Perror (txt "set baud rate failed")])
    else
      let '(oret, options) := cfsetospeed lib options (B115200 lib) in
      if negb (oret =? 0) then (-1, [Perror (txt "set baud rate failed")])
      else
        let options := raw_8n1 options in
        if negb (tcflush_ret inp =? 0) then (-1, [Tcflush fd; Perror (txt "tcflush failed")])
        else if negb (tcsetattr_ret inp =? 0)
        then (-1, [Tcflush fd; Tcsetattr fd options; Perror (txt "tcsetattr failed")])
        else (0, [Tcflush fd; Tcsetattr fd options]).

Definition data_source_init (inp : SourceInput) (st : State) : Z * State * list CEffect :=
  let serial_fd := open_ret inp in
  if serial_fd <? 0 then
    (-1, mkState serial_fd, [Open SERIAL_DEV serial_fd; Perror (txt "open serial device failed")])
  else
    let '(code, out) := serial_configure inp serial_fd in
    if negb (code =? 0) then (-1, mkState (-1), Open SERIAL_DEV serial_fd :: out ++ [Close serial_fd])
    else (0, mkState serial_fd,
          Open SERIAL_DEV serial_fd :: out
          ++ [Printf (txt "data source: serial mode, device=%s\n") [SERIAL_DEV]]).
End lib.

(** ** Reading *)

(** The [while] loop from [total] on and what follows it. *)
Fixpoint read_loop (st : State) (buf : list ascii) (buf_size : Z) (total : nat)
    (reads : list (SysRet * ascii)) : ReadEnd State :=
  let finish reads :=
    match store buf total NUL with
    | None => OutOfBounds
    | Some buf => Returned (if (total =? 0)%nat then -1 else 0) (Some buf) st [] reads
    end in
  if Z.of_nat total <? buf_size - 1 then
    match reads with
    | [] => Blocked
    | (received, ch) :: reads' =>
        if 0 <? ret received then
          if bool_decide (ch = CR) || bool_decide (ch = LF) then
            if (0 <? total)%nat then finish reads' else read_loop st buf buf_size total reads'
          else
            match store buf total ch with
            | None => OutOfBounds
            | Some buf => read_loop st buf buf_size (S total) reads'
            end
        else if ret received =? 0 then finish reads'
        else if errno received =? EINTR then read_loop st buf buf_size total reads'
        else Returned (-1) (Some buf) st [Perror (txt "read serial device failed")] reads'
    end
  else finish reads.

Definition data_source_read (inp : SourceInput) (st : State) (buf : option (list ascii))
    (buf_size : Z) : ReadEnd State :=
  match buf with
  | None => Returned (-1) None st [] (reads inp)
  | Some b =>
      if (buf_size <=? 1) || (serial_fd st <? 0) then Returned (-1) (Some b) st [] (reads inp)
      else
        match store b 0 NUL with
        | None => OutOfBounds
        | Some b => read_loop st b buf_size 0 (reads inp)
        end
  end.

Definition data_source_cleanup (inp : SourceInput) (st : State) : State * list CEffect :=
  if 0 <=? serial_fd st then
    (mkState (-1),
     Close (serial_fd st)
     :: (if negb (close_ret inp =? 0) then [Perror (txt "close serial device failed")] else [])
     ++ [Printf (txt "data source cleanup\n") []])
  else (st, [Printf (txt "data source cleanup\n") []]).

(** ** Reference: one line of the port *)

(** What a [read] meant, interrupted ones aside. *)
Inductive Event := Byte (c : ascii) | Timeout | Failure.

Definition event_of (r : SysRet * ascii) : option Event :=
  if 0 <? ret r.1 then Some (Byte r.2)
  else if ret r.1 =? 0 then Some Timeout
  else if errno r.1 =? EINTR then None else Some Failure.

Definition events : list (SysRet * ascii) -> list Event := omap event_of.

Definition is_eol (c : ascii) : bool := bool_decide (c = CR) || bool_decide (c = LF).
Definition in_line (c : ascii) : bool := negb (is_eol c).
Abbreviation bytes t := (Byte <$> t).

(** A call that may store [limit] characters takes [evs] to [rest] and yields
    the line [Some t], or fails: the ends of line before the line are skipped;
    the line ends where it fills the buffer, at an end of line or at a time-out;
    a time-out before the line and an error of the port are failures. *)
Inductive ReadSpec (limit : nat) : list Event -> option text -> list Event -> Prop :=
  | read_full eols t rest :
      all is_eol eols -> all in_line t -> length t = limit ->
      ReadSpec limit (bytes (eols ++ t) ++ rest) (Some t) rest
  | read_eol eols t c rest :
      all is_eol eols -> all in_line t -> (0 < length t < limit)%nat -> is_eol c = true ->
      ReadSpec limit (bytes (eols ++ t) ++ Byte c :: rest) (Some t) rest
  | read_timeout eols t rest :
      all is_eol eols -> all in_line t -> (0 < length t < limit)%nat ->
      ReadSpec limit (bytes (eols ++ t) ++ Timeout :: rest) (Some t) rest
  | read_nothing eols rest :
      all is_eol eols -> ReadSpec limit (bytes eols ++ Timeout :: rest) None rest
  | read_error eols t rest :
      all is_eol eols -> all in_line t -> (length t < limit)%nat ->
      ReadSpec limit (bytes (eols ++ t) ++ Failure :: rest) None rest.

(** The code and the buffer say [r]. *)
Definition outcome (code : Z) (buf : list ascii) (r : option text) : Prop :=
  match r with
  | Some t => code = 0 /\ exists pad, buf = t ++ NUL :: pad
  | None => code = -1
  end.

Lemma store_at (t pad : text) c :
  pad <> [] -> store (t ++ pad) (length t) c = Some (t ++ c :: drop 1 pad).
Proof.
  destruct pad as [|p pad]; [done|]. intros _. unfold store.
  rewrite decide_True by (rewrite length_app; cbn; lia).
  f_equal. rewrite insert_app_r_alt by lia. by rewrite Nat.sub_diag.
Qed.

(** The end of the loop once the [reads] left mean [evs]. *)
Lemma read_loop_sound st buf_size reads eols t pad code buf' st' out rest :
  all is_eol eols -> all in_line t -> Z.of_nat (length t) < buf_size -> pad <> [] ->
  Z.of_nat (length (t ++ pad)) = buf_size -> 1 < buf_size ->
  read_loop st (t ++ pad) buf_size (length t) reads = Returned code (Some buf') st' out rest ->
  exists r, ReadSpec (Z.to_nat buf_size - 1) (bytes (eols ++ t) ++ events reads) r (events rest)
            /\ outcome code buf' r /\ st' = st.
Proof.
  intros He Ht Hlt Hp Hl Hs. revert eols t pad He Ht Hlt Hp Hl.
  induction reads as [|[r ch] reads IH]; intros eols t pad He Ht Hlt Hp Hl; cbn [read_loop].
  - destruct (Z.ltb_spec (Z.of_nat (length t)) (buf_size - 1)); [done|].
    rewrite store_at by done. intros [= <- <- <- <- <-]. exists (Some t).
    split_and!; [apply read_full; [done..|lia]| |done].
    destruct t; cbn in *; [lia|]. by eauto.
  - destruct (Z.ltb_spec (Z.of_nat (length t)) (buf_size - 1)) as [Hlt'|].
    2:{ rewrite store_at by done. intros [= <- <- <- <- <-]. exists (Some t).
        split_and!; [apply read_full; [done..|lia]| |done].
        destruct t; cbn in *; [lia|]. by eauto. }
    unfold events at 1. cbn [omap list_omap]. unfold event_of at 1. cbn [fst snd].
    destruct (0 <? ret r).
    + fold (is_eol ch). destruct (is_eol ch) eqn:Hch.
      * destruct t as [|c t].
        { cbn [length]. intros Hr. destruct (IH (eols ++ [ch]) [] pad) as (q & Hq & ?); try done.
          { by apply Forall_app; repeat constructor. }
          exists q. split; [|done].
          rewrite !app_nil_r, fmap_app in *. rewrite <- app_assoc in Hq. exact Hq. }
        rewrite (store_at (c :: t) pad NUL) by done. cbn [length Nat.ltb Nat.leb Nat.eqb].
        intros [= <- <- <- <- <-]. exists (Some (c :: t)).
        split_and!; [apply read_eol; [done..|cbn in *; lia|done]|by cbn; eauto|done].
      * rewrite store_at by done. intros Hr.
        destruct pad as [|p [|p' pad]]; [done|rewrite length_app in Hl; cbn in Hl; lia|].
        cbn [drop] in Hr. rewrite cons_middle, app_assoc in Hr.
        replace (S (length t)) with (length (t ++ [ch])) in Hr by (rewrite length_app; cbn; lia).
        destruct (IH eols (t ++ [ch]) (p' :: pad)) as (q & Hq & ?); try done.
        { apply Forall_app. split; [done|]. repeat constructor. unfold in_line. by rewrite Hch. }
        { rewrite length_app. cbn. lia. }
        { rewrite !length_app in *. cbn in *. lia. }
        exists q. split; [|done]. rewrite !fmap_app, <- !app_assoc in *. exact Hq.
    + destruct (ret r =? 0).
      * rewrite store_at by done. intros [= <- <- <- <- <-]. destruct t as [|c t].
        { exists None. rewrite app_nil_r. split_and!; [by apply read_nothing|done..]. }
        exists (Some (c :: t)). split_and!; [apply read_timeout; [done..|cbn in *; lia]|by cbn; eauto|done].
      * destruct (errno r =? EINTR); [by apply IH|].
        intros [= <- <- <- <- <-]. exists None. split_and!; [apply read_error; [done..|lia]|done..].
Qed.

(** No write is outside the buffer, and the buffer of a call that succeeded
    holds a string. *)
Lemma read_loop_safe st buf buf_size total reads :
  Z.of_nat (length buf) = buf_size -> 1 < buf_size -> (total < length buf)%nat ->
  match read_loop st buf buf_size total reads with
  | Blocked => True
  | OutOfBounds => False
  | Returned code buf' st' out _ =>
      st' = st /\ (out = [] \/ out = [Perror (txt "read serial device failed")]) /\ (code = 0 \/ code = -1)
      /\ exists b, buf' = Some b /\ length b = length buf /\ (code = 0 -> NUL ∈ b)
  end.
Proof.
  intros Hl Hs. revert buf total Hl.
  assert (forall (b : list ascii) total rest, (total < length b)%nat ->
    match match store b total NUL with
          | None => OutOfBounds
          | Some b => Returned (if (total =? 0)%nat then -1 else 0) (Some b) st [] rest
          end with
    | Blocked => True
    | OutOfBounds => False
    | Returned code buf' st' out _ =>
        st' = st /\ (out = [] \/ out = [Perror (txt "read serial device failed")]) /\ (code = 0 \/ code = -1)
        /\ exists b', buf' = Some b' /\ length b' = length b /\ (code = 0 -> NUL ∈ b')
    end) as Hend.
  { intros b total rest Ht. unfold store. rewrite decide_True by done. split_and!; [done|auto| |].
    - destruct (total =? 0)%nat; auto.
    - eexists. split_and!; [done|apply length_insert|]. intros _. by apply list_elem_of_insert. }
  induction reads as [|[r ch] reads IH]; intros buf total Hl Ht; cbn [read_loop].
  - destruct (_ <? _); [done|by apply Hend].
  - destruct (Z.ltb_spec (Z.of_nat total) (buf_size - 1)); [|by apply Hend].
    destruct (0 <? ret r).
    + destruct (_ || _); [destruct (0 <? total)%nat; [by apply Hend|by apply IH]|].
      unfold store at 1. rewrite decide_True by done.
      specialize (IH (<[total:=ch]> buf) (S total)). rewrite length_insert in IH. apply IH; [done|lia].
    + destruct (ret r =? 0); [by apply Hend|]. destruct (errno r =? EINTR); [by apply IH|].
      split_and!; eauto. exists buf. split_and!; [done..|]. discriminate.
Qed.

(** The first event of the stream is the first read that was not interrupted. *)
Lemma read_loop_event st buf buf_size total reads e evs :
  Z.of_nat total < buf_size - 1 -> events reads = e :: evs ->
  exists r reads', event_of r = Some e /\ events reads' = evs
    /\ read_loop st buf buf_size total reads = read_loop st buf buf_size total (r :: reads').
Proof.
  intros Ht. induction reads as [|r reads IH]; [done|]. unfold events. cbn [omap list_omap].
  destruct (event_of r) as [e'|] eqn:E.
  - intros [= -> <-]. by exists r, reads.
  - intros Hev. destruct (IH Hev) as (r' & reads' & He & Hr & Heq). exists r', reads'.
    split_and!; [done..|]. rewrite <- Heq. destruct r as [r ch]. unfold event_of in E. cbn [fst snd] in E.
    cbn [read_loop]. rewrite (proj2 (Z.ltb_lt _ _)) by done.
    destruct (0 <? ret r); [done|]. destruct (ret r =? 0); [done|]. by destruct (errno r =? EINTR).
Qed.

Lemma event_byte r c : event_of r = Some (Byte c) -> (0 <? ret r.1) = true /\ r.2 = c.
Proof.
  unfold event_of. destruct (0 <? ret r.1); [by intros [= ->]|].
  destruct (ret r.1 =? 0); [done|]. by destruct (errno r.1 =? EINTR).
Qed.

Lemma read_loop_eols st buf buf_size reads eols evs :
  1 < buf_size -> all is_eol eols -> events reads = bytes eols ++ evs ->
  exists reads', events reads' = evs
    /\ read_loop st buf buf_size 0 reads = read_loop st buf buf_size 0 reads'.
Proof.
  intros Hs He. revert reads. induction He as [|c eols Hc _ IH]; intros reads Hev; [by exists reads|].
  apply (read_loop_event st buf buf_size 0) in Hev as (r & reads1 & Hr & Hev & ->); [|cbn; lia].
  destruct (IH reads1 Hev) as (reads' & Hev' & Heq). exists reads'. split; [done|]. rewrite <- Heq.
  destruct r as [r ch]. apply event_byte in Hr as [Hr <-]. cbn [fst snd] in *. cbn [read_loop].
  rewrite (proj2 (Z.ltb_lt _ _)), Hr by (cbn; lia). fold (is_eol ch). by rewrite Hc.
Qed.

Lemma read_loop_text st buf_size reads t l pad evs :
  all in_line l -> Z.of_nat (length (t ++ l)) < buf_size ->
  Z.of_nat (length (t ++ pad)) = buf_size -> events reads = bytes l ++ evs ->
  exists reads', events reads' = evs
    /\ read_loop st (t ++ pad) buf_size (length t) reads
       = read_loop st ((t ++ l) ++ drop (length l) pad) buf_size (length (t ++ l)) reads'.
Proof.
  intros Hl. revert t pad reads. induction Hl as [|c l Hc _ IH]; intros t pad reads Hlt Hb Hev.
  { exists reads. by rewrite !app_nil_r. }
  rewrite !length_app in *. cbn [length] in Hlt.
  apply (read_loop_event st (t ++ pad) buf_size (length t)) in Hev as (r & reads1 & Hr & Hev & ->); [|lia].
  destruct pad as [|p pad]; [cbn in Hb; lia|]. cbn [length] in Hb.
  destruct (IH (t ++ [c]) pad reads1) as (reads' & Hev' & Heq); [rewrite !length_app; cbn; lia..|done|].
  exists reads'. split; [done|]. rewrite <- (app_assoc t [c] l) in Heq.
  destruct r as [r ch]. apply event_byte in Hr as [Hr <-]. cbn [fst snd] in *. cbn [read_loop].
  rewrite (proj2 (Z.ltb_lt _ _)), Hr by lia. fold (is_eol ch).
  unfold in_line in Hc. apply negb_true_iff in Hc as ->. rewrite store_at by done. cbn [drop length].
  rewrite drop_0, (cons_middle ch t pad), (app_assoc t [ch] pad).
  rewrite (length_app t [ch]) in Heq. cbn [length] in Heq.
  rewrite Nat.add_1_r in Heq. rewrite Heq. by rewrite !length_app.
Qed.

(** The loop reaches the state where [t] has been stored, and the event that
    follows it is the next read. *)
Lemma read_loop_reach st buf buf_size reads eols t evs :
  1 < buf_size -> Z.of_nat (length buf) = buf_size ->
  all is_eol eols -> all in_line t -> Z.of_nat (length t) < buf_size ->
  events reads = bytes (eols ++ t) ++ evs ->
  exists reads' pad, events reads' = evs /\ pad <> [] /\ Z.of_nat (length (t ++ pad)) = buf_size
    /\ read_loop st buf buf_size 0 reads = read_loop st (t ++ pad) buf_size (length t) reads'.
Proof.
  intros Hs Hb He Ht Hlt Hevs. rewrite fmap_app, <- app_assoc in Hevs.
  destruct (read_loop_eols st buf buf_size reads eols _ Hs He Hevs) as (reads1 & Hev1 & ->).
  destruct (read_loop_text st buf_size reads1 [] t buf evs Ht) as (reads2 & Hev2 & Heq); [done..|].
  cbn [app length] in Heq. rewrite Heq. exists reads2, (drop (length t) buf). split_and!; [done| |..|done].
  - intros Hd%(f_equal length). rewrite length_drop in Hd. cbn in Hd. lia.
  - rewrite length_app, length_drop. lia.
Qed.

Lemma read_loop_reach_event st buf buf_size reads eols t e evs :
  1 < buf_size -> Z.of_nat (length buf) = buf_size ->
  all is_eol eols -> all in_line t -> Z.of_nat (length t) < buf_size - 1 ->
  events reads = bytes (eols ++ t) ++ e :: evs ->
  exists r reads' pad, event_of r = Some e /\ events reads' = evs /\ pad <> []
    /\ read_loop st buf buf_size 0 reads = read_loop st (t ++ pad) buf_size (length t) (r :: reads').
Proof.
  intros Hs Hb He Ht Hlt Hevs.
  destruct (read_loop_reach st buf buf_size reads eols t (e :: evs)) as (reads1 & pad & Hev & Hp & _ & ->);
    [done..|lia|done|].
  destruct (read_loop_event st (t ++ pad) buf_size (length t) reads1 e evs Hlt Hev)
    as (r & reads' & Hr & Hev' & ->). by eexists r, reads', pad.
Qed.

(** One turn at the end of the line. *)
Ltac last_turn q Hq :=
  unfold event_of in Hq; cbn [fst snd] in Hq; cbn [read_loop];
  rewrite (proj2 (Z.ltb_lt _ _)) by (cbn in *; lia);
  destruct (0 <? ret q); [try done|destruct (ret q =? 0); [try done|destruct (errno q =? EINTR); try done]].

(** A stream that has a line, or a failure, is read to it. *)
Lemma read_loop_complete st buf buf_size reads r evs :
  1 < buf_size -> Z.of_nat (length buf) = buf_size ->
  ReadSpec (Z.to_nat buf_size - 1) (events reads) r evs ->
  exists code buf' st' out rest,
    read_loop st buf buf_size 0 reads = Returned code (Some buf') st' out rest
    /\ outcome code buf' r /\ events rest = evs.
Proof.
  intros Hs Hb Hspec. remember (events reads) as evs0 eqn:Hev. symmetry in Hev.
  destruct Hspec as [eols t rest He Ht Hfull|eols t c rest He Ht Hlt Hc|eols t rest He Ht Hlt
                    |eols rest He|eols t rest He Ht Hlt].
  - destruct (read_loop_reach st buf buf_size reads eols t rest) as (reads' & pad & Hev' & Hp & Hl & ->);
      [done..|lia|done|].
    exists 0, (t ++ NUL :: drop 1 pad), st, [], reads'. split; [|split; [split; [done|eauto]|done]].
    destruct reads' as [|[]]; cbn [read_loop];
      by rewrite (proj2 (Z.ltb_ge _ _)), store_at, (proj2 (Nat.eqb_neq _ _)) by (done || lia).
  - destruct (read_loop_reach_event st buf buf_size reads eols t (Byte c) rest)
      as ([q ch] & reads' & pad & Hq & Hev' & Hp & ->); [done..|lia|done|]. last_turn q Hq.
    injection Hq as <-. fold (is_eol ch).
    rewrite Hc, (proj2 (Nat.ltb_lt _ _)), store_at, (proj2 (Nat.eqb_neq _ _)) by (done || lia).
    eexists _, _, _, _, _. split; [done|]. split; [|done]. split; [done|]. eauto.
  - destruct (read_loop_reach_event st buf buf_size reads eols t Timeout rest)
      as ([q ch] & reads' & pad & Hq & Hev' & Hp & ->); [done..|lia|done|]. last_turn q Hq.
    rewrite store_at, (proj2 (Nat.eqb_neq _ _)) by (done || lia).
    eexists _, _, _, _, _. split; [done|]. split; [|done]. split; [done|]. eauto.
  - destruct (read_loop_reach_event st buf buf_size reads eols [] Timeout rest)
      as ([q ch] & reads' & pad & Hq & Hev' & Hp & ->); [done..|cbn; lia|by rewrite app_nil_r|].
    last_turn q Hq. rewrite store_at by done. by eexists _, _, _, _, _.
  - destruct (read_loop_reach_event st buf buf_size reads eols t Failure rest)
      as ([q ch] & reads' & pad & Hq & Hev' & Hp & ->); [done..|lia|done|]. last_turn q Hq.
    by eexists _, _, _, _, _.
Qed.

Definition opened (st : State) : Prop := 0 <= serial_fd st.

Lemma data_source_read_loop inp st buf buf_size :
  opened st -> 1 < buf_size -> Z.of_nat (length buf) = buf_size ->
  exists b, length b = length buf
    /\ data_source_read inp st (Some buf) buf_size = read_loop st b buf_size 0 (reads inp).
Proof.
  unfold opened. intros Ho Hs Hb. unfold data_source_read.
  rewrite (proj2 (Z.leb_gt _ _)), (proj2 (Z.ltb_ge _ _)) by lia. cbn [orb]. unfold store.
  rewrite decide_True by lia. eexists. split; [|done]. apply length_insert.
Qed.

(** The relation holds of at most one outcome, and of none exactly while the
    call blocks. *)
Lemma read_total inp st buf buf_size :
  opened st -> 1 < buf_size -> Z.of_nat (length buf) = buf_size ->
  match data_source_read inp st (Some buf) buf_size with
  | Blocked => forall r rest, ~ ReadSpec (Z.to_nat buf_size - 1) (events (reads inp)) r rest
  | OutOfBounds => False
  | Returned code buf' st' _ rest =>
      st' = st /\ exists b r, buf' = Some b /\ length b = length buf /\ outcome code b r
      /\ ReadSpec (Z.to_nat buf_size - 1) (events (reads inp)) r (events rest)
      /\ forall r' rest', ReadSpec (Z.to_nat buf_size - 1) (events (reads inp)) r' rest' ->
           outcome code b r' /\ rest' = events rest
  end.
Proof.
  intros Ho Hs Hb. destruct (data_source_read_loop inp st buf buf_size Ho Hs Hb) as (b0 & Hl0 & ->).
  rewrite <- Hl0 in Hb |- *.
  pose proof (read_loop_safe st b0 buf_size 0 (reads inp) Hb Hs ltac:(lia)) as Hsafe.
  assert (forall r rest, ReadSpec (Z.to_nat buf_size - 1) (events (reads inp)) r rest -> _) as Hc
    by (intros r rest; exact (read_loop_complete st b0 buf_size (reads inp) r rest Hs Hb)).
  destruct (read_loop st b0 buf_size 0 (reads inp)) as [| |code buf' st' out rest] eqn:E; [|done|].
  - intros r rest Hspec. destruct (Hc r rest Hspec) as (? & ? & ? & ? & ? & ? & _). done.
  - destruct Hsafe as (-> & _ & _ & b & -> & Hl & _). split; [done|].
    destruct b0 as [|c b0]; [cbn in *; lia|].
    destruct (read_loop_sound st buf_size (reads inp) [] [] (c :: b0) code b st out rest) as (r & Hr & Hout & _);
      [by constructor|by constructor|cbn; lia|done..|].
    exists b, r. split_and!; [done..|]. intros r' rest' Hspec.
    destruct (Hc r' rest' Hspec) as (? & ? & ? & ? & ? & Heq & Ho' & <-). by simplify_eq.
Qed.

(** Time-outs and failures end every call. *)
Lemma spec_exists limit evs :
  (0 < limit)%nat -> Timeout ∈ evs \/ Failure ∈ evs ->
  exists r rest, ReadSpec limit evs r rest.
Proof.
  intros Hlim Hin.
  assert (exists l e rest, evs = bytes l ++ e :: rest /\ (e = Timeout \/ e = Failure))
    as (l & e & rest & -> & He).
  { induction evs as [|[c| |] evs IH]; [by destruct Hin as [?%elem_of_nil|?%elem_of_nil]| | |].
    - destruct IH as (l & e & rest & -> & ?).
      { destruct Hin as [Hin|Hin]; apply elem_of_cons in Hin as [?|?]; (done || auto). }
      by exists (c :: l), e, rest.
    - exists [], Timeout, evs. auto.
    - exists [], Failure, evs. auto. }
  clear Hin. destruct (span is_eol l) as [eols l'] eqn:E1. apply span_spec in E1 as (-> & Heol & Hst).
  destruct (span in_line l') as [t l''] eqn:E2. apply span_spec in E2 as (-> & Ht & Hst').
  destruct (decide (limit <= length t)%nat).
  { rewrite <- (take_drop limit t), <- app_assoc, app_assoc, fmap_app, <- app_assoc.
    eexists _, _. apply read_full; [done|by apply Forall_take|rewrite length_take; lia]. }
  destruct l'' as [|c l''].
  - rewrite app_nil_r in *. destruct He as [-> | ->]; [destruct t as [|c t]|].
    + rewrite app_nil_r. eexists _, _. by apply read_nothing.
    + eexists _, _. apply read_timeout; [done..|cbn in *; lia].
    + eexists _, _. apply read_error; [done..|lia].
  - rewrite app_assoc, fmap_app, <- app_assoc. cbn. eexists _, _. apply read_eol; [done..| |].
    + destruct t as [|c' t]; [|cbn in *; lia]. cbn in Hst, Hst'. unfold in_line in Hst'.
      by rewrite Hst in Hst'.
    + cbn in Hst'. unfold in_line in Hst'. by apply negb_false_iff in Hst'.
Qed.

(** ** Reading a stream of lines *)

Definition with_reads (inp : SourceInput) (rs : list (SysRet * ascii)) : SourceInput :=
  mkInput (open_ret inp) (getattr inp) (tcflush_ret inp) (tcsetattr_ret inp) (close_ret inp) rs.

(** The strings that [n] successive calls store in the buffer, or [None] when
    one of them fails or does not return. *)
Fixpoint read_lines (n : nat) (inp : SourceInput) (st : State) (buf : list ascii) : option (list text) :=
  match n with
  | O => Some []
  | S n' =>
      match data_source_read inp st (Some buf) (Z.of_nat (length buf)) with
      | Returned code (Some buf') st' _ rest =>
          if code =? 0 then cons (c_string buf') <$> read_lines n' (with_reads inp rest) st' buf'
          else None
      | _ => None
      end
  end.

(** A line and the ends of line after it. *)
Definition line_ok (limit : nat) (l : text * text) : Prop :=
  l.1 <> [] /\ no_nul l.1 /\ all in_line l.1 /\ (length l.1 <= limit)%nat
  /\ l.2 <> [] /\ all is_eol l.2.

Lemma read_lines_exact inp st buf eols lines :
  opened st -> (1 < length buf)%nat -> all is_eol eols -> Forall (line_ok (length buf - 1)) lines ->
  events (reads inp) = bytes (eols ++ concat ((fun l => l.1 ++ l.2) <$> lines)) ->
  read_lines (length lines) inp st buf = Some lines.*1.
Proof.
  intros Ho Hs He Hl. revert inp buf eols He Hs Hl. induction lines as [|[l e] lines IH];
    intros inp buf eols He Hs Hl Hev; [done|].
  apply Forall_cons in Hl as [(Hne & Hn & Hin & Hlen & Hee & Heol) Hl]. cbn [fst snd] in *.
  assert (exists eols' rest, all is_eol eols' /\
    rest = bytes (eols' ++ concat ((fun l => l.1 ++ l.2) <$> lines)) /\
    ReadSpec (length buf - 1) (events (reads inp)) (Some l) rest) as (eols' & rest & He' & Hrest & Hspec).
  { rewrite Hev. cbn [fmap list_fmap concat fst snd]. rewrite <- (app_assoc l e), (app_assoc eols l), fmap_app.
    destruct (decide (length l = length buf - 1)%nat).
    - exists e, (bytes (e ++ concat ((fun l => l.1 ++ l.2) <$> lines))). split_and!; [done..|by apply read_full].
    - destruct e as [|c e]; [done|]. apply Forall_cons in Heol as [Hc Heol]. exists e. eexists.
      split_and!; [done..|]. cbn [app fmap list_fmap]. apply read_eol; [done..| |done].
      destruct l; [done|]. cbn in *. lia. }
  cbn [length read_lines].
  pose proof (read_total inp st buf (Z.of_nat (length buf)) Ho ltac:(lia) eq_refl) as Ht.
  rewrite Nat2Z.id in Ht.
  destruct (data_source_read _ _ _ _) as [| |code buf' st' out rs]; [by apply Ht in Hspec|done|].
  destruct Ht as (-> & b & r & -> & Hb & _ & _ & Huniq). destruct (Huniq _ _ Hspec) as [[Hcode [pad Hpad]] Hrs].
  clear Huniq. subst code b.
  cbn [Z.eqb]. rewrite (IH (with_reads inp rs) _ eols' He').
  - cbn. by rewrite c_string_app.
  - by rewrite Hb.
  - by rewrite Hb.
  - cbn. by rewrite <- Hrs.
Qed.
(** ** The properties *)

(** C12: on an open port [data_source_read] never writes outside the buffer; it returns 0 with a
    string exactly when the port delivers a line in the sense of [ReadSpec] (leading ends of line
    skipped; ended by an end of line, a full buffer or a time-out), -1 exactly when there is none;
    it leaves the characters after the line; it blocks only while neither is decided, so a time-out
    or an error always ends it, and interrupted reads are without effect. *)
Theorem serial_read_exact inp st buf buf_size :
  opened st -> 1 < buf_size -> Z.of_nat (length buf) = buf_size ->
  match data_source_read inp st (Some buf) buf_size with
  | Blocked => (forall r rest, ~ ReadSpec (Z.to_nat buf_size - 1) (events (reads inp)) r rest)
               /\ Timeout ∉ events (reads inp) /\ Failure ∉ events (reads inp)
  | OutOfBounds => False
  | Returned code buf' st' _ rest =>
      st' = st /\ exists b r, buf' = Some b /\ length b = length buf /\ outcome code b r
      /\ ReadSpec (Z.to_nat buf_size - 1) (events (reads inp)) r (events rest)
      /\ forall r' rest', ReadSpec (Z.to_nat buf_size - 1) (events (reads inp)) r' rest' ->
           outcome code b r' /\ rest' = events rest
  end.
Proof.
  intros Ho Hs Hb. pose proof (read_total inp st buf buf_size Ho Hs Hb) as Ht.
  destruct (data_source_read _ _ _ _); [|done|done].
  assert (~ (Timeout ∈ events (reads inp) \/ Failure ∈ events (reads inp))) as Hn.
  { intros Hin. destruct (spec_exists (Z.to_nat buf_size - 1) _ ltac:(lia) Hin) as (r & rest & Hr).
    by apply Ht in Hr. }
  split_and!; [done|tauto..].
Qed.

(** The answers of a kernel that delivers these characters one by one. *)
Definition delivered (t : text) : list (SysRet * ascii) := (fun c => (mkRet 1 0, c)) <$> t.

Lemma serial_read_exact_witness :
  let inp := mkInput 3 (0, mkTermios 0 0 0 0 0 0) 0 0 0
               (delivered [LF] ++ [(mkRet (-1) EINTR, NUL)] ++ delivered (txt "a=1" ++ [CR])) in
  ReadSpec 7 (events (reads inp)) (Some (txt "a=1")) []
  /\ match data_source_read inp (mkState 3) (Some (replicate 8 NUL)) 8 with
     | Returned code buf' _ _ _ => exists b, buf' = Some b /\ outcome code b (Some (txt "a=1"))
     | _ => False
     end.
Proof.
  intros inp.
  assert (ReadSpec 7 (events (reads inp)) (Some (txt "a=1")) []) as Hspec.
  { apply (read_eol 7 [LF] (txt "a=1") CR []); [by repeat constructor|by repeat constructor|cbn; lia|done]. }
  split; [done|].
  pose proof (serial_read_exact inp (mkState 3) (replicate 8 NUL) 8 ltac:(done) ltac:(done) eq_refl) as H.
  revert H. destruct (data_source_read inp (mkState 3) (Some (replicate 8 NUL)) 8) as [| |code buf' st out rest].
  - intros [Hno _]. by apply Hno in Hspec.
  - done.
  - intros (_ & b & r & -> & _ & _ & _ & Hu). exists b. split; [done|]. by apply (Hu _ []).
Defined.

(** A stream of lines, each of 1 to [size - 1] characters and followed by at least one CR or
    LF, is read by successive calls line by line: nothing is lost, merged, cut or invented,
    wherever reads are interrupted. *)
Lemma serial_lines_arrive inp st buf eols lines :
  opened st -> (1 < length buf)%nat -> all is_eol eols -> Forall (line_ok (length buf - 1)) lines ->
  events (reads inp) = bytes (eols ++ concat ((fun l => l.1 ++ l.2) <$> lines)) ->
  read_lines (length lines) inp st buf = Some lines.*1.
Proof. apply read_lines_exact. Qed.

Lemma serial_lines_arrive_witness :
  read_lines 2 (mkInput 3 (0, mkTermios 0 0 0 0 0 0) 0 0 0
                  (delivered (txt "temp=1" ++ [CR; LF] ++ txt "humi=22" ++ [LF])))
    (mkState 3) (replicate 8 NUL)
  = Some [txt "temp=1"; txt "humi=22"].
Proof.
  apply (serial_lines_arrive _ _ _ [] [(txt "temp=1", [CR; LF]); (txt "humi=22", [LF])]).
  - done.
  - cbn. lia.
  - constructor.
  - apply (bool_decide_unpack _). vm_compute. exact I.
  - vm_compute. reflexivity.
Defined.
End Serial.

(** ** The interface *)

#[export] Instance Serial_source (lib : TermiosLib) : DataSource Serial.State := {
  data_source_init := Serial.data_source_init lib;
  data_source_read := Serial.data_source_read;
  data_source_cleanup := Serial.data_source_cleanup;
}.

#[export] Program Instance Serial_laws lib : @DataSourceLaws Serial.State (Serial_source lib) := {
  fresh st := Serial.serial_fd st < 0;
  ready := Serial.opened;
  held st := if Serial.serial_fd st <? 0 then [] else [Serial.serial_fd st];
}.
Next Obligation. intros _ st Hst. cbn in *. by rewrite (proj2 (Z.ltb_lt _ _)). Qed.
Next Obligation.
  intros lib inp st Hst. cbn. unfold Serial.data_source_init.
  destruct (Z.ltb_spec (open_ret inp) 0) as [Hneg|Hpos]; cbn.
  { rewrite (proj2 (Z.ltb_lt _ _) Hneg). unfold balanced. cbn. rewrite (proj2 (Z.ltb_lt _ _) Hneg).
    split_and!; [done|by repeat constructor|done]. }
  assert (forall tail, Forall (fun e => source_effect e = true) tail -> opened_fds tail = [] ->
    opened_fds (Open SERIAL_DEV (open_ret inp) :: tail) = [open_ret inp]) as Hop.
  { intros tail _ Ht. cbn. rewrite (proj2 (Z.ltb_ge _ _) Hpos). unfold opened_fds in Ht. by rewrite Ht. }
  destruct (Serial.serial_configure lib inp (open_ret inp)) as [code out] eqn:E.
  assert (Forall (fun e => source_effect e = true) out /\ opened_fds out = [] /\ closed_fds out = [])
    as (Hf & Ho & Hc).
  { revert E. unfold Serial.serial_configure. destruct (getattr inp) as [g options].
    repeat case_match; intros [= <- <-]; cbn; split_and!; try done; repeat constructor. }
  destruct (code =? 0); cbn [negb]; unfold balanced.
  - rewrite Hop, decide_True; cbn; rewrite ?opened_fds_app, ?Ho; try done.
    + rewrite (proj2 (Z.ltb_ge _ _) Hpos). fold (closed_fds (out ++ [Printf (txt "data source: serial mode, device=%s\n") [SERIAL_DEV]])).
      rewrite closed_fds_app, Hc. split_and!; [done| |done].
      constructor; [done|]. apply Forall_app. split; [done|by repeat constructor].
    + apply Forall_app. split; [done|by repeat constructor].
  - rewrite Hop; cbn; rewrite ?opened_fds_app, ?Ho; try done.
    + fold (closed_fds (out ++ [Close (open_ret inp)])). rewrite closed_fds_app, Hc.
      split_and!; [done| |done]. constructor; [done|]. apply Forall_app. split; [done|by repeat constructor].
    + apply Forall_app. split; [done|by repeat constructor].
Qed.
Next Obligation.
  intros lib inp st buf size Ho Hs Hb.
  change (data_source_read inp st) with (Serial.data_source_read inp st).
  destruct (Serial.data_source_read_loop inp st buf size Ho Hs ltac:(lia)) as (b & Hl & ->).
  pose proof (Serial.read_loop_safe st b size 0 (reads inp) ltac:(lia) Hs ltac:(lia)) as Hsafe.
  destruct (Serial.read_loop _ _ _ _ _) as [| |code buf' st' out rest]; [done..|].
  destruct Hsafe as (-> & Hout & Hcode & b' & -> & Hl' & Hnul).
  assert (opened_fds out = [] /\ closed_fds out = [] /\ Forall (fun e => source_effect e = true) out)
    as (-> & -> & Hf) by (destruct Hout as [-> | ->]; split_and!; try done; by repeat constructor).
  split_and!; [done..|]. exists b'. split_and!; [done|lia|].
  intros Hc. by apply c_string_length, Hnul.
Qed.
Next Obligation.
  intros lib inp st Ho. cbn. unfold Serial.data_source_cleanup, Serial.opened in *.
  rewrite (proj2 (Z.leb_le _ _)), (proj2 (Z.ltb_ge _ _)) by lia. cbn.
  destruct (negb _); cbn; split_and!; try done; by repeat constructor.
Qed.
