(* ===== verification/CLogs.v ===== *)
(** * The log files of the C gateway

    Models [app_log.c] and [log_writer.c], which append one line with a time stamp
    to a file.  Whether [fopen] succeeded and what [localtime] returned are
    arguments. *)

From Stdlib Require Import Ascii String.
From S2P Require Import Prelude.
From S2P Require Import CText.
From S2P Require Import CEffects.

(** The fields of [struct tm] the time stamp uses. *)
Record Tm := mkTm {
  tm_year : Z; tm_mon : Z; tm_mday : Z; tm_hour : Z; tm_min : Z; tm_sec : Z
}.

(** A field of two digits. *)
Definition two_digits (n : Z) : text := (if n <? 10 then txt "0" else []) ++ to_string n.

(** [strftime] with ["%Y-%m-%d %H:%M:%S"]. *)
Definition time_stamp (t : Tm) : text :=
  print_int (tm_year t + 1900) ++ txt "-" ++ two_digits (tm_mon t + 1) ++ txt "-"
  ++ two_digits (tm_mday t) ++ txt " " ++ two_digits (tm_hour t) ++ txt ":"
  ++ two_digits (tm_min t) ++ txt ":" ++ two_digits (tm_sec t).

Example time_stamp_sample : time_stamp (mkTm 126 3 9 8 5 59) = txt "2026-04-09 08:05:59".
Proof. vm_compute. reflexivity. Qed.

Definition APP_LOG : text := txt "app_log.txt".
Definition SENSOR_LOG : text := txt "sensor_log.txt".

(** ["[%s][%s]%s\n"] *)
Definition app_line (now : Tm) (level msg : text) : text :=
  txt "[" ++ time_stamp now ++ txt "][" ++ level ++ txt "]" ++ msg.

Definition app_log_write (level msg : option text) (fopen_ok : bool) (now : Tm) : list CEffect :=
  match level, msg with
  | Some level, Some msg =>
      if fopen_ok then [Fopen APP_LOG true; Fprintf APP_LOG (app_line now level msg); Fclose APP_LOG]
      else [Fopen APP_LOG false; Perror (txt "fopen app_log.txt failed")]
  | _, _ => []
  end.

Definition app_log_info (msg : option text) := app_log_write (Some (txt "INFO")) msg.
Definition app_log_warn (msg : option text) := app_log_write (Some (txt "WARN")) msg.
Definition app_log_error (msg : option text) := app_log_write (Some (txt "ERROR")) msg.

(** ["[%s]%s\n"] *)
Definition sensor_log_line (now : Tm) (json_data : text) : text :=
  txt "[" ++ time_stamp now ++ txt "]" ++ json_data.

Definition write_log (json_data : option text) (fopen_ok : bool) (now : Tm) : Z * list CEffect :=
  match json_data with
  | None => (-1, [])
  | Some json_data =>
      if fopen_ok then
        (0, [Fopen SENSOR_LOG true; Fprintf SENSOR_LOG (sensor_log_line now json_data); Fclose SENSOR_LOG])
      else (-1, [Fopen SENSOR_LOG false; Perror (txt "fopen sensor_log.txt failed")])
  end.

(** On every path the functions leave no stream open. *)
Lemma app_log_tidy level msg fopen_ok now : tidy (app_log_write level msg fopen_ok now).
Proof. by destruct level, msg, fopen_ok. Qed.

Lemma write_log_tidy json_data fopen_ok now : tidy (write_log json_data fopen_ok now).2.
Proof. by destruct json_data, fopen_ok. Qed.
