(* ===== verification/MqttClient.v ===== *)
(** * The MQTT client of the C gateway

    Models [mqtt_client.c].  [libmosquitto] is known by the constant
    [MOSQ_ERR_SUCCESS] and the function [mosquitto_strerror]; what its other
    functions returned are arguments. *)

From Stdlib Require Import Ascii String.
From S2P Require Import Prelude.
From S2P Require Import CText.
From S2P Require Import CEffects.

Record MosqLib := mkMosq { MOSQ_ERR_SUCCESS : Z; mosquitto_strerror : Z -> text }.

Definition MQTT_HOST : text := txt "localhost".
Definition MQTT_PORT : Z := 1883.
Definition MQTT_KEEPALIVE : Z := 60.
Definition MQTT_TOPIC : text := txt "gateway/stm32_01/sensor".

Section mqtt.
Context (mq : MosqLib).

(** The argument points to a client pointer; it is returned with its new
    contents. *)
Definition mqtt_client_init (mosq : option (option Z)) (new_ret : option Z) (connect_ret : Z)
    : Z * option (option Z) * list CEffect :=
  match mosq with
  | None => (-1, None, [])
  | Some _ =>
      let out := [Mqtt LibInit; Mqtt (New (txt "gateway_module_client") new_ret)] in
      match new_ret with
      | None =>
          (-1, Some None, out ++ [Printf (txt "mosquitto_new failed\n") []; Mqtt LibCleanup])
      | Some h =>
          let out := out ++ [Mqtt (Connect h MQTT_HOST MQTT_PORT MQTT_KEEPALIVE connect_ret)] in
          if negb (connect_ret =? MOSQ_ERR_SUCCESS mq) then
            (-1, Some (Some h),
             out ++ [Printf (txt "mqtt connect failed:%s\n") [mosquitto_strerror mq connect_ret];
                     Mqtt (Destroy h); Mqtt LibCleanup])
          else
            (0, Some (Some h),
             out ++ [Printf (txt "mqtt connect success\n") [];
                     Printf (txt "publish topic:%s\n") [MQTT_TOPIC]])
      end
  end.

Definition mqtt_publish_json (mosq : option Z) (json_data : option text) (publish_ret : Z)
    : Z * list CEffect :=
  match mosq, json_data with
  | Some h, Some json_data =>
      let out := [Mqtt (Publish h MQTT_TOPIC (Z.of_nat (length json_data)) json_data 0 false)] in
      if negb (publish_ret =? MOSQ_ERR_SUCCESS mq) then
        (-1, out ++ [Printf (txt "mqtt publish failed:%s\n") [mosquitto_strerror mq publish_ret]])
      else (0, out ++ [Mqtt (LoopOnce h 1000 1)])
  | _, _ => (-1, [])
  end.
End mqtt.

Definition mqtt_client_cleanup (mosq : option Z) : list CEffect :=
  match mosq with Some h => [Mqtt (Disconnect h); Mqtt (Destroy h)] | None => [] end
  ++ [Mqtt LibCleanup].

(** ** The life cycle [libmosquitto] asks of its user *)

Inductive MqttPhase :=
  | Uninit | Inited | NoClient | Created (h : Z) | Connected (h : Z) | Closing (h : Z)
  | Destroyed | Finished.

#[export] Instance MqttPhase_eq_dec : EqDecision MqttPhase.
Proof. solve_decision. Defined.

(** The phase after a call, or [None] when the call is not allowed: a client is
    used between its creation and its destruction only, publishes while it is
    connected, and the library is cleaned up last. *)
Definition mqtt_next (success : Z) (phase : MqttPhase) (call : MqttCall) : option MqttPhase :=
  match phase, call with
  | Uninit, LibInit => Some Inited
  | Inited, New _ (Some h) => Some (Created h)
  | Inited, New _ None => Some NoClient
  | Created h, Connect h' _ _ _ r =>
      if h =? h' then Some (if r =? success then Connected h else Closing h) else None
  | Connected h, (Publish h' _ _ _ _ _ | LoopOnce h' _ _) => if h =? h' then Some (Connected h) else None
  | Connected h, Disconnect h' => if h =? h' then Some (Closing h) else None
  | Closing h, Destroy h' => if h =? h' then Some Destroyed else None
  | (NoClient | Destroyed), LibCleanup => Some Finished
  | _, _ => None
  end.

Fixpoint mqtt_run (success : Z) (phase : MqttPhase) (calls : list MqttCall) : option MqttPhase :=
  match calls with
  | [] => Some phase
  | call :: calls' =>
      match mqtt_next success phase call with
      | Some phase' => mqtt_run success phase' calls'
      | None => None
      end
  end.

Lemma mqtt_run_app success phase a b :
  mqtt_run success phase (a ++ b)
  = match mqtt_run success phase a with Some phase' => mqtt_run success phase' b | None => None end.
Proof. revert phase. induction a as [|c a IH]; intros phase; cbn; [done|]. by destruct (mqtt_next _ _ _). Qed.

(** ** What the functions do to the life cycle *)

Lemma mqtt_client_init_spec mq m new_ret connect_ret :
  let '(ret, m', out) := mqtt_client_init mq (Some m) new_ret connect_ret in
  opened_fds out = [] /\ closed_fds out = []
  /\ if decide (ret = 0)
     then exists h, m' = Some (Some h)
                    /\ mqtt_run (MOSQ_ERR_SUCCESS mq) Uninit (mqtt_calls out) = Some (Connected h)
     else mqtt_run (MOSQ_ERR_SUCCESS mq) Uninit (mqtt_calls out) = Some Finished.
Proof.
  unfold mqtt_client_init. destruct new_ret as [h|]; [|done].
  destruct (connect_ret =? MOSQ_ERR_SUCCESS mq) eqn:E; cbn [negb]; (split_and!; [done..|]).
  - rewrite decide_True by done. exists h. split; [done|]. cbn. by rewrite (Z.eqb_refl h), E.
  - rewrite decide_False by done. cbn. rewrite Z.eqb_refl, E. cbn. by rewrite Z.eqb_refl.
Qed.

Lemma mqtt_publish_json_spec mq h json publish_ret :
  let '(_, out) := mqtt_publish_json mq (Some h) (Some json) publish_ret in
  opened_fds out = [] /\ closed_fds out = []
  /\ mqtt_run (MOSQ_ERR_SUCCESS mq) (Connected h) (mqtt_calls out) = Some (Connected h).
Proof.
  unfold mqtt_publish_json. destruct (negb _); cbn; repeat (rewrite Z.eqb_refl; cbn); done.
Qed.

Lemma mqtt_client_cleanup_spec success h :
  let out := mqtt_client_cleanup (Some h) in
  opened_fds out = [] /\ closed_fds out = []
  /\ mqtt_run success (Connected h) (mqtt_calls out) = Some Finished.
Proof. cbn. repeat (rewrite Z.eqb_refl; cbn). done. Qed.
