(* ===== verification/SensorGateway.v ===== *)
(** * The sensor gateway in C

    Models [main.c]: the loop that reads a line from the data source, parses it,
    prints it as JSON, appends it to the sensor log and publishes it, until a
    signal arrives.  A step of the model is the code between two points where a
    signal matters or a component returns; the signal handler is an event of its
    own, possible at any point. *)

From Stdlib Require Import Ascii String.
From S2P Require Import Prelude.
From S2P Require Import CText.
From S2P Require Import HandUart.
From S2P Require Import CEffects.
From S2P Require Import SensorParser.
From S2P Require Import DataSource.
From S2P Require Import SerialSource.
From S2P Require Import CLogs.
From S2P Require Import MqttClient.

(** Where the program stands. *)
Inductive Pc :=
  | Start | InitSource | InitMqtt | LoopTest | ReadData | ReadFailed | ParseData | BuildJson
  | WriteLog | PublishJson | Stopping | Cleanup | Stopped | Exited (code : Z) | Crashed.

Record Gateway (S : Type) := mkGateway {
  pc : Pc; g_running : bool; source : S; raw_buf : list ascii; sensor : SensorData;
  json_buf : text; mosq : option Z
}.
Arguments mkGateway {S}.
Arguments pc {S}.
Arguments g_running {S}.
Arguments source {S}.
Arguments raw_buf {S}.
Arguments sensor {S}.
Arguments json_buf {S}.
Arguments mosq {S}.

(** What the system answers during a step: to the data source, to the two
    [fopen]s with the time of the log lines, and to [libmosquitto]. *)
Record Answers := mkAnswers {
  source_in : SourceInput; app_fopen : bool; app_now : Tm; log_fopen : bool; log_now : Tm;
  new_ret : option Z; connect_ret : Z; publish_ret : Z
}.

Inductive GwEvent := Signal | Run (a : Answers).

Definition RAW_SIZE : Z := 128.

Section main.
Context {S : Type} `{DataSource S}.
Context (unrepresentable : Z -> Z) (mq : MosqLib).
Abbreviation Gw := (Gateway S).

Definition goto (p : Pc) (g : Gw) : Gw :=
  mkGateway p (g_running g) (source g) (raw_buf g) (sensor g) (json_buf g) (mosq g).
Definition with_source (s : S) (g : Gw) : Gw :=
  mkGateway (pc g) (g_running g) s (raw_buf g) (sensor g) (json_buf g) (mosq g).
Definition with_raw (b : list ascii) (g : Gw) : Gw :=
  mkGateway (pc g) (g_running g) (source g) b (sensor g) (json_buf g) (mosq g).
Definition with_sensor (d : SensorData) (g : Gw) : Gw :=
  mkGateway (pc g) (g_running g) (source g) (raw_buf g) d (json_buf g) (mosq g).
Definition with_json (j : text) (g : Gw) : Gw :=
  mkGateway (pc g) (g_running g) (source g) (raw_buf g) (sensor g) j (mosq g).
Definition with_mosq (m : option Z) (g : Gw) : Gw :=
  mkGateway (pc g) (g_running g) (source g) (raw_buf g) (sensor g) (json_buf g) m.

Definition signal_handler (g : Gw) : Gw :=
  mkGateway (pc g) false (source g) (raw_buf g) (sensor g) (json_buf g) (mosq g).

Definition info (a : Answers) (msg : string) := app_log_info (Some (txt msg)) (app_fopen a) (app_now a).
Definition warn (a : Answers) (msg : string) := app_log_warn (Some (txt msg)) (app_fopen a) (app_now a).
Definition error (a : Answers) (msg : string) := app_log_error (Some (txt msg)) (app_fopen a) (app_now a).

(** One step of [main]; [None] when it blocks or the program is over. *)
Definition main_step (a : Answers) (g : Gw) : option (Gw * list CEffect) :=
  match pc g with
  | Start => Some (goto InitSource g, Printf (txt "gateway start\n") [] :: info a "gateway start")
  | InitSource =>
      let '(ret, s, out) := data_source_init (source_in a) (source g) in
      let g := with_source s g in
      if negb (ret =? 0) then
        Some (goto (Exited 1) g,
              out ++ Printf (txt "data source init failed\n") [] :: error a "data source init failed")
      else Some (goto InitMqtt g, out ++ info a "data source init success")
  | InitMqtt =>
      let '(ret, m, out) := mqtt_client_init mq (Some (mosq g)) (new_ret a) (connect_ret a) in
      let g := with_mosq (default None m) g in
      if negb (ret =? 0) then
        let '(s, out') := data_source_cleanup (source_in a) (source g) in
        Some (goto (Exited 1) (with_source s g),
              out ++ Printf (txt "mqtt client init failed\n") [] :: error a "mqtt client init failed" ++ out')
      else Some (goto LoopTest g, out ++ info a "mqtt client init success")
  | LoopTest =>
      if g_running g then Some (goto ReadData g, [Printf (txt "-----------------\n") []])
      else Some (goto Stopping g, [])
  | ReadData =>
      match data_source_read (source_in a) (source g) (Some (raw_buf g)) RAW_SIZE with
      | Blocked => None
      | OutOfBounds => Some (goto Crashed g, [])
      | Returned ret buf s out _ =>
          let g := with_raw (default (raw_buf g) buf) (with_source s g) in
          if negb (ret =? 0) then Some (goto ReadFailed g, out)
          else Some (goto ParseData g, out ++ [Printf (txt "raw data: %s\n") [c_string (raw_buf g)]])
      end
  | ReadFailed =>
      if negb (g_running g) then Some (goto Stopping g, [])
      else Some (goto LoopTest g,
                 Printf (txt "read data source failed\n") [] :: warn a "read data source failed")
  | ParseData =>
      let '(ret, d) := parse_sensor_data unrepresentable (Some (c_string (raw_buf g))) (Some (sensor g)) in
      let g := with_sensor (default (sensor g) d) g in
      if negb (ret =? 0) then
        Some (goto LoopTest g,
              Printf (txt "parse sensor data failed\n") [] :: warn a "parse sensor data failed")
      else Some (goto BuildJson g,
                 Printf (txt "parse success\n") [] :: info a "parse sensor data success")
  | BuildJson =>
      let '(ret, j) := build_json (Some (sensor g)) (Some (json_buf g)) 128 in
      let g := with_json (default (json_buf g) j) g in
      if negb (ret =? 0) then
        Some (goto LoopTest g, Printf (txt "build json failed\n") [] :: error a "build json failed")
      else Some (goto WriteLog g, [Printf (txt "json: %s\n") [json_buf g]])
  | WriteLog =>
      let '(ret, out) := write_log (Some (json_buf g)) (log_fopen a) (log_now a) in
      if negb (ret =? 0) then
        Some (goto LoopTest g,
              out ++ Printf (txt "write log failed\n") [] :: error a "write sensor log failed")
      else Some (goto PublishJson g, out ++ info a "write sensor log success")
  | PublishJson =>
      let '(ret, out) := mqtt_publish_json mq (mosq g) (Some (json_buf g)) (publish_ret a) in
      if negb (ret =? 0) then
        Some (goto LoopTest g,
              out ++ Printf (txt "mqtt publish failed\n") [] :: error a "mqtt publish failed")
      else Some (goto LoopTest g,
                 out ++ Printf (txt "mqtt publish success\n") [] :: info a "mqtt publish success")
  | Stopping =>
      Some (goto Cleanup g, Printf (txt "\ngateway stopping...\n") [] :: info a "gateway stopping")
  | Cleanup =>
      let out := mqtt_client_cleanup (mosq g) in
      let '(s, out') := data_source_cleanup (source_in a) (source g) in
      Some (goto Stopped (with_source s g), out ++ out')
  | Stopped =>
      Some (goto (Exited 0) g, info a "gateway stopped" ++ [Printf (txt "gateway stopped\n") []])
  | Exited _ | Crashed => None
  end.

Definition gw_step (ev : GwEvent) (g : Gw) : option (Gw * list CEffect) :=
  match ev with
  | Signal => Some (signal_handler g, [])
  | Run a => main_step a g
  end.

(** A run: the events in turn, with the effects they had. *)
Fixpoint run (evs : list GwEvent) (g : Gw) : option (Gw * list CEffect) :=
  match evs with
  | [] => Some (g, [])
  | ev :: evs' =>
      match gw_step ev g with
      | Some (g', out) =>
          match run evs' g' with Some (g'', out') => Some (g'', out ++ out') | None => None end
      | None => None
      end
  end.

(** [main] is entered with the variables at any value. *)
Definition gw_init (s : S) (raw : list ascii) (d : SensorData) (json : text) : Gw :=
  mkGateway Start true s raw d json None.
End main.

(** ** What the effects say *)

(** The lines the source delivered, the messages published, the log lines that
    could not be written. *)
Definition raws (out : list CEffect) : list text :=
  omap (fun e => match e with
                 | Printf f [a] => if decide (f = txt "raw data: %s\n") then Some a else None
                 | _ => None end) out.
Definition published (out : list CEffect) : list text :=
  omap (fun e => match e with Mqtt (Publish _ _ _ p _ _) => Some p | _ => None end) out.
Definition unlogged (out : list CEffect) : list unit :=
  omap (fun e => match e with
                 | Perror m => if decide (m = txt "fopen sensor_log.txt failed") then Some tt else None
                 | _ => None end) out.

(** The two views of a trace the theorems are about: the data that passed, and
    the resources that were taken and given back. *)
Record Data := mkData {
  d_raws : list text; d_published : list text; d_unlogged : list unit; d_lines : list text
}.
Definition data_of (out : list CEffect) : Data :=
  mkData (raws out) (published out) (unlogged out) (lines_of SENSOR_LOG out).

Abbreviation no_data := (mkData [] [] [] []).

Record Resources := mkResources {
  r_opened : list Z; r_closed : list Z; r_mqtt : list MqttCall
}.
Definition resources_of (out : list CEffect) : Resources :=
  mkResources (opened_fds out) (closed_fds out) (mqtt_calls out).

Abbreviation no_resources := (mkResources [] [] []).

Definition data_app (a b : Data) : Data :=
  mkData (d_raws a ++ d_raws b) (d_published a ++ d_published b) (d_unlogged a ++ d_unlogged b)
    (d_lines a ++ d_lines b).
Definition resources_app (a b : Resources) : Resources :=
  mkResources (r_opened a ++ r_opened b) (r_closed a ++ r_closed b) (r_mqtt a ++ r_mqtt b).

Lemma data_of_app a b : data_of (a ++ b) = data_app (data_of a) (data_of b).
Proof.
  unfold data_of, data_app, raws, published, unlogged. cbn.
  by rewrite !omap_app, lines_of_app.
Qed.
Lemma resources_of_app a b : resources_of (a ++ b) = resources_app (resources_of a) (resources_of b).
Proof. unfold resources_of, resources_app. cbn. by rewrite opened_fds_app, closed_fds_app, mqtt_calls_app. Qed.

Lemma data_app_nil_l d : data_app no_data d = d.
Proof. by destruct d. Qed.
Lemma data_app_nil_r d : data_app d no_data = d.
Proof. destruct d. unfold data_app. cbn. by rewrite !app_nil_r. Qed.
Lemma resources_app_nil_l d : resources_app no_resources d = d.
Proof. by destruct d. Qed.
Lemma resources_app_nil_r d : resources_app d no_resources = d.
Proof. destruct d. unfold resources_app. cbn. by rewrite !app_nil_r. Qed.

Lemma source_silent out :
  Forall (fun e => source_effect e = true) out -> data_of out = no_data /\ mqtt_calls out = [].
Proof.
  induction 1 as [|e out He _ [IH1 IH2]]; [done|].
  change (e :: out) with ([e] ++ out). rewrite data_of_app, IH1, data_app_nil_r.
  rewrite mqtt_calls_app, IH2, app_nil_r.
  destruct e as [f [|? [|]]|m| | | | | | | | |]; cbn in He |- *; try done; unfold data_of; cbn.
  - by destruct (decide (f = _)) as [->|].
  - by destruct (decide (m = _)) as [->|].
Qed.

Lemma source_tidy out : Forall (fun e => source_effect e = true) out -> tidy out.
Proof. induction 1 as [|e out He _ IH]; [done|]. apply tidy_cons; [by destruct e|done]. Qed.

(** An application log entry shows none of it. *)
Lemma app_log_silent level msg fopen_ok now :
  data_of (app_log_write level msg fopen_ok now) = no_data
  /\ resources_of (app_log_write level msg fopen_ok now) = no_resources.
Proof. unfold app_log_write. by destruct level, msg, fopen_ok. Qed.
