(* ===== verification/SensorGatewayFacts.v ===== *)
(** * What the C gateway guarantees

    The invariants of [SensorGateway] over every schedule of steps and signals:
    the readings that are logged and published are those of the lines read, every
    resource is given back, and a signal ends the program. *)

From Stdlib Require Import Ascii String.
From S2P Require Import Prelude.
From S2P Require Import CText.
From S2P Require Import HandUart.
From S2P Require Import CEffects.
From S2P Require Import SensorParser.
From S2P Require Import DataSource.
From S2P Require Import SerialSource.
From S2P Require Import CLogs.
From S2P Require Import MqttClient.
From S2P Require Import SensorGateway.

Lemma sublist_equal {A} (a b : list A) : sublist a b -> (length b <= length a)%nat -> a = b.
Proof.
  induction 1 as [|x a b _ IH|x a b Hs _]; cbn; intros Hl; [done|f_equal; apply IH; lia|].
  apply sublist_length in Hs. lia.
Qed.

(** ** The data that passes *)

Section facts.
Context {S : Type} `{DataSourceLaws S}.
Context (unrepresentable : Z -> Z) (mq : MosqLib).
Context (Hunrep : forall z, int_ok (unrepresentable z)).
Abbreviation Gw := (Gateway S).

(** The JSON text of a line, if it is a sensor line. *)
Definition accept (raw : text) : option text :=
  match parse_sensor_data unrepresentable (Some raw) (Some zero_data) with
  | (0, Some d) => Some (json_text d)
  | _ => None
  end.

(** The line in the buffer that has not been decided yet, and the JSON text that
    is logged and not yet published. *)
Definition pending_raw (g : Gw) : list text :=
  match pc g with ParseData | BuildJson | WriteLog => [c_string (raw_buf g)] | _ => [] end.
Definition pending_json (g : Gw) : list text :=
  match pc g with PublishJson => [json_buf g] | _ => [] end.

(** What the variables hold where the program reads them. *)
Definition vars_ok (g : Gw) : Prop :=
  length (raw_buf g) = Z.to_nat RAW_SIZE
  /\ match pc g with
     | BuildJson => sensor_ok (sensor g) /\ accept (c_string (raw_buf g)) = Some (json_text (sensor g))
     | WriteLog => accept (c_string (raw_buf g)) = Some (json_buf g)
     | _ => True
     end.

Definition log_line_of (line json : text) : Prop := exists now, line = sensor_log_line now json.

(** The lines that are decided are [done], and the log holds [logged]. *)
Definition data_ok (g : Gw) (d : Data) : Prop :=
  exists decided logged,
    d_raws d = decided ++ pending_raw g
    /\ Forall2 log_line_of (d_lines d) logged
    /\ logged = d_published d ++ pending_json g
    /\ sublist logged (omap accept decided)
    /\ length (omap accept decided) = (length logged + length (d_unlogged d))%nat.

Definition source_at (g : Gw) : Prop :=
  match pc g with
  | Start | InitSource => fresh (source g)
  | InitMqtt | LoopTest | ReadData | ReadFailed | ParseData | BuildJson | WriteLog | PublishJson
  | Stopping | Cleanup => ready (source g)
  | Stopped | Exited _ => held (source g) = []
  | Crashed => False
  end.

Definition phase_at (g : Gw) (phase : MqttPhase) : Prop :=
  match pc g with
  | Start | InitSource | InitMqtt => phase = Uninit
  | LoopTest | ReadData | ReadFailed | ParseData | BuildJson | WriteLog | PublishJson
  | Stopping | Cleanup => exists h, mosq g = Some h /\ phase = Connected h
  | Stopped => phase = Finished
  | Exited code => phase = Finished \/ (code = 1 /\ phase = Uninit)
  | Crashed => False
  end.

Definition resources_ok (g : Gw) (r : Resources) : Prop :=
  r_opened r = r_closed r ++ held (source g)
  /\ exists phase, mqtt_run (MOSQ_ERR_SUCCESS mq) Uninit (r_mqtt r) = Some phase /\ phase_at g phase.

Lemma accept_some raw d0 :
  match parse_sensor_data unrepresentable (Some raw) (Some d0) with
  | (code, Some d) => (code = 0 -> sensor_ok d /\ accept raw = Some (json_text d))
                      /\ (code <> 0 -> accept raw = None)
  | _ => False
  end.
Proof.
  pose proof (parse_code unrepresentable raw d0) as Hc.
  destruct (parse_sensor_data unrepresentable (Some raw) (Some d0)) as [code d] eqn:E.
  destruct Hc as [[d' ->] Hc]. split.
  - intros ->. pose proof (proj1 (parse_line unrepresentable raw d0 d') E) as Hl.
    split; [by eapply sensor_line_ok|]. unfold accept.
    by rewrite (proj2 (parse_line unrepresentable raw zero_data d') Hl).
  - intros Hne. unfold accept.
    destruct (parse_sensor_data unrepresentable (Some raw) (Some zero_data)) as [code' d2] eqn:E2.
    destruct code'; [|done..]. destruct d2 as [d2|]; [|done].
    apply parse_line in E2. rewrite (proj2 (parse_line unrepresentable raw d0 d2) E2) in E. simplify_eq.
Qed.

(** ** One step *)

Lemma log_resources a msg :
  resources_of (info a msg) = no_resources /\ resources_of (warn a msg) = no_resources
  /\ resources_of (error a msg) = no_resources.
Proof. split_and!; apply app_log_silent. Qed.

Lemma printf_resources f args out : resources_of (Printf f args :: out) = resources_of out.
Proof. done. Qed.
Lemma fopen_resources p r out : resources_of (Fopen p r :: out) = resources_of out.
Proof. done. Qed.
Lemma fprintf_resources p l out : resources_of (Fprintf p l :: out) = resources_of out.
Proof. done. Qed.
Lemma fclose_resources p out : resources_of (Fclose p :: out) = resources_of out.
Proof. done. Qed.
Lemma perror_resources m out : resources_of (Perror m :: out) = resources_of out.
Proof. done. Qed.

Lemma source_resources out :
  Forall (fun e => source_effect e = true) out ->
  resources_of out = mkResources (opened_fds out) (closed_fds out) [].
Proof. intros Hf%source_silent. unfold resources_of. by destruct Hf as [_ ->]. Qed.

Ltac trace_resources :=
  repeat first
    [ rewrite resources_of_app | rewrite printf_resources | rewrite perror_resources
    | rewrite fopen_resources | rewrite fprintf_resources | rewrite fclose_resources
    | rewrite (proj1 (log_resources _ _)) | rewrite (proj1 (proj2 (log_resources _ _)))
    | rewrite (proj2 (proj2 (log_resources _ _)))
    | rewrite resources_app_nil_r | rewrite resources_app_nil_l ].

Lemma keep_resources g g' r out :
  resources_of out = no_resources -> held (source g') = held (source g) ->
  (forall phase, phase_at g phase -> phase_at g' phase) ->
  resources_ok g r -> resources_ok g' (resources_app r (resources_of out)).
Proof.
  intros -> Hh Hp [Hb (phase & Hrun & Hat)]. rewrite resources_app_nil_r.
  split; [by rewrite Hh|]. eauto.
Qed.

(** A step that opens [o], closes [c] and makes the calls [m]. *)
Lemma extend_resources g g' r o c m phase' :
  resources_ok g r -> held (source g) ++ o = c ++ held (source g') ->
  (forall phase, phase_at g phase -> mqtt_run (MOSQ_ERR_SUCCESS mq) phase m = Some phase') ->
  phase_at g' phase' -> resources_ok g' (resources_app r (mkResources o c m)).
Proof.
  intros [Hb (phase & Hrun & Hat)] Hh Hm Hat'. split; cbn.
  - by rewrite Hb, <- !app_assoc, Hh.
  - exists phase'. split; [|done]. rewrite mqtt_run_app, Hrun. by apply Hm.
Qed.

Lemma init_source_resources a g g' out r :
  pc g = InitSource -> main_step unrepresentable mq a g = Some (g', out) ->
  source_at g -> resources_ok g r ->
  source_at g' /\ resources_ok g' (resources_app r (resources_of out)).
Proof.
  unfold main_step, source_at. intros Hpc. rewrite Hpc. intros Hstep Hs Hr.
  pose proof (fresh_law _ Hs) as Hh. pose proof (init_law (source_in a) _ Hs) as Hl.
  destruct (data_source_init (source_in a) (source g)) as [[ret s] o].
  destruct Hl as (Hbal & Hq & Hrdy).
  destruct (Z.eqb_spec ret 0) as [->|Hne]; cbn [negb] in Hstep; injection Hstep as <- <-;
    trace_resources; rewrite (source_resources o Hq).
  - split; [by rewrite decide_True in Hrdy|].
    apply (extend_resources g _ _ _ _ _ Uninit); [done|by rewrite Hh|..|done].
    unfold phase_at. rewrite Hpc. by intros phase ->.
  - rewrite decide_False in Hrdy by done. split; [done|].
    apply (extend_resources g _ _ _ _ _ Uninit); [done|by rewrite Hh|..|by right].
    unfold phase_at. rewrite Hpc. by intros phase ->.
Qed.

Lemma init_mqtt_resources a g g' out r :
  pc g = InitMqtt -> main_step unrepresentable mq a g = Some (g', out) ->
  source_at g -> resources_ok g r ->
  source_at g' /\ resources_ok g' (resources_app r (resources_of out)).
Proof.
  unfold main_step, source_at. intros Hpc. rewrite Hpc. intros Hstep Hs Hr.
  pose proof (mqtt_client_init_spec mq (mosq g) (new_ret a) (connect_ret a)) as Hm.
  pose proof (cleanup_law (source_in a) _ Hs) as Hl.
  destruct (mqtt_client_init mq _ _ _) as [[ret m] o]. destruct Hm as (Hmo & Hmc & Hm).
  destruct (Z.eqb_spec ret 0) as [->|Hne]; cbn [negb source with_mosq] in Hstep.
  - injection Hstep as <- <-. rewrite decide_True in Hm by done. destruct Hm as (h & -> & Hrun).
    trace_resources. split; [done|]. unfold resources_of. rewrite Hmo, Hmc.
    apply (extend_resources g _ r [] [] _ (Connected h)); [done|by rewrite app_nil_r| |by exists h].
    unfold phase_at. rewrite Hpc. by intros phase ->.
  - rewrite decide_False in Hm by done.
    destruct (data_source_cleanup (source_in a) (source g)) as [s o'].
    destruct Hl as (Ho & Hcl & Hh' & Hq). injection Hstep as <- <-.
    trace_resources. rewrite (source_resources o' Hq), Ho, Hcl. unfold resources_of.
    rewrite Hmo, Hmc. split; [done|]. unfold resources_app at 2. cbn [r_opened r_closed r_mqtt app].
    rewrite app_nil_r. apply (extend_resources g _ _ _ _ _ Finished); [done| | |by left].
    + cbn. by rewrite Hh', !app_nil_r.
    + unfold phase_at. rewrite Hpc. by intros phase ->.
Qed.

Lemma read_resources a g g' out r :
  pc g = ReadData -> main_step unrepresentable mq a g = Some (g', out) ->
  length (raw_buf g) = Z.to_nat RAW_SIZE -> source_at g -> resources_ok g r ->
  source_at g' /\ resources_ok g' (resources_app r (resources_of out)).
Proof.
  unfold main_step, source_at. intros Hpc. rewrite Hpc. intros Hstep Hb Hs Hr.
  pose proof (read_law (source_in a) _ (raw_buf g) RAW_SIZE Hs ltac:(done) Hb) as Hl.
  destruct (data_source_read _ _ _ _) as [| |ret buf s o rest]; [done..|].
  destruct Hl as (Hrdy & Hh & Ho & Hc & Hq & _).
  assert (resources_of o = no_resources) as Ho'
    by (rewrite (source_resources o Hq), Ho, Hc; done).
  destruct (ret =? 0); cbn [negb] in Hstep; injection Hstep as <- <-; (split; [done|]);
    (apply (keep_resources g); [trace_resources; by rewrite Ho'|done| |done]);
    unfold phase_at; rewrite Hpc; done.
Qed.

Lemma publish_resources a g g' out r :
  pc g = PublishJson -> main_step unrepresentable mq a g = Some (g', out) ->
  source_at g -> resources_ok g r ->
  source_at g' /\ resources_ok g' (resources_app r (resources_of out)).
Proof.
  unfold main_step, source_at. intros Hpc. rewrite Hpc. intros Hstep Hs Hr.
  pose proof Hr as [_ (phase0 & _ & Hat)]. unfold phase_at in Hat. rewrite Hpc in Hat.
  destruct Hat as (h & Hmosq & _). rewrite Hmosq in Hstep.
  pose proof (mqtt_publish_json_spec mq h (json_buf g) (publish_ret a)) as Hm.
  destruct (mqtt_publish_json mq _ _ _) as [ret o]. destruct Hm as (Hmo & Hmc & Hm).
  assert (exists tail, out = o ++ tail /\ resources_of tail = no_resources /\ g' = goto LoopTest g)
    as (tail & -> & Hout & ->).
  { destruct (ret =? 0); cbn [negb] in Hstep; injection Hstep as <- <-; eexists;
      (split_and!; [done|by trace_resources|done]). }
  split; [done|]. rewrite resources_of_app, Hout, resources_app_nil_r. unfold resources_of.
  rewrite Hmo, Hmc. apply (extend_resources g _ _ _ _ _ (Connected h)); [done|by rewrite app_nil_r| |by exists h].
  unfold phase_at. rewrite Hpc, Hmosq. by intros phase (h' & [= <-] & ->).
Qed.

Lemma cleanup_resources a g g' out r :
  pc g = Cleanup -> main_step unrepresentable mq a g = Some (g', out) ->
  source_at g -> resources_ok g r ->
  source_at g' /\ resources_ok g' (resources_app r (resources_of out)).
Proof.
  unfold main_step, source_at. intros Hpc. rewrite Hpc. intros Hstep Hs Hr.
  pose proof Hr as [_ (phase0 & _ & Hat)]. unfold phase_at in Hat. rewrite Hpc in Hat.
  destruct Hat as (h & Hmosq & _). rewrite Hmosq in Hstep.
  pose proof (mqtt_client_cleanup_spec (MOSQ_ERR_SUCCESS mq) h) as Hm. cbn zeta in Hm.
  revert Hstep Hm. generalize (mqtt_client_cleanup (Some h)). intros o1 Hstep (Hmo & Hmc & Hm).
  pose proof (cleanup_law (source_in a) _ Hs) as Hl.
  destruct (data_source_cleanup (source_in a) (source g)) as [s o].
  destruct Hl as (Ho & Hcl & Hh' & Hq). injection Hstep as <- <-. split; [done|].
  rewrite resources_of_app, (source_resources o Hq), Ho, Hcl.
  unfold resources_of. rewrite Hmo, Hmc. unfold resources_app at 2. cbn [r_opened r_closed r_mqtt app].
  rewrite app_nil_r. apply (extend_resources g _ _ _ _ _ Finished); [done| | |done].
  + cbn. by rewrite Hh', !app_nil_r.
  + unfold phase_at. rewrite Hpc, Hmosq. by intros phase (h' & [= <-] & ->).
Qed.

(** The other steps only print and log. *)
Lemma quiet_resources a g g' out :
  main_step unrepresentable mq a g = Some (g', out) ->
  match pc g with InitSource | InitMqtt | ReadData | PublishJson | Cleanup => False | _ => True end ->
  source_at g ->
  resources_of out = no_resources /\ source g' = source g /\ source_at g'
  /\ forall phase, phase_at g phase -> phase_at g' phase.
Proof.
  unfold main_step, source_at, phase_at. intros Hstep Hq Hs.
  destruct (pc g) eqn:Hpc; try done.
  - injection Hstep as <- <-. trace_resources. done.
  - by destruct (g_running g); injection Hstep as <- <-.
  - destruct (g_running g); injection Hstep as <- <-; by trace_resources.
  - destruct (parse_sensor_data _ _ _) as [ret d].
    destruct (ret =? 0); injection Hstep as <- <-; by trace_resources.
  - destruct (build_json _ _ _) as [ret j].
    destruct (ret =? 0); injection Hstep as <- <-; by trace_resources.
  - unfold write_log in Hstep. destruct (log_fopen a); injection Hstep as <- <-; by trace_resources.
  - injection Hstep as <- <-. by trace_resources.
  - injection Hstep as <- <-. trace_resources. split_and!; [done..|]. by left.
Qed.

Lemma step_resources ev g g' out r :
  gw_step unrepresentable mq ev g = Some (g', out) ->
  length (raw_buf g) = Z.to_nat RAW_SIZE -> source_at g -> resources_ok g r ->
  source_at g' /\ resources_ok g' (resources_app r (resources_of out)).
Proof.
  destruct ev as [|a]; cbn [gw_step].
  { intros [= <- <-] _ Hs Hr. split; [done|]. by apply (keep_resources g). }
  intros Hstep Hb Hs Hr.
  destruct (pc g) eqn:Hpc;
    first
      [ by apply (init_source_resources a g) | by apply (init_mqtt_resources a g)
      | by apply (publish_resources a g) | by apply (cleanup_resources a g)
      | by apply (read_resources a g)
      | idtac ];
    try (destruct (quiet_resources a g g' out) as (Ho & Hso & Hs' & Hph); [done|by rewrite Hpc|done|]);
    (split; [done|]); (apply (keep_resources g); [done|by rewrite Hso|done|done]).
Qed.

(** ** The streams of one step *)

Lemma mqtt_init_tidy m new_ret connect_ret : tidy (mqtt_client_init mq (Some m) new_ret connect_ret).2.
Proof. unfold mqtt_client_init. destruct new_ret; [destruct (negb _)|]; done. Qed.

Lemma mqtt_publish_tidy m j publish_ret : tidy (mqtt_publish_json mq m (Some j) publish_ret).2.
Proof. unfold mqtt_publish_json. destruct m; [destruct (negb _)|]; done. Qed.

Lemma mqtt_cleanup_tidy m : tidy (mqtt_client_cleanup m).
Proof. by destruct m. Qed.

Ltac trace_tidy :=
  repeat first
    [ done | apply app_log_tidy | apply mqtt_cleanup_tidy | apply tidy_app | apply tidy_cons; [done|] ].

(** Every step closes the streams it opens, and writes to no other. *)
Lemma step_tidy ev g g' out :
  gw_step unrepresentable mq ev g = Some (g', out) -> length (raw_buf g) = Z.to_nat RAW_SIZE ->
  source_at g -> tidy out.
Proof.
  destruct ev as [|a]; cbn [gw_step]; [by intros [= <- <-]|].
  unfold main_step, source_at. intros Hstep Hb Hs. destruct (pc g) eqn:Hpc; try done.
  - injection Hstep as <- <-. trace_tidy.
  - pose proof (init_law (source_in a) _ Hs) as Hl.
    destruct (data_source_init _ _) as [[ret s] o]. destruct Hl as (_ & Ho%source_tidy & _).
    destruct (negb _); injection Hstep as <- <-; trace_tidy.
  - pose proof (mqtt_init_tidy (mosq g) (new_ret a) (connect_ret a)) as Hm.
    pose proof (cleanup_law (source_in a) _ Hs) as Hl.
    destruct (mqtt_client_init _ _ _ _) as [[ret m] o]. cbn [source with_mosq snd] in *.
    destruct (data_source_cleanup _ _) as [s o']. destruct Hl as (_ & _ & _ & Ho%source_tidy).
    destruct (negb _); injection Hstep as <- <-; trace_tidy.
  - destruct (g_running g); injection Hstep as <- <-; trace_tidy.
  - pose proof (read_law (source_in a) _ (raw_buf g) RAW_SIZE Hs ltac:(done) Hb) as Hl.
    destruct (data_source_read _ _ _ _) as [| |ret buf s o rest]; [done..|].
    destruct Hl as (_ & _ & _ & _ & Ho%source_tidy & _).
    destruct (negb _); injection Hstep as <- <-; trace_tidy.
  - destruct (negb _); injection Hstep as <- <-; trace_tidy.
  - destruct (parse_sensor_data _ _ _) as [ret d]. destruct (negb _); injection Hstep as <- <-; trace_tidy.
  - destruct (build_json _ _ _) as [ret j]. destruct (negb _); injection Hstep as <- <-; trace_tidy.
  - pose proof (write_log_tidy (Some (json_buf g)) (log_fopen a) (log_now a)) as Hw.
    destruct (write_log _ _ _) as [ret o]. cbn [snd] in Hw.
    destruct (negb _); injection Hstep as <- <-; trace_tidy.
  - pose proof (mqtt_publish_tidy (mosq g) (json_buf g) (publish_ret a)) as Hm.
    destruct (mqtt_publish_json _ _ _ _) as [ret o]. cbn [snd] in Hm.
    destruct (negb _); injection Hstep as <- <-; trace_tidy.
  - injection Hstep as <- <-. trace_tidy.
  - pose proof (cleanup_law (source_in a) _ Hs) as Hl. pose proof (mqtt_cleanup_tidy (mosq g)) as Hm.
    destruct (data_source_cleanup _ _) as [s o']. destruct Hl as (_ & _ & _ & Ho%source_tidy).
    injection Hstep as <- <-. by apply tidy_app.
  - injection Hstep as <- <-. trace_tidy.
Qed.

(** ** The data of one step *)

Lemma log_data a msg :
  data_of (info a msg) = no_data /\ data_of (warn a msg) = no_data /\ data_of (error a msg) = no_data.
Proof. split_and!; apply app_log_silent. Qed.

Lemma printf_data f args out :
  bool_decide (f = txt "raw data: %s\n") = false -> data_of (Printf f args :: out) = data_of out.
Proof.
  intros Hf%bool_decide_eq_false. unfold data_of. cbn. destruct args as [|? [|]]; [done| |done].
  by rewrite decide_False.
Qed.

Ltac trace_data :=
  repeat first
    [ rewrite data_of_app | rewrite printf_data by (vm_compute; reflexivity)
    | rewrite (proj1 (log_data _ _)) | rewrite (proj1 (proj2 (log_data _ _)))
    | rewrite (proj2 (proj2 (log_data _ _)))
    | rewrite data_app_nil_r | rewrite data_app_nil_l ].

Lemma keep_data g g' d out :
  data_of out = no_data -> pending_raw g' = pending_raw g -> pending_json g' = pending_json g ->
  data_ok g d -> data_ok g' (data_app d (data_of out)).
Proof. intros -> Hr Hj Hd. rewrite data_app_nil_r. unfold data_ok in *. by rewrite Hr, Hj. Qed.

Lemma read_data a g g' out d :
  pc g = ReadData -> main_step unrepresentable mq a g = Some (g', out) ->
  source_at g -> vars_ok g -> data_ok g d -> vars_ok g' /\ data_ok g' (data_app d (data_of out)).
Proof.
  unfold main_step, source_at, vars_ok. intros Hpc. rewrite Hpc. intros Hstep Hs [Hb _] Hd.
  pose proof (read_law (source_in a) _ (raw_buf g) RAW_SIZE Hs ltac:(done) Hb) as Hl.
  destruct (data_source_read _ _ _ _) as [| |ret buf s o rest]; [done..|].
  destruct Hl as (_ & _ & _ & _ & Hq & _ & b & -> & Hlen & _).
  apply source_silent in Hq as [Hq _].
  destruct (ret =? 0); cbn [negb default] in Hstep; injection Hstep as <- <-; (split; [by split; [cbn; rewrite Hlen|]|]).
  - rewrite data_of_app, Hq, data_app_nil_l. destruct Hd as (decided & logged & Hr & Hll & Hlog & Hsub & Hcnt).
    unfold pending_raw, pending_json in *. rewrite Hpc in *. exists decided, logged.
    rewrite app_nil_r in Hr, Hlog. cbn. by rewrite Hr, !app_nil_r.
  - apply (keep_data g); [done| | |done]; unfold pending_raw, pending_json; by rewrite Hpc.
Qed.

Lemma parse_data a g g' out d :
  pc g = ParseData -> main_step unrepresentable mq a g = Some (g', out) ->
  vars_ok g -> data_ok g d -> vars_ok g' /\ data_ok g' (data_app d (data_of out)).
Proof.
  unfold main_step, vars_ok. intros Hpc. rewrite Hpc. intros Hstep [Hb _] Hd.
  pose proof (accept_some (c_string (raw_buf g)) (sensor g)) as Ha.
  destruct (parse_sensor_data _ _ _) as [ret [data|]]; [|done]. destruct Ha as [Ha0 Ha1].
  destruct (Z.eqb_spec ret 0) as [->|Hne]; cbn [negb default] in Hstep; injection Hstep as <- <-.
  - split; [by split; [|apply Ha0]|]. apply (keep_data g); [by trace_data| | |done];
      unfold pending_raw, pending_json; by rewrite Hpc.
  - split; [done|]. trace_data. destruct Hd as (decided & logged & Hr & Hll & Hlog & Hsub & Hcnt).
    unfold pending_raw, pending_json in *. rewrite Hpc in *.
    exists (decided ++ [c_string (raw_buf g)]), logged. rewrite !omap_app. cbn.
    rewrite app_nil_r in Hlog. by rewrite (Ha1 Hne), !app_nil_r.
Qed.

Lemma build_data a g g' out d :
  pc g = BuildJson -> main_step unrepresentable mq a g = Some (g', out) ->
  vars_ok g -> data_ok g d -> vars_ok g' /\ data_ok g' (data_app d (data_of out)).
Proof.
  unfold main_step, vars_ok. intros Hpc. rewrite Hpc. intros Hstep (Hb & Hok & Ha) Hd.
  pose proof (json_text_length _ Hok). rewrite build_json_fits in Hstep by lia.
  injection Hstep as <- <-. split; [done|].
  apply (keep_data g); [by trace_data| | |done]; unfold pending_raw, pending_json; by rewrite Hpc.
Qed.

Lemma write_data a g g' out d :
  pc g = WriteLog -> main_step unrepresentable mq a g = Some (g', out) ->
  vars_ok g -> data_ok g d -> vars_ok g' /\ data_ok g' (data_app d (data_of out)).
Proof.
  unfold main_step, vars_ok. intros Hpc. rewrite Hpc. intros Hstep [Hb Ha] Hd.
  destruct Hd as (decided & logged & Hr & Hll & Hlog & Hsub & Hcnt).
  unfold pending_raw, pending_json in *. rewrite Hpc in *. rewrite app_nil_r in Hlog.
  assert (omap accept (decided ++ [c_string (raw_buf g)]) = omap accept decided ++ [json_buf g]) as Hom
    by (rewrite omap_app; cbn; by rewrite Ha).
  assert (exists o ret, write_log (Some (json_buf g)) (log_fopen a) (log_now a) = (ret, o)
    /\ data_of o = if ret =? 0 then mkData [] [] [] [sensor_log_line (log_now a) (json_buf g)]
                   else mkData [] [] [tt] []) as (o & ret & Hw & Ho)
    by (unfold write_log; destruct (log_fopen a); by eexists _, _).
  rewrite Hw in Hstep. destruct (ret =? 0); cbn [negb] in Hstep; injection Hstep as <- <-;
    trace_data; rewrite Ho; (split; [done|]).
  - exists (decided ++ [c_string (raw_buf g)]), (logged ++ [json_buf g]). cbn.
    rewrite !app_nil_r, Hom. split_and!; [done| |by subst logged| |].
    + apply Forall2_app; [done|]. repeat constructor. by exists (log_now a).
    + by apply sublist_app.
    + rewrite !length_app, Hcnt. cbn. lia.
  - exists (decided ++ [c_string (raw_buf g)]), logged. cbn.
    rewrite !app_nil_r, Hom. split_and!; [done..| |].
    + by apply sublist_inserts_r.
    + rewrite !length_app, Hcnt. cbn. lia.
Qed.

Lemma publish_data a g g' out d :
  pc g = PublishJson -> main_step unrepresentable mq a g = Some (g', out) ->
  (exists h, mosq g = Some h) ->
  vars_ok g -> data_ok g d -> vars_ok g' /\ data_ok g' (data_app d (data_of out)).
Proof.
  unfold main_step, vars_ok. intros Hpc. rewrite Hpc. intros Hstep [h Hh] [Hb _] Hd.
  destruct Hd as (decided & logged & Hr & Hll & Hlog & Hsub & Hcnt).
  unfold pending_raw, pending_json in *. rewrite Hpc, Hh in *. rewrite app_nil_r in Hr.
  assert (exists o ret, mqtt_publish_json mq (Some h) (Some (json_buf g)) (publish_ret a) = (ret, o)
    /\ data_of o = mkData [] [json_buf g] [] []) as (o & ret & Hw & Ho)
    by (unfold mqtt_publish_json; destruct (negb _); by eexists _, _).
  rewrite Hw in Hstep. assert (data_of out = mkData [] [json_buf g] [] [] /\ g' = goto LoopTest g)
    as [-> ->] by (destruct (ret =? 0); cbn [negb] in Hstep; injection Hstep as <- <-; by trace_data).
  split; [done|]. exists decided, logged. cbn. by rewrite !app_nil_r.
Qed.

(** The steps that pass no data on. *)
Lemma quiet_data a g g' out :
  main_step unrepresentable mq a g = Some (g', out) ->
  match pc g with
  | ReadData | ParseData | BuildJson | WriteLog | PublishJson => False | _ => True end ->
  source_at g ->
  data_of out = no_data /\ raw_buf g' = raw_buf g
  /\ pending_raw g' = pending_raw g /\ pending_json g' = pending_json g
  /\ match pc g' with BuildJson | WriteLog => False | _ => True end.
Proof.
  unfold main_step, source_at, pending_raw, pending_json. intros Hstep Hq Hs.
  destruct (pc g) eqn:Hpc; try done.
  - injection Hstep as <- <-. by trace_data.
  - pose proof (init_law (source_in a) _ Hs) as Hl.
    destruct (data_source_init _ _) as [[ret s] o]. destruct Hl as (_ & [Ho _]%source_silent & _).
    destruct (ret =? 0); cbn [negb] in Hstep; injection Hstep as <- <-; trace_data; by rewrite Ho.
  - pose proof (cleanup_law (source_in a) _ Hs) as Hl.
    assert (data_of (mqtt_client_init mq (Some (mosq g)) (new_ret a) (connect_ret a)).2 = no_data) as Hm
      by (unfold mqtt_client_init; destruct (new_ret a); [destruct (negb _)|]; done).
    destruct (mqtt_client_init _ _ _ _) as [[ret m] o]. cbn [snd] in Hm.
    destruct (ret =? 0); cbn [negb source with_mosq] in Hstep.
    + injection Hstep as <- <-; trace_data; by rewrite Hm.
    + destruct (data_source_cleanup _ _) as [s o']. destruct Hl as (_ & _ & _ & [Ho _]%source_silent).
      injection Hstep as <- <-; trace_data; by rewrite Hm, Ho.
  - by destruct (g_running g); injection Hstep as <- <-.
  - destruct (g_running g); injection Hstep as <- <-; by trace_data.
  - injection Hstep as <- <-. by trace_data.
  - pose proof (cleanup_law (source_in a) _ Hs) as Hl.
    assert (data_of (mqtt_client_cleanup (mosq g)) = no_data) as Hm by by destruct (mosq g).
    destruct (data_source_cleanup _ _) as [s o']. destruct Hl as (_ & _ & _ & [Ho _]%source_silent).
    revert Hstep Hm. generalize (mqtt_client_cleanup (mosq g)). intros o Hstep Hm.
    injection Hstep as <- <-; trace_data; by rewrite Hm, Ho.
  - injection Hstep as <- <-. by trace_data.
Qed.

Lemma step_data ev g g' out d :
  gw_step unrepresentable mq ev g = Some (g', out) ->
  (pc g = PublishJson -> exists h, mosq g = Some h) -> source_at g ->
  vars_ok g -> data_ok g d -> vars_ok g' /\ data_ok g' (data_app d (data_of out)).
Proof.
  destruct ev as [|a]; cbn [gw_step].
  { intros [= <- <-] _ Hs Hv Hd. split; [done|]. by apply (keep_data g). }
  intros Hstep Hm Hs Hv Hd.
  destruct (pc g) eqn:Hpc;
    first
      [ by apply (read_data a g) | by apply (parse_data a g) | by apply (build_data a g)
      | by apply (write_data a g) | by apply (publish_data a g); auto | idtac ];
    (destruct (quiet_data a g g' out) as (Ho & Hb & Hpr & Hpj & Hpc'); [done|by rewrite Hpc|done|]);
    (split; [|by apply (keep_data g)]);
    destruct Hv as [Hv _]; (split; [by rewrite Hb|by destruct (pc g')]).
Qed.

(** ** Runs *)

Abbreviation gw_run := (run unrepresentable mq).

Lemma run_invariant evs g g' out d r :
  gw_run evs g = Some (g', out) ->
  source_at g -> vars_ok g -> data_ok g d -> resources_ok g r ->
  source_at g' /\ vars_ok g' /\ data_ok g' (data_app d (data_of out))
  /\ resources_ok g' (resources_app r (resources_of out)) /\ tidy out.
Proof.
  revert g d r out. induction evs as [|ev evs IH]; intros g d r out; cbn [run].
  { intros [= <- <-] Hs Hv Hd Hr. by rewrite data_app_nil_r, resources_app_nil_r. }
  destruct (gw_step _ _ ev g) as [[g1 out1]|] eqn:Hstep; [|done].
  destruct (gw_run evs g1) as [[g2 out2]|] eqn:Hrun; [|done]. intros [= <- <-] Hs Hv Hd Hr.
  assert (pc g = PublishJson -> exists h, mosq g = Some h) as Hm.
  { intros Hpc. destruct Hr as [_ (phase & _ & Hat)]. unfold phase_at in Hat. rewrite Hpc in Hat.
    destruct Hat as (h & ? & _). eauto. }
  destruct (step_data ev g g1 out1 d Hstep Hm Hs Hv Hd) as [Hv1 Hd1].
  destruct (step_resources ev g g1 out1 r Hstep (proj1 Hv) Hs Hr) as [Hs1 Hr1].
  destruct (IH g1 _ _ out2 Hrun Hs1 Hv1 Hd1 Hr1) as (Hs2 & Hv2 & Hd2 & Hr2 & Ht2).
  pose proof (tidy_app _ _ (step_tidy ev g g1 out1 Hstep (proj1 Hv) Hs) Ht2) as Ht.
  rewrite data_of_app, resources_of_app. unfold data_app, resources_app in *. cbn in *.
  by rewrite !app_assoc.
Qed.

Lemma run_from_start evs s raw data json g out :
  fresh s -> length raw = Z.to_nat RAW_SIZE ->
  gw_run evs (gw_init s raw data json) = Some (g, out) ->
  source_at g /\ vars_ok g /\ data_ok g (data_of out) /\ resources_ok g (resources_of out)
  /\ tidy out.
Proof.
  intros Hs Hl Hrun.
  destruct (run_invariant evs _ g out no_data no_resources Hrun) as (? & ? & Hd & Hr & Ht); [done|done| | |].
  - by exists [], [].
  - split; [cbn; by rewrite (fresh_law s Hs)|]. by exists Uninit.
  - rewrite data_app_nil_l in Hd. by rewrite resources_app_nil_l in Hr.
Qed.

(** ** After the signal *)

(** The steps that are left once [g_running] is 0. *)
Definition rank (p : Pc) : nat :=
  match p with
  | Start => 14 | InitSource => 13 | InitMqtt => 12 | ReadData => 11 | ReadFailed => 10
  | ParseData => 9 | BuildJson => 8 | WriteLog => 7 | PublishJson => 6 | LoopTest => 5
  | Stopping => 4 | Cleanup => 3 | Stopped => 2 | Exited _ | Crashed => 0
  end.

Lemma step_rank a g g' out :
  main_step unrepresentable mq a g = Some (g', out) -> g_running g = false ->
  g_running g' = false /\ (rank (pc g') < rank (pc g))%nat.
Proof.
  unfold main_step. intros Hstep Hrun.
  destruct (pc g); try done; try (injection Hstep as <- <-; cbn; split; [done|lia]).
  - destruct (data_source_init _ _) as [[ret s] o].
    destruct (ret =? 0); injection Hstep as <- <-; cbn; split; (done || lia).
  - destruct (mqtt_client_init _ _ _ _) as [[ret m] o]. cbn [source with_mosq] in Hstep.
    destruct (data_source_cleanup _ _) as [s o'].
    destruct (ret =? 0); injection Hstep as <- <-; cbn; split; (done || lia).
  - rewrite Hrun in Hstep. injection Hstep as <- <-; cbn; split; (done || lia).
  - destruct (data_source_read _ _ _ _) as [| |ret buf s o rest]; [done| |];
      [|destruct (ret =? 0)]; injection Hstep as <- <-; cbn; split; (done || lia).
  - rewrite Hrun in Hstep. injection Hstep as <- <-; cbn; split; (done || lia).
  - destruct (parse_sensor_data _ _ _) as [ret o].
    destruct (ret =? 0); injection Hstep as <- <-; cbn; split; (done || lia).
  - destruct (build_json _ _ _) as [ret o].
    destruct (ret =? 0); injection Hstep as <- <-; cbn; split; (done || lia).
  - destruct (write_log _ _ _) as [ret o].
    destruct (ret =? 0); injection Hstep as <- <-; cbn; split; (done || lia).
  - destruct (mqtt_publish_json _ _ _ _) as [ret o].
    destruct (ret =? 0); injection Hstep as <- <-; cbn; split; (done || lia).
  - destruct (data_source_cleanup _ _) as [s o'].
    injection Hstep as <- <-; cbn; split; (done || lia).
Qed.

(** The steps of the program in a schedule. *)
Definition steps (evs : list GwEvent) : nat :=
  length (omap (fun ev => match ev with Run a => Some a | Signal => None end) evs).

Lemma run_rank evs g g' out :
  gw_run evs g = Some (g', out) -> g_running g = false ->
  g_running g' = false /\ (steps evs + rank (pc g') <= rank (pc g))%nat.
Proof.
  revert g out. induction evs as [|ev evs IH]; intros g out; cbn [run].
  { intros [= <- <-] Hg. done. }
  destruct (gw_step _ _ ev g) as [[g1 out1]|] eqn:Hstep; [|done].
  destruct (gw_run evs g1) as [[g2 out2]|] eqn:Hrun; [|done]. intros [= <- <-] Hg.
  destruct ev as [|a]; cbn [gw_step] in Hstep.
  - injection Hstep as <- <-. by apply (IH _ _ Hrun).
  - apply step_rank in Hstep as [Hg1 Hlt]; [|done]. destruct (IH g1 out2 Hrun Hg1) as [Hg2 Hle].
    split; [done|]. unfold steps in *. cbn. lia.
Qed.

(** The program stands still only where it waits for the source, and when it is
    over. *)
Lemma step_none a g :
  main_step unrepresentable mq a g = None -> source_at g ->
  (exists code, pc g = Exited code)
  \/ (pc g = ReadData /\ data_source_read (source_in a) (source g) (Some (raw_buf g)) RAW_SIZE = Blocked).
Proof.
  unfold main_step, source_at. intros Hstep Hs. destruct (pc g) eqn:Hpc; try done.
  - destruct (data_source_init _ _) as [[ret s] o]. by destruct (negb _).
  - destruct (mqtt_client_init _ _ _ _) as [[ret m] o]. destruct (data_source_cleanup _ _) as [s o'].
    by destruct (negb _).
  - by destruct (g_running g).
  - right. destruct (data_source_read _ _ _ _) as [| |ret buf s o rest]; [done..|]. by destruct (negb _).
  - by destruct (g_running g).
  - destruct (parse_sensor_data _ _ _) as [ret o]. by destruct (negb _).
  - destruct (build_json _ _ _) as [ret o]. by destruct (negb _).
  - destruct (write_log _ _ _) as [ret o]. by destruct (negb _).
  - destruct (mqtt_publish_json _ _ _ _) as [ret o]. by destruct (negb _).
  - by destruct (data_source_cleanup _ _).
  - left. by eexists.
Qed.

(** ** What the gateway promises *)

(** C2: over every schedule of steps and signals, with any data source that keeps its contract,
    each line of the sensor log is a time stamp and the JSON text of an accepted line read, in the
    order of reading; messages are published only after they were logged, once each and in the
    same order; when the program ends all that was logged has been handed to the broker, and the
    accepted lines missing are as many as there were failures to open the log, none if none. *)
Theorem readings_accounted evs s raw data json g out :
  fresh s -> length raw = Z.to_nat RAW_SIZE ->
  gw_run evs (gw_init s raw data json) = Some (g, out) ->
  exists logged,
    Forall2 log_line_of (lines_of SENSOR_LOG out) logged
    /\ published out `prefix_of` logged
    /\ sublist logged (omap accept (raws out))
    /\ (forall code, pc g = Exited code ->
         published out = logged
         /\ length (omap accept (raws out)) = (length logged + length (unlogged out))%nat
         /\ (unlogged out = [] -> published out = omap accept (raws out))).
Proof.
  intros Hs Hl Hrun.
  destruct (run_from_start evs s raw data json g out Hs Hl Hrun)
    as (_ & _ & (decided & logged & Hr & Hll & Hlog & Hsub & Hcnt) & _).
  cbn in Hr, Hll, Hlog, Hcnt. exists logged. split_and!; [done| | |].
  - rewrite Hlog. by eexists.
  - rewrite Hr, omap_app. by apply sublist_inserts_r.
  - intros code Hpc. unfold pending_raw, pending_json in *. rewrite Hpc in *.
    rewrite app_nil_r in Hr, Hlog. subst decided. split_and!; [done..|]. intros Hu.
    rewrite Hu, Nat.add_0_r in Hcnt. rewrite <- Hlog. apply sublist_equal; [done|lia].
Qed.

(** C9: no schedule makes the program write outside its buffer; its calls of libmosquitto always
    follow the life cycle init, new, connect, publish and loop, disconnect, destroy, clean up; after
    every step each stream the log writers opened has been closed exactly once and every line went
    to the stream that was open for it; at every exit each descriptor the data source opened has
    been closed exactly once, and the library is cleaned up, unless it was never initialised. *)
Theorem gateway_resources evs s raw data json g out :
  fresh s -> length raw = Z.to_nat RAW_SIZE ->
  gw_run evs (gw_init s raw data json) = Some (g, out) ->
  pc g <> Crashed
  /\ is_Some (mqtt_run (MOSQ_ERR_SUCCESS mq) Uninit (mqtt_calls out))
  /\ stream_run None out = Some None
  /\ forall code, pc g = Exited code ->
       opened_fds out = closed_fds out
       /\ (mqtt_run (MOSQ_ERR_SUCCESS mq) Uninit (mqtt_calls out) = Some Finished
           \/ (code = 1 /\ mqtt_run (MOSQ_ERR_SUCCESS mq) Uninit (mqtt_calls out) = Some Uninit)).
Proof.
  intros Hs Hl Hrun.
  destruct (run_from_start evs s raw data json g out Hs Hl Hrun)
    as (Hsrc & _ & _ & (Hb & phase & Hph & Hat) & Ht). cbn in Hb, Hph. unfold source_at, phase_at in *.
  split_and!; [by destruct (pc g)|by rewrite Hph|done|]. intros code Hpc. rewrite Hpc in *.
  rewrite Hsrc, app_nil_r in Hb. split; [done|]. rewrite Hph.
  destruct Hat as [->|[-> ->]]; auto.
Qed.

(** C19: once the signal has been handled the program takes at most 14 more steps, and it stands
    still only when it has ended or while the data source does not return. *)
Theorem signal_stops_gateway evs0 s raw data json g out evs g' out' :
  fresh s -> length raw = Z.to_nat RAW_SIZE ->
  gw_run evs0 (gw_init s raw data json) = Some (g, out) -> g_running g = false ->
  gw_run evs g = Some (g', out') ->
  (steps evs + rank (pc g') <= rank (pc g) <= 14)%nat
  /\ forall a, main_step unrepresentable mq a g' = None ->
      (exists code, pc g' = Exited code)
      \/ (pc g' = ReadData
          /\ data_source_read (source_in a) (source g') (Some (raw_buf g')) RAW_SIZE = Blocked).
Proof.
  intros Hs Hl Hrun0 Hg Hrun.
  destruct (run_from_start evs0 s raw data json g out Hs Hl Hrun0) as (H1 & H2 & H3 & H4 & _).
  destruct (run_invariant evs g g' out' _ _ Hrun H1 H2 H3 H4) as (Hs' & _).
  destruct (run_rank evs g g' out' Hrun Hg) as [_ Hle].
  split; [split; [done|unfold rank; destruct (pc g); lia]|]. intros a Ha. by apply step_none.
Qed.
End facts.

(** ** A line cut by a time-out *)

Definition visible (c : ascii) : bool := 33 <=? code c.

Lemma visible_digit c : is_digit c = true -> visible c = true.
Proof. unfold is_digit, visible. intros [Hc%Z.leb_le _]%andb_prop. apply Z.leb_le. lia. Qed.

Lemma print_int_visible z : all visible (print_int z).
Proof.
  destruct (print_int_text z) as (sign & digits & -> & _ & Hd & Hs). apply Forall_app. split.
  - destruct Hs as [[-> _]|[[-> | ->] _]]; by repeat constructor.
  - eapply Forall_impl; [done|]. intros c. apply visible_digit.
Qed.

Lemma visible_chars t :
  all visible t -> no_nul t /\ all Serial.in_line t /\ all (fun c => negb (isspace c)) t.
Proof.
  intros Ht. split_and!.
  - intros Hn. eapply Forall_forall in Ht; [|done]. done.
  - eapply Forall_impl; [done|]. intros c Hc. unfold visible in Hc. apply Z.leb_le in Hc.
    unfold Serial.in_line, Serial.is_eol. apply negb_true_iff, orb_false_intro;
      apply bool_decide_eq_false; intros ->; vm_compute in Hc; done.
  - eapply Forall_impl; [done|]. intros c Hc. unfold visible in Hc. apply Z.leb_le in Hc.
    unfold isspace. apply negb_true_iff, orb_false_intro; [apply Z.eqb_neq; lia|].
    apply andb_false_intro2, Z.leb_gt. lia.
Qed.

Definition reading_line (t h : Z) (id : text) : text :=
  txt "temp=" ++ print_int t ++ txt ",humi=" ++ print_int h ++ txt ",device_id=" ++ id.

Lemma reading_line_visible t h id : all visible id -> all visible (reading_line t h id).
Proof.
  intros Hid. unfold reading_line. repeat (apply Forall_app; split); try (by repeat constructor);
    apply print_int_visible || done.
Qed.

Lemma reading_line_length t h id :
  int_ok t -> int_ok h -> (length (reading_line t h id) <= 44 + length id)%nat.
Proof.
  intros Ht%print_int_length Hh%print_int_length. unfold reading_line. rewrite !length_app. cbn. lia.
Qed.

Lemma reading_line_parses unrepresentable t h id data0 :
  int_ok t -> int_ok h -> id <> [] -> (length id <= 31)%nat -> all visible id ->
  parse_sensor_data unrepresentable (Some (reading_line t h id)) (Some data0)
  = (0, Some (mkSensor t h id)).
Proof.
  intros Ht Hh Hne Hlen Hv. apply parse_line.
  exists [], (print_int t), t, [], (print_int h), h, [], id, [].
  split_and!; try apply print_int_text; try by constructor.
  - unfold reading_line. by rewrite app_nil_r.
  - split_and!; [done..|by apply visible_chars|by right].
  - unfold store_int. by rewrite !decide_True.
Qed.

(** When the port times out inside the identifier, [data_source_read] hands out the part of the
    line received so far as if it were a line, and [parse_sensor_data] accepts it with the
    truncated identifier, whatever part of it is still to come. *)
Lemma time_out_truncates unrepresentable inp st buf t h id1 rest data0 :
  Serial.opened st -> length buf = Z.to_nat RAW_SIZE -> int_ok t -> int_ok h ->
  id1 <> [] -> (length id1 <= 31)%nat -> all visible id1 ->
  Serial.events (reads inp) = (Serial.Byte <$> reading_line t h id1) ++ Serial.Timeout :: rest ->
  exists buf' out rest',
    Serial.data_source_read inp st (Some buf) RAW_SIZE = Returned 0 (Some buf') st out rest'
    /\ Serial.events rest' = rest
    /\ parse_sensor_data unrepresentable (Some (c_string buf')) (Some data0)
       = (0, Some (mkSensor t h id1)).
Proof.
  intros Ho Hb Ht Hh Hne Hlen Hv Hev.
  pose proof (visible_chars _ (reading_line_visible t h id1 Hv)) as (Hn & Hin & _).
  assert (Serial.ReadSpec (Z.to_nat RAW_SIZE - 1) (Serial.events (reads inp))
            (Some (reading_line t h id1)) rest) as Hspec.
  { rewrite Hev. apply (Serial.read_timeout _ [] (reading_line t h id1)); [by constructor|done|].
    pose proof (reading_line_length t h id1 Ht Hh). change (Z.to_nat RAW_SIZE - 1)%nat with 127%nat.
    split; [unfold reading_line; cbn; lia|lia]. }
  pose proof (Serial.read_total inp st buf RAW_SIZE Ho ltac:(done) ltac:(rewrite Hb; done)) as Hr.
  destruct (Serial.data_source_read _ _ _ _) as [| |code buf' st' out rest']; [by apply Hr in Hspec|done|].
  destruct Hr as (-> & b & r & -> & _ & _ & _ & Hu). destruct (Hu _ _ Hspec) as [[Hc [pad Hpad]] Hrest].
  clear Hu. subst code b rest. exists (reading_line t h id1 ++ NUL :: pad), out, rest'.
  split_and!; [done..|]. rewrite c_string_app by done. by apply reading_line_parses.
Qed.

(** ** A run *)

Definition demo_lib : TermiosLib :=
  mkLib 256 64 48 48 128 2048 2147483648 1024 4096 2048 1 2 8 32 64 128 256 2 8 16 1 1 4098
    (fun t _ => (0, t)) (fun t _ => (0, t)).

Definition demo_mosq : MosqLib := mkMosq 0 (fun _ => txt "error").

Definition demo_answers (rs : list (SysRet * ascii)) : Answers :=
  let now := mkTm 126 3 9 8 5 59 in
  mkAnswers (mkInput 3 (0, mkTermios 0 0 0 0 0 0) 0 0 0 rs) true now true now (Some 1) 0 0.

(** The gateway starts, forwards one line, reads a second one that it refuses,
    and is stopped by a signal that interrupts a [read]. *)
Definition demo_schedule : list GwEvent :=
  let go := Run (demo_answers []) in
  [go; go; go; go;
   Run (demo_answers (Serial.delivered (txt "temp=25,humi=60,device_id=stm32_01" ++ [CR]))); go; go; go; go; go;
   Run (demo_answers (Serial.delivered (txt "garbage" ++ [CR]))); go; go; Signal;
   Run (demo_answers [(mkRet (-1) EINTR, NUL); (mkRet 0 0, NUL)]); go; go; go; go].

Definition demo_run : option (Gateway Serial.State * list CEffect) :=
  run (H := Serial_source demo_lib) (fun _ => 0) demo_mosq demo_schedule
    (gw_init Serial.init_state (replicate 128 NUL) zero_data []).

Definition demo_end : Gateway Serial.State * list CEffect :=
  default (gw_init Serial.init_state [] zero_data [], []) demo_run.

Lemma demo_runs :
  run (H := Serial_source demo_lib) (fun _ => 0) demo_mosq demo_schedule
    (gw_init Serial.init_state (replicate 128 NUL) zero_data []) = Some (demo_end.1, demo_end.2).
Proof. vm_compute. reflexivity. Qed.

Lemma demo_start :
  fresh (H := Serial_source demo_lib) (DataSourceLaws := Serial_laws demo_lib) Serial.init_state
  /\ length (replicate 128 NUL) = Z.to_nat RAW_SIZE.
Proof. by vm_compute. Qed.

Lemma zero_int_ok (z : Z) : int_ok 0.
Proof. unfold int_ok, INT_MIN, INT_MAX. lia. Qed.

Lemma readings_accounted_witness :
  pc demo_end.1 = Exited 0 /\ raws demo_end.2 = [txt "temp=25,humi=60,device_id=stm32_01"; txt "garbage"]
  /\ published demo_end.2 = [json_text (mkSensor 25 60 (txt "stm32_01"))]
  /\ exists logged, Forall2 log_line_of (lines_of SENSOR_LOG demo_end.2) logged
                    /\ published demo_end.2 `prefix_of` logged.
Proof.
  split; [vm_compute; reflexivity|]. split; [vm_compute; reflexivity|]. split; [vm_compute; reflexivity|].
  destruct (readings_accounted (H := Serial_source demo_lib) (H0 := Serial_laws demo_lib)
              (fun _ => 0) demo_mosq zero_int_ok demo_schedule Serial.init_state (replicate 128 NUL)
              zero_data [] demo_end.1 demo_end.2 (proj1 demo_start) (proj2 demo_start) demo_runs) as (logged & H1 & H2 & _).
  by exists logged.
Defined.

Lemma gateway_resources_witness :
  closed_fds demo_end.2 = [3] /\ opened_fds demo_end.2 = closed_fds demo_end.2
  /\ mqtt_run 0 Uninit (mqtt_calls demo_end.2) = Some Finished.
Proof.
  split; [vm_compute; reflexivity|].
  destruct (gateway_resources (H := Serial_source demo_lib) (H0 := Serial_laws demo_lib)
              (fun _ => 0) demo_mosq zero_int_ok demo_schedule Serial.init_state (replicate 128 NUL)
              zero_data [] demo_end.1 demo_end.2 (proj1 demo_start) (proj2 demo_start) demo_runs) as (_ & _ & _ & Hx).
  destruct (Hx 0 ltac:(vm_compute; reflexivity)) as [Ho Hm]. split; [done|].
  destruct Hm as [Hm|[Hc _]]; [done|discriminate Hc].
Defined.

(** The first fourteen events, up to the signal, and the other five. *)
Definition signalled : Gateway Serial.State * list CEffect :=
  default (gw_init Serial.init_state [] zero_data [], [])
    (run (H := Serial_source demo_lib) (fun _ => 0) demo_mosq (take 14 demo_schedule)
       (gw_init Serial.init_state (replicate 128 NUL) zero_data [])).

Lemma signal_stops_gateway_witness :
  (steps (drop 14 demo_schedule) + rank (pc demo_end.1) <= rank (pc signalled.1) <= 14)%nat.
Proof.
  refine (proj1 (signal_stops_gateway (H := Serial_source demo_lib) (H0 := Serial_laws demo_lib)
    (fun _ => 0) demo_mosq zero_int_ok (take 14 demo_schedule) Serial.init_state (replicate 128 NUL)
    zero_data [] signalled.1 signalled.2 (drop 14 demo_schedule) demo_end.1
    (drop (length signalled.2) demo_end.2) (proj1 demo_start) (proj2 demo_start) _ _ _)); vm_compute; reflexivity.
Defined.

Lemma time_out_truncates_witness :
  let inp := mkInput 3 (0, mkTermios 0 0 0 0 0 0) 0 0 0
               (Serial.delivered (reading_line 25 60 (txt "stm3")) ++ [(mkRet 0 0, NUL)]
                ++ Serial.delivered (txt "2_01")) in
  exists buf' out rest',
    Serial.data_source_read inp (Serial.mkState 3) (Some (replicate 128 NUL)) RAW_SIZE
      = Returned 0 (Some buf') (Serial.mkState 3) out rest'
    /\ Serial.events rest' = Serial.Byte <$> txt "2_01"
    /\ parse_sensor_data (fun _ => 0) (Some (c_string buf')) (Some zero_data)
       = (0, Some (mkSensor 25 60 (txt "stm3"))).
Proof.
  intros inp. apply time_out_truncates.
  - done.
  - reflexivity.
  - apply (bool_decide_unpack _). vm_compute. exact I.
  - apply (bool_decide_unpack _). vm_compute. exact I.
  - done.
  - apply (bool_decide_unpack _). vm_compute. exact I.
  - repeat constructor.
  - vm_compute. reflexivity.
Defined.
