(* ===== verification/RingBuffer.v ===== *)
(** * The ring buffer

    Models [practice/day02/ring_buffer.c]: eight bytes with a [head] where the next
    byte goes and a [tail] where the oldest one is; one place stays free, so that
    a full buffer differs from an empty one.  The specification is a queue of at
    most seven bytes. *)

From S2P Require Import Prelude.
From S2P Require Import Bytes.
From S2P Require Import CText.

Definition BUFFER_SIZE : Z := 8.

Record Ring := mkRing { buffer : list Z; head : Z; tail : Z }.

Definition ring_init : Ring := mkRing (replicate (Z.to_nat BUFFER_SIZE) 0) 0 0.

Definition ring_buffer_empty (r : Ring) : bool := head r =? tail r.

Definition ring_buffer_full (r : Ring) : bool := u64 (head r + 1) mod BUFFER_SIZE =? tail r.

(** The result and the new buffer; [None] for an access outside the array. *)
Definition ring_buffer_push (data : Z) (r : Ring) : option (bool * Ring) :=
  if ring_buffer_full r then Some (false, r)
  else
    match store (buffer r) (Z.to_nat (head r)) data with
    | None => None
    | Some b => Some (true, mkRing b (u64 (head r + 1) mod BUFFER_SIZE) (tail r))
    end.

(** [data] is what the pointer points to, [None] for a null pointer; the result
    is returned with the new contents. *)
Definition ring_buffer_pop (data : option Z) (r : Ring) : option (bool * option Z * Ring) :=
  match data with
  | None => Some (false, None, r)
  | Some d =>
      if ring_buffer_empty r then Some (false, Some d, r)
      else
        match buffer r !! Z.to_nat (tail r) with
        | None => None
        | Some b => Some (true, Some b, mkRing (buffer r) (head r) (u64 (tail r + 1) mod BUFFER_SIZE))
        end
  end.

(** The [while] loop of [main]: the bytes it prints. *)
Fixpoint pop_all (fuel : nat) (data : Z) (r : Ring) : option (list Z) :=
  match fuel with
  | O => None
  | S fuel' =>
      match ring_buffer_pop (Some data) r with
      | Some (true, Some d, r') => cons d <$> pop_all fuel' d r'
      | Some (_, _, _) => Some []
      | None => None
      end
  end.

Definition ring_main : option (list Z) :=
  '(_, r) ← ring_buffer_push 17 ring_init;
  '(_, r) ← ring_buffer_push 34 r;
  '(_, r) ← ring_buffer_push 51 r;
  pop_all 8 0 r.

Example ring_main_prints : ring_main = Some [17; 34; 51].
Proof. vm_compute. reflexivity. Qed.

(** ** The specification *)

Definition CAPACITY : nat := 7.

Inductive Op := Push (data : Z) | Pop | PopNull.

(** What the caller sees of an operation. *)
Inductive Answer := Pushed (ok : bool) | Popped (data : option Z).

Definition queue_step (op : Op) (q : list Z) : Answer * list Z :=
  match op with
  | Push x => if (length q <? CAPACITY)%nat then (Pushed true, q ++ [x]) else (Pushed false, q)
  | Pop => match q with [] => (Popped None, []) | x :: q' => (Popped (Some x), q') end
  | PopNull => (Popped None, q)
  end.

Definition ring_step (op : Op) (r : Ring) : option (Answer * Ring) :=
  match op with
  | Push x => '(ok, r) ← ring_buffer_push x r; Some (Pushed ok, r)
  | Pop => '(ok, d, r) ← ring_buffer_pop (Some 0) r; Some (Popped (if ok : bool then d else None), r)
  | PopNull => '(ok, d, r) ← ring_buffer_pop None r; Some (Popped (if ok : bool then d else None), r)
  end.

Fixpoint run_queue (ops : list Op) (q : list Z) : list Answer :=
  match ops with
  | [] => []
  | op :: ops' => let '(a, q') := queue_step op q in a :: run_queue ops' q'
  end.

Fixpoint run_ring (ops : list Op) (r : Ring) : option (list Answer) :=
  match ops with
  | [] => Some []
  | op :: ops' =>
      match ring_step op r with
      | Some (a, r') => cons a <$> run_ring ops' r'
      | None => None
      end
  end.

(** ** The abstraction *)

Definition ring_ok (r : Ring) : Prop :=
  length (buffer r) = Z.to_nat BUFFER_SIZE /\ 0 <= head r < BUFFER_SIZE /\ 0 <= tail r < BUFFER_SIZE.

(** The bytes from the tail up to the head. *)
Definition contents (r : Ring) : list Z :=
  (fun i => buffer r !!! Z.to_nat ((tail r + Z.of_nat i) mod BUFFER_SIZE))
  <$> seq 0 (Z.to_nat ((head r - tail r) mod BUFFER_SIZE)).

(** An index that is one of eight values. *)
Lemma index_cases i : 0 <= i < BUFFER_SIZE -> i ∈ [0; 1; 2; 3; 4; 5; 6; 7].
Proof.
  unfold BUFFER_SIZE. intros Hi. rewrite !elem_of_cons.
  assert (i = 0 \/ i = 1 \/ i = 2 \/ i = 3 \/ i = 4 \/ i = 5 \/ i = 6 \/ i = 7) by lia. tauto.
Qed.

(** Splits an index hypothesis into the eight cases. *)
Ltac each_index H :=
  apply index_cases in H; rewrite !elem_of_cons in H;
  destruct H as [H|[H|[H|[H|[H|[H|[H|[H|H]]]]]]]]; [..|by apply elem_of_nil in H].

(** One operation of the ring is one of the queue. *)
Lemma ring_step_refines op r :
  ring_ok r ->
  exists a r', ring_step op r = Some (a, r') /\ ring_ok r'
               /\ queue_step op (contents r) = (a, contents r').
Proof.
  destruct r as [b h t]. unfold ring_ok. cbn [buffer head tail]. intros (Hb & Hh & Ht).
  destruct b as [|b0 [|b1 [|b2 [|b3 [|b4 [|b5 [|b6 [|b7 [|]]]]]]]]]; try done. clear Hb.
  destruct op as [x| |]; [| |by eexists _, _].
  all: each_index Hh; subst h; each_index Ht; subst t; by eexists _, _.
Qed.

Lemma run_ring_refines ops r :
  ring_ok r -> run_ring ops r = Some (run_queue ops (contents r)).
Proof.
  revert r. induction ops as [|op ops IH]; intros r Hr; [done|]. cbn [run_ring run_queue].
  destruct (ring_step_refines op r Hr) as (a & r' & -> & Hr' & ->). by rewrite (IH r' Hr').
Qed.

(** C36: whatever pushes and pops are made, the ring buffer answers like a first-in first-out queue
    that refuses the eighth element: bytes come out in the order they went in, none is lost,
    duplicated or overwritten, and no access is outside the array. *)
Theorem ring_is_bounded_queue ops : run_ring ops ring_init = Some (run_queue ops []).
Proof. by apply run_ring_refines. Qed.
