(* ===== verification/FrameParser.v ===== *)
(** * The byte-wise frame parser

    Models [practice/day01/protocol_parser.c]: [parser_feed] takes the bytes of a
    stream one at a time through the states of a frame
    AA, length, payload, checksum, 55. *)

From Stdlib Require Import Ascii String.
From S2P Require Import Prelude.
From S2P Require Import Bytes.
From S2P Require Import SerialFrame.
From S2P Require Import CText.

Module FrameParser.

Definition HEAD : Z := 170.
Definition TAIL : Z := 85.
Definition MAX_PAYLOAD : Z := 32.

Inductive ParserState := WAIT_HEAD | WAIT_LEN | WAIT_PAYLOAD | WAIT_CHECKSUM | WAIT_TAIL.

#[export] Instance ParserState_eq_dec : EqDecision ParserState.
Proof. solve_decision. Defined.

(** The static variables. *)
Record Parser := mkParser {
  state : ParserState; payload : list Z; payload_len : Z; payload_index : Z; checksum : Z
}.

Definition parser_init : Parser :=
  mkParser WAIT_HEAD (replicate (Z.to_nat MAX_PAYLOAD) 0) 0 0 0.

(** One line of output. *)
Inductive Report :=
  | FrameOk (len : Z) (bytes : list Z)
  | LengthError
  | ChecksumError
  | TailError.

Definition report_text (r : Report) : text :=
  match r with
  | FrameOk len bytes => txt "Frame OK len=" ++ to_string len ++ txt ",payload:" ++ mjoin (hex_byte <$> bytes)
  | LengthError => txt "Length error"
  | ChecksumError => txt "Checksum error"
  | TailError => txt "Tail error"
  end.

(** [for (i = 0; i < payload_len; i++) printf("%02X", payload[i]);] *)
Fixpoint read_payload (payload : list Z) (indices : list nat) : option (list Z) :=
  match indices with
  | [] => Some []
  | i :: indices' =>
      match payload !! i with
      | Some b => cons b <$> read_payload payload indices'
      | None => None
      end
  end.

(** The new state and what is printed; [None] for an access outside the array. *)
Definition parser_feed (byte : Z) (p : Parser) : option (Parser * list Report) :=
  match state p with
  | WAIT_HEAD =>
      if byte =? HEAD
      then Some (mkParser WAIT_LEN (payload p) (payload_len p) (payload_index p) (checksum p), [])
      else Some (p, [])
  | WAIT_LEN =>
      if byte <=? MAX_PAYLOAD then
        if byte =? 0 then Some (mkParser WAIT_CHECKSUM (payload p) byte 0 0, [])
        else Some (mkParser WAIT_PAYLOAD (payload p) byte 0 0, [])
      else
        Some (mkParser WAIT_HEAD (payload p) (payload_len p) (payload_index p) (checksum p), [LengthError])
  | WAIT_PAYLOAD =>
      match store (payload p) (Z.to_nat (payload_index p)) byte with
      | None => None
      | Some payload =>
          let payload_index := u8 (payload_index p + 1) in
          let checksum := u8 (checksum p + byte) in
          let state := if payload_len p <=? payload_index then WAIT_CHECKSUM else state p in
          Some (mkParser state payload (payload_len p) payload_index checksum, [])
      end
  | WAIT_CHECKSUM =>
      if byte =? checksum p
      then Some (mkParser WAIT_TAIL (payload p) (payload_len p) (payload_index p) (checksum p), [])
      else
        Some (mkParser WAIT_HEAD (payload p) (payload_len p) (payload_index p) (checksum p), [ChecksumError])
  | WAIT_TAIL =>
      let p' := mkParser WAIT_HEAD (payload p) (payload_len p) (payload_index p) (checksum p) in
      if byte =? TAIL then
        match read_payload (payload p) (seq 0 (Z.to_nat (payload_len p))) with
        | None => None
        | Some bytes => Some (p', [FrameOk (payload_len p) bytes])
        end
      else Some (p', [TailError])
  end.

Fixpoint feed_all (bytes : list Z) (p : Parser) : option (Parser * list Report) :=
  match bytes with
  | [] => Some (p, [])
  | b :: bytes' =>
      match parser_feed b p with
      | None => None
      | Some (p', out) =>
          match feed_all bytes' p' with
          | None => None
          | Some (p'', out') => Some (p'', out ++ out')
          end
      end
  end.

(** [main] feeds one frame. *)
Definition main_output : option (list text) :=
  match feed_all [170; 3; 1; 2; 3; 6; 85] parser_init with
  | Some (_, out) => Some (report_text <$> out)
  | None => None
  end.

Example main_prints : main_output = Some [txt "Frame OK len=3,payload:010203"].
Proof. vm_compute. reflexivity. Qed.

(** ** Well-formed states *)

(** The indices are in the array, and the bytes are bytes. *)
Definition parser_ok (p : Parser) : Prop :=
  length (payload p) = Z.to_nat MAX_PAYLOAD /\ bytes_ok (payload p)
  /\ 0 <= payload_len p <= MAX_PAYLOAD /\ byte_ok (checksum p)
  /\ 0 <= payload_index p <= payload_len p
  /\ (state p = WAIT_PAYLOAD -> payload_index p < payload_len p).

#[export] Instance parser_ok_dec p : Decision (parser_ok p).
Proof. unfold parser_ok. apply _. Defined.

(** A report prints a payload of the announced length. *)
Definition report_ok (r : Report) : Prop :=
  match r with FrameOk len bytes => len = Z.of_nat (length bytes) /\ len <= MAX_PAYLOAD /\ bytes_ok bytes
             | _ => True end.

Lemma read_payload_take payload n :
  (n <= length payload)%nat -> read_payload payload (seq 0 n) = Some (take n payload).
Proof.
  assert (forall k, (k + n <= length payload)%nat ->
            read_payload payload (seq k n) = Some (take n (drop k payload))) as Hgen;
    [|intros Hn; by apply (Hgen O)].
  induction n as [|n IH]; intros k Hk; [done|]. cbn [seq read_payload].
  destruct (lookup_lt_is_Some_2 payload k) as [b Hb]; [lia|]. rewrite Hb, IH by lia.
  by rewrite (drop_S payload b k Hb).
Qed.

Lemma other_state_ok p s :
  parser_ok p -> s <> WAIT_PAYLOAD ->
  parser_ok (mkParser s (payload p) (payload_len p) (payload_index p) (checksum p)).
Proof. by intros (? & ? & ? & ? & ? & _). Qed.

Lemma parser_feed_ok byte p :
  byte_ok byte -> parser_ok p ->
  exists p' out, parser_feed byte p = Some (p', out) /\ parser_ok p' /\ Forall report_ok out.
Proof.
  intros Hbyte Hok. pose proof Hok as (Hl & Hb & Hn & Hc & Hi & Hp). unfold parser_feed.
  destruct (state p) eqn:Hst.
  - destruct (byte =? HEAD); eexists _, _; (split; [done|]); (split; [|done]); [by apply other_state_ok|done].
  - destruct (Z.leb_spec byte MAX_PAYLOAD); [destruct (Z.eqb_spec byte 0)|];
      eexists _, _; (split; [done|]); unfold parser_ok, byte_ok in *; cbn;
      split_and!; try done; try lia; by repeat constructor.
  - specialize (Hp eq_refl). unfold store, MAX_PAYLOAD in *.
    rewrite decide_True by lia. eexists _, _. split; [done|]. split; [|done].
    pose proof (u8_range (checksum p + byte)) as Hu. unfold parser_ok, MAX_PAYLOAD. cbn.
    rewrite length_insert, (u8_id (payload_index p + 1)) by (unfold UINT8_MAX; lia).
    split_and!; try done; try lia; try apply Hu.
    + by apply Forall_insert.
    + intros Hs. destruct (Z.leb_spec (payload_len p) (payload_index p + 1)); [done|lia].
  - destruct (byte =? checksum p); eexists _, _; (split; [done|]);
      (split; [by apply other_state_ok|by repeat constructor]).
  - rewrite read_payload_take by (unfold MAX_PAYLOAD in *; lia).
    destruct (byte =? TAIL); eexists _, _; (split; [done|]);
      (split; [by apply other_state_ok|]); repeat constructor; cbn.
    + rewrite length_take. unfold MAX_PAYLOAD in *. lia.
    + apply Hn.
    + by apply Forall_take.
Qed.

(** ** Reference: the grammar of a stream *)

(** The sum of the payload, modulo 256. *)
Definition sum (data : list Z) : Z := foldl (fun c b => u8 (c + b)) 0 data.

Definition start (data : list Z) : list Z := HEAD :: Z.of_nat (length data) :: data.

Definition encode_frame (data : list Z) : list Z := start data ++ [sum data; TAIL].

(** A frame that is still open at the end of the stream. *)
Definition unfinished (rest : list Z) : Prop :=
  rest = [HEAD]
  \/ (exists len data, rest = HEAD :: len :: data /\ len <= MAX_PAYLOAD /\ Z.of_nat (length data) <= len)
  \/ (exists data, rest = start data ++ [sum data] /\ Z.of_nat (length data) <= MAX_PAYLOAD).

(** The reports for a stream, read from left to right between frames. *)
Inductive Parses : list Z -> list Report -> Prop :=
  | parses_end : Parses [] []
  | parses_unfinished rest : unfinished rest -> Parses rest []
  | parses_skip b bytes out : b <> HEAD -> Parses bytes out -> Parses (b :: bytes) out
  | parses_length len bytes out :
      MAX_PAYLOAD < len -> Parses bytes out -> Parses (HEAD :: len :: bytes) (LengthError :: out)
  | parses_checksum data c bytes out :
      Z.of_nat (length data) <= MAX_PAYLOAD -> c <> sum data -> Parses bytes out ->
      Parses (start data ++ c :: bytes) (ChecksumError :: out)
  | parses_tail data t bytes out :
      Z.of_nat (length data) <= MAX_PAYLOAD -> t <> TAIL -> Parses bytes out ->
      Parses (start data ++ sum data :: t :: bytes) (TailError :: out)
  | parses_frame data bytes out :
      Z.of_nat (length data) <= MAX_PAYLOAD -> Parses bytes out ->
      Parses (encode_frame data ++ bytes) (FrameOk (Z.of_nat (length data)) data :: out).

Definition idle (p : Parser) : Prop :=
  state p = WAIT_HEAD /\ length (payload p) = Z.to_nat MAX_PAYLOAD.

(** [data] of a payload of [len] bytes has been read. *)
Definition reading (p : Parser) (data : list Z) (len : Z) : Prop :=
  state p = (if len <=? Z.of_nat (length data) then WAIT_CHECKSUM else WAIT_PAYLOAD)
  /\ length (payload p) = Z.to_nat MAX_PAYLOAD /\ payload_len p = len
  /\ payload_index p = Z.of_nat (length data) /\ take (length data) (payload p) = data
  /\ checksum p = sum data.

Lemma feed_all_app a b p :
  feed_all (a ++ b) p
  = match feed_all a p with
    | Some (p', out) => match feed_all b p' with Some (p'', out') => Some (p'', out ++ out') | None => None end
    | None => None
    end.
Proof.
  revert p. induction a as [|x a IH]; intros p; cbn.
  - by destruct (feed_all b p) as [[]|].
  - destruct (parser_feed x p) as [[p1 out1]|]; [|done]. rewrite IH.
    destruct (feed_all a p1) as [[p2 out2]|]; [|done].
    destruct (feed_all b p2) as [[p3 out3]|]; [|done]. by rewrite app_assoc.
Qed.

Lemma reading_step p data len b :
  reading p data len -> Z.of_nat (length data) < len <= MAX_PAYLOAD ->
  exists p', parser_feed b p = Some (p', []) /\ reading p' (data ++ [b]) len.
Proof.
  intros (Hst & Hl & Hn & Hi & Ht & Hc) Hlt. unfold parser_feed, MAX_PAYLOAD in *.
  rewrite (proj2 (Z.leb_gt _ _)) in Hst by lia. rewrite Hst, Hn, Hi, Hc, Nat2Z.id.
  unfold store. rewrite decide_True by lia. eexists. split; [done|].
  unfold reading. cbn. rewrite length_app, length_insert. cbn.
  rewrite (u8_id (Z.of_nat (length data) + 1)) by (unfold UINT8_MAX; lia).
  split_and!; try done; try lia.
  - by replace (Z.of_nat (length data + 1)) with (Z.of_nat (length data) + 1) by lia.
  - rewrite <- Ht at 3. rewrite Nat.add_1_r, (take_S_r _ _ b); [by rewrite take_insert_ge by lia|].
    rewrite list_lookup_insert_eq; [done|lia].
  - unfold sum. by rewrite foldl_app.
Qed.

Lemma reading_all p done data len :
  reading p done len -> Z.of_nat (length (done ++ data)) <= len <= MAX_PAYLOAD ->
  exists p', feed_all data p = Some (p', []) /\ reading p' (done ++ data) len.
Proof.
  revert p done. induction data as [|b data IH]; intros p done Hr Hlen.
  - exists p. by rewrite app_nil_r.
  - rewrite length_app in Hlen. cbn in Hlen.
    destruct (reading_step p done len b Hr) as (p1 & Hs & Hr1); [lia|].
    destruct (IH p1 (done ++ [b]) Hr1) as (p2 & Hs2 & Hr2); [rewrite !length_app in *; cbn; lia|].
    exists p2. cbn. rewrite Hs, Hs2. split; [done|]. by rewrite <- app_assoc in Hr2.
Qed.

Lemma feed_header p len :
  idle p -> 0 <= len <= MAX_PAYLOAD ->
  exists p', feed_all [HEAD; len] p = Some (p', []) /\ reading p' [] len.
Proof.
  intros [Hst Hl] Hlen. cbn [feed_all]. unfold parser_feed at 1. rewrite Hst, Z.eqb_refl.
  unfold parser_feed. cbn [state payload]. rewrite (proj2 (Z.leb_le _ _)) by lia.
  unfold reading. destruct (Z.eqb_spec len 0) as [->|Hne]; eexists; (split; [done|]); cbn.
  - by split_and!.
  - rewrite (proj2 (Z.leb_gt _ _)) by lia. by split_and!.
Qed.

Lemma feed_start p data :
  idle p -> Z.of_nat (length data) <= MAX_PAYLOAD ->
  exists p', feed_all (start data) p = Some (p', []) /\ reading p' data (Z.of_nat (length data)).
Proof.
  intros Hp Hlen. change (start data) with ([HEAD; Z.of_nat (length data)] ++ data). rewrite feed_all_app.
  destruct (feed_header p (Z.of_nat (length data)) Hp) as (p1 & -> & Hr); [lia|].
  destruct (reading_all p1 [] data _ Hr) as (p2 & -> & Hr2); [cbn; lia|]. by exists p2.
Qed.

(** The three bytes that may close a payload. *)
Lemma feed_checksum p data c :
  reading p data (Z.of_nat (length data)) ->
  exists p', parser_feed c p = Some (p', if c =? sum data then [] else [ChecksumError])
             /\ length (payload p') = Z.to_nat MAX_PAYLOAD
             /\ if c =? sum data
                then state p' = WAIT_TAIL /\ payload_len p' = Z.of_nat (length data)
                     /\ take (length data) (payload p') = data
                else state p' = WAIT_HEAD.
Proof.
  intros (Hst & Hl & Hn & _ & Ht & Hc). rewrite Z.leb_refl in Hst. unfold parser_feed.
  rewrite Hst, Hc. destruct (c =? sum data); eexists; (split; [done|]); by split_and!.
Qed.

Lemma feed_tail p data t :
  state p = WAIT_TAIL -> length (payload p) = Z.to_nat MAX_PAYLOAD ->
  payload_len p = Z.of_nat (length data) -> take (length data) (payload p) = data ->
  exists p', parser_feed t p
             = Some (p', [if t =? TAIL then FrameOk (Z.of_nat (length data)) data else TailError])
             /\ idle p'.
Proof.
  intros Hst Hl Hn Ht. unfold parser_feed. rewrite Hst. destruct (t =? TAIL); [|by eexists].
  rewrite Hn, Nat2Z.id, read_payload_take, Ht; [by eexists|].
  rewrite <- Ht, length_take. lia.
Qed.

Lemma parses_feed bytes out :
  Parses bytes out -> forall p, idle p -> exists p', feed_all bytes p = Some (p', out).
Proof.
  induction 1 as [|rest Hrest|b bytes out Hb _ IH|len bytes out Hlen _ IH|data c bytes out Hlen Hc _ IH
                 |data t bytes out Hlen Ht _ IH|data bytes out Hlen _ IH]; intros p Hp.
  - by eexists.
  - destruct Hrest as [->|[(len & data & -> & Hle & Hlen)|(data & -> & Hlen)]].
    + destruct Hp as [Hst _]. cbn. unfold parser_feed. rewrite Hst. by eexists.
    + change (HEAD :: len :: data) with ([HEAD; len] ++ data). rewrite feed_all_app.
      destruct (feed_header p len Hp) as (p1 & -> & Hr); [lia|].
      destruct (reading_all p1 [] data _ Hr) as (p2 & -> & _); [cbn; lia|]. by eexists.
    + rewrite feed_all_app. destruct (feed_start p data Hp Hlen) as (p1 & -> & Hr).
      destruct (feed_checksum p1 data (sum data) Hr) as (p2 & Hs & _). rewrite Z.eqb_refl in Hs.
      cbn. rewrite Hs. by eexists.
  - destruct (IH p Hp) as [p' Hf]. exists p'. cbn. destruct Hp as [Hst _]. unfold parser_feed.
    by rewrite Hst, (proj2 (Z.eqb_neq _ _) Hb), Hf.
  - cbn [feed_all]. destruct Hp as [Hst Hl]. unfold parser_feed at 1. rewrite Hst, Z.eqb_refl.
    unfold parser_feed at 1. cbn [state]. rewrite (proj2 (Z.leb_gt _ _)) by done.
    destruct (IH (mkParser WAIT_HEAD (payload p) (payload_len p) (payload_index p) (checksum p)))
      as [p' Hf]; [by split|]. exists p'. cbn [payload payload_len payload_index checksum]. by rewrite Hf.
  - rewrite feed_all_app. destruct (feed_start p data Hp Hlen) as (p1 & -> & Hr).
    destruct (feed_checksum p1 data c Hr) as (p2 & Hs & Hl & Hst).
    rewrite (proj2 (Z.eqb_neq _ _) Hc) in *. destruct (IH p2 (conj Hst Hl)) as [p' Hf].
    exists p'. cbn [feed_all app]. by rewrite Hs, Hf.
  - rewrite feed_all_app. destruct (feed_start p data Hp Hlen) as (p1 & -> & Hr).
    destruct (feed_checksum p1 data (sum data) Hr) as (p2 & Hs & Hl & Hst).
    rewrite Z.eqb_refl in *. destruct Hst as (Hst & Hn & Htk).
    destruct (feed_tail p2 data t Hst Hl Hn Htk) as (p3 & Hs3 & Hp3).
    rewrite (proj2 (Z.eqb_neq _ _) Ht) in Hs3. destruct (IH p3 Hp3) as [p' Hf].
    exists p'. cbn [feed_all app]. by rewrite Hs, Hs3, Hf.
  - unfold encode_frame. rewrite <- app_assoc, feed_all_app.
    destruct (feed_start p data Hp Hlen) as (p1 & -> & Hr).
    destruct (feed_checksum p1 data (sum data) Hr) as (p2 & Hs & Hl & Hst).
    rewrite Z.eqb_refl in *. destruct Hst as (Hst & Hn & Htk).
    destruct (feed_tail p2 data TAIL Hst Hl Hn Htk) as (p3 & Hs3 & Hp3).
    rewrite Z.eqb_refl in Hs3. destruct (IH p3 Hp3) as [p' Hf].
    exists p'. cbn [feed_all app]. by rewrite Hs, Hs3, Hf.
Qed.

Lemma parses_exists bytes : bytes_ok bytes -> exists out, Parses bytes out.
Proof.
  induction (Nat.lt_wf_0_projected (@length Z) bytes) as [bytes _ IH]. intros Hok.
  destruct bytes as [|b bytes]; [exists []; constructor|]. apply Forall_cons in Hok as [_ Hok].
  destruct (decide (b = HEAD)) as [->|Hb].
  2:{ destruct (IH bytes) as [out Hout]; [cbn; lia|done|]. exists out. by constructor. }
  destruct bytes as [|len bytes]; [exists []; constructor; by left|].
  apply Forall_cons in Hok as [Hlen0 Hok]. unfold byte_ok in Hlen0.
  destruct (decide (len <= MAX_PAYLOAD)) as [Hlen|Hlen].
  2:{ destruct (IH bytes) as [out Hout]; [cbn; lia|done|]. eexists. apply parses_length; [lia|done]. }
  destruct (decide (Z.of_nat (length bytes) <= len)) as [Hshort|Hlong].
  { exists []. constructor. right. left. by exists len, bytes. }
  assert (exists data c more, bytes = data ++ c :: more /\ len = Z.of_nat (length data))
    as (data & c & more & -> & ->).
  { exists (take (Z.to_nat len) bytes). destruct (drop (Z.to_nat len) bytes) as [|c more] eqn:E.
    - apply (f_equal length) in E. rewrite length_drop in E. cbn in E. lia.
    - exists c, more. rewrite <- E, take_drop, length_take. split; [done|lia]. }
  apply Forall_app in Hok as [_ Hok]. apply Forall_cons in Hok as [_ Hok].
  change (HEAD :: Z.of_nat (length data) :: data ++ c :: more) with (start data ++ c :: more).
  destruct (decide (c = sum data)) as [->|Hc].
  2:{ destruct (IH more) as [out Hout]; [cbn; rewrite length_app; cbn; lia|done|].
      eexists. by apply parses_checksum. }
  destruct more as [|t more].
  { exists []. constructor. right. right. by exists data. }
  apply Forall_cons in Hok as [_ Hok].
  destruct (IH more) as [out Hout]; [cbn; rewrite length_app; cbn; lia|done|].
  destruct (decide (t = TAIL)) as [->|Ht].
  - eexists. change (start data ++ sum data :: TAIL :: more) with (start data ++ [sum data; TAIL] ++ more).
    rewrite app_assoc. by apply parses_frame.
  - eexists. by apply parses_tail.
Qed.

(** ** The properties *)

(** C38: [parser_feed] keeps the parser well formed on every byte: the index never leaves the array
    and stays below the announced length while the payload is read, and a reported payload has the reported length, at most 32. *)
Theorem parser_stays_ok bytes p :
  bytes_ok bytes -> parser_ok p ->
  exists p' out, feed_all bytes p = Some (p', out) /\ parser_ok p' /\ Forall report_ok out.
Proof.
  intros Hb. revert p. induction Hb as [|b bytes Hbyte _ IH]; intros p Hp; [by eexists _, _|]. cbn.
  destruct (parser_feed_ok b p Hbyte Hp) as (p1 & out1 & -> & Hp1 & Ho1).
  destruct (IH p1 Hp1) as (p2 & out2 & -> & Hp2 & Ho2).
  eexists _, _. split; [done|]. split; [done|]. by apply Forall_app.
Qed.

Lemma parser_stays_ok_witness :
  exists p' out, feed_all [170; 1; 7; 7; 85; 170; 2; 9] parser_init = Some (p', out)
                 /\ parser_ok p' /\ Forall report_ok out.
Proof. apply parser_stays_ok; apply (bool_decide_unpack _); vm_compute; exact I. Defined.

(** C37: fed byte by byte, the parser reports exactly what a left-to-right reading of the whole stream
    by the grammar [Parses] gives: each complete frame with its payload, and an error for each
    wrong length, checksum or end mark, after which it looks for the next header. *)
Theorem parser_follows_grammar bytes out :
  bytes_ok bytes ->
  (exists p, feed_all bytes parser_init = Some (p, out)) <-> Parses bytes out.
Proof.
  intros Hb. assert (idle parser_init) as Hi by done. split.
  - intros [p Hp]. destruct (parses_exists bytes Hb) as [out' Hout].
    destruct (parses_feed bytes out' Hout parser_init Hi) as [p' Hp']. by simplify_eq.
  - intros Hout. by apply (parses_feed bytes out Hout).
Qed.

Lemma parser_follows_grammar_witness :
  Parses ([0] ++ encode_frame [1; 2] ++ [170; 200] ++ encode_frame []) [FrameOk 2 [1; 2]; LengthError; FrameOk 0 []].
Proof.
  apply parser_follows_grammar; [apply (bool_decide_unpack _); vm_compute; exact I|].
  eexists. vm_compute. reflexivity.
Defined.

(** A stray header byte before a frame costs the frame: it is taken for the
    header, and the real one for a length. *)
Lemma stray_header_loses_frame :
  Parses (HEAD :: encode_frame [1; 2; 3]) [LengthError].
Proof.
  apply parses_length; [done|]. repeat (apply parses_skip; [done|]). apply parses_end.
Qed.
End FrameParser.
