(* ===== verification/EchoServer.v ===== *)
(** * The TCP echo server

    Models [examples/day04_tcp_echo_server.c]: [send_all], the set-up of the
    listening socket, the loop that sends back what it receives, and the clean-up
    that every path ends in.  What the system calls return is an argument; [recv]
    takes the bytes that arrived in order, as many as it was given room for. *)

From Stdlib Require Import Ascii String.
From S2P Require Import Prelude.
From S2P Require Import CText.
From S2P Require Import HandUart.

Module EchoServer.

Definition SERVER_PORT : Z := 8888.
Definition LISTEN_BACKLOG : Z := 5.
Definition BUFFER_SIZE : Z := 256.

(** What a process does with [SIGPIPE]. *)
Inductive Disposition := SIG_DFL | SIG_IGN.
#[export] Instance Disposition_eq_dec : EqDecision Disposition.
Proof. solve_decision. Defined.

Definition EPIPE : Z := 32.

(** The loop of [send_all] from [sent] on: the results of [send] do not finish
    it; a [send] to a connection the peer has closed raised [SIGPIPE], whose
    default action ends the process; it returned, with the bytes that went out. *)
Inductive SendEnd := SendBlocked | SendKilled (out : text) | SendReturned (code : Z) (out : text).

Definition send_after (bytes : text) (e : SendEnd) : SendEnd :=
  match e with
  | SendBlocked => SendBlocked
  | SendKilled out => SendKilled (bytes ++ out)
  | SendReturned code out => SendReturned code (bytes ++ out)
  end.

Fixpoint send_loop (sigpipe : Disposition) (buffer : text) (sent : nat) (results : list SysRet) : SendEnd :=
  if decide (sent < length buffer)%nat then
    match results with
    | [] => SendBlocked
    | n :: results' =>
        if 0 <? ret n then
          send_after (take (Z.to_nat (ret n)) (drop sent buffer))
            (send_loop sigpipe buffer (sent + Z.to_nat (ret n)) results')
        else if (ret n <? 0) && (errno n =? EINTR) then send_loop sigpipe buffer sent results'
        else if (ret n <? 0) && (errno n =? EPIPE) && bool_decide (sigpipe = SIG_DFL) then SendKilled []
        else SendReturned (-1) []
    end
  else SendReturned 0 [].

Definition send_all (sigpipe : Disposition) (buffer : text) (results : list SysRet) : SendEnd :=
  send_loop sigpipe buffer 0 results.

(** One turn of the loop: the bytes that arrive before [recv] looks, the error
    it reports if it fails, how many bytes it hands over at most if it has more,
    and the [send]s that follow. *)
Record Turn := mkTurn { arriving : text; failure : option Z; amount : nat; sends : list SysRet }.

(** [recv] with room for [len] bytes, while [pending] has arrived and was not
    received yet: a failure; at least one and at most [len] bytes in the order of
    arrival; 0 when nothing is left, which a blocking [recv] returns only when
    the peer has closed.  The result comes with the bytes stored and those left. *)
Definition recv (len : Z) (pending : text) (t : Turn) : SysRet * text * text :=
  let pending := pending ++ arriving t in
  match failure t with
  | Some errno => (mkRet (-1) errno, [], pending)
  | None =>
      let n := Nat.min (length pending) (Nat.min (S (amount t)) (Z.to_nat len)) in
      (mkRet (Z.of_nat n) 0, take n pending, drop n pending)
  end.

(** What the server does to the outside. *)
Inductive Effect :=
  | Signal (sigpipe : Disposition)
  | Socket (fd : Z)
  | Setsockopt (fd : Z)
  | Bind (fd port : Z)
  | Listen (fd backlog : Z)
  | Accepted (fd : Z)
  | Echoed (bytes : text)
  | Print (format : text) (args : list text)
  | PError (msg : text)
  | CloseFd (fd : Z).

(** The end of the loop: the calls at hand do not finish it, an access outside
    the buffer, a signal ended the process, or the exit status with what was
    done. *)
Inductive LoopEnd :=
  | Waiting | Overrun | Killed (out : list Effect) | Ended (exit_status : Z) (out : list Effect).

Definition after (out : list Effect) (e : LoopEnd) : LoopEnd :=
  match e with
  | Killed out' => Killed (out ++ out')
  | Ended s out' => Ended s (out ++ out')
  | e => e
  end.

(** The [for (;;)] loop; [buffer] is the array, into which [recv] writes
    [sizeof(buffer) - 1U] bytes at most. *)
Fixpoint echo_loop (sigpipe : Disposition) (buffer : list ascii) (pending : text) (turns : list Turn)
    : LoopEnd :=
  match turns with
  | [] => Waiting
  | t :: turns' =>
      let '(received, data, pending) := recv (BUFFER_SIZE - 1) pending t in
      if 0 <? ret received then
        if decide (length buffer < length data)%nat then Overrun
        else
          let buffer := data ++ drop (length data) buffer in
          match store buffer (Z.to_nat (ret received)) NUL with
          | None => Overrun
          | Some buffer =>
              let printed := Print (txt "received %zd bytes: %s")
                               [to_string (ret received); c_string buffer] in
              match send_all sigpipe (take (Z.to_nat (ret received)) buffer) (sends t) with
              | SendBlocked => Waiting
              | SendKilled bytes => Killed [printed; Echoed bytes]
              | SendReturned code bytes =>
                  if code <? 0 then Ended 1 [printed; Echoed bytes; PError (txt "send")]
                  else after [printed; Echoed bytes] (echo_loop sigpipe buffer pending turns')
              end
          end
      else if ret received =? 0 then Ended 0 [Print (txt "client closed the connection") []]
      else if errno received =? EINTR then echo_loop sigpipe buffer pending turns'
      else Ended 1 [PError (txt "recv")]
  end.

(** What the calls of [main] return, and the uninitialised buffer. *)
Record Net := mkNet {
  socket_ret : Z; setsockopt_ret : Z; bind_ret : Z; listen_ret : Z; accept_ret : Z;
  stack_buffer : list ascii; session : list Turn
}.

(** The label [cleanup]. *)
Definition cleanup (server_fd client_fd : Z) : list Effect :=
  (if 0 <=? client_fd then [CloseFd client_fd] else [])
  ++ (if 0 <=? server_fd then [CloseFd server_fd] else []).

Definition main (net : Net) : LoopEnd :=
  let sigpipe := SIG_IGN in
  let server_fd := socket_ret net in
  after [Signal sigpipe]
    (if server_fd <? 0 then Ended 1 (PError (txt "socket") :: cleanup server_fd (-1))
     else after [Socket server_fd; Setsockopt server_fd]
       (if setsockopt_ret net <? 0 then Ended 1 (PError (txt "setsockopt") :: cleanup server_fd (-1))
        else after [Bind server_fd SERVER_PORT]
          (if bind_ret net <? 0 then Ended 1 (PError (txt "bind") :: cleanup server_fd (-1))
           else after [Listen server_fd LISTEN_BACKLOG]
             (if listen_ret net <? 0 then Ended 1 (PError (txt "listen") :: cleanup server_fd (-1))
              else
                let client_fd := accept_ret net in
                after [Print (txt "server listening on 0.0.0.0:%d\n") [to_string SERVER_PORT]]
                  (if client_fd <? 0 then Ended 1 (PError (txt "accept") :: cleanup server_fd client_fd)
                   else after [Accepted client_fd; Print (txt "client connected") []]
                     match echo_loop sigpipe (stack_buffer net) [] (session net) with
                     | Ended exit_status out => Ended exit_status (out ++ cleanup server_fd client_fd)
                     | e => e
                     end))))).

(** ** [send_all] *)

(** With [SIGPIPE] ignored, [send_all] is the loop of [write_uart]. *)
Lemma send_loop_write buffer sent results :
  send_loop SIG_IGN buffer sent results
  = match write_loop buffer sent results with
    | Some (ok, out) => SendReturned (if ok : bool then 0 else -1) out
    | None => SendBlocked
    end.
Proof.
  revert sent. induction results as [|n results IH]; intros sent; cbn [send_loop write_loop];
    case_decide; try done.
  destruct (0 <? ret n).
  - rewrite IH. by destruct (write_loop _ _ _) as [[ok out]|].
  - destruct (_ && (errno n =? EINTR)); [apply IH|].
    rewrite bool_decide_eq_false_2, andb_false_r by done. by destruct (ret n =? 0).
Qed.

(** It returns, and the bytes that went out are all or a proper prefix. *)
Lemma send_all_spec buffer results :
  match send_all SIG_IGN buffer results with
  | SendBlocked => True
  | SendKilled _ => False
  | SendReturned code out =>
      (code = 0 /\ out = buffer) \/ (code = -1 /\ exists rest, rest <> [] /\ buffer = out ++ rest)
  end.
Proof.
  unfold send_all. rewrite send_loop_write. destruct (write_loop buffer 0 results) as [[ok out]|] eqn:E; [|done].
  apply write_loop_spec in E; [|lia]. rewrite drop_0 in E. destruct E as [[-> ->]|[-> ?]]; auto.
Qed.

(** ** The session *)

(** What arrived from the client, and what it got back. *)
Definition incoming (turns : list Turn) : text := mjoin (arriving <$> turns).

Definition echoed (out : list Effect) : text :=
  mjoin ((fun e => match e with Echoed b => b | _ => [] end) <$> out).

Definition opened_by (out : list Effect) : list Z :=
  omap (fun e => match e with Socket fd | Accepted fd => Some fd | _ => None end) out.
Definition closed_by (out : list Effect) : list Z :=
  omap (fun e => match e with CloseFd fd => Some fd | _ => None end) out.

Lemma echoed_app a b : echoed (a ++ b) = echoed a ++ echoed b.
Proof. unfold echoed. by rewrite fmap_app, join_app. Qed.
Lemma opened_by_app a b : opened_by (a ++ b) = opened_by a ++ opened_by b.
Proof. apply omap_app. Qed.
Lemma closed_by_app a b : closed_by (a ++ b) = closed_by a ++ closed_by b.
Proof. apply omap_app. Qed.

(** [recv] neither loses, invents nor reorders bytes, and keeps to its limit. *)
Lemma recv_spec len pending t :
  0 < len ->
  let '(received, data, unread) := recv len pending t in
  pending ++ arriving t = data ++ unread
  /\ ((ret received = -1 /\ data = [])
      \/ (ret received = Z.of_nat (length data) /\ ret received <= len
          /\ (ret received = 0 -> unread = []))).
Proof.
  intros Hlen. unfold recv. destruct (failure t) as [e|]; [by split; [|by apply or_introl]|].
  set (p := pending ++ arriving t). set (n := Nat.min _ _). cbn [ret].
  assert (n <= length p)%nat by (subst n; lia). rewrite take_drop, length_take_le by done.
  split; [done|apply or_intror]. split; [done|]. split; [subst n; lia|]. intros Hz.
  apply nil_length_inv. rewrite length_drop. subst n. lia.
Qed.

(** What the end of the program says about the client, which had sent [pending]
    before: it got back a prefix of what it sent, everything on exit 0. *)
Definition answered (pending : text) (turns : list Turn) (status : Z) (out : list Effect) : Prop :=
  (status = 0 \/ status = 1)
  /\ exists seen unseen rest,
       turns = seen ++ unseen /\ pending ++ incoming seen = echoed out ++ rest
       /\ (status = 0 -> rest = []).

Lemma incoming_cons t turns : incoming (t :: turns) = arriving t ++ incoming turns.
Proof. done. Qed.

(** A turn that echoed [data]. *)
Lemma answered_turn pending t unread turns data status out out' :
  pending ++ arriving t = data ++ unread -> echoed out = data ->
  answered unread turns status out' -> answered pending (t :: turns) status (out ++ out').
Proof.
  intros Hp Ho (Hs & seen & unseen & rest & -> & Hin & Hr). split; [done|].
  exists (t :: seen), unseen, rest. split_and!; [done| |done].
  rewrite incoming_cons, app_assoc, Hp, echoed_app, Ho, <- !app_assoc. by rewrite Hin.
Qed.

Lemma echo_loop_spec buffer pending turns :
  length buffer = Z.to_nat BUFFER_SIZE ->
  match echo_loop SIG_IGN buffer pending turns with
  | Waiting => True
  | Overrun | Killed _ => False
  | Ended status out => opened_by out = [] /\ closed_by out = [] /\ answered pending turns status out
  end.
Proof.
  revert buffer pending. induction turns as [|t turns IH]; intros buffer pending Hb; [done|].
  cbn [echo_loop]. pose proof (recv_spec (BUFFER_SIZE - 1) pending t ltac:(done)) as Hrecv.
  destruct (recv _ pending t) as [[received data] unread]. destruct Hrecv as [Hp Hr].
  destruct (Z.ltb_spec 0 (ret received)) as [Hpos|Hneg].
  - destruct Hr as [[? _]|(Hlen & Hle & _)]; [lia|]. rewrite Hlen in *. unfold BUFFER_SIZE in *.
    rewrite decide_False by lia. rewrite Nat2Z.id. unfold store.
    rewrite decide_True by (rewrite length_app, length_drop; lia).
    rewrite insert_app_r_alt by done. rewrite Nat.sub_diag, take_app_length.
    pose proof (send_all_spec data (sends t)) as Hsend.
    destruct (send_all SIG_IGN data (sends t)) as [|out|code out]; [done..|].
    destruct Hsend as [[-> ->]|(-> & rest & Hne & Hd)]; cbn [Z.ltb Z.compare].
    + assert (echoed [Print (txt "received %zd bytes: %s")
                        [to_string (Z.of_nat (length data));
                         c_string (data ++ <[0%nat:=NUL]> (drop (length data) buffer))]; Echoed data] = data)
        as Ho by apply app_nil_r.
      specialize (IH (data ++ <[0%nat:=NUL]> (drop (length data) buffer)) unread).
      destruct (echo_loop _ _ _ turns) as [| | |status out]; [done|..];
        try (apply IH; rewrite length_app, length_insert, length_drop; lia).
      destruct IH as (Hop & Hc & Ha); [rewrite length_app, length_insert, length_drop; lia|].
      cbn [after]. split_and!; [done..|]. by eapply answered_turn.
    + split_and!; [done..|]. split; [by right|]. exists [t], turns, (rest ++ unread).
      split_and!; [done| |done]. unfold incoming. cbn. rewrite app_nil_r, Hp, Hd. cbn.
      by rewrite app_nil_r, <- app_assoc.
  - destruct (Z.eqb_spec (ret received) 0) as [Hz|Hnz].
    { destruct Hr as [[? _]|(Hlen & _ & Hleft)]; [lia|].
      assert (data = []) as -> by (apply nil_length_inv; lia). split_and!; [done..|]. split; [by left|].
      exists [t], turns, []. split_and!; [done| |done]. unfold incoming. cbn.
      by rewrite app_nil_r, Hp, (Hleft Hz). }
    destruct Hr as [[_ ->]|(Hlen & _)]; [|lia]. cbn [app] in Hp.
    destruct (errno received =? EINTR).
    + specialize (IH buffer unread Hb). destruct (echo_loop _ _ _ turns) as [| | |status out]; [done..|].
      destruct IH as (Hop & Hc & Ha). split_and!; [done..|]. exact (answered_turn _ _ _ _ [] _ [] _ Hp eq_refl Ha).
    + split_and!; [done..|]. split; [by right|]. exists [], (t :: turns), pending.
      split_and!; [done|by rewrite app_nil_r|done].
Qed.

(** C39: the echo server never writes outside its buffer and no signal ends it, whatever arrives and
    whatever the calls return; on every path out, early failures included, it has closed each
    descriptor it opened exactly once, the client before the server; the client got back a prefix
    of what it sent, byte for byte, and all of it when the server exits with 0. *)
Theorem echo_server_correct net :
  length (stack_buffer net) = Z.to_nat BUFFER_SIZE ->
  match main net with
  | Waiting => True
  | Overrun | Killed _ => False
  | Ended status out =>
      closed_by out = reverse (opened_by out) /\ answered [] (session net) status out
  end.
Proof.
  intros Hb. pose proof (echo_loop_spec _ [] (session net) Hb) as Hloop.
  assert (forall out, echoed out = [] -> answered [] (session net) 1 out) as Hfail.
  { intros out Ho. split; [by right|]. exists [], (session net), []. by rewrite Ho. }
  unfold main, cleanup. destruct (Z.ltb_spec (socket_ret net) 0) as [Hs|Hs].
  { rewrite (proj2 (Z.leb_gt 0 (socket_ret net))) by done. split; [done|by apply Hfail]. }
  rewrite (proj2 (Z.leb_le 0 (socket_ret net))) by done.
  destruct (setsockopt_ret net <? 0); [split; [done|by apply Hfail]|].
  destruct (bind_ret net <? 0); [split; [done|by apply Hfail]|].
  destruct (listen_ret net <? 0); [split; [done|by apply Hfail]|].
  destruct (Z.ltb_spec (accept_ret net) 0) as [Ha|Ha].
  { rewrite (proj2 (Z.leb_gt 0 (accept_ret net))) by done. split; [done|by apply Hfail]. }
  rewrite (proj2 (Z.leb_le 0 (accept_ret net))) by done.
  destruct (echo_loop _ _ _ _) as [| | |status out]; [done..|]. cbn [after].
  destruct Hloop as (Ho & Hc & Hst & seen & unseen & rest & Hse & Hin & Hr).
  rewrite !closed_by_app, !opened_by_app, Ho, Hc. split; [done|]. split; [done|].
  exists seen, unseen, rest. split_and!; [done| |done].
  rewrite !echoed_app. cbn. by rewrite app_nil_r.
Qed.

(** The kernel hands over 300 bytes in two pieces, and sends them in pieces. *)
Lemma echo_server_correct_witness :
  let net := mkNet 3 0 0 0 4 (replicate 256 NUL)
    [mkTurn (replicate 300 "x"%char) None 999 [mkRet 200 0; mkRet (-1) EINTR; mkRet 55 0];
     mkTurn [] (Some EINTR) 0 []; mkTurn [] None 999 [mkRet 45 0]; mkTurn [] None 0 []] in
  match main net with
  | Ended status out =>
      status = 0 /\ echoed out = replicate 300 "x"%char /\ closed_by out = reverse (opened_by out)
  | _ => False
  end.
Proof.
  intros net. pose proof (echo_server_correct net eq_refl) as H. vm_compute in H. vm_compute.
  destruct H as (H & _). done.
Defined.

(** With the default disposition a client that goes away would end the process
    before the clean-up. *)
Example sigpipe_matters :
  match echo_loop SIG_DFL (replicate 256 NUL) [] [mkTurn (txt "hi") None 9 [mkRet (-1) EPIPE]],
        echo_loop SIG_IGN (replicate 256 NUL) [] [mkTurn (txt "hi") None 9 [mkRet (-1) EPIPE]] with
  | Killed _, Ended 1 _ => True
  | _, _ => False
  end.
Proof. vm_compute. exact I. Qed.
End EchoServer.
