(* ===== verification/HandBridgeLoop.v ===== *)
(** * The hand bridge and the device at the other end

    Composes the node with a device on the serial line.  [Device] is what the node
    may expect of it: an acknowledgement OK for a number is only sent after a
    request line with that number came in.  [Mock], the script
    [ros2_ws/mock_stm32.py] that plays the microcontroller, is an instance.  The
    theorem goes from what a client of [/hand_status] sees to what the device has
    received. *)

From Stdlib Require Import Ascii String.
From S2P Require Import Prelude.
From S2P Require Import CText.
From S2P Require Import AckParser.
From S2P Require Import RetryPolicy.
From S2P Require Import HandUart.
From S2P Require Import HandBridgeNode.
From S2P Require Import HandBridgeScenarios.
From S2P Require Import HandBridgeFacts.

(** ** Lines *)

Lemma split_lines_app cur a b :
  split_lines cur (a ++ b)
  = let '(l1, c1) := split_lines cur a in let '(l2, c2) := split_lines c1 b in (l1 ++ l2, c2).
Proof.
  revert cur. induction a as [|ch a IH]; intros cur; cbn [split_lines app].
  - by destruct (split_lines cur b).
  - destruct (decide (ch = LF)); [|apply IH]. rewrite IH.
    destruct (split_lines [] a) as [l1 c1]. by destruct (split_lines c1 b).
Qed.

(** The complete lines of a text. *)
Definition lines_in (t : text) : list text := (split_lines [] t).1.

Lemma lines_in_app a b : exists more, lines_in (a ++ b) = lines_in a ++ more.
Proof.
  unfold lines_in. rewrite split_lines_app. destruct (split_lines [] a) as [l1 c1].
  destruct (split_lines c1 b) as [l2 c2]. by exists l2.
Qed.

Lemma lines_in_prefix a b l : a `prefix_of` b -> l ∈ lines_in a -> l ∈ lines_in b.
Proof.
  intros [more ->] Hl. destruct (lines_in_app a more) as [lines ->]. apply elem_of_app. by left.
Qed.

Definition no_lf (t : text) : Prop := LF ∉ t.

Lemma split_lines_no_lf cur t : no_lf t -> split_lines cur t = ([], cur ++ t).
Proof.
  revert cur. induction t as [|c t IH]; intros cur Ht; cbn; [by rewrite app_nil_r|].
  apply not_elem_of_cons in Ht as [Hc Ht]. rewrite decide_False by congruence.
  rewrite IH by done. by rewrite <- app_assoc.
Qed.

Lemma split_lines_line cur t : no_lf t -> split_lines cur (t ++ [LF]) = ([cur ++ t], []).
Proof. intros Ht. rewrite split_lines_app, split_lines_no_lf by done. done. Qed.

Lemma split_lines_rest cur t : no_lf cur -> no_lf (split_lines cur t).2.
Proof.
  revert cur. induction t as [|c t IH]; intros cur Hcur; cbn; [done|].
  destruct (decide (c = LF)).
  - pose proof (IH [] ltac:(apply not_elem_of_nil)) as H0. by destruct (split_lines [] t).
  - apply IH. unfold no_lf in *. rewrite not_elem_of_app, list_elem_of_singleton. naive_solver.
Qed.

(** ** What the node received *)

(** The bytes a step takes from the port. *)
Definition bytes_read (e : Event) : text :=
  match e with
  | EvRxRead r buffer => if 0 <? ret r then take (Z.to_nat (ret r)) buffer else []
  | _ => []
  end.

Definition received (es : list Event) : text := mjoin (bytes_read <$> es).

(** The node has parsed the lines of what it consumed of [bytes]. *)
Definition rx_inv (bytes : text) (n : Node) : Prop :=
  exists consumed rest,
    bytes = consumed ++ rest
    /\ acks n = omap (fun l => parse_ack (l ++ [LF])) (rx_feed rx_init consumed).2
    /\ match rx_pc n with
       | RxTop st | RxReading st => st = (rx_feed rx_init consumed).1 /\ rest = []
       | RxBytes st unread => st = (rx_feed rx_init consumed).1 /\ rest = unread
       | RxStopped => True
       end.

Lemma rx_inv_quiet bytes n n' :
  rx_pc n' = rx_pc n -> acks n' = acks n -> rx_inv bytes n -> rx_inv bytes n'.
Proof. intros Hpc Ha. unfold rx_inv. by rewrite Hpc, Ha. Qed.

Lemma rx_feed_snoc consumed ch :
  rx_feed rx_init (consumed ++ [ch])
  = ((rx_char (rx_feed rx_init consumed).1 ch).1,
     (rx_feed rx_init consumed).2 ++ option_list (rx_char (rx_feed rx_init consumed).1 ch).2).
Proof.
  rewrite rx_feed_app. destruct (rx_feed rx_init consumed) as [st1 l1]. cbn.
  destruct (rx_char st1 ch) as [st2 line]. cbn. by rewrite app_nil_r.
Qed.

Lemma rx_inv_step e n n' bytes :
  trans e n n' -> rx_inv bytes n -> rx_inv (bytes ++ bytes_read e) n'.
Proof.
  intros Ht Hinv.
  destruct Ht as [cmd n Hpc| | | | | | | | | | | |st n Hpc|st r buffer n Hpc Hr|st r buffer n Hpc Hr
                 |st r buffer n Hpc Hr|st now n Hpc|st ch bs now n Hpc Hl|st ch bs now s status n Hpc Hl
                 | | | | | |f frames n Hpc | | | | |];
    cbn [bytes_read]; rewrite ?app_nil_r; try by apply (rx_inv_quiet bytes n).
  - destruct (command_callback_other cmd n) as (_&_&_&_&_&_&Hrx&_&_&Ha). by apply (rx_inv_quiet bytes n).
  - destruct Hinv as (consumed & rest & -> & Ha & Hst). rewrite Hpc in Hst.
    exists consumed, rest. split_and!; [done..|]. cbn. by destruct (rx_stop_ n).
  - rewrite (proj2 (Z.ltb_ge _ _)), app_nil_r by done.
    destruct Hinv as (consumed & rest & -> & Ha & Hst). rewrite Hpc in Hst. by exists consumed, rest.
  - rewrite (proj2 (Z.ltb_ge _ _)), app_nil_r by lia.
    destruct Hinv as (consumed & rest & -> & Ha & Hst). by exists consumed, rest.
  - rewrite (proj2 (Z.ltb_lt _ _)) by lia.
    destruct Hinv as (consumed & rest & -> & Ha & Hst). rewrite Hpc in Hst. destruct Hst as [Hst ->].
    rewrite app_nil_r. exists consumed, (take (Z.to_nat (ret r)) buffer). done.
  - destruct Hinv as (consumed & rest & -> & Ha & Hst). rewrite Hpc in Hst. by exists consumed, rest.
  - destruct Hinv as (consumed & rest & -> & Ha & Hst). rewrite Hpc in Hst. destruct Hst as [-> ->].
    exists (consumed ++ [ch]), bs. split; [by rewrite <- app_assoc|].
    rewrite rx_feed_snoc. cbn [fst snd rx_pc with_rx]. split; [|done].
    rewrite omap_app, <- Ha. destruct (rx_char _ ch).2 as [l|]; cbn in *; [by rewrite Hl, app_nil_r|by rewrite app_nil_r].
  - destruct Hinv as (consumed & rest & -> & Ha & Hst). rewrite Hpc in Hst. destruct Hst as [-> ->].
    exists (consumed ++ [ch]), bs. split; [by rewrite <- app_assoc|].
    rewrite rx_feed_snoc. cbn [fst snd rx_pc with_rx with_acks with_requests acks]. split; [|done].
    rewrite omap_app, <- Ha. destruct (rx_char _ ch).2 as [l|]; cbn in *; [by rewrite Hl|done].
  - by destruct (stop_worker_ n); apply (rx_inv_quiet bytes n).
Qed.

Lemma exec_rx_inv es n n' bytes :
  exec es n = Some n' -> rx_inv bytes n -> rx_inv (bytes ++ received es) n'.
Proof.
  revert n bytes. induction es as [|e es IH]; intros n bytes; cbn [exec].
  { intros [= <-]. by rewrite app_nil_r. }
  destruct (step e n) as [n1|] eqn:He; [|done]. intros Hes Hinv.
  apply step_trans in He. unfold received. cbn [fmap list_fmap]. cbn [mjoin list_join].
  rewrite app_assoc. apply IH with (n := n1); [done|]. by eapply rx_inv_step.
Qed.

(** Every acknowledgement the node parsed is a line of what it received. *)
Lemma acks_are_lines es r n a :
  exec es (construct r) = Some n -> a ∈ acks n ->
  exists l, l ∈ lines_in (received es) /\ parse_ack (l ++ [LF]) = Some a.
Proof.
  intros Hes Ha. assert (rx_inv [] (construct r)) as H0.
  { destruct r as [[] fd]; by exists [], []. }
  destruct (exec_rx_inv es _ n [] Hes H0) as (consumed & rest & Hb & Hacks & _). cbn [app] in Hb.
  rewrite Hacks in Ha. apply list_elem_of_omap in Ha as (l & Hl & Hp). exists l. split; [|done].
  change rx_init with (rx_of []) in Hl. rewrite rx_feed_split in Hl. cbn [snd] in Hl.
  apply list_elem_of_filter in Hl as [_ Hl].
  apply (lines_in_prefix consumed); [rewrite Hb; by eexists|done].
Qed.

(** ** What the requests hold *)

(** Every request of the table holds the frame of a valid command. *)
Definition frames_known (n : Node) : Prop :=
  0 <= next_seq_ n
  /\ forall k q, requests_ n !! k = Some q ->
       0 <= k /\ exists cmd, valid_command cmd = true /\ frame q = map_to_uart_command cmd k.

Lemma run_new ops m k q :
  run ops m !! k = Some q -> m !! k = None ->
  exists op q0, op ∈ ops /\ created op k = Some q0 /\ frame q = frame q0.
Proof.
  revert m. induction ops as [|op ops IH]; intros m; cbn [run foldl]; [intros -> [=]|].
  intros Hq Hm. change (run ops (apply op m) !! k = Some q) in Hq.
  destruct (apply op m !! k) as [q1|] eqn:H1.
  - pose proof H1 as Hc. rewrite apply_lookup, Hm in Hc.
    exists op, q1. split; [apply list_elem_of_here|]. split; [done|].
    destruct (evolves_lookup _ _ _ _ (run_evolves ops (apply op m)) H1) as (q' & Hq' & Hst).
    apply lc_steps_identity in Hst as (_ & Hf & _). congruence.
  - destruct (IH _ Hq H1) as (op' & q0 & Hin & ?). exists op', q0. split; [by right|done].
Qed.

Lemma frames_known_step e n n' : trans e n n' -> frames_known n -> frames_known n'.
Proof.
  intros Ht [Hnext Hk]. split.
  - destruct Ht as [cmd n Hpc| | | | | | | | | | | | | | | | | | | | | | | | | | | | |]; try done.
    + destruct (command_callback_numbers cmd n) as [[-> | ->] _]; [done|].
      pose proof (u32_range (next_seq_ n + 1)). lia.
    + by destruct (stop_worker_ n).
  - intros k q Hq. pose proof (proj1 (trans_refines _ _ _ Ht)) as Hr.
    destruct (requests_ n !! k) as [q0|] eqn:H0.
    + destruct (evolves_lookup _ _ _ _ (trans_evolves _ _ _ Ht) H0) as (q' & Hq' & Hst).
      apply lc_steps_identity in Hst as (_ & Hf & _). destruct (Hk k q0 H0) as [? (cmd & Hv & Hf0)].
      split; [done|]. exists cmd. split; [done|congruence].
    + rewrite Hr in Hq. destruct (run_new _ _ _ _ Hq H0) as (op & q0 & Hin & Hc & Hf).
      destruct op as [s f stop| | | | |]; try done. cbn in Hc.
      destruct ((s =? k) && _) eqn:Hs; [|done]. injection Hc as <-. reflect_bools. subst s.
      assert (exists cmd, e = EvCommand cmd) as [cmd ->].
      { destruct e; eauto; exfalso; revert Hin; unfold policy_ops; repeat case_match; set_solver. }
      unfold policy_ops in Hin. destruct (main_pc n); [|by apply elem_of_nil in Hin..].
      destruct (negb (valid_command cmd)) eqn:Hv; [by apply elem_of_nil in Hin|].
      apply negb_false_iff in Hv. cbn [orb] in Hin.
      destruct (_ || _); [by apply elem_of_nil in Hin|].
      assert (k = next_seq_ n /\ f = map_to_uart_command cmd (next_seq_ n)) as [-> ->].
      { destruct (bool_decide _); set_solver. }
      split; [done|]. by exists cmd.
Qed.

Lemma reachable_frames_known r n : reachable r n -> frames_known n.
Proof.
  apply reachable_ind_trans; [|intros; by eapply frames_known_step].
  destruct r as [[] fd]; (split; [done|]); intros k q Hq; cbn in Hq; exfalso;
    exact (lookup_empty_Some (M := gmap Z) k q Hq).
Qed.

(** ** Requests as the device reads them *)

(** [str.strip()] on ASCII text. *)
Definition python_space (c : ascii) : bool :=
  (code c =? 32) || ((9 <=? code c) && (code c <=? 13)) || ((28 <=? code c) && (code c <=? 31)).

Definition strip (t : text) : text :=
  reverse (span python_space (reverse (span python_space t).2)).2.

Definition actions : list text := [txt "OPEN"; txt "GRAB"; txt "RELEASE"; txt "STOP"].

(** [re.fullmatch(r"SEQ:(\d+) CMD:HAND_(OPEN|GRAB|RELEASE|STOP)", line)] *)
Definition fullmatch (t : text) : option (Z * text) :=
  if decide (take 4 t = txt "SEQ:") then
    let '(ds, rest) := span is_digit (drop 4 t) in
    if decide (ds <> [] /\ take 10 rest = txt " CMD:HAND_" /\ drop 10 rest ∈ actions)
    then Some (dec_value ds, drop 10 rest) else None
  else None.

Definition request_of (line : text) : option (Z * text) := fullmatch (strip line).

Lemma fullmatch_spec t k act :
  fullmatch t = Some (k, act) <->
  exists ds, t = txt "SEQ:" ++ ds ++ txt " CMD:HAND_" ++ act /\ ds <> [] /\ all is_digit ds
             /\ k = dec_value ds /\ act ∈ actions.
Proof.
  unfold fullmatch. split.
  - case_decide as H4; [|done]. destruct (span is_digit (drop 4 t)) as [ds rest] eqn:E.
    apply span_spec in E as (Hd & Hds & _). case_decide as Hc; [|done]. intros [= <- <-].
    destruct Hc as (Hne & H10 & Hin). exists ds. split_and!; [|done..].
    by rewrite <- H10, take_drop, <- Hd, <- H4, take_drop.
  - intros (ds & -> & Hne & Hds & -> & Hin). rewrite decide_True by done.
    change (drop 4 (txt "SEQ:" ++ ?x)) with x. rewrite span_app by done.
    by rewrite decide_True.
Qed.

Lemma strip_split t :
  exists lead trail, t = lead ++ strip t ++ trail /\ all python_space lead /\ all python_space trail.
Proof.
  unfold strip. destruct (span python_space t) as [lead t1] eqn:E1. apply span_spec in E1 as (-> & Hl & _).
  cbn [snd]. destruct (span python_space (reverse t1)) as [trail t2] eqn:E2.
  apply span_spec in E2 as (Ht & Htr & _). cbn [snd]. exists lead, (reverse trail).
  split_and!; [|done|by apply Forall_reverse]. f_equal.
  rewrite <- reverse_app, <- Ht. by rewrite reverse_involutive.
Qed.

Lemma strip_solid a b t trail :
  python_space a = false -> python_space b = false -> all python_space trail ->
  strip ((a :: t ++ [b]) ++ trail) = a :: t ++ [b].
Proof.
  intros Ha Hb Htr. unfold strip. cbn [app span]. rewrite Ha. cbn [snd].
  change (a :: (t ++ [b]) ++ trail) with ((a :: t ++ [b]) ++ trail).
  rewrite reverse_app. rewrite (span_app _ (reverse trail)).
  - cbn [snd]. by rewrite reverse_involutive.
  - by apply Forall_reverse.
  - rewrite app_comm_cons, reverse_app. cbn. done.
Qed.

(** ** The lines on the wire *)

Definition wire_text (n : Node) : text := mjoin (tx_bytes <$> wire n).

(** A frame without its line feed. *)
Definition body (cmd : text) (k : Z) : text :=
  txt "SEQ:" ++ to_string k ++ txt " CMD:HAND_" ++ cmd ++ [CR].

Lemma valid_action cmd : valid_command cmd = true <-> cmd ∈ actions.
Proof.
  unfold valid_command, actions. rewrite !orb_true_iff, !bool_decide_eq_true. set_solver.
Qed.

Lemma frame_body cmd k : cmd ∈ actions -> map_to_uart_command cmd k = body cmd k ++ [LF].
Proof.
  unfold actions, body. rewrite !elem_of_cons, elem_of_nil, <- !app_assoc.
  intros [->|[->|[->|[->|[]]]]]; done.
Qed.

Lemma digits_no (c : ascii) t : is_digit c = false -> all is_digit t -> c ∉ t.
Proof. intros Hc Ht Hin. eapply Forall_forall in Ht; [|done]. cbn in Ht. congruence. Qed.

(** A character that none of the fixed parts of a request has. *)
Lemma request_no c ds act :
  is_digit c = false -> all is_digit ds -> act ∈ actions ->
  c ∉ txt " CMD:HAND_" -> c ∉ mjoin actions -> c ∉ ds ++ txt " CMD:HAND_" ++ act.
Proof.
  intros Hc Hds Hact Hlit Hall. rewrite !not_elem_of_app. split_and!; [by apply digits_no|done|].
  intros Hin. apply Hall. apply list_elem_of_join. by exists act.
Qed.

Lemma body_no_lf cmd k : cmd ∈ actions -> no_lf (body cmd k).
Proof.
  intros Hcmd. unfold no_lf, body. rewrite (app_assoc (txt " CMD:HAND_")), (app_assoc (to_string k)).
  rewrite not_elem_of_app. split; [|rewrite not_elem_of_app; split].
  - by apply (bool_decide_unpack _); vm_compute.
  - apply request_no; auto with gateway; by apply (bool_decide_unpack _); vm_compute.
  - by apply (bool_decide_unpack _); vm_compute.
Qed.

Lemma strip_body cmd k :
  cmd ∈ actions -> strip (body cmd k) = txt "SEQ:" ++ to_string k ++ txt " CMD:HAND_" ++ cmd.
Proof.
  intros Hcmd. unfold body. rewrite (app_assoc (txt " CMD:HAND_")), (app_assoc (to_string k)), app_assoc.
  assert (exists t b, txt "SEQ:" ++ to_string k ++ txt " CMD:HAND_" ++ cmd = "S"%char :: t ++ [b]
                      /\ python_space b = false) as (t & b & -> & Hb).
  { assert (exists c0 b, cmd = c0 ++ [b] /\ python_space b = false) as (c0 & b & -> & Hb).
    { unfold actions in Hcmd. rewrite !elem_of_cons, elem_of_nil in Hcmd.
      destruct Hcmd as [->|[->|[->|[->|[]]]]];
        [exists (txt "OPE"), "N"%char|exists (txt "GRA"), "B"%char|exists (txt "RELEAS"), "E"%char
        |exists (txt "STO"), "P"%char]; done. }
    exists (txt "EQ:" ++ to_string k ++ txt " CMD:HAND_" ++ c0), b. split; [|done].
    cbn. by rewrite <- !app_assoc. }
  apply strip_solid; [done|done|by repeat constructor].
Qed.

(** A line that the device reads as a request starts with its frame: nothing
    that begins with "S" can have been glued in front of it. *)
Lemma request_alone P cmd k k' act :
  cmd ∈ actions -> P = [] \/ head P = Some "S"%char ->
  request_of (P ++ body cmd k) = Some (k', act) -> P = [].
Proof.
  intros Hcmd HP Hreq. destruct HP as [HP|HP]; [done|]. exfalso.
  apply fullmatch_spec in Hreq as (ds & Hst & _ & Hds & _ & Hact).
  destruct (strip_split (P ++ body cmd k)) as (lead & trail & Hl & Hlead & Htrail). rewrite Hst in Hl.
  set (Q := "Q"%char). set (tail := txt ":" ++ ds ++ txt " CMD:HAND_" ++ act ++ trail).
  assert (Q ∉ tail) as Htail.
  { unfold tail. rewrite (app_assoc (txt " CMD:HAND_") act), (app_assoc ds).
    rewrite not_elem_of_app. split; [|rewrite not_elem_of_app; split].
    - by apply (bool_decide_unpack _); vm_compute.
    - apply request_no; try done; by apply (bool_decide_unpack _); vm_compute.
    - intros Hin. eapply Forall_forall in Htrail; [|done]. done. }
  set (rest := txt ":" ++ to_string k ++ txt " CMD:HAND_" ++ cmd ++ [CR]).
  assert ((P ++ txt "SE") ++ Q :: rest = (lead ++ txt "SE") ++ Q :: tail) as Heq.
  { rewrite <- !app_assoc.
    change (P ++ body cmd k = lead ++ txt "SEQ:" ++ ds ++ txt " CMD:HAND_" ++ act ++ trail).
    by rewrite Hl, <- !app_assoc. }
  assert (Q ∉ lead ++ txt "SE") as Hle.
  { rewrite not_elem_of_app. split; [|by apply (bool_decide_unpack _); vm_compute].
    intros Hin. eapply Forall_forall in Hlead; [|done]. done. }
  assert (P ++ txt "SE" = lead ++ txt "SE") as HP'.
  { set (nq := fun c => negb (bool_decide (c = Q))).
    assert (forall t u, Q ∉ t -> span nq (t ++ Q :: u) = (t, Q :: u)) as Hspan.
    { intros t u Ht. apply span_app; [|by unfold nq; cbn; rewrite bool_decide_eq_true_2].
      apply Forall_forall. intros c Hc. unfold nq. apply negb_true_iff, bool_decide_eq_false. by intros ->. }
    destruct (decide (Q ∈ P ++ txt "SE")) as [Hin|Hnin].
    - apply list_elem_of_split_l in Hin as (p1 & p2 & Hp & Hn1). rewrite Hp in Heq.
      rewrite <- app_assoc in Heq. cbn [app] in Heq.
      pose proof (Hspan p1 (p2 ++ Q :: rest) Hn1) as H1. rewrite Heq, Hspan in H1 by done.
      injection H1 as _ Ht. exfalso. apply Htail. rewrite Ht. set_solver.
    - pose proof (Hspan (P ++ txt "SE") rest Hnin) as H1. rewrite Heq, Hspan in H1 by done. by injection H1. }
  apply app_inv_tail in HP'. subst P. destruct lead as [|c lead]; [done|]. injection HP as ->.
  apply Forall_cons in Hlead as [Hc _]. done.
Qed.

(** A transmission of the frame of [cmd], whole or cut short. *)
Definition transmits (t : Transmission) (cmd : text) : Prop :=
  cmd ∈ actions
  /\ if tx_ok t then tx_bytes t = body cmd (frame_seq (tx_frame t)) ++ [LF]
     else exists rest, rest <> [] /\ body cmd (frame_seq (tx_frame t)) ++ [LF] = tx_bytes t ++ rest.

(** A proper prefix of a line does not reach its line feed. *)
Lemma proper_prefix (b out rest : text) :
  rest <> [] -> b ++ [LF] = out ++ rest -> exists more, b = out ++ more.
Proof.
  intros Hne Heq. destruct rest as [|x rest _] using rev_ind; [done|].
  rewrite app_assoc in Heq. apply app_inj_tail in Heq as [-> _]. by eexists.
Qed.

Lemma wire_requests ts cur req k act :
  Forall (fun t => exists cmd, transmits t cmd) ts ->
  no_lf cur -> cur = [] \/ head cur = Some "S"%char ->
  req ∈ (split_lines cur (mjoin (tx_bytes <$> ts))).1 -> request_of req = Some (k, act) ->
  exists t cmd, t ∈ ts /\ cmd ∈ actions /\ tx_ok t = true /\ tx_bytes t = req ++ [LF]
                /\ req = body cmd (frame_seq (tx_frame t)).
Proof.
  intros Hts. revert cur. induction Hts as [|t ts [cmd [Hcmd Ht]] _ IH]; intros cur Hnl Hhd Hin Hreq.
  { cbn in Hin. by apply elem_of_nil in Hin. }
  change (mjoin (tx_bytes <$> t :: ts)) with (tx_bytes t ++ mjoin (tx_bytes <$> ts)) in Hin.
  rewrite split_lines_app in Hin.
  destruct (tx_ok t) eqn:Hok.
  - rewrite Ht, split_lines_line in Hin by by apply body_no_lf.
    destruct (split_lines [] (mjoin (tx_bytes <$> ts))) as [l2 c2] eqn:E2. cbn [fst app] in Hin.
    apply elem_of_cons in Hin as [->|Hin].
    + apply request_alone in Hreq as Hc; [|done|done]. subst cur.
      exists t, cmd. split_and!; [apply list_elem_of_here|done..].
    + destruct (IH [] ltac:(apply not_elem_of_nil) ltac:(by left)) as (t' & cmd' & ? & ?);
        [by rewrite E2|done|]. exists t', cmd'. split; [by right|done].
  - destruct Ht as (rest & Hne & Hb). apply proper_prefix in Hb as [more Hb]; [|done].
    assert (no_lf (tx_bytes t)) as Hnb.
    { pose proof (body_no_lf cmd (frame_seq (tx_frame t)) Hcmd) as Hn. rewrite Hb in Hn.
      unfold no_lf in *. by apply not_elem_of_app in Hn as [? _]. }
    rewrite split_lines_no_lf in Hin by done.
    destruct (split_lines (cur ++ tx_bytes t) (mjoin (tx_bytes <$> ts))) as [l2 c2] eqn:E2.
    cbn [fst app] in Hin.
    destruct (IH (cur ++ tx_bytes t)) as (t' & cmd' & ? & ?).
    + unfold no_lf in *. by rewrite not_elem_of_app.
    + destruct Hhd as [->|Hhd]; [|right; by destruct cur].
      destruct (tx_bytes t) as [|c b]; [by left|right]. unfold body in Hb. by injection Hb as <- _.
    + by rewrite E2.
    + done.
    + exists t', cmd'. split; [by right|done].
Qed.

Lemma reachable_transmits r n :
  reachable r n -> Forall (fun t => exists cmd, transmits t cmd) (wire n).
Proof.
  intros Hn. destruct (reachable_frames_inv _ _ Hn) as [_ _ Hw].
  destruct (reachable_frames_known _ _ Hn) as [_ Hk]. eapply Forall_impl; [done|].
  intros t [(q & Hq & Hf) Hb]. destruct (Hk _ _ Hq) as [_ (cmd & Hv & Hfc)].
  apply valid_action in Hv. exists cmd. split; [done|]. rewrite <- frame_body by done.
  rewrite <- Hfc, Hf. done.
Qed.

(** ** The device *)

(** A program that reads the line in chunks and writes to it. *)
Class Device := { dev_run : list text -> text }.

(** It confirms no number before it has read a request line with that number. *)
Class HonestDevice `{Device} := {
  honest chunks l k :
    l ∈ lines_in (dev_run chunks) -> parse_ack (l ++ [LF]) = Some (k, AckStatus.OK) ->
    exists req act, req ∈ lines_in (mjoin chunks) /\ request_of req = Some (k, act)
}.

(** C1: end to end: if the device has read no more than what went out of the port and the node no
    more than what the device wrote, a status service that reports success tells the truth about
    the device: the device has received, complete and in one piece, the frame of the very command
    that was submitted under that number, even when writes failed half way, frames were sent
    again and reads were cut anywhere. *)
Theorem success_means_received `{HonestDevice} es r n chunks :
  exec es (construct r) = Some n ->
  mjoin chunks `prefix_of` wire_text n -> received es `prefix_of` dev_run chunks ->
  (status_callback n).1 = true ->
  exists q cmd,
    requests_ n !! latest_requested_seq_ n = Some q
    /\ valid_command cmd = true
    /\ frame q = map_to_uart_command cmd (latest_requested_seq_ n)
    /\ exists req, req ∈ lines_in (mjoin chunks) /\ frame q = req ++ [LF]
                  /\ request_of req = Some (latest_requested_seq_ n, cmd).
Proof.
  intros Hes Hin Hout Hok. assert (reachable r n) as Hn by by apply (exec_rtc es).
  destruct (reachable_status_inv _ _ Hn) as [Hl Hs [_ Hpos]].
  unfold status_callback, find in Hok. set (k := latest_requested_seq_ n) in *.
  destruct (Z.eqb_spec k 0) as [|Hnz]; [done|].
  destruct Hl as [|[q Hq]]; [done|]. rewrite Hq in Hok. cbn [fst] in Hok.
  apply bool_decide_eq_true in Hok.
  destruct (acks_are_lines es r n _ Hes (Hs k q Hq Hok)) as (l & Hline & Hp).
  apply (lines_in_prefix _ _ _ Hout) in Hline.
  destruct (honest chunks l k Hline Hp) as (req & act & Hreq & Hparse).
  pose proof (lines_in_prefix _ _ _ Hin Hreq) as Hwire.
  destruct (wire_requests (wire n) [] req k act) as (t & cmd & Ht & Hcmd & Htok & Htb & Hbody);
    [by eapply reachable_transmits|apply not_elem_of_nil|by left|done|done|].
  destruct (reachable_frames_inv _ _ Hn) as [_ _ Hw]. rewrite Forall_forall in Hw.
  destruct (Hw t Ht) as [(q' & Hq' & Hf) Htext]. rewrite Htok in Htext.
  destruct (reachable_frames_known _ _ Hn) as [_ Hkn]. destruct (Hkn _ _ Hq') as [Hts _].
  assert (frame_seq (tx_frame t) = k /\ act = cmd) as [Heq ->].
  { unfold request_of in Hparse. rewrite Hbody, strip_body in Hparse by done.
    apply fullmatch_spec in Hparse as (ds & Hst & Hne & Hds & -> & Hact).
    apply app_inv_head in Hst.
    apply (digits_split _ _ (txt "CMD:HAND_" ++ cmd) (txt "CMD:HAND_" ++ act)) in Hst as [Hds' Hact'];
      [|auto with gateway|done|done..].
    rewrite <- Hds', dec_value_to_string by done. split; [done|]. injection Hact' as Hact'. done. }
  rewrite Heq in *. rewrite Hq in Hq'. injection Hq' as <-. exists q, cmd.
  split_and!; [done|by apply valid_action| |].
  - by rewrite frame_body, <- Hbody, <- Htb, Htext, Hf.
  - exists req. split_and!; [done|by rewrite <- Htb, Htext, Hf|done].
Qed.

(** ** The script that plays the microcontroller *)

Module Mock.

(** [buffer] and [attempts]. *)
Record State := mkState { buffer : text; attempts : gmap Z Z }.

Definition init_state : State := mkState [] ∅.

(** What is written for one line, with the new [attempts]: the first attempt of
    a number is ignored, as if its acknowledgement were lost. *)
Definition mock_line (raw : text) (attempts : gmap Z Z) : gmap Z Z * text :=
  match request_of raw with
  | None => (attempts, [])
  | Some (seq, _) =>
      let attempts := <[seq := default 0 (attempts !! seq) + 1]> attempts in
      if default 0 (attempts !! seq) =? 1 then (attempts, [])
      else (attempts, crlf (ack_line seq AckStatus.IN_PROGRESS) ++ crlf (ack_line seq AckStatus.OK))
  end.

Fixpoint mock_lines (raws : list text) (attempts : gmap Z Z) : gmap Z Z * text :=
  match raws with
  | [] => (attempts, [])
  | raw :: raws' =>
      let '(attempts, out) := mock_line raw attempts in
      let '(attempts, out') := mock_lines raws' attempts in (attempts, out ++ out')
  end.

(** One turn of the outer loop: [os.read] returned [data]. *)
Definition mock_read (data : text) (st : State) : State * text :=
  let '(raws, rest) := split_lines [] (buffer st ++ data) in
  let '(attempts, out) := mock_lines raws (attempts st) in (mkState rest attempts, out).

Fixpoint mock_run (chunks : list text) (st : State) : text :=
  match chunks with
  | [] => []
  | data :: chunks' => let '(st, out) := mock_read data st in out ++ mock_run chunks' st
  end.

(** The second transmission of a request is the one that is answered. *)
Example mock_session :
  mock_run [crlf (txt "SEQ:1 CMD:HAND_GRAB"); crlf (txt "SEQ:1 CMD:HAND_GRAB")] init_state
  = crlf (txt "ACK:1 IN_PROGRESS") ++ crlf (txt "ACK:1 OK").
Proof. vm_compute. reflexivity. Qed.

(** [out] consists of whole lines, and confirms only requests of [raws]. *)
Definition confirms_only (raws : list text) (out : text) : Prop :=
  (split_lines [] out).2 = []
  /\ forall l k, l ∈ lines_in out -> parse_ack (l ++ [LF]) = Some (k, AckStatus.OK) ->
       exists req act, req ∈ raws /\ request_of req = Some (k, act).

Lemma confirms_nil raws : confirms_only raws [].
Proof. split; [done|]. intros l k Hl. by apply elem_of_nil in Hl. Qed.

Lemma confirms_app raws a b :
  confirms_only raws a -> confirms_only raws b -> confirms_only raws (a ++ b).
Proof.
  intros [Ha1 Ha2] [Hb1 Hb2]. unfold confirms_only, lines_in in *. rewrite split_lines_app.
  destruct (split_lines [] a) as [l1 c1]. cbn in Ha1. subst c1.
  destruct (split_lines [] b) as [l2 c2]. cbn in *. split; [done|].
  intros l k [Hl|Hl]%elem_of_app; eauto.
Qed.

Lemma confirms_mono raws raws' out :
  raws ⊆ raws' -> confirms_only raws out -> confirms_only raws' out.
Proof. intros Hsub [H1 H2]. split; [done|]. intros l k Hl Hp. destruct (H2 l k Hl Hp) as (req & act & ? & ?). eauto. Qed.

Lemma ack_line_no_lf n st : no_lf (ack_line n st ++ [CR]).
Proof.
  unfold no_lf, ack_line. rewrite !not_elem_of_app, not_elem_of_cons. split_and!.
  - by apply (bool_decide_unpack _); vm_compute.
  - apply digits_no; auto with gateway.
  - done.
  - by destruct st; apply (bool_decide_unpack _); vm_compute.
  - by apply (bool_decide_unpack _); vm_compute.
Qed.

(** An acknowledgement line is read back as what it says, if at all. *)
Lemma parse_ack_line n st k status :
  0 <= n -> parse_ack (crlf (ack_line n st)) = Some (k, status) -> k = n /\ status = st.
Proof.
  intros Hn Hp. apply parse_ack_exact in Hp as (ds & eol & Heq & Hne & Hds & -> & _ & Heol).
  unfold crlf, ack_line in Heq. rewrite <- !app_assoc in Heq. apply app_inv_head in Heq. cbn [app] in Heq.
  apply digits_split in Heq as [Hd Hst]; [|auto with gateway|done..].
  rewrite <- Hd, dec_value_to_string by done. split; [done|]. injection Hst as Hst.
  unfold eols in Heol. rewrite !elem_of_cons, elem_of_nil in Heol.
  destruct Heol as [->|[->|[->|[]]]]; destruct status, st; by vm_compute in Hst.
Qed.

Lemma mock_line_confirms raw attempts raws :
  raw ∈ raws -> confirms_only raws (mock_line raw attempts).2.
Proof.
  intros Hraw. unfold mock_line. destruct (request_of raw) as [[seq act]|] eqn:Hreq; [|apply confirms_nil].
  destruct (_ =? 1); [apply confirms_nil|]. cbn [snd].
  assert (0 <= seq) as Hseq.
  { apply fullmatch_spec in Hreq as (ds & _ & _ & Hds & -> & _). by apply dec_from_lower. }
  assert (forall st, confirms_only raws (crlf (ack_line seq st))) as Hone; [|by apply confirms_app].
  intros st. assert (split_lines [] (crlf (ack_line seq st)) = ([ack_line seq st ++ [CR]], [])) as Hsl.
  { unfold crlf. change [CR; LF] with ([CR] ++ [LF]).
    rewrite (app_assoc (ack_line seq st) [CR] [LF]). apply (split_lines_line []), ack_line_no_lf. }
  unfold confirms_only, lines_in. rewrite Hsl. split; [done|]. cbn [fst].
  intros l k ->%list_elem_of_singleton Hp. rewrite <- app_assoc in Hp.
  apply parse_ack_line in Hp as [-> _]; [|done]. by exists raw, act.
Qed.

Lemma mock_lines_confirms raws attempts : confirms_only raws (mock_lines raws attempts).2.
Proof.
  revert attempts. induction raws as [|raw raws IH]; intros attempts; cbn [mock_lines]; [apply confirms_nil|].
  pose proof (mock_line_confirms raw attempts (raw :: raws) ltac:(apply list_elem_of_here)) as H1.
  destruct (mock_line raw attempts) as [attempts1 out1].
  pose proof (IH attempts1) as H2. destruct (mock_lines raws attempts1) as [attempts2 out2]. cbn [snd] in *.
  apply confirms_app; [done|]. eapply confirms_mono; [|done]. set_solver.
Qed.

Lemma mock_run_confirms chunks seen st :
  buffer st = (split_lines [] seen).2 ->
  confirms_only (lines_in (seen ++ mjoin chunks)) (mock_run chunks st).
Proof.
  revert seen st. induction chunks as [|data chunks IH]; intros seen st Hb; [apply confirms_nil|].
  cbn [mock_run]. unfold mock_read.
  pose proof (split_lines_app [] seen data) as Hsplit.
  assert (no_lf (buffer st)) as Hnl by (rewrite Hb; apply split_lines_rest; apply not_elem_of_nil).
  rewrite split_lines_app, split_lines_no_lf by done. cbn [app].
  rewrite Hb. destruct (split_lines [] seen) as [l1 c1]. cbn [snd] in *.
  destruct (split_lines c1 data) as [l2 c2].
  pose proof (mock_lines_confirms l2 (attempts st)) as H1.
  destruct (mock_lines l2 (attempts st)) as [attempts' out]. cbn [snd] in H1. cbn [app].
  change (mjoin (data :: chunks)) with (data ++ mjoin chunks). rewrite app_assoc.
  apply confirms_app.
  - eapply confirms_mono; [|done]. destruct (lines_in_app (seen ++ data) (mjoin chunks)) as [more ->].
    unfold lines_in. rewrite Hsplit. cbn [fst]. set_solver.
  - apply IH. cbn [buffer]. by rewrite Hsplit.
Qed.
End Mock.

#[export] Instance Mock_device : Device := { dev_run chunks := Mock.mock_run chunks Mock.init_state }.

#[export] Program Instance Mock_honest : HonestDevice (H := Mock_device).
Next Obligation.
  intros chunks l k Hl Hp. destruct (Mock.mock_run_confirms chunks [] Mock.init_state eq_refl) as [_ Hc].
  by apply (Hc l k).
Qed.

(** The node and the script: the first frame goes unanswered, the retry is
    confirmed. *)
Lemma success_means_received_witness :
  exists q cmd,
    requests_ (after lost_ack_trace) !! 1 = Some q /\ valid_command cmd = true
    /\ frame q = map_to_uart_command cmd 1.
Proof.
  destruct (success_means_received (H := Mock_device) (H0 := Mock_honest) lost_ack_trace (true, 3)
              (after lost_ack_trace) [crlf (txt "SEQ:1 CMD:HAND_GRAB"); crlf (txt "SEQ:1 CMD:HAND_GRAB")])
    as (q & cmd & Hq & Hv & Hf & _).
  - vm_compute. reflexivity.
  - exists []. vm_compute. reflexivity.
  - exists []. vm_compute. reflexivity.
  - vm_compute. reflexivity.
  - exists q, cmd. split; [|split; [exact Hv|]].
    + rewrite <- Hq. f_equal.
    + rewrite Hf. f_equal.
Defined.
