(* ===== verification/DemoPrograms.v ===== *)
(** * The demonstration programs

    The [main] functions of [protocol_parser/demo], [lambda_algorithm_demo],
    [thread_safe_log_demo], [log_manager/demo] and [gateway_pipeline_demo]: what
    they print, as functions of their data, and for the two with threads under
    every interleaving. *)

From Stdlib Require Import Ascii String.
From S2P Require Import Prelude.
From S2P Require Import CText.
From S2P Require Import ProtocolParser.
From S2P Require Import LogManager.
From S2P Require Import WorkQueue.
From S2P Require Import QueueClients.
From S2P Require Import GatewayPipeline.

(** [operator<<] of a [bool] with [std::boolalpha]. *)
Definition boolalpha (b : bool) : text := if b then txt "true" else txt "false".

(** ** [protocol_parser/demo/main.cpp] *)

Module ParserDemo.
Definition testInputs : list text :=
  [txt "OPEN"; txt "grab"; txt "release"; "009"%char :: txt "Stop" ++ ["009"%char]; txt "JUMP"; []].

Definition report (rawInput : text) : text :=
  let command := parse rawInput in
  txt "input:" ++ [DQ] ++ rawInput ++ [DQ] ++ txt "|command:" ++ commandToString command
  ++ txt "|executor:" ++ toExecutorCommand command ++ txt "|valid:" ++ boolalpha (isValid command).

Definition main : list text := report <$> testInputs.

Example main_commands :
  parse <$> testInputs = [Open; Grab; Release; Stop; Unknown; Unknown].
Proof. vm_compute. reflexivity. Qed.

(** A line of the table says valid exactly for the inputs that name an executor
    command. *)
Lemma report_valid rawInput :
  isValid (parse rawInput) = negb (bool_decide (toExecutorCommand (parse rawInput) = txt "HAND_NONE")).
Proof. by destruct (parse rawInput). Qed.
End ParserDemo.

(** ** [lambda_algorithm_demo/main.cpp] *)

Module LambdaDemo.
Record CommandRecord := mkRecord { sequence : Z; command : text; accepted : bool }.

(** [std::transform] in place. *)
Definition normalizeCommand (command : text) : text := toupper <$> command.

Definition initial_records : list CommandRecord :=
  [mkRecord 1 (txt "open") true; mkRecord 2 (txt "Grab") true; mkRecord 3 (txt "jump") false;
   mkRecord 4 (txt "stop") true; mkRecord 5 (txt "release") true; mkRecord 6 (txt "JUMP") false].

(** The first [std::for_each]. *)
Definition normalize_records (records : list CommandRecord) : list CommandRecord :=
  (fun record => mkRecord (sequence record) (normalizeCommand (command record)) (accepted record))
  <$> records.

Definition record_line (record : CommandRecord) : text :=
  txt "seq=" ++ to_string (sequence record) ++ txt " command=" ++ command record
  ++ txt " accepted=" ++ boolalpha (accepted record).

(** [std::find_if]; [None] is [end()]. *)
Fixpoint find_if {A} (p : A -> bool) (l : list A) : option A :=
  match l with [] => None | x :: l' => if p x then Some x else find_if p l' end.

(** [std::count_if]. *)
Fixpoint count_if {A} (p : A -> bool) (l : list A) : Z :=
  match l with [] => 0 | x :: l' => (if p x then 1 else 0) + count_if p l' end.

(** The second [std::for_each]: the captured variable is incremented. *)
Definition count_accepted (records : list CommandRecord) : Z :=
  foldl (fun acceptedCount record => if accepted record then acceptedCount + 1 else acceptedCount)
    0 records.

Definition minimumSequence : Z := 4.

Definition main (records : list CommandRecord) : list text :=
  let records := normalize_records records in
  txt "===== NORMALIZE =====" :: (record_line <$> records)
  ++ [[]; txt "===== FIND STOP ====="]
  ++ match find_if (fun record => bool_decide (command record = txt "STOP")) records with
     | Some record => [txt "found STOP, seq=" ++ to_string (sequence record)]
     | None => []
     end
  ++ [[]; txt "===== COUNT REJECTED ====="]
  ++ [txt "rejected=" ++ to_string (count_if (fun record => negb (accepted record)) records)]
  ++ [[]; txt "===== THRESHOLD CAPTURE ====="]
  ++ [txt "sequence >= " ++ to_string minimumSequence ++ txt ": "
      ++ to_string (count_if (fun record => minimumSequence <=? sequence record) records)]
  ++ [[]; txt "===== REFERENCE CAPTURE ====="]
  ++ [txt "accepted=" ++ to_string (count_accepted records)].

Example lambda_results :
  drop 7 (main initial_records)
  = [[]; txt "===== FIND STOP ====="; txt "found STOP, seq=4";
     []; txt "===== COUNT REJECTED ====="; txt "rejected=2";
     []; txt "===== THRESHOLD CAPTURE ====="; txt "sequence >= 4: 3";
     []; txt "===== REFERENCE CAPTURE ====="; txt "accepted=4"].
Proof. vm_compute. reflexivity. Qed.

Lemma count_if_filter {A} (p : A -> bool) l :
  count_if p l = Z.of_nat (length (filter (fun x => p x = true) l)).
Proof.
  induction l as [|x l IH]; [done|]. cbn [count_if]. rewrite IH, filter_cons.
  destruct (p x); case_decide; (done || cbn [length]; lia).
Qed.

Lemma find_if_first {A} (p : A -> bool) l x :
  find_if p l = Some x <->
  exists before after, l = before ++ x :: after /\ p x = true /\ Forall (fun y => p y = false) before.
Proof.
  split.
  - induction l as [|y l IH]; [done|]. cbn. destruct (p y) eqn:Hy.
    + intros [= ->]. exists [], l. by split_and!.
    + intros H. destruct (IH H) as (before & after & -> & ? & ?). exists (y :: before), after.
      split_and!; [done..|by constructor].
  - intros (before & after & -> & Hx & Hb). induction Hb as [|y before Hy _ IH]; cbn; [by rewrite Hx|].
    by rewrite Hy.
Qed.

(** The two counts of the program are those of a partition. *)
Lemma counts_add_up records :
  count_accepted records + count_if (fun record => negb (accepted record)) records
  = Z.of_nat (length records).
Proof.
  unfold count_accepted.
  assert (forall a, foldl (fun acceptedCount record => if accepted record then acceptedCount + 1 else acceptedCount)
                      a records
                    + count_if (fun record => negb (accepted record)) records
                    = a + Z.of_nat (length records)) as Hgen; [|by rewrite Hgen].
  induction records as [|record records IH]; intros a; cbn [foldl count_if length]; [lia|].
  specialize (IH (if accepted record then a + 1 else a)). destruct (accepted record); cbn [negb]; lia.
Qed.

Lemma normalizeCommand_idempotent command :
  normalizeCommand (normalizeCommand command) = normalizeCommand command.
Proof.
  unfold normalizeCommand. rewrite <- list_fmap_compose. apply list_fmap_ext. intros _ c _.
  destruct c as [[] [] [] [] [] [] [] []]; reflexivity.
Qed.
End LambdaDemo.

(** ** [thread_safe_log_demo/main.cpp] *)

Module ThreadSafeLogDemo.

(** The logger as the program sets it up. *)
Definition start_logger (opened : bool) : Logger :=
  setMaxCachedLogs 20 (setAutoFlush true (setConsoleEnabled true
    (construct_logger (txt "thread_safe_log_demo.log") opened))).

Definition collector (thread_id : text) : list LogCall :=
  writeLogs LogLevel.Info (txt "collector") thread_id.
Definition processor (thread_id : text) : list LogCall :=
  writeLogs LogLevel.Warning (txt "processor") thread_id.

(** What is printed after the two threads have been joined. *)
Definition results (logger : Logger) : list text :=
  [txt "[RESULT] INFO=" ++ to_string (getLogCount LogLevel.Info logger);
   txt "[RESULT] WARNING=" ++ to_string (getLogCount LogLevel.Warning logger);
   txt "[RESULT] ERROR=" ++ to_string (getLogCount LogLevel.Error logger);
   txt "[RESULT] cahced_logs=" ++ to_string (Z.of_nat (length (getRecentLogs logger)));
   txt "[MAIN]all worker threads joined"].

(** The exit code and the results, the calls of the threads having been made in
    the order [schedule]. *)
Definition main (opened : bool) (schedule : list LogCall) : Z * list text :=
  let logger := start_logger opened in
  if negb (isFileOpen logger) then (1, [txt "[ERROR] Logger initialization failed"])
  else (0, results (calls schedule logger)).

(** In every interleaving of the two threads the program prints the same. *)
Lemma main_results thread1 thread2 schedule :
  interleave (collector thread1) (processor thread2) schedule ->
  main true schedule
  = (0, [txt "[RESULT] INFO=5"; txt "[RESULT] WARNING=5"; txt "[RESULT] ERROR=0";
         txt "[RESULT] cahced_logs=10"; txt "[MAIN]all worker threads joined"]).
Proof.
  intros Hs. unfold main. cbn [negb isFileOpen start_logger]. change (isFileOpen (start_logger true)) with true.
  cbn [negb]. f_equal. unfold results.
  assert (only_logs schedule) as Hlogs.
  { unfold only_logs. rewrite (interleave_perm _ _ _ Hs). apply Forall_app.
    split; by repeat constructor. }
  destruct (only_logs_plain schedule Hlogs) as [_ Hr].
  assert (forallb keeps_cache schedule = true) as Hk.
  { clear -Hlogs. induction Hlogs as [|[] cs Hc _ IH]; by cbn. }
  assert (cache_ok (start_logger true)) as Hc by (unfold cache_ok; cbn; lia).
  destruct (calls_cache schedule _ Hc Hk) as [_ Hrec]. unfold getRecentLogs. rewrite Hrec.
  assert (length (lines schedule) = 10%nat) as Hlen.
  { assert (interleave (lines (collector thread1)) (lines (processor thread2)) (lines schedule)) as Hl
      by by apply interleave_bind.
    by rewrite (interleave_perm _ _ _ Hl). }
  change (maxCachedLogs_ (start_logger true)) with 20%nat.
  change (recentLogs_ (start_logger true)) with (@nil text). cbn [app].
  rewrite lastn_all by lia. rewrite Hlen.
  rewrite !calls_count by (done || (split; done)).
  by rewrite !(interleave_logs_at _ _ _ _ Hs).
Qed.
End ThreadSafeLogDemo.

(** ** [log_manager/demo/main.cpp] *)

Module LogManagerDemo.

(** The counts printed one by one, with what is printed after the name. *)
Definition count_lines (suffix : text) (logger : Logger) : list text :=
  (fun e => txt "[INFO] " ++ e.1 ++ txt " count" ++ suffix ++ txt ": " ++ to_string e.2)
  <$> level_counts logger.

(** The loop over [getAllLogCounts()]. *)
Definition statistics_lines (logger : Logger) : list text :=
  txt "[INFO] All log statistics:"
  :: ((fun e => txt "  " ++ e.1 ++ txt ": " ++ to_string e.2) <$> level_counts logger).

Definition main (opened : bool) : Z * list text :=
  match log_manager_main opened with
  | None => (1, [txt "[ERROR] Logger initialization failed"])
  | Some logger =>
      (0, count_lines [] logger ++ statistics_lines logger
          ++ count_lines (txt " after reset") (resetLogCounts logger))
  end.

Example main_lines :
  main true
  = (0, [txt "[INFO] INFO count: 3"; txt "[INFO] WARNING count: 1"; txt "[INFO] ERROR count: 1";
         txt "[INFO] All log statistics:"; txt "  INFO: 3"; txt "  WARNING: 1"; txt "  ERROR: 1";
         txt "[INFO] INFO count after reset: 0"; txt "[INFO] WARNING count after reset: 0";
         txt "[INFO] ERROR count after reset: 0"]).
Proof. vm_compute. reflexivity. Qed.
End LogManagerDemo.

(** ** [gateway_pipeline_demo/main.cpp] *)

Module PipelineProgram.

(** What [main] prints after the two threads, whose effects are [trace]. *)
Definition results (trace : list Effect) : list text :=
  let stats := PipelineDemo.stats trace in
  let logger := calls (log_calls trace) (gateway_logger (txt "gateway_pipeline_demo.log")) in
  [txt "[RESULT] accepted=" ++ to_string (PipelineDemo.accepted stats);
   txt "[RESULT] rejected=" ++ to_string (PipelineDemo.rejected stats);
   txt "[RESULT] INFO logs=" ++ to_string (getLogCount LogLevel.Info logger);
   txt "[RESULT] WARNING logs=" ++ to_string (getLogCount LogLevel.Warning logger);
   txt "[MAIN] all worker threads joined"].

(** Every complete run prints the same totals. *)
Lemma program_results evs p :
  pipe_run evs (initial_pipe (PipelineDemo.inputProducer PipelineDemo.testInputs)) = Some p ->
  pipe_done p ->
  results (trace p)
  = [txt "[RESULT] accepted=4"; txt "[RESULT] rejected=1"; txt "[RESULT] INFO logs=11";
     txt "[RESULT] WARNING logs=1"; txt "[MAIN] all worker threads joined"].
Proof.
  intros Hr Hd.
  destruct (pipeline_counts (txt "gateway_pipeline_demo.log") PipelineDemo.testInputs evs p
              ltac:(done) Hr Hd) as (Hs & Hi & Hw).
  unfold results. rewrite Hs, Hi, Hw. vm_compute. reflexivity.
Qed.
End PipelineProgram.
