(* ===== verification/SmartPointers.v ===== *)
(** * Ownership through smart pointers

    Models [cpp_modules/smart_pointer_demo]: the classes [SerialPortMock] and
    [GatewayWorker], the function [showConfig], and [main] as a sequence of
    statements on named variables.  A [shared_ptr] is a pointer to a block with a
    use count, a [unique_ptr] the only pointer to its object, a [weak_ptr] a
    pointer that does not count. *)

From Stdlib Require Import Ascii String.
From S2P Require Import Prelude.
From S2P Require Import DemoPrograms.

Record GatewayConfig := mkConfig { gatewayName : text; baudRate : Z }.

(** The block of a shared object: the object until it is destroyed, and the
    number of its owners. *)
Record Block := mkBlock { object : option GatewayConfig; use_count : Z }.

(** [serialPort_] and [config_]. *)
Record GatewayWorker := mkWorker { serialPort_ : option nat; config_ : option nat }.

Record World := mkWorld {
  blocks : gmap nat Block;
  ports : gmap nat text;                     (* the live [SerialPortMock]s, with [device_] *)
  fresh : nat;
  shared_vars : gmap string (option nat);
  unique_vars : gmap string (option nat);
  weak_vars : gmap string (option nat);
  workers : gmap string GatewayWorker;
  output : list text
}.

Definition empty_world : World := mkWorld ∅ ∅ 0 ∅ ∅ ∅ ∅ [].

Definition print (line : text) (w : World) : World :=
  mkWorld (blocks w) (ports w) (fresh w) (shared_vars w) (unique_vars w) (weak_vars w) (workers w)
    (output w ++ [line]).
Definition with_blocks (m : gmap nat Block) (w : World) : World :=
  mkWorld m (ports w) (fresh w) (shared_vars w) (unique_vars w) (weak_vars w) (workers w) (output w).
Definition with_ports (m : gmap nat text) (w : World) : World :=
  mkWorld (blocks w) m (fresh w) (shared_vars w) (unique_vars w) (weak_vars w) (workers w) (output w).
Definition with_shared (m : gmap string (option nat)) (w : World) : World :=
  mkWorld (blocks w) (ports w) (fresh w) m (unique_vars w) (weak_vars w) (workers w) (output w).
Definition with_unique (m : gmap string (option nat)) (w : World) : World :=
  mkWorld (blocks w) (ports w) (fresh w) (shared_vars w) m (weak_vars w) (workers w) (output w).
Definition with_weak (m : gmap string (option nat)) (w : World) : World :=
  mkWorld (blocks w) (ports w) (fresh w) (shared_vars w) (unique_vars w) m (workers w) (output w).
Definition with_workers (m : gmap string GatewayWorker) (w : World) : World :=
  mkWorld (blocks w) (ports w) (fresh w) (shared_vars w) (unique_vars w) (weak_vars w) m (output w).
Definition bump (w : World) : World :=
  mkWorld (blocks w) (ports w) (S (fresh w)) (shared_vars w) (unique_vars w) (weak_vars w) (workers w)
    (output w).

(** ** The pointers *)

(** Another owner, and one less: the last one destroys the object. *)
Definition retain (p : option nat) (w : World) : World :=
  match p with
  | Some b => with_blocks (alter (fun bl => mkBlock (object bl) (use_count bl + 1)) b (blocks w)) w
  | None => w
  end.

Definition release (p : option nat) (w : World) : World :=
  match p with
  | Some b =>
      with_blocks
        (alter (fun bl =>
           let count := use_count bl - 1 in
           mkBlock (if count =? 0 then None else object bl) count) b (blocks w)) w
  | None => w
  end.

(** [SerialPortMock(device)] at the address [a], and [send]. *)
Definition construct_port (a : nat) (device : text) (w : World) : World :=
  print (txt "[SERIAL] open " ++ device) (with_ports (<[a := device]> (ports w)) w).

Definition send (command : text) (w : World) : World := print (txt "[SERIAL] send " ++ command) w.

(** [~SerialPortMock], through the [unique_ptr] that owns the object. *)
Definition delete_port (p : option nat) (w : World) : World :=
  match p with
  | Some a =>
      match ports w !! a with
      | Some device => print (txt "[SERIAL] close " ++ device) (with_ports (delete a (ports w)) w)
      | None => w
      end
  | None => w
  end.

(** ** The statements *)

Inductive Stmt :=
  | MakeShared (x : string) (config : GatewayConfig)   (* auto x = std::make_shared<GatewayConfig>(...) *)
  | MakeWeak (v x : string)                            (* std::weak_ptr<GatewayConfig> v = x *)
  | MakeUnique (u : string) (device : text)            (* auto u = std::make_unique<SerialPortMock>(...) *)
  | NewWorker (k u x : string)                         (* GatewayWorker k(std::move(u), x) *)
  | PrintMoved (u : string)
  | PrintCount (x : string)
  | Execute (k : string) (command : text)              (* k.execute(command) *)
  | ShowConfig (v : string)                            (* showConfig(v) *)
  | Reset (x : string)                                 (* x.reset() *)
  | PrintLine (line : text)
  | EndShared (x : string) | EndWeak (v : string) | EndUnique (u : string) | EndWorker (k : string).

(** [execute]: both members are dereferenced. *)
Definition execute (worker : GatewayWorker) (command : text) (w : World) : option World :=
  b ← config_ worker;
  bl ← blocks w !! b;
  config ← object bl;
  a ← serialPort_ worker;
  _ ← ports w !! a;
  Some (send command
    (print (txt "[WORKER] gateway=" ++ gatewayName config ++ txt " baud=" ++ to_string (baudRate config)) w)).

(** [showConfig]: [lock] makes another owner for the time of the call. *)
Definition showConfig (weakConfig : option nat) (w : World) : option World :=
  match weakConfig with
  | None => Some (print (txt "[MONITOR] config expired") w)
  | Some b =>
      bl ← blocks w !! b;
      match object bl with
      | None => Some (print (txt "[MONITOR] config expired") w)
      | Some config =>
          let w := retain (Some b) w in
          let w := print (txt "[MONITOR] gateway=" ++ gatewayName config) w in
          Some (release (Some b) w)
      end
  end.

(** A statement; [None] for undefined behaviour and for a program that does not
    compile. *)
Definition step (s : Stmt) (w : World) : option World :=
  match s with
  | MakeShared x config =>
      match shared_vars w !! x with
      | Some _ => None
      | None =>
          Some (bump (with_shared (<[x := Some (fresh w)]> (shared_vars w))
                  (with_blocks (<[fresh w := mkBlock (Some config) 1]> (blocks w)) w)))
      end
  | MakeWeak v x =>
      match shared_vars w !! x, weak_vars w !! v with
      | Some p, None => Some (with_weak (<[v := p]> (weak_vars w)) w)
      | _, _ => None
      end
  | MakeUnique u device =>
      match unique_vars w !! u with
      | Some _ => None
      | None =>
          Some (bump (with_unique (<[u := Some (fresh w)]> (unique_vars w))
                  (construct_port (fresh w) device w)))
      end
  | NewWorker k u x =>
      match unique_vars w !! u, shared_vars w !! x, workers w !! k with
      | Some port, Some config, None =>
          let w := with_unique (<[u := None]> (unique_vars w)) w in
          let w := retain config w in
          Some (with_workers (<[k := mkWorker port config]> (workers w)) w)
      | _, _, _ => None
      end
  | PrintMoved u =>
      port ← unique_vars w !! u;
      Some (print (txt "[MAIN] serial moved=" ++ boolalpha (bool_decide (port = None))) w)
  | PrintCount x =>
      p ← shared_vars w !! x;
      let count := match p with
                   | Some b => default 0 (use_count <$> blocks w !! b)
                   | None => 0
                   end in
      Some (print (txt "[MAIN] config use_count=" ++ to_string count) w)
  | Execute k command => worker ← workers w !! k; execute worker command w
  | ShowConfig v => p ← weak_vars w !! v; showConfig p w
  | Reset x => p ← shared_vars w !! x; Some (release p (with_shared (<[x := None]> (shared_vars w)) w))
  | PrintLine line => Some (print line w)
  | EndShared x => p ← shared_vars w !! x; Some (release p (with_shared (delete x (shared_vars w)) w))
  | EndWeak v => _ ← weak_vars w !! v; Some (with_weak (delete v (weak_vars w)) w)
  | EndUnique u => p ← unique_vars w !! u; Some (delete_port p (with_unique (delete u (unique_vars w)) w))
  | EndWorker k =>
      worker ← workers w !! k;
      let w := with_workers (delete k (workers w)) w in
      Some (delete_port (serialPort_ worker) (release (config_ worker) w))
  end.

Fixpoint run (ss : list Stmt) (w : World) : option World :=
  match ss with
  | [] => Some w
  | s :: ss' => match step s w with Some w' => run ss' w' | None => None end
  end.

(** [main], and the end of its variables in reverse order. *)
Definition main_body : list Stmt :=
  [MakeShared "config" (mkConfig (txt "linux-iot-gateway") 115200);
   PrintCount "config";
   MakeWeak "weakConfig" "config";
   MakeUnique "serialPort" (txt "/dev/ttyUSB0");
   NewWorker "worker" "serialPort" "config";
   PrintMoved "serialPort";
   PrintCount "config";
   Execute "worker" (txt "HAND_GRAB");
   ShowConfig "weakConfig";
   Reset "config";
   PrintLine (txt "[MAIN] external config reset");
   ShowConfig "weakConfig"].

Definition main_exit : list Stmt :=
  [EndWorker "worker"; EndUnique "serialPort"; EndWeak "weakConfig"; EndShared "config"].

Example main_output :
  output <$> run (main_body ++ main_exit) empty_world
  = Some [txt "[MAIN] config use_count=1"; txt "[SERIAL] open /dev/ttyUSB0";
          txt "[MAIN] serial moved=true"; txt "[MAIN] config use_count=2";
          txt "[WORKER] gateway=linux-iot-gateway baud=115200"; txt "[SERIAL] send HAND_GRAB";
          txt "[MONITOR] gateway=linux-iot-gateway"; txt "[MAIN] external config reset";
          txt "[MONITOR] gateway=linux-iot-gateway"; txt "[SERIAL] close /dev/ttyUSB0"].
Proof. vm_compute. reflexivity. Qed.

(** All is released at the end. *)
Example main_releases :
  (fun w => (map_to_list (ports w), (fun b => (object b, use_count b)) <$> blocks w !! 0%nat))
    <$> run (main_body ++ main_exit) empty_world
  = Some ([], Some (None, 0)).
Proof. vm_compute. reflexivity. Qed.

(** ** Counting owners *)

(** How many entries of a map satisfy [P]. *)
Definition count {V} (P : V -> bool) (m : gmap string V) : nat :=
  size (filter (fun kv => P kv.2 = true) m).

Lemma count_empty {V} (P : V -> bool) : count P ∅ = 0%nat.
Proof. unfold count. by rewrite map_filter_empty, map_size_empty. Qed.

Lemma count_insert {V} (P : V -> bool) m k v :
  m !! k = None -> count P (<[k := v]> m) = ((if P v then 1 else 0) + count P m)%nat.
Proof.
  intros Hk. unfold count. destruct (P v) eqn:HP.
  - rewrite map_filter_insert_True by done. rewrite map_size_insert_None; [lia|].
    apply map_lookup_filter_None. by left.
  - rewrite map_filter_insert_False by (cbn; congruence). by rewrite delete_id.
Qed.

Lemma count_delete {V} (P : V -> bool) m k v :
  m !! k = Some v -> count P m = ((if P v then 1 else 0) + count P (delete k m))%nat.
Proof.
  intros Hk. rewrite <- (insert_delete_id m k v Hk) at 1. apply count_insert, lookup_delete_eq.
Qed.

Lemma count_update {V} (P : V -> bool) m k v v' :
  m !! k = Some v ->
  ((if P v then 1 else 0) + count P (<[k := v']> m) = (if P v' then 1 else 0) + count P m)%nat.
Proof.
  intros Hk. rewrite <- insert_delete_eq, count_insert by apply lookup_delete_eq.
  rewrite (count_delete P m k v Hk). lia.
Qed.

Definition is_at (a : nat) (p : option nat) : bool := bool_decide (p = Some a).

Lemma is_at_none a : is_at a None = false.
Proof. unfold is_at. by rewrite bool_decide_eq_false_2. Qed.

(** The owners of a block and of a port. *)
Definition owners (b : nat) (w : World) : nat :=
  (count (is_at b) (shared_vars w) + count (fun worker => is_at b (config_ worker)) (workers w))%nat.
Definition port_owners (a : nat) (w : World) : nat :=
  (count (is_at a) (unique_vars w) + count (fun worker => is_at a (serialPort_ worker)) (workers w))%nat.

(** ** Well-formed ownership *)

(** The use counts are those of [own], and an object lives as long as it has an
    owner; a port has exactly one owner while it lives. *)
Definition blocks_ok (own : nat -> nat) (m : gmap nat Block) : Prop :=
  forall b, match m !! b with
            | Some bl => use_count bl = Z.of_nat (own b) /\ (object bl = None <-> use_count bl = 0)
            | None => own b = 0%nat
            end.

Definition ports_ok (own : nat -> nat) (m : gmap nat text) : Prop :=
  forall a, own a = (if m !! a is Some _ then 1 else 0)%nat.

Record ownership_ok (w : World) : Prop := {
  own_blocks : blocks_ok (fun b => owners b w) (blocks w);
  own_ports : ports_ok (fun a => port_owners a w) (ports w);
  own_weak : forall v b, weak_vars w !! v = Some (Some b) -> is_Some (blocks w !! b);
  own_fresh : forall a, (fresh w <= a)%nat -> blocks w !! a = None /\ ports w !! a = None
}.

Lemma empty_ok : ownership_ok empty_world.
Proof.
  split; cbn.
  - intros b. rewrite lookup_empty. unfold owners. cbn. by rewrite !count_empty.
  - intros a. rewrite lookup_empty. unfold port_owners. cbn. by rewrite !count_empty.
  - intros v b Hv. by apply (lookup_empty_Some (M := gmap string)) in Hv.
  - intros a _. by rewrite !lookup_empty.
Qed.

(** Only the pointers count: printing changes nothing. *)
Lemma print_ok line w : ownership_ok w -> ownership_ok (print line w).
Proof. by intros []. Qed.

Definition one (a : nat) (p : option nat) : nat := if is_at a p then 1 else 0.

Lemma one_some a b : one a (Some b) = if decide (a = b) then 1%nat else 0%nat.
Proof.
  unfold one, is_at. destruct (decide (a = b)) as [->|Hne]; [by rewrite bool_decide_eq_true_2|].
  by rewrite bool_decide_eq_false_2 by congruence.
Qed.

Lemma retain_blocks own own' p w :
  blocks_ok own (blocks w) -> (forall b, p = Some b -> (0 < own b)%nat) ->
  (forall c, own' c = own c + one c p)%nat -> blocks_ok own' (blocks (retain p w)).
Proof.
  intros Hok Hpos Hown c. specialize (Hok c). destruct p as [b|]; cbn [retain blocks with_blocks].
  2:{ rewrite Hown. unfold one. cbn. by rewrite Nat.add_0_r. }
  rewrite Hown, one_some. destruct (decide (c = b)) as [->|Hne].
  - rewrite lookup_alter_eq. specialize (Hpos b eq_refl).
    destruct (blocks w !! b) as [bl|]; cbn; [|lia]. destruct Hok as [Hc Ho]. split; [lia|].
    rewrite Ho. lia.
  - rewrite lookup_alter_ne by done. by rewrite Nat.add_0_r.
Qed.

Lemma release_blocks own own' p w :
  blocks_ok own (blocks w) -> (forall c, own c = own' c + one c p)%nat ->
  blocks_ok own' (blocks (release p w)).
Proof.
  intros Hok Hown c. specialize (Hok c). destruct p as [b|]; cbn [release blocks with_blocks].
  2:{ rewrite Hown in Hok. unfold one in Hok. cbn in Hok. by rewrite Nat.add_0_r in Hok. }
  rewrite Hown, one_some in Hok. destruct (decide (c = b)) as [->|Hne].
  - rewrite lookup_alter_eq. destruct (blocks w !! b) as [bl|]; cbn; [|lia].
    destruct Hok as [Hc Ho]. split; [lia|]. destruct (Z.eqb_spec (use_count bl - 1) 0); [done|].
    rewrite Ho. lia.
  - rewrite lookup_alter_ne by done. by rewrite Nat.add_0_r in Hok.
Qed.

Lemma delete_ports own own' p w :
  ports_ok own (ports w) -> (forall c, own c = own' c + one c p)%nat ->
  ports_ok own' (ports (delete_port p w)).
Proof.
  intros Hok Hown c. pose proof (Hok c) as Hc. destruct p as [a|]; cbn [delete_port].
  2:{ rewrite Hown in Hc. unfold one in Hc. cbn in Hc. by rewrite Nat.add_0_r in Hc. }
  pose proof (Hok a) as Ha. rewrite Hown, one_some in Hc, Ha. rewrite decide_True in Ha by done.
  destruct (ports w !! a) as [device|] eqn:Hp; [|lia]. cbn [ports print with_ports].
  destruct (decide (c = a)) as [->|Hne].
  - rewrite lookup_delete_eq. lia.
  - rewrite lookup_delete_ne by done. by rewrite Nat.add_0_r in Hc.
Qed.

(** The parts of the world that the pointer operations leave alone. *)
Lemma retain_frame p w :
  let w' := retain p w in
  ports w' = ports w /\ fresh w' = fresh w /\ shared_vars w' = shared_vars w
  /\ unique_vars w' = unique_vars w /\ weak_vars w' = weak_vars w /\ workers w' = workers w
  /\ forall b, is_Some (blocks w' !! b) <-> is_Some (blocks w !! b).
Proof.
  destruct p as [a|]; [|done]. split_and!; try done. intros b. cbn.
  by rewrite lookup_alter_is_Some.
Qed.

Lemma release_frame p w :
  let w' := release p w in
  ports w' = ports w /\ fresh w' = fresh w /\ shared_vars w' = shared_vars w
  /\ unique_vars w' = unique_vars w /\ weak_vars w' = weak_vars w /\ workers w' = workers w
  /\ forall b, is_Some (blocks w' !! b) <-> is_Some (blocks w !! b).
Proof.
  destruct p as [a|]; [|done]. split_and!; try done. intros b. cbn.
  by rewrite lookup_alter_is_Some.
Qed.

Lemma delete_port_frame p w :
  let w' := delete_port p w in
  blocks w' = blocks w /\ fresh w' = fresh w /\ shared_vars w' = shared_vars w
  /\ unique_vars w' = unique_vars w /\ weak_vars w' = weak_vars w /\ workers w' = workers w
  /\ forall a, ports w !! a = None -> ports w' !! a = None.
Proof.
  destruct p as [a|]; cbn; [|done]. destruct (ports w !! a); [|done]. split_and!; try done.
  intros b Hb. cbn. by rewrite lookup_delete_None; right.
Qed.

(** ** The statements keep ownership well formed *)

Lemma make_shared_ok x config w w' :
  step (MakeShared x config) w = Some w' -> ownership_ok w -> ownership_ok w'.
Proof.
  cbn. destruct (shared_vars w !! x) eqn:Hx; [done|]. intros [= <-] [Hb Hp Hw Hf].
  destruct (Hf (fresh w) ltac:(lia)) as [Hnb _].
  assert (forall c, owners c w = 0%nat \/ c <> fresh w) as Hc.
  { intros c. destruct (decide (c = fresh w)) as [->|]; [left|by right].
    specialize (Hb (fresh w)). by rewrite Hnb in Hb. }
  split; cbn.
  - intros c. unfold owners. cbn. rewrite count_insert by done.
    change (if is_at c (Some (fresh w)) then 1%nat else 0%nat) with (one c (Some (fresh w))). rewrite one_some.
    destruct (decide (c = fresh w)) as [->|Hne].
    + rewrite lookup_insert_eq. cbn. destruct (Hc (fresh w)) as [H0|]; [|done]. unfold owners in H0.
      split; [lia|done].
    + rewrite lookup_insert_ne by done. apply Hb.
  - apply Hp.
  - intros v b Hv. apply lookup_insert_is_Some'. right. by apply (Hw v).
  - intros a Ha. rewrite lookup_insert_ne by lia. apply Hf. lia.
Qed.

Lemma make_unique_ok u device w w' :
  step (MakeUnique u device) w = Some w' -> ownership_ok w -> ownership_ok w'.
Proof.
  cbn. destruct (unique_vars w !! u) eqn:Hu; [done|]. intros [= <-] [Hb Hp Hw Hf].
  destruct (Hf (fresh w) ltac:(lia)) as [_ Hnp].
  split; cbn; [apply Hb| |apply Hw|].
  - intros c. unfold port_owners. cbn. rewrite count_insert by done.
    change (if is_at c (Some (fresh w)) then 1%nat else 0%nat) with (one c (Some (fresh w))). rewrite one_some.
    pose proof (Hp c) as Hc. unfold port_owners in Hc. destruct (decide (c = fresh w)) as [->|Hne].
    + rewrite lookup_insert_eq. rewrite Hnp in Hc. lia.
    + rewrite lookup_insert_ne by done. lia.
  - intros a Ha. rewrite lookup_insert_ne by lia. apply Hf. lia.
Qed.

Lemma new_worker_ok k u x w w' :
  step (NewWorker k u x) w = Some w' -> ownership_ok w -> ownership_ok w'.
Proof.
  cbn. destruct (unique_vars w !! u) as [port|] eqn:Hu; [|done].
  destruct (shared_vars w !! x) as [config|] eqn:Hx; [|done].
  destruct (workers w !! k) eqn:Hk; [done|]. intros [= <-] [Hb Hp Hw Hf].
  set (w1 := with_unique (<[u:=None]> (unique_vars w)) w).
  destruct (retain_frame config w1) as (Fp & Ff & Fs & Fu & Fw & Fk & Fd).
  split; cbn.
  - apply (retain_blocks (fun b => owners b w)); [apply Hb| |].
    + intros b ->. unfold owners. rewrite (count_delete _ _ _ _ Hx).
      change (if is_at b (Some b) then 1%nat else 0%nat) with (one b (Some b)).
      rewrite one_some, decide_True by done. lia.
    + intros c. unfold owners. cbn. rewrite Fs, Fk. cbn. rewrite count_insert by done. cbn.
      unfold one. lia.
  - rewrite Fp. intros c. change (ports w1) with (ports w). specialize (Hp c). rewrite <- Hp.
    unfold port_owners. cbn. rewrite Fu, Fk. cbn.
    rewrite (count_insert _ (workers w) k) by done. cbn. pose proof (count_update (is_at c) _ u port None Hu) as H.
    rewrite is_at_none in H. lia.
  - intros v b Hv. apply Fd. rewrite Fw in Hv. by apply (Hw v).
  - intros a Ha. rewrite Ff in Ha. rewrite Fp. destruct (Hf a Ha) as [Hnb Hnp]. split; [|done].
    destruct (blocks (retain config w1) !! a) eqn:E; [|done].
    assert (is_Some (blocks w1 !! a)) as [bl Hbl] by (apply Fd; by eexists). cbn in Hbl. congruence.
Qed.

(** A shared pointer goes away: by [reset], or at the end of its scope. *)
Lemma drop_shared_ok (m : gmap string (option nat)) p w :
  (forall c, count (is_at c) (shared_vars w) = count (is_at c) m + one c p)%nat ->
  ownership_ok w -> ownership_ok (release p (with_shared m w)).
Proof.
  intros Hm [Hb Hp Hw Hf]. destruct (release_frame p (with_shared m w)) as (Fp & Ff & Fs & Fu & Fw & Fk & Fd).
  split.
  - apply (release_blocks (fun b => owners b w)); [apply Hb|].
    intros c. unfold owners. rewrite Fs, Fk. cbn. rewrite Hm. lia.
  - rewrite Fp. intros c. unfold port_owners. rewrite Fu, Fk. apply Hp.
  - intros v b Hv. apply Fd. rewrite Fw in Hv. by apply (Hw v).
  - intros a Ha. rewrite Ff in Ha. rewrite Fp. destruct (Hf a Ha) as [Hnb Hnp]. split; [|done].
    destruct (blocks (release p (with_shared m w)) !! a) eqn:E; [|done].
    assert (is_Some (blocks (with_shared m w) !! a)) as [bl Hbl] by (apply Fd; by eexists).
    cbn in Hbl. congruence.
Qed.

Lemma end_unique_ok u p w :
  unique_vars w !! u = Some p -> ownership_ok w ->
  ownership_ok (delete_port p (with_unique (delete u (unique_vars w)) w)).
Proof.
  intros Hu [Hb Hp Hw Hf].
  destruct (delete_port_frame p (with_unique (delete u (unique_vars w)) w)) as (Fb & Ff & Fs & Fu & Fw & Fk & Fd).
  split.
  - rewrite Fb. intros c. unfold owners. rewrite Fs, Fk. apply Hb.
  - apply (delete_ports (fun a => port_owners a w)); [apply Hp|].
    intros c. unfold port_owners. rewrite Fu, Fk. cbn. rewrite (count_delete _ _ _ _ Hu). unfold one. lia.
  - intros v b Hv. rewrite Fw in Hv. rewrite Fb. by apply (Hw v).
  - intros a Ha. rewrite Ff in Ha. rewrite Fb. destruct (Hf a Ha). by split; [|apply Fd].
Qed.

Lemma end_worker_ok k worker w :
  workers w !! k = Some worker -> ownership_ok w ->
  ownership_ok (delete_port (serialPort_ worker)
                  (release (config_ worker) (with_workers (delete k (workers w)) w))).
Proof.
  intros Hk [Hb Hp Hw Hf]. set (w1 := with_workers (delete k (workers w)) w).
  destruct (release_frame (config_ worker) w1) as (Fp & Ff & Fs & Fu & Fw & Fk & Fd).
  set (w2 := release (config_ worker) w1) in *.
  destruct (delete_port_frame (serialPort_ worker) w2) as (Gb & Gf & Gs & Gu & Gw & Gk & Gd).
  split.
  - rewrite Gb. apply (release_blocks (fun b => owners b w)); [apply Hb|].
    intros c. unfold owners. rewrite Gs, Gk, Fs, Fk. cbn. rewrite (count_delete _ _ _ _ Hk). unfold one. lia.
  - apply (delete_ports (fun a => port_owners a w)).
    + rewrite Fp. apply Hp.
    + intros c. unfold port_owners. rewrite Gu, Gk, Fu, Fk. cbn. rewrite (count_delete _ _ _ _ Hk).
      unfold one. lia.
  - intros v b Hv. rewrite Gw, Fw in Hv. rewrite Gb. apply Fd. by apply (Hw v).
  - intros a Ha. rewrite Gf, Ff in Ha. destruct (Hf a Ha) as [Hnb Hnp]. split.
    + rewrite Gb. destruct (blocks w2 !! a) eqn:E; [|done].
      assert (is_Some (blocks w1 !! a)) as [bl Hbl] by (apply Fd; by eexists). cbn in Hbl. congruence.
    + apply Gd. rewrite Fp. done.
Qed.

(** [showConfig] gives back the share it takes. *)
Lemma showConfig_ok p w w' : showConfig p w = Some w' -> ownership_ok w -> ownership_ok w'.
Proof.
  unfold showConfig. destruct p as [b|]; [|intros [= <-]; apply print_ok]. destruct (blocks w !! b) as [bl|] eqn:Hbl; [|done]. cbn.
  destruct (object bl) as [config|] eqn:Hobj; intros [= <-] Hok; [|by apply print_ok].
  apply print_ok with (line := txt "[MONITOR] gateway=" ++ gatewayName config) in Hok as Hok'.
  destruct Hok' as [Hb Hp Hw Hf].
  assert (alter (fun bl => mkBlock (if use_count bl - 1 =? 0 then None else object bl) (use_count bl - 1)) b
            (alter (fun bl => mkBlock (object bl) (use_count bl + 1)) b (blocks w)) = blocks w) as Heq.
  { apply map_eq. intros c. destruct (decide (c = b)) as [->|Hne]; [|by rewrite !lookup_alter_ne].
    rewrite !lookup_alter_eq, Hbl. cbn. f_equal.
    pose proof (own_blocks w Hok b) as Hob. rewrite Hbl in Hob. destruct Hob as [_ Ho].
    destruct bl as [o n]. cbn in *. replace (n + 1 - 1) with n by lia.
    destruct (Z.eqb_spec n 0) as [Hz|]; [|done]. apply Ho in Hz. congruence. }
  split; cbn; rewrite Heq; done.
Qed.

(** Every statement keeps ownership well formed: the use count of each block is
    the number of pointers to it, its object is alive exactly while there is one,
    and each live port has exactly one owner. *)
Lemma ownership_preserved s w w' :
  step s w = Some w' -> ownership_ok w -> ownership_ok w'.
Proof.
  destruct s as [x config|v x|u device|k u x|u|x|k command|v|x|line|x|v|u|k].
  - apply make_shared_ok.
  - cbn. destruct (shared_vars w !! x) as [p|] eqn:Hx; [|done].
    destruct (weak_vars w !! v) eqn:Hv; [done|]. intros [= <-] Hok. pose proof Hok as [Hb Hp Hw Hf].
    split; [done|done| |done]. cbn. intros v' b' [[_ ->]|[_ Hv']]%lookup_insert_Some; [|by apply (Hw v')].
    specialize (Hb b'). destruct (blocks w !! b'); [by eexists|].
    unfold owners in Hb. rewrite (count_delete _ _ _ _ Hx) in Hb. unfold is_at in Hb.
    rewrite bool_decide_eq_true_2 in Hb by done. lia.
  - apply make_unique_ok.
  - apply new_worker_ok.
  - cbn. destruct (unique_vars w !! u); [|done]. intros [= <-]. apply print_ok.
  - cbn. destruct (shared_vars w !! x); [|done]. intros [= <-]. apply print_ok.
  - cbn. destruct (workers w !! k) as [worker|]; [|done]. cbn. unfold execute.
    destruct (config_ worker) as [b|]; [|done]. cbn. destruct (blocks w !! b) as [bl|]; [|done]. cbn.
    destruct (object bl); [|done]. cbn. destruct (serialPort_ worker) as [a|]; [|done]. cbn.
    destruct (ports w !! a); [|done]. intros [= <-] Hok. by apply print_ok, print_ok.
  - cbn. destruct (weak_vars w !! v) as [b|]; [|done]. apply showConfig_ok.
  - cbn. destruct (shared_vars w !! x) as [p|] eqn:Hx; [|done]. intros [= <-]. apply drop_shared_ok.
    intros c. pose proof (count_update (is_at c) _ x p None Hx) as H.
    rewrite is_at_none in H. unfold one. lia.
  - intros [= <-]. apply print_ok.
  - cbn. destruct (shared_vars w !! x) as [p|] eqn:Hx; [|done]. intros [= <-]. apply drop_shared_ok.
    intros c. rewrite (count_delete _ _ _ _ Hx). unfold one. lia.
  - cbn. destruct (weak_vars w !! v) eqn:Hv; [|done]. intros [= <-] [Hb Hp Hw Hf].
    split; [done|done| |done]. cbn. intros v' b' [_ Hv']%lookup_delete_Some. by apply (Hw v').
  - cbn. destruct (unique_vars w !! u) as [p|] eqn:Hu; [|done]. intros [= <-]. by apply end_unique_ok.
  - cbn. destruct (workers w !! k) as [worker|] eqn:Hk; [|done]. intros [= <-]. by apply end_worker_ok.
Qed.

(** The owners a weak pointer can see. *)
Definition weak_owners (p : option nat) (w : World) : nat :=
  match p with Some b => owners b w | None => 0%nat end.

Lemma run_ownership ss w w' : run ss w = Some w' -> ownership_ok w -> ownership_ok w'.
Proof.
  revert w. induction ss as [|s ss IH]; intros w; cbn [run]; [by intros [= <-]|].
  destruct (step s w) as [w1|] eqn:Hs; [|done]. intros Hr Hok. apply (IH w1 Hr).
  by eapply ownership_preserved.
Qed.

(** C40: any sequence of statements keeps ownership well formed (the use count of each shared object
    is the number of pointers to it, it is destroyed exactly when there is none left, each live
    port has exactly one owner), and then [showConfig] on a declared weak pointer is always
    defined and prints the configuration if some owner is left, or that it has expired. *)
Theorem smart_pointers_sound ss w v p :
  run ss empty_world = Some w -> weak_vars w !! v = Some p ->
  ownership_ok w
  /\ exists w', step (ShowConfig v) w = Some w'
     /\ if decide (weak_owners p w = 0%nat)
        then output w' = output w ++ [txt "[MONITOR] config expired"]
        else exists config, object <$> (p ≫= fun b => blocks w !! b) = Some (Some config)
             /\ output w' = output w ++ [txt "[MONITOR] gateway=" ++ gatewayName config].
Proof.
  intros Hrun Hv. pose proof (run_ownership ss _ w Hrun empty_ok) as Hok.
  split; [done|]. cbn. rewrite Hv. cbn. unfold showConfig, weak_owners.
  destruct p as [b|]; [|eexists; split; [done|]; by rewrite decide_True].
  destruct (own_weak w Hok v b Hv) as [bl Hbl].
  pose proof (own_blocks w Hok b) as Hob. cbn. rewrite Hbl in Hob |- *. destruct Hob as [Hc Ho]. cbn.
  destruct (object bl) as [config|] eqn:Hobj.
  - eexists. split; [done|]. rewrite decide_False by (intros H0; rewrite H0 in Hc; by apply Ho in Hc).
    by exists config.
  - eexists. split; [done|]. rewrite decide_True; [done|]. destruct Ho as [Ho _]. specialize (Ho eq_refl). lia.
Qed.

Lemma smart_pointers_sound_witness :
  match run main_body empty_world with
  | Some w => exists w', step (ShowConfig "weakConfig") w = Some w'
  | None => False
  end.
Proof.
  destruct (run main_body empty_world) as [w|] eqn:E; [|vm_compute in E; discriminate E].
  destruct (smart_pointers_sound main_body w "weakConfig" (Some 0%nat) E) as (_ & w' & Hw & _).
  - vm_compute in E. injection E as <-. reflexivity.
  - exists w'. exact Hw.
Defined.
