(* ===== verification/ProgramMains.v ===== *)
(** * The main functions of the programs with threads, descriptors and buffers

    What [main] does around the components: it sets up the logger, starts and
    joins the threads, and prints the results.  Models the [main] of
    [gateway_ack_demo], [gateway_pipeline_demo], [gateway_timeout_demo],
    [producer_consumer_demo], [thread_demo], [move_semantics_demo], the two
    programs of day 28 and [scoped_fd.cpp].  The code that runs in the threads is
    modelled in the components; a theorem about a program holds for every
    complete run of its threads. *)

From Stdlib Require Import Ascii String.
From S2P Require Import Prelude.
From S2P Require Import CText.
From S2P Require Import SensorParser.
From S2P Require Import ProtocolParser.
From S2P Require Import LogManager.
From S2P Require Import RawResources.
From S2P Require Import AtomicHandoff.
From S2P Require Import GatewayTimeout.
From S2P Require Import WorkQueue.
From S2P Require Import QueueClients.
From S2P Require Import GatewayPipeline.
From S2P Require Import DemoPrograms.

(** ** The three gateways *)

(** The logger of the three programs, and the test that it could be opened:
    [body] is what [main] does after it. *)
Definition start_logger (path : text) (opened : bool) : Logger :=
  setMaxCachedLogs 50 (setAutoFlush true (setConsoleEnabled true (construct_logger path opened))).

Definition with_logger (path : text) (opened : bool) (body : list text) : Z * list text :=
  if negb (isFileOpen (start_logger path opened))
  then (1, [txt "[ERROR] Logger initialization failed"])
  else (0, body).

Lemma with_logger_opened path opened body :
  with_logger path opened body
  = if opened then (0, body) else (1, [txt "[ERROR] Logger initialization failed"]).
Proof. by destruct opened. Qed.

(** A line that shows a counter. *)
Definition result_line (name : string) (value : Z) : text :=
  txt "[RESULT] " ++ txt name ++ txt "=" ++ to_string value.

Module AckProgram.
(** The exit code and the lines of [main], the threads having had the effects
    [trace]. *)
Definition main (opened : bool) (trace : list Effect) : Z * list text :=
  let stats := AckDemo.stats trace in
  with_logger (txt "gateway_ack_demo.log") opened
    [txt "[MAIN] start gateway ACK demo";
     result_line "received" (AckDemo.received stats);
     result_line "accepted" (AckDemo.accepted stats);
     result_line "rejected" (AckDemo.rejected stats);
     result_line "responses" (AckDemo.ackCount stats);
     txt "[MAIN] all worker threads joined"].
End AckProgram.

(** Every complete run ends with the same totals. *)
Lemma ack_program_results evs p :
  pipe_run evs (initial_pipe (AckDemo.inputProducer AckDemo.testInputs)) = Some p -> pipe_done p ->
  AckProgram.main true (trace p)
  = (0, [txt "[MAIN] start gateway ACK demo"; txt "[RESULT] received=5"; txt "[RESULT] accepted=4";
         txt "[RESULT] rejected=1"; txt "[RESULT] responses=5"; txt "[MAIN] all worker threads joined"]).
Proof.
  intros Hr Hd. unfold AckProgram.main. rewrite with_logger_opened, ack_stats.
  rewrite !(ack_observed _ (fun _ => 0%nat) _ evs p Hr Hd) by done. reflexivity.
Qed.

Module PipelineMain.
Definition main (opened : bool) (trace : list Effect) : Z * list text :=
  with_logger (txt "gateway_pipeline_demo.log") opened
    (txt "[MAIN] start gateway pipeline demo" :: PipelineProgram.results trace).
End PipelineMain.

Module TimeoutProgram.
Definition main (opened : bool) (stats : RetryStats) : Z * list text :=
  with_logger (txt "gateway_timeout_demo.log") opened
    (txt "[MAIN] start timeout retry demo" :: result_lines stats).
End TimeoutProgram.

(** Every complete run decides the four valid commands and shows consistent
    totals: [a] commands were acknowledged, [r] frames sent again. *)
Lemma timeout_program_results es s :
  sys_run es (start_system commands) = Some s -> sys_done s ->
  exists a r,
    0 <= a <= 4 /\ 4 - a <= r <= 4
    /\ TimeoutProgram.main true (stats s)
       = (0, [txt "[MAIN] start timeout retry demo"; result_line "sent_frames" (4 + r);
              result_line "acked" a; result_line "timeouts" (r + (4 - a)); result_line "retries" r;
              result_line "failed" (4 - a)]).
Proof.
  intros Hr (Hs & _ & _). destruct (sys_run_inv commands es _ s (start_inv commands) eq_refl Hr)
    as [Hseqs Ha Hf Hsent Ht Hret _ _ _ _ _ _ _ _ _ _].
  rewrite Hs in *. cbn [open_seqs in_flight retried] in *. rewrite app_nil_r in Hseqs.
  assert (acked (stats s) + failed (stats s) = 4) as Htot.
  { rewrite Ha, Hf, count_outcome_total, <- (length_fmap fst), Hseqs. vm_compute. reflexivity. }
  assert (0 <= acked (stats s)) by (rewrite Ha; unfold count_outcome; lia).
  assert (0 <= failed (stats s)) by (rewrite Hf; unfold count_outcome; lia).
  exists (acked (stats s)), (retries (stats s)). split_and!; [lia..|].
  unfold TimeoutProgram.main, result_lines. rewrite with_logger_opened, Hsent, Ht.
  replace (failed (stats s)) with (4 - acked (stats s)) by lia.
  by replace (acked (stats s) + (4 - acked (stats s)) + retries (stats s) + 0)
    with (4 + retries (stats s)) by lia.
Qed.

(** ** The queues *)

Module SensorProgram.
(** All that the program prints: only the processing thread prints between the
    first line and the last two. *)
Definition main (effects : list Sensor.SensorSample) : list text :=
  let '(processedCount, out) := Sensor.processed effects in
  txt "[MAIN] start producer_consumer demo" :: out
  ++ [result_line "processed_count" processedCount; txt "[MAIN] all worker threads joined"].
End SensorProgram.

Lemma sensor_program_output evs p :
  pipe_run evs (initial_pipe Sensor.collectTask) = Some p -> pipe_done p ->
  SensorProgram.main (WorkQueue.trace p)
  = [txt "[MAIN] start producer_consumer demo";
     txt "[PROCESS]sequence=1temperature=21humidity=51processed_count=1";
     txt "[PROCESS]sequence=2temperature=22humidity=52processed_count=2";
     txt "[PROCESS]sequence=3temperature=23humidity=53processed_count=3";
     txt "[PROCESS]sequence=4temperature=24humidity=54processed_count=4";
     txt "[PROCESS]sequence=5temperature=25humidity=55processed_count=5";
     txt "[RESULT] processed_count=5"; txt "[MAIN] all worker threads joined"].
Proof.
  intros Hr Hd. unfold SensorProgram.main. rewrite (sensor_result evs p Hr Hd).
  vm_compute. reflexivity.
Qed.

Module Day28Programs.
(** The table of [day28_protocol_parser.cpp]. *)
Definition testInputs : list text :=
  [txt "OPEN"; txt " grab "; "009"%char :: txt "STOP" ++ [CR; LF]; txt "release"; txt "JUMP"; txt "   "].

Definition parser_line (input : text) : text :=
  let command := Day28.parseCommand input in
  txt "raw=" ++ quoted input ++ txt " -> command=" ++ Day28.commandToString command
  ++ txt " -> executor=" ++ Day28.toExecutorCommand command.

Definition parser_main : list text := parser_line <$> testInputs.

(** [day28_producer_consumer.cpp], after the lines of the two threads. *)
Definition queue_main (threads : list text) : list text :=
  threads ++ [txt "[MAIN] all threads finished"].
End Day28Programs.

Example day28_commands :
  Day28.parseCommand <$> Day28Programs.testInputs = [Open; Grab; Stop; Release; Unknown; Unknown].
Proof. vm_compute. reflexivity. Qed.

(** ** The atomic hand-over *)

Module ThreadProgram.
(** What [processTask] prints for the samples it loads. *)
Definition process_line (thread_id : text) (processedCount : nat) (sample : Z) : text :=
  txt "[PROCESS]thread=" ++ thread_id ++ txt "sample=" ++ to_string sample
  ++ txt "processed_count=" ++ to_string (Z.of_nat (S processedCount)).

Definition processor_output (thread_id : text) (samples : list Z) : list text :=
  imap (process_line thread_id) samples
  ++ [txt "[PROCESS]finished,total=" ++ to_string (Z.of_nat (length samples))].

(** What the program prints: the lines of [main] about its threads may fall
    between those of the processing thread. *)
Definition main (main_id collector_id processor_id : text) (samples : list Z) (out : list text) : Prop :=
  exists middle,
    interleave
      [txt "[MIAN] collector thread=" ++ collector_id; txt "[MIAN] processor thread=" ++ processor_id]
      (processor_output processor_id samples) middle
    /\ out = (txt "[MAIN] thread=" ++ main_id) :: middle ++ [txt "[MAIN] all worker threads joined"].
End ThreadProgram.

(** Every complete run prints ten lines, and a total of five. *)
Lemma thread_program_output ts s main_id collector_id processor_id out :
  handoff_run ts start_handoff = Some s -> process s = PDone ->
  ThreadProgram.main main_id collector_id processor_id (printed s) out ->
  length out = 10%nat /\ txt "[PROCESS]finished,total=5" ∈ out.
Proof.
  intros Hr Hd (middle & Hm & ->). destruct (handoff_counts_all ts s Hr Hd) as (Hlen & _ & _).
  change kTotalSamples with 5 in Hlen. apply interleave_perm in Hm. split.
  - cbn [length]. rewrite length_app, Hm, length_app. unfold ThreadProgram.processor_output.
    rewrite length_app, length_imap. cbn. lia.
  - right. apply elem_of_app. left. rewrite Hm. apply elem_of_app. right.
    unfold ThreadProgram.processor_output. rewrite Hlen. apply elem_of_app. right. by left.
Qed.

(** ** The descriptor and the buffers *)

Module ScopedFdProgram.
(** The bytes written to a descriptor. *)
Definition message : text := txt "hello Scoped" ++ [LF].

(** The exit code and the [write]s; [fd] is what [open] returned.  [None] is a
    bad [close]. *)
Definition main (fd : Z) (s : ScopedFd.Fds) : option (Z * list (Z * text) * ScopedFd.Fds) :=
  if fd <? 0 then Some (1, [], s)
  else
    s ← ScopedFd.step (ScopedFd.Construct "file" fd) s;
    let out := [(ScopedFd.get "file" s, message)] in
    s ← ScopedFd.step (ScopedFd.Destroy "file") s;
    Some (0, out, s).
End ScopedFdProgram.

(** The descriptor is used while it is open, and closed when [main] returns. *)
Lemma scoped_fd_main fd s :
  fd ∉ ScopedFd.open_fds s -> ScopedFd.fd_ s !! "file" = None ->
  ScopedFdProgram.main fd s
  = Some (if fd <? 0 then (1, [], s) else (0, [(fd, ScopedFdProgram.message)], s)).
Proof.
  intros Hfd Hfile. unfold ScopedFdProgram.main. destruct (Z.ltb_spec fd 0); [done|].
  destruct s as [fds vars]. cbn in Hfd, Hfile. cbn. rewrite (proj2 (Z.leb_le 0 fd)) by done.
  unfold ScopedFd.get. cbn. rewrite lookup_insert_eq. cbn. rewrite (proj2 (Z.leb_le 0 fd)) by done.
  unfold ScopedFd.close. rewrite decide_True by set_solver. cbn.
  rewrite delete_insert_id by done. repeat f_equal. set_solver.
Qed.

Module BufferProgram.
Definition size (x : name) (m : Buffer.Memory) : nat := Buffer.size_ (Buffer.object x m).
Definition empty (x : name) (m : Buffer.Memory) : bool := (size x m =? 0)%nat.

Definition size_line (x : name) (m : Buffer.Memory) : text :=
  txt x ++ txt " size=" ++ to_string (Z.of_nat (size x m)).
Definition empty_line (x : name) (m : Buffer.Memory) : text :=
  txt x ++ txt " empty=" ++ boolalpha (empty x m).

(** The lines printed between the calls of [main]; [None] is undefined
    behaviour. *)
Definition main : option (list text) :=
  m1 ← Buffer.run (take 2 Buffer.main_calls) (Buffer.mkMemory ∅ ∅);
  m2 ← Buffer.run (take 1 (drop 2 Buffer.main_calls)) m1;
  m3 ← Buffer.run (drop 3 Buffer.main_calls) m2;
  Some [txt "===== COPY ====="; size_line "buffer1" m1; size_line "buffer2" m1;
        []; txt "===== MOVE ====="; empty_line "buffer1" m2; size_line "buffer3" m2;
        []; txt "===== ASSIGNMENT ====="; empty_line "buffer2" m3; size_line "buffer4" m3].
End BufferProgram.

Example buffer_output :
  BufferProgram.main
  = Some [txt "===== COPY ====="; txt "buffer1 size=1024"; txt "buffer2 size=1024";
          []; txt "===== MOVE ====="; txt "buffer1 empty=true"; txt "buffer3 size=1024";
          []; txt "===== ASSIGNMENT ====="; txt "buffer2 empty=true"; txt "buffer4 size=1024"].
Proof. vm_compute. reflexivity. Qed.
